(** * Detection and quarantine engine: a shallow embedding

    The development follows the JavaScript sources of the scanner
    (FileScanner, SignatureDetector, HeuristicAnalyzer, HashGenerator),
    of the quarantine vault (QuarantineManager) and of the history store
    (ThreatDatabase).  Node's built-in services (crypto, fs, path, RegExp,
    Date) are modelled from their published behaviour; everything else is
    transcribed from the repository's code. *)

From Stdlib Require Import ZArith Strings.Byte Ascii String List Lia Bool Btauto.
From Stdlib Require Import DecimalString DecimalPos DecimalZ Sorted Permutation.
From stdpp Require Import gmap strings list fin_maps.
Import ListNotations.
Local Open Scope string_scope.
Local Open Scope Z_scope.

(** ** Bytes, buffers and hexadecimal text *)

Module Bytes.

Definition to_Z (b : byte) : Z := Z.of_N (Byte.to_N b).

Definition of_Z (z : Z) : byte :=
  match Byte.of_N (Z.to_N (z mod 256)) with
  | Some b => b
  | None => x00
  end.

Definition hex_digit (d : Z) : ascii :=
  if d <? 10 then ascii_of_N (Z.to_N (48 + d))
  else ascii_of_N (Z.to_N (87 + d)).

(** [buf.toString('hex')] : two lower-case digits per byte. *)
Fixpoint hex (bs : list Z) : string :=
  match bs with
  | [] => EmptyString
  | b :: r => String (hex_digit (b / 16)) (String (hex_digit (b mod 16)) (hex r))
  end.

(** [Buffer.from(str)] for text in the ASCII range, and
    [buf.toString('binary')]: one character per byte, same code. *)
Definition of_string (s : string) : list byte := list_byte_of_string s.
Definition to_binary_string (bs : list byte) : string := string_of_list_byte bs.

Definition xor (a b : byte) : byte := of_Z (Z.lxor (to_Z a) (to_Z b)).

(** Splits a buffer into consecutive blocks of [n] bytes; [k] bounds the
    number of blocks. *)
Fixpoint blocks {A} (n : nat) (k : nat) (l : list A) : list (list A) :=
  match k with
  | O => []
  | S k' => firstn n l :: blocks n k' (skipn n l)
  end.

End Bytes.

(** ** Content digests ([crypto.createHash]) *)

Module Digest.

Definition mask32 : Z := 4294967295.
Definition add32 (x y : Z) : Z := Z.land (x + y) mask32.
Definition rotl32 (x n : Z) : Z :=
  Z.land (Z.lor (Z.shiftl x n) (Z.shiftr x (32 - n))) mask32.
Definition rotr32 (x n : Z) : Z := rotl32 x (32 - n).
Definition not32 (x : Z) : Z := Z.lxor x mask32.

Definition le_bytes (n : nat) (x : Z) : list Z :=
  map (fun i => Z.land (Z.shiftr x (8 * Z.of_nat i)) 255) (seq 0 n).
Definition be_bytes (n : nat) (x : Z) : list Z := rev (le_bytes n x).
Definition le_word (bs : list Z) : Z :=
  fold_right (fun b acc => b + 256 * acc) 0 bs.
Definition be_word (bs : list Z) : Z := le_word (rev bs).

Definition zeros (n : Z) : list Z := repeat 0 (Z.to_nat n).

(** Merkle-Damgard padding: 0x80, zeros up to 56 mod 64, then the bit
    length on eight bytes. *)
Definition pad (len_bytes : nat -> Z -> list Z) (msg : list Z) : list Z :=
  let n := Z.of_nat (length msg) in
  msg ++ [128] ++ zeros ((55 - n) mod 64) ++ len_bytes 8%nat (8 * n).

Definition words (dec : list Z -> Z) (block : list Z) : list Z :=
  map dec (Bytes.blocks 4 16 block).

Definition nthZ (l : list Z) (i : Z) : Z := nth (Z.to_nat i) l 0.

(** *** MD5 *)

Definition md5_K : list Z :=
  [3614090360; 3905402710; 606105819; 3250441966; 4118548399; 1200080426;
   2821735955; 4249261313; 1770035416; 2336552879; 4294925233; 2304563134;
   1804603682; 4254626195; 2792965006; 1236535329; 4129170786; 3225465664;
   643717713; 3921069994; 3593408605; 38016083; 3634488961; 3889429448;
   568446438; 3275163606; 4107603335; 1163531501; 2850285829; 4243563512;
   1735328473; 2368359562; 4294588738; 2272392833; 1839030562; 4259657740;
   2763975236; 1272893353; 4139469664; 3200236656; 681279174; 3936430074;
   3572445317; 76029189; 3654602809; 3873151461; 530742520; 3299628645;
   4096336452; 1126891415; 2878612391; 4237533241; 1700485571; 2399980690;
   4293915773; 2240044497; 1873313359; 4264355552; 2734768916; 1309151649;
   4149444226; 3174756917; 718787259; 3951481745].

Definition md5_S : list Z :=
  [7; 12; 17; 22; 7; 12; 17; 22; 7; 12; 17; 22; 7; 12; 17; 22;
   5; 9; 14; 20; 5; 9; 14; 20; 5; 9; 14; 20; 5; 9; 14; 20;
   4; 11; 16; 23; 4; 11; 16; 23; 4; 11; 16; 23; 4; 11; 16; 23;
   6; 10; 15; 21; 6; 10; 15; 21; 6; 10; 15; 21; 6; 10; 15; 21].

Definition md5_step (M : list Z) (st : Z * Z * Z * Z) (i : Z) : Z * Z * Z * Z :=
  let '(a, b, c, d) := st in
  let '(f, g) :=
    if i <? 16 then (Z.lor (Z.land b c) (Z.land (not32 b) d), i)
    else if i <? 32 then (Z.lor (Z.land d b) (Z.land (not32 d) c), (5 * i + 1) mod 16)
    else if i <? 48 then (Z.lxor (Z.lxor b c) d, (3 * i + 5) mod 16)
    else (Z.lxor c (Z.lor b (not32 d)), (7 * i) mod 16) in
  let t := add32 (add32 (add32 a f) (nthZ md5_K i)) (nthZ M g) in
  (d, add32 b (rotl32 t (nthZ md5_S i)), b, c).

Definition md5_block (h : Z * Z * Z * Z) (block : list Z) : Z * Z * Z * Z :=
  let '(a0, b0, c0, d0) := h in
  let '(a, b, c, d) :=
    fold_left (md5_step (words le_word block)) (map Z.of_nat (seq 0 64)) h in
  (add32 a0 a, add32 b0 b, add32 c0 c, add32 d0 d).

Definition md5_bytes (msg : list Z) : list Z :=
  let p := pad le_bytes msg in
  let '(a, b, c, d) :=
    fold_left md5_block (Bytes.blocks 64 (length p / 64) p)
              (1732584193, 4023233417, 2562383102, 271733878) in
  le_bytes 4 a ++ le_bytes 4 b ++ le_bytes 4 c ++ le_bytes 4 d.

(** *** SHA-1 *)

Fixpoint sha1_schedule (k : nat) (w : list Z) : list Z :=
  (* [w] holds the words computed so far, most recent first *)
  match k with
  | O => rev w
  | S k' =>
      let x := Z.lxor (Z.lxor (nth 2 w 0) (nth 7 w 0))
                      (Z.lxor (nth 13 w 0) (nth 15 w 0)) in
      sha1_schedule k' (rotl32 x 1 :: w)
  end.

Definition sha1_step (W : list Z) (st : Z * Z * Z * Z * Z) (i : Z) :=
  let '(a, b, c, d, e) := st in
  let '(f, k) :=
    if i <? 20 then (Z.lor (Z.land b c) (Z.land (not32 b) d), 1518500249)
    else if i <? 40 then (Z.lxor (Z.lxor b c) d, 1859775393)
    else if i <? 60 then
      (Z.lor (Z.lor (Z.land b c) (Z.land b d)) (Z.land c d), 2400959708)
    else (Z.lxor (Z.lxor b c) d, 3395469782) in
  let t := add32 (add32 (add32 (add32 (rotl32 a 5) f) e) k) (nthZ W i) in
  (t, a, rotl32 b 30, c, d).

Definition sha1_block (h : Z * Z * Z * Z * Z) (block : list Z) :=
  let W := sha1_schedule 64 (rev (words be_word block)) in
  let '(a0, b0, c0, d0, e0) := h in
  let '(a, b, c, d, e) := fold_left (sha1_step W) (map Z.of_nat (seq 0 80)) h in
  (add32 a0 a, add32 b0 b, add32 c0 c, add32 d0 d, add32 e0 e).

Definition sha1_bytes (msg : list Z) : list Z :=
  let p := pad be_bytes msg in
  let '(a, b, c, d, e) :=
    fold_left sha1_block (Bytes.blocks 64 (length p / 64) p)
              (1732584193, 4023233417, 2562383102, 271733878, 3285377520) in
  be_bytes 4 a ++ be_bytes 4 b ++ be_bytes 4 c ++ be_bytes 4 d ++ be_bytes 4 e.

(** *** SHA-256 *)

Definition sha256_K : list Z :=
  [1116352408; 1899447441; 3049323471; 3921009573; 961987163; 1508970993;
   2453635748; 2870763221; 3624381080; 310598401; 607225278; 1426881987;
   1925078388; 2162078206; 2614888103; 3248222580; 3835390401; 4022224774;
   264347078; 604807628; 770255983; 1249150122; 1555081692; 1996064986;
   2554220882; 2821834349; 2952996808; 3210313671; 3336571891; 3584528711;
   113926993; 338241895; 666307205; 773529912; 1294757372; 1396182291;
   1695183700; 1986661051; 2177026350; 2456956037; 2730485921; 2820302411;
   3259730800; 3345764771; 3516065817; 3600352804; 4094571909; 275423344;
   430227734; 506948616; 659060556; 883997877; 958139571; 1322822218;
   1537002063; 1747873779; 1955562222; 2024104815; 2227730452; 2361852424;
   2428436474; 2756734187; 3204031479; 3329325298].

Definition sha256_H0 : list Z :=
  [1779033703; 3144134277; 1013904242; 2773480762;
   1359893119; 2600822924; 528734635; 1541459225].

Fixpoint sha256_schedule (k : nat) (w : list Z) : list Z :=
  match k with
  | O => rev w
  | S k' =>
      let w15 := nth 14 w 0 in
      let w2 := nth 1 w 0 in
      let s0 := Z.lxor (Z.lxor (rotr32 w15 7) (rotr32 w15 18)) (Z.shiftr w15 3) in
      let s1 := Z.lxor (Z.lxor (rotr32 w2 17) (rotr32 w2 19)) (Z.shiftr w2 10) in
      sha256_schedule k' (add32 (add32 (add32 (nth 15 w 0) s0) (nth 6 w 0)) s1 :: w)
  end.

Definition sha256_step (W : list Z) (st : list Z) (i : Z) : list Z :=
  match st with
  | [a; b; c; d; e; f; g; h] =>
      let S1 := Z.lxor (Z.lxor (rotr32 e 6) (rotr32 e 11)) (rotr32 e 25) in
      let ch := Z.lxor (Z.land e f) (Z.land (not32 e) g) in
      let t1 := add32 (add32 (add32 (add32 h S1) ch) (nthZ sha256_K i)) (nthZ W i) in
      let S0 := Z.lxor (Z.lxor (rotr32 a 2) (rotr32 a 13)) (rotr32 a 22) in
      let maj := Z.lxor (Z.lxor (Z.land a b) (Z.land a c)) (Z.land b c) in
      [add32 t1 (add32 S0 maj); a; b; c; add32 d t1; e; f; g]
  | _ => st
  end.

Definition sha256_block (h : list Z) (block : list Z) : list Z :=
  let W := sha256_schedule 48 (rev (words be_word block)) in
  let r := fold_left (sha256_step W) (map Z.of_nat (seq 0 64)) h in
  map (fun p => add32 (fst p) (snd p)) (combine h r).

Definition sha256_bytes (msg : list Z) : list Z :=
  let p := pad be_bytes msg in
  concat (map (be_bytes 4)
              (fold_left sha256_block (Bytes.blocks 64 (length p / 64) p) sha256_H0)).

(** [hash.update(content).digest('hex')] *)
Definition md5 (content : list byte) : string :=
  Bytes.hex (md5_bytes (map Bytes.to_Z content)).
Definition sha1 (content : list byte) : string :=
  Bytes.hex (sha1_bytes (map Bytes.to_Z content)).
Definition sha256 (content : list byte) : string :=
  Bytes.hex (sha256_bytes (map Bytes.to_Z content)).

End Digest.


(** ** Exceptions

    A thrown JavaScript [Error]: the optional [code] property set by
    Node's system errors (ENOENT, EACCES, ...) and the message. *)

Record JsError := mkError { err_code : option string; err_message : string }.

Definition error_of (msg : string) : JsError := mkError None msg.
Definition sys_error (code : string) : JsError := mkError (Some code) code.

Inductive result (A : Type) : Type :=
| Ok (a : A)
| Throw (e : JsError).
Arguments Ok {A} a.
Arguments Throw {A} e.

(** ** AES-256-CBC ([crypto.createCipheriv('aes-256-cbc', key, iv)]) *)

Module AES.

Definition sbox_table : list Z :=
  [99; 124; 119; 123; 242; 107; 111; 197; 48; 1; 103; 43; 254; 215; 171; 118;
   202; 130; 201; 125; 250; 89; 71; 240; 173; 212; 162; 175; 156; 164; 114; 192;
   183; 253; 147; 38; 54; 63; 247; 204; 52; 165; 229; 241; 113; 216; 49; 21;
   4; 199; 35; 195; 24; 150; 5; 154; 7; 18; 128; 226; 235; 39; 178; 117;
   9; 131; 44; 26; 27; 110; 90; 160; 82; 59; 214; 179; 41; 227; 47; 132;
   83; 209; 0; 237; 32; 252; 177; 91; 106; 203; 190; 57; 74; 76; 88; 207;
   208; 239; 170; 251; 67; 77; 51; 133; 69; 249; 2; 127; 80; 60; 159; 168;
   81; 163; 64; 143; 146; 157; 56; 245; 188; 182; 218; 33; 16; 255; 243; 210;
   205; 12; 19; 236; 95; 151; 68; 23; 196; 167; 126; 61; 100; 93; 25; 115;
   96; 129; 79; 220; 34; 42; 144; 136; 70; 238; 184; 20; 222; 94; 11; 219;
   224; 50; 58; 10; 73; 6; 36; 92; 194; 211; 172; 98; 145; 149; 228; 121;
   231; 200; 55; 109; 141; 213; 78; 169; 108; 86; 244; 234; 101; 122; 174; 8;
   186; 120; 37; 46; 28; 166; 180; 198; 232; 221; 116; 31; 75; 189; 139; 138;
   112; 62; 181; 102; 72; 3; 246; 14; 97; 53; 87; 185; 134; 193; 29; 158;
   225; 248; 152; 17; 105; 217; 142; 148; 155; 30; 135; 233; 206; 85; 40; 223;
   140; 161; 137; 13; 191; 230; 66; 104; 65; 153; 45; 15; 176; 84; 187; 22].

Definition inv_sbox_table : list Z :=
  [82; 9; 106; 213; 48; 54; 165; 56; 191; 64; 163; 158; 129; 243; 215; 251;
   124; 227; 57; 130; 155; 47; 255; 135; 52; 142; 67; 68; 196; 222; 233; 203;
   84; 123; 148; 50; 166; 194; 35; 61; 238; 76; 149; 11; 66; 250; 195; 78;
   8; 46; 161; 102; 40; 217; 36; 178; 118; 91; 162; 73; 109; 139; 209; 37;
   114; 248; 246; 100; 134; 104; 152; 22; 212; 164; 92; 204; 93; 101; 182; 146;
   108; 112; 72; 80; 253; 237; 185; 218; 94; 21; 70; 87; 167; 141; 157; 132;
   144; 216; 171; 0; 140; 188; 211; 10; 247; 228; 88; 5; 184; 179; 69; 6;
   208; 44; 30; 143; 202; 63; 15; 2; 193; 175; 189; 3; 1; 19; 138; 107;
   58; 145; 17; 65; 79; 103; 220; 234; 151; 242; 207; 206; 240; 180; 230; 115;
   150; 172; 116; 34; 231; 173; 53; 133; 226; 249; 55; 232; 28; 117; 223; 110;
   71; 241; 26; 113; 29; 41; 197; 137; 111; 183; 98; 14; 170; 24; 190; 27;
   252; 86; 62; 75; 198; 210; 121; 32; 154; 219; 192; 254; 120; 205; 90; 244;
   31; 221; 168; 51; 136; 7; 199; 49; 177; 18; 16; 89; 39; 128; 236; 95;
   96; 81; 127; 169; 25; 181; 74; 13; 45; 229; 122; 159; 147; 201; 156; 239;
   160; 224; 59; 77; 174; 42; 245; 176; 200; 235; 187; 60; 131; 83; 153; 97;
   23; 43; 4; 126; 186; 119; 214; 38; 225; 105; 20; 99; 85; 33; 12; 125].

Definition lookup_table (t : list Z) (b : byte) : byte :=
  Bytes.of_Z (nth (Z.to_nat (Bytes.to_Z b)) t 0).

Definition sbox : byte -> byte := lookup_table sbox_table.
Definition inv_sbox : byte -> byte := lookup_table inv_sbox_table.

(** Arithmetic of GF(2^8) modulo x^8 + x^4 + x^3 + x + 1. *)
Definition xtime (b : byte) : byte :=
  let z := Bytes.to_Z b in
  Bytes.of_Z (Z.lxor (Z.shiftl z 1) (if 128 <=? z then 27 else 0)).

Infix "(+)" := Bytes.xor (at level 50, left associativity).

Definition mul2 (b : byte) : byte := xtime b.
Definition mul3 (b : byte) : byte := xtime b (+) b.
Definition mul9 (b : byte) : byte := xtime (xtime (xtime b)) (+) b.
Definition mul11 (b : byte) : byte := xtime (xtime (xtime b)) (+) xtime b (+) b.
Definition mul13 (b : byte) : byte := xtime (xtime (xtime b)) (+) xtime (xtime b) (+) b.
Definition mul14 (b : byte) : byte :=
  xtime (xtime (xtime b)) (+) xtime (xtime b) (+) xtime b.

(** The state: four columns of four bytes. *)
Definition column : Type := byte * byte * byte * byte.
Definition state : Type := column * column * column * column.

Definition col_map (f : byte -> byte) (c : column) : column :=
  let '(a, b, c, d) := c in (f a, f b, f c, f d).
Definition col_xor (x y : column) : column :=
  let '(a, b, c, d) := x in
  let '(a', b', c', d') := y in (a (+) a', b (+) b', c (+) c', d (+) d').
Definition st_map (f : column -> column) (s : state) : state :=
  let '(a, b, c, d) := s in (f a, f b, f c, f d).

Definition sub_bytes : state -> state := st_map (col_map sbox).
Definition inv_sub_bytes : state -> state := st_map (col_map inv_sbox).

Definition shift_rows (s : state) : state :=
  let '((a0, a1, a2, a3), (b0, b1, b2, b3), (c0, c1, c2, c3), (d0, d1, d2, d3)) := s in
  ((a0, b1, c2, d3), (b0, c1, d2, a3), (c0, d1, a2, b3), (d0, a1, b2, c3)).

Definition inv_shift_rows (s : state) : state :=
  let '((a0, a1, a2, a3), (b0, b1, b2, b3), (c0, c1, c2, c3), (d0, d1, d2, d3)) := s in
  ((a0, d1, c2, b3), (b0, a1, d2, c3), (c0, b1, a2, d3), (d0, c1, b2, a3)).

Definition mix_column (x : column) : column :=
  let '(a, b, c, d) := x in
  (mul2 a (+) mul3 b (+) c (+) d,
   a (+) mul2 b (+) mul3 c (+) d,
   a (+) b (+) mul2 c (+) mul3 d,
   mul3 a (+) b (+) c (+) mul2 d).

Definition inv_mix_column (x : column) : column :=
  let '(a, b, c, d) := x in
  (mul14 a (+) mul11 b (+) mul13 c (+) mul9 d,
   mul9 a (+) mul14 b (+) mul11 c (+) mul13 d,
   mul13 a (+) mul9 b (+) mul14 c (+) mul11 d,
   mul11 a (+) mul13 b (+) mul9 c (+) mul14 d).

Definition mix_columns : state -> state := st_map mix_column.
Definition inv_mix_columns : state -> state := st_map inv_mix_column.

Definition add_round_key (k s : state) : state :=
  let '(a, b, c, d) := s in
  let '(ka, kb, kc, kd) := k in
  (col_xor a ka, col_xor b kb, col_xor c kc, col_xor d kd).

(** Key expansion for Nk = 8, Nr = 14: sixty words, the newest first in
    the accumulator. *)
Definition rot_word (w : column) : column :=
  let '(a, b, c, d) := w in (b, c, d, a).
Definition rcon (i : nat) : column :=
  (Bytes.of_Z (nth i [1; 2; 4; 8; 16; 32; 64] 0), x00, x00, x00).
Definition zero_col : column := (x00, x00, x00, x00).

Fixpoint expand (n : nat) (i : nat) (ws : list column) : list column :=
  match n with
  | O => rev ws
  | S n' =>
      let prev := nth 0 ws zero_col in
      let temp :=
        if (i mod 8 =? 0)%nat then
          col_xor (col_map sbox (rot_word prev)) (rcon (i / 8 - 1))
        else if (i mod 8 =? 4)%nat then col_map sbox prev
        else prev in
      expand n' (S i) (col_xor (nth 7 ws zero_col) temp :: ws)
  end.

Definition col_of_list (l : list byte) : column :=
  (nth 0 l x00, nth 1 l x00, nth 2 l x00, nth 3 l x00).
Definition col_to_list (c : column) : list byte :=
  let '(a, b, c, d) := c in [a; b; c; d].
Definition of_list (l : list byte) : state :=
  (col_of_list l, col_of_list (skipn 4 l),
   col_of_list (skipn 8 l), col_of_list (skipn 12 l)).
Definition to_list (s : state) : list byte :=
  let '(a, b, c, d) := s in
  col_to_list a ++ col_to_list b ++ col_to_list c ++ col_to_list d.

Fixpoint group_keys (k : nat) (ws : list column) : list state :=
  match k, ws with
  | S k', a :: b :: c :: d :: r => (a, b, c, d) :: group_keys k' r
  | _, _ => []
  end.

(** The key schedule: the fifteen round keys of a 32-byte key. *)
Definition round_keys (key : list byte) : list state :=
  group_keys 15 (expand 52 8 (rev (map col_of_list (Bytes.blocks 4 8 key)))).

Definition round (s k : state) : state :=
  add_round_key k (mix_columns (shift_rows (sub_bytes s))).
Definition inv_round (s k : state) : state :=
  inv_mix_columns (add_round_key k (inv_sub_bytes (inv_shift_rows s))).

(** Cipher and InvCipher of FIPS-197, over the round keys
    [k0 :: mids ++ [kl]]. *)
Definition cipher (k0 : state) (mids : list state) (kl : state) (s : state) : state :=
  add_round_key kl (shift_rows (sub_bytes (fold_left round mids (add_round_key k0 s)))).
Definition inv_cipher (k0 : state) (mids : list state) (kl : state) (s : state) : state :=
  add_round_key k0
    (inv_sub_bytes (inv_shift_rows (fold_left inv_round (rev mids) (add_round_key kl s)))).

Record schedule := { k_first : state; k_mid : list state; k_last : state }.

Definition key_schedule (key : list byte) : schedule :=
  let rks := round_keys key in
  {| k_first := nth 0 rks (of_list []);
     k_mid := firstn 13 (skipn 1 rks);
     k_last := nth 14 rks (of_list []) |}.

Definition encrypt_block (ks : schedule) (b : list byte) : list byte :=
  to_list (cipher (k_first ks) (k_mid ks) (k_last ks) (of_list b)).
Definition decrypt_block (ks : schedule) (b : list byte) : list byte :=
  to_list (inv_cipher (k_first ks) (k_mid ks) (k_last ks) (of_list b)).

Fixpoint xor_bytes (a b : list byte) : list byte :=
  match a, b with
  | x :: a', y :: b' => (x (+) y) :: xor_bytes a' b'
  | _, _ => []
  end.

(** PKCS#7 padding, always added: between 1 and 16 bytes, each equal to
    the number of bytes added. *)
Definition pad_len (n : nat) : nat := (16 - n mod 16)%nat.
Definition pkcs7_pad (content : list byte) : list byte :=
  let n := pad_len (length content) in
  content ++ repeat (Bytes.of_Z (Z.of_nat n)) n.

(** Padding check of the final block: the last byte [n] must lie in
    1..16 and the last [n] bytes must all equal [n]. *)
Definition pkcs7_unpad (data : list byte) : option (list byte) :=
  match rev data with
  | [] => None
  | lastb :: _ =>
      let n := Z.to_nat (Bytes.to_Z lastb) in
      if ((1 <=? n) && (n <=? 16) && (n <=? length data))%nat then
        let body := firstn (length data - n) data in
        let tail := skipn (length data - n) data in
        if forallb (Byte.eqb lastb) tail then Some body else None
      else None
  end.

Fixpoint cbc_encrypt (ks : schedule) (prev : list byte) (blocks : list (list byte))
  : list (list byte) :=
  match blocks with
  | [] => []
  | b :: r =>
      let c := encrypt_block ks (xor_bytes b prev) in
      c :: cbc_encrypt ks c r
  end.

Fixpoint cbc_decrypt (ks : schedule) (prev : list byte) (blocks : list (list byte))
  : list (list byte) :=
  match blocks with
  | [] => []
  | c :: r => xor_bytes (decrypt_block ks c) prev :: cbc_decrypt ks c r
  end.

(** [Buffer.concat([cipher.update(content), cipher.final()])] *)
Definition encrypt (key iv content : list byte) : result (list byte) :=
  if negb (length key =? 32)%nat then Throw (error_of "Invalid key length")
  else if negb (length iv =? 16)%nat then Throw (error_of "Invalid initialization vector")
  else
    let p := pkcs7_pad content in
    Ok (concat (cbc_encrypt (key_schedule key) iv
                            (Bytes.blocks 16 (length p / 16) p))).

(** [Buffer.concat([decipher.update(data), decipher.final()])] *)
Definition decrypt (key iv data : list byte) : result (list byte) :=
  if negb (length key =? 32)%nat then Throw (error_of "Invalid key length")
  else if negb (length iv =? 16)%nat then Throw (error_of "Invalid initialization vector")
  else if (length data =? 0)%nat || negb (length data mod 16 =? 0)%nat then
    Throw (error_of "wrong final block length")
  else
    match pkcs7_unpad (concat (cbc_decrypt (key_schedule key) iv
                                 (Bytes.blocks 16 (length data / 16) data))) with
    | Some body => Ok body
    | None => Throw (error_of "bad decrypt")
    end.

End AES.

(** ** Regular expressions ([RegExp])

    Patterns are kept as syntax trees; matching is the backtracking
    search of the language definition: alternatives are tried left to
    right, [*] is greedy, and a match is looked for at each start position
    in turn.  Only the constructs that occur in the repository's patterns
    are represented. *)

Module RegExp.

Inductive regex : Type :=
| Empty
| Chr (c : ascii)
| Class (negated : bool) (ranges : list (ascii * ascii))
| Dot
| Bol
| Eol
| Seq (r s : regex)
| Alt (r s : regex)
| Star (r : regex).

Definition code (c : ascii) : nat := nat_of_ascii c.

(** Canonicalize of the language definition, for code units below 256:
    a-z and the accented lower-case letters map to their capitals. *)
Definition canon (c : ascii) : ascii :=
  let n := code c in
  if ((97 <=? n) && (n <=? 122)
      || (224 <=? n) && (n <=? 254) && negb (n =? 247))%nat
  then ascii_of_nat (n - 32) else c.

Definition lower_of (c : ascii) : ascii :=
  let n := code c in
  if ((65 <=? n) && (n <=? 90)
      || (192 <=? n) && (n <=? 222) && negb (n =? 215))%nat
  then ascii_of_nat (n + 32) else c.

Definition in_ranges (ranges : list (ascii * ascii)) (c : ascii) : bool :=
  existsb (fun r => (code (fst r) <=? code c)%nat && (code c <=? code (snd r))%nat) ranges.

Definition chr_match (ic : bool) (p x : ascii) : bool :=
  if ic then Ascii.eqb (canon p) (canon x) else Ascii.eqb p x.

Definition class_match (ic : bool) (negated : bool) (ranges : list (ascii * ascii))
           (x : ascii) : bool :=
  let found :=
    if ic then in_ranges ranges x || in_ranges ranges (canon x)
              || in_ranges ranges (lower_of (canon x))
    else in_ranges ranges x in
  xorb negated found.

(** Line terminators below 256: LF and CR. *)
Definition line_terminator (x : ascii) : bool :=
  ((code x =? 10) || (code x =? 13))%nat.

(** [run r ic k i s]: match [r] at index [i], where [s] is the rest of
    the input from [i] on, then continue with [k]; the result is the end
    index of the whole match. *)
Fixpoint run (r : regex) (ic : bool) (k : nat -> list ascii -> option nat)
         (i : nat) (s : list ascii) {struct r} : option nat :=
  match r with
  | Empty => k i s
  | Chr c =>
      match s with
      | x :: s' => if chr_match ic c x then k (S i) s' else None
      | [] => None
      end
  | Class negated ranges =>
      match s with
      | x :: s' => if class_match ic negated ranges x then k (S i) s' else None
      | [] => None
      end
  | Dot =>
      match s with
      | x :: s' => if line_terminator x then None else k (S i) s'
      | [] => None
      end
  | Bol => if (i =? 0)%nat then k i s else None
  | Eol => match s with [] => k i s | _ :: _ => None end
  | Seq r1 r2 => run r1 ic (fun i' s' => run r2 ic k i' s') i s
  | Alt r1 r2 =>
      match run r1 ic k i s with
      | Some e => Some e
      | None => run r2 ic k i s
      end
  | Star r1 =>
      (fix loop (fuel : nat) (i : nat) (s : list ascii) {struct fuel} : option nat :=
         match fuel with
         | O => k i s
         | S fuel' =>
             match run r1 ic
                       (fun i' s' => if (i' =? i)%nat then None else loop fuel' i' s')
                       i s with
             | Some e => Some e
             | None => k i s
             end
         end) (S (length s)) i s
  end.

(** First match at or after index [i]: the end index of the match. *)
Fixpoint search (r : regex) (ic : bool) (i : nat) (s : list ascii) : option nat :=
  match run r ic (fun e _ => Some e) i s with
  | Some e => Some e
  | None =>
      match s with
      | [] => None
      | _ :: s' => search r ic (S i) s'
      end
  end.

(** A RegExp object: source, flags and the mutable [lastIndex]. *)
Record t := mk {
  source : regex;
  ignoreCase : bool;
  global : bool;
  lastIndex : nat
}.

Definition set_lastIndex (re : t) (n : nat) : t :=
  {| source := source re; ignoreCase := ignoreCase re;
     global := global re; lastIndex := n |}.

(** [re.test(str)]: with the [g] flag the search starts at [lastIndex],
    which is then set to the end of the match, or to 0 on failure. *)
Definition test (re : t) (str : string) : bool * t :=
  let chars := list_ascii_of_string str in
  let start := if global re then lastIndex re else O in
  if (length chars <? start)%nat then
    (false, if global re then set_lastIndex re 0 else re)
  else
    match search (source re) (ignoreCase re) start (skipn start chars) with
    | Some e => (true, if global re then set_lastIndex re e else re)
    | None => (false, if global re then set_lastIndex re 0 else re)
    end.

(** A pattern literal [/.../i]: no [g] flag, so [test] has no state. *)
Definition test_i (r : regex) (str : string) : bool :=
  fst (test (mk r true false 0) str).

(** Builders for the abbreviations of the concrete syntax. *)
Fixpoint lit (s : string) : regex :=
  match s with
  | EmptyString => Empty
  | String c EmptyString => Chr c
  | String c s' => Seq (Chr c) (lit s')
  end.
Definition plus (r : regex) : regex := Seq r (Star r).
Fixpoint rep (n : nat) (r : regex) : regex :=
  match n with
  | O => Empty
  | S O => r
  | S n' => Seq r (rep n' r)
  end.
Definition at_least (n : nat) (r : regex) : regex := Seq (rep n r) (Star r).
Fixpoint seqs (rs : list regex) : regex :=
  match rs with
  | [] => Empty
  | [r] => r
  | r :: rs' => Seq r (seqs rs')
  end.
Fixpoint alts (rs : list regex) : regex :=
  match rs with
  | [] => Empty
  | [r] => r
  | r :: rs' => Alt r (alts rs')
  end.
Definition digit : regex := Class false [("0"%char, "9"%char)].
Definition word : regex :=
  Class false [("a"%char, "z"%char); ("A"%char, "Z"%char);
               ("0"%char, "9"%char); ("_"%char, "_"%char)].
Definition any_star : regex := Star Dot.

End RegExp.

(** ** Strings ([String.prototype]) *)

Module Str.

Definition lower_char (c : ascii) : ascii :=
  let n := nat_of_ascii c in
  if ((65 <=? n) && (n <=? 90)
      || (192 <=? n) && (n <=? 222) && negb (n =? 215))%nat
  then ascii_of_nat (n + 32) else c.

Fixpoint toLowerCase (s : string) : string :=
  match s with
  | EmptyString => EmptyString
  | String c s' => String (lower_char c) (toLowerCase s')
  end.

Definition startsWith (s p : string) : bool := String.prefix p s.

Definition endsWith_list (s p : list ascii) : bool :=
  (length p <=? length s)%nat
  && String.eqb (string_of_list_ascii (skipn (length s - length p) s))
                (string_of_list_ascii p).
Definition endsWith (s p : string) : bool :=
  endsWith_list (list_ascii_of_string s) (list_ascii_of_string p).

(** [str.includes(c)] for a one-character needle. *)
Fixpoint includes_char (s : string) (c : ascii) : bool :=
  match s with
  | EmptyString => false
  | String x s' => Ascii.eqb x c || includes_char s' c
  end.

Definition includes (l : list string) (s : string) : bool :=
  existsb (String.eqb s) l.

(** [str.padEnd(n, c)] and [str.substring(0, n)] *)
Definition padEnd (s : string) (n : nat) (c : ascii) : string :=
  s ++ string_of_list_ascii (repeat c (n - String.length s)).
Definition substring0 (s : string) (n : nat) : string := String.substring 0 n s.

End Str.

(** ** Paths ([path]) *)

Inductive platform := Win32 | Posix.

Module Path.

Definition is_sep (pf : platform) (c : ascii) : bool :=
  match pf with
  | Posix => Ascii.eqb c "/"
  | Win32 => Ascii.eqb c "/" || Ascii.eqb c "\"
  end.

Definition sep (pf : platform) : string :=
  match pf with Posix => "/" | Win32 => "\" end.

Definition is_letter (c : ascii) : bool :=
  let n := nat_of_ascii c in
  ((65 <=? n) && (n <=? 90) || (97 <=? n) && (n <=? 122))%nat.

(** Length of a leading drive designator such as [C:] (win32 only). *)
Definition drive_len (pf : platform) (p : list ascii) : nat :=
  match pf, p with
  | Win32, d :: c :: _ => if is_letter d && Ascii.eqb c ":" then 2%nat else 0%nat
  | _, _ => 0%nat
  end.

Fixpoint drop_while {A} (f : A -> bool) (l : list A) : list A :=
  match l with
  | [] => []
  | x :: l' => if f x then drop_while f l' else l
  end.
Fixpoint take_while {A} (f : A -> bool) (l : list A) : list A :=
  match l with
  | [] => []
  | x :: l' => if f x then x :: take_while f l' else []
  end.

(** The last component of the path, trailing separators ignored. *)
Definition last_component (pf : platform) (p : list ascii) : list ascii :=
  let body := skipn (drive_len pf p) p in
  rev (take_while (fun c => negb (is_sep pf c))
                  (drop_while (is_sep pf) (rev body))).

Definition basename (pf : platform) (p : string) : string :=
  string_of_list_ascii (last_component pf (list_ascii_of_string p)).

(** From the last dot of the last component to its end; empty when
    there is no dot, when the only dot is the first character, or when
    the component is [..]. *)
Definition extname (pf : platform) (p : string) : string :=
  let comp := last_component pf (list_ascii_of_string p) in
  let is_dot := fun c => Ascii.eqb c "." in
  let after := rev (take_while (fun c => negb (is_dot c)) (rev comp)) in
  if (length after =? length comp)%nat then ""
  else if (length after + 1 =? length comp)%nat then ""
  else if String.eqb (string_of_list_ascii comp) ".." then ""
  else string_of_list_ascii ("."%char :: after).

(** End of the root of a path: [/] (posix); a leading separator or a
    drive designator with its separator (win32).  [None]: no root. *)
Definition root_end (pf : platform) (p : list ascii) : option nat :=
  match pf, p with
  | Posix, c :: _ => if is_sep pf c then Some 1%nat else None
  | Win32, c :: r =>
      if is_sep pf c then Some 1%nat
      else match r with
           | c1 :: r' =>
               if is_letter c && Ascii.eqb c1 ":" then
                 match r' with
                 | c2 :: _ => if is_sep pf c2 then Some 3%nat else Some 2%nat
                 | [] => Some 2%nat
                 end
               else None
           | [] => None
           end
  | _, [] => None
  end.

(** [path.dirname]: the path up to, and without, the separator that
    precedes the last component; the root when nothing else is left,
    [.] without a root.  On win32, roots of the form [\\server\share]
    are not distinguished from an ordinary leading separator. *)
Definition dirname (pf : platform) (p : string) : string :=
  let l := list_ascii_of_string p in
  match l with
  | [] => "."
  | _ =>
      let offset := match root_end pf l with Some n => n | None => 0%nat end in
      let body := skipn offset l in
      (* from the right: trailing separators, then the last component *)
      let r1 := drop_while (is_sep pf) (rev body) in
      let r2 := drop_while (fun c => negb (is_sep pf c)) r1 in
      match r2 with
      | [] =>
          match root_end pf l with
          | Some n => string_of_list_ascii (firstn n l)
          | None => "."
          end
      | _ :: r3 =>
          match pf, root_end pf l, r3 with
          | Posix, Some _, [] => "//"
          | _, _, _ => string_of_list_ascii (firstn offset l ++ rev r3)
          end
      end
  end.

(** [path.join(dir, name)] for a normalised directory and a plain file
    name, the only use the quarantine store makes of it. *)
Definition join (pf : platform) (dir name : string) : string :=
  dir ++ sep pf ++ name.

End Path.

(** ** Numbers as text *)

Module Num.

(** Template-literal rendering of an integer: decimal digits. *)
Definition dec (z : Z) : string := NilZero.string_of_int (Z.to_int z).

End Num.

(** ** Configuration ([config.js]) *)

Record Config := {
  paths_quarantine : string;
  paths_database : string;
  scanPaths_quick : list string;
  scanPaths_full : list string;
  exclusions_paths : list string;
  exclusions_extensions : list string;
  exclusions_maxFileSize : Z;
  detection_enableSignatureScanning : bool;
  detection_enableHeuristicAnalysis : bool;
  detection_heuristicSensitivity : string;
  quarantine_encryptionKey : string
}.

(** The shipped configuration.  [app] stands for the directory above
    [config/] ([path.join(__dirname, '..')]), [home] for [os.homedir()]
    and [tmp] for the TEMP directory of the environment. *)
Definition default_config (pf : platform) (app home tmp : string) : Config := {|
  paths_quarantine := Path.join pf app "quarantine";
  paths_database := Path.join pf (Path.join pf app "database") "signatures.db";
  scanPaths_quick :=
    [Path.join pf home "Downloads"; Path.join pf home "Desktop";
     Path.join pf home "Documents"; tmp; tmp];
  scanPaths_full := ["C:\"; "D:\"; "E:\"];
  exclusions_paths :=
    [Path.join pf app "quarantine"; "C:\Windows\WinSxS"; "C:\$Recycle.Bin"];
  exclusions_extensions :=
    [".txt"; ".md"; ".pdf"; ".jpg"; ".jpeg"; ".png"; ".gif"; ".bmp";
     ".mp3"; ".mp4"; ".avi"; ".mkv"; ".mov"];
  exclusions_maxFileSize := 500 * 1024 * 1024;
  detection_enableSignatureScanning := true;
  detection_enableHeuristicAnalysis := true;
  detection_heuristicSensitivity := "medium";
  quarantine_encryptionKey := "CHANGE_THIS_IN_PRODUCTION"
|}.

(** ** The environment: file system, clock, random source *)

Module Fs.

(** A regular file holds bytes; [access_error] is the error code
    (EACCES, EBUSY, ...) with which opening it fails, if any. *)
Inductive node : Type :=
| File (data : list byte) (access_error : option string)
| Dir.

Record Stats := { size : Z; isDirectory : bool }.

End Fs.

Record World := {
  fs : gmap string Fs.node;
  os_platform : platform;              (* process.platform *)
  os_homedir : string;                 (* os.homedir() *)
  clock : nat -> Z;                    (* successive readings of the clock *)
  ticks : nat;
  entropy : nat -> byte;               (* stream behind crypto.randomBytes *)
  drawn : nat;
  attrib_output : string -> option string;
    (* output of the [attrib] command on a path; [None]: the command fails *)
  glob_files : string -> bool -> result (list string);
    (* files reported by [glob] under a scan path, deep or shallow *)
  external_stop : option nat;
    (* [Some n]: another task calls [stop()] once [n] files have been handled *)
  digested : list string
    (* paths whose bytes were fed to the digests, most recent first *)
}.

Definition with_fs (w : World) (f : gmap string Fs.node) : World :=
  {| fs := f; os_platform := os_platform w; os_homedir := os_homedir w;
     clock := clock w; ticks := ticks w; entropy := entropy w; drawn := drawn w;
     attrib_output := attrib_output w; glob_files := glob_files w;
     external_stop := external_stop w; digested := digested w |}.

Definition with_ticks (w : World) (n : nat) : World :=
  {| fs := fs w; os_platform := os_platform w; os_homedir := os_homedir w;
     clock := clock w; ticks := n; entropy := entropy w; drawn := drawn w;
     attrib_output := attrib_output w; glob_files := glob_files w;
     external_stop := external_stop w; digested := digested w |}.

Definition with_drawn (w : World) (n : nat) : World :=
  {| fs := fs w; os_platform := os_platform w; os_homedir := os_homedir w;
     clock := clock w; ticks := ticks w; entropy := entropy w; drawn := n;
     attrib_output := attrib_output w; glob_files := glob_files w;
     external_stop := external_stop w; digested := digested w |}.

Definition with_digested (w : World) (l : list string) : World :=
  {| fs := fs w; os_platform := os_platform w; os_homedir := os_homedir w;
     clock := clock w; ticks := ticks w; entropy := entropy w; drawn := drawn w;
     attrib_output := attrib_output w; glob_files := glob_files w;
     external_stop := external_stop w; digested := l |}.

(** ** Computations that read and change a state and may throw *)

Definition M (S A : Type) : Type := S -> result A * S.

Definition ret {S A} (a : A) : M S A := fun s => (Ok a, s).
Definition throw {S A} (e : JsError) : M S A := fun s => (Throw e, s).
Definition bind {S A B} (m : M S A) (k : A -> M S B) : M S B :=
  fun s => match m s with
           | (Ok a, s') => k a s'
           | (Throw e, s') => (Throw e, s')
           end.
(** [try { m } catch (e) { h e }] *)
Definition try_catch {S A} (m : M S A) (h : JsError -> M S A) : M S A :=
  fun s => match m s with
           | (Ok a, s') => (Ok a, s')
           | (Throw e, s') => h e s'
           end.
(** [try { m } finally { f }] *)
Definition finally {S A} (m : M S A) (f : S -> S) : M S A :=
  fun s => let '(r, s') := m s in (r, f s').
Definition get {S} : M S S := fun s => (Ok s, s).
Definition gets {S A} (f : S -> A) : M S A := fun s => (Ok (f s), s).
Definition modify {S} (f : S -> S) : M S unit := fun s => (Ok tt, f s).
Definition lift_result {S A} (r : result A) : M S A := fun s => (r, s).

Declare Scope js_scope.
Delimit Scope js_scope with js.
Notation "'let*' x ':=' m 'in' k" := (bind m (fun x => k))
  (at level 10, x name, m at level 100, k at level 200) : js_scope.
Notation "'run*' m 'in' k" := (bind m (fun _ => k))
  (at level 10, m at level 100, k at level 200) : js_scope.
Local Open Scope js_scope.

Module Env.

(** [Date.now()] and [new Date()]: the next reading of the clock. *)
Definition now : M World Z :=
  fun w => (Ok (clock w (ticks w)), with_ticks w (S (ticks w))).

(** [crypto.randomBytes(n)] *)
Definition randomBytes (n : nat) : M World (list byte) :=
  fun w => (Ok (map (entropy w) (seq (drawn w) n)), with_drawn w (drawn w + n)).

Definition pathExists (p : string) : M World bool :=
  gets (fun w => match fs w !! p with Some _ => true | None => false end).

(** [fs.stat]: a missing entry answers ENOENT.  The answer ENOTDIR for
    a path below a regular file is not represented. *)
Definition stat (p : string) : M World Fs.Stats :=
  fun w => match fs w !! p with
           | None => (Throw (sys_error "ENOENT"), w)
           | Some Fs.Dir => (Ok {| Fs.size := 0; Fs.isDirectory := true |}, w)
           | Some (Fs.File d _) =>
               (Ok {| Fs.size := Z.of_nat (length d); Fs.isDirectory := false |}, w)
           end.

(** Opening a file for reading and taking all of its bytes. *)
Definition readFile (p : string) : M World (list byte) :=
  fun w => match fs w !! p with
           | None => (Throw (sys_error "ENOENT"), w)
           | Some Fs.Dir => (Throw (sys_error "EISDIR"), w)
           | Some (Fs.File d (Some code)) => (Throw (sys_error code), w)
           | Some (Fs.File d None) => (Ok d, w)
           end.

(** [fs.writeFile]: the parent must be a directory and the target must
    not be one. *)
Definition writeFile (p : string) (data : list byte) : M World unit :=
  fun w =>
    match fs w !! Path.dirname (os_platform w) p with
    | None => (Throw (sys_error "ENOENT"), w)
    | Some (Fs.File _ _) => (Throw (sys_error "ENOTDIR"), w)
    | Some Fs.Dir =>
        match fs w !! p with
        | Some Fs.Dir => (Throw (sys_error "EISDIR"), w)
        | Some (Fs.File _ (Some code)) => (Throw (sys_error code), w)
        | _ => (Ok tt, with_fs w (<[p := Fs.File data None]> (fs w)))
        end
    end.

(** [q] lies below the directory [p]. *)
Definition below (pf : platform) (p q : string) : bool :=
  match String.get (String.length p) q with
  | Some c => String.prefix p q && Path.is_sep pf c
  | None => false
  end.

(** [fs.remove] of fs-extra: a file is unlinked, a directory goes with
    everything below it; a missing entry is not an error.  A removal
    that the host refuses (EPERM, EBUSY) is not represented. *)
Definition remove (p : string) : M World unit :=
  fun w =>
    match fs w !! p with
    | None => (Ok tt, w)
    | Some (Fs.File _ _) => (Ok tt, with_fs w (delete p (fs w)))
    | Some Fs.Dir =>
        (Ok tt,
         with_fs w (filter (fun kv => below (os_platform w) p (fst kv) = false)
                           (delete p (fs w))))
    end.

(** [fs.readdir]: the names directly below a directory. *)
Definition child_name (pf : platform) (p q : string) : option string :=
  if below pf p q then
    let name := String.substring (S (String.length p))
                                 (String.length q - S (String.length p)) q in
    if (0 <? String.length name)%nat
       && forallb (fun c => negb (Path.is_sep pf c)) (list_ascii_of_string name)
    then Some name else None
  else None.

Definition readdir (p : string) : M World (list string) :=
  fun w =>
    match fs w !! p with
    | None => (Throw (sys_error "ENOENT"), w)
    | Some (Fs.File _ _) => (Throw (sys_error "ENOTDIR"), w)
    | Some Fs.Dir =>
        (Ok (omap (fun kv => child_name (os_platform w) p (fst kv))
                  (map_to_list (fs w))), w)
    end.

(** [fs.ensureDir]: the directory and its missing ancestors. *)
Fixpoint ensure_dirs (pf : platform) (fuel : nat) (p : string)
         (f : gmap string Fs.node) : option (gmap string Fs.node) :=
  match f !! p with
  | Some Fs.Dir => Some f
  | Some (Fs.File _ _) => None
  | None =>
      match fuel with
      | O => Some (<[p := Fs.Dir]> f)
      | S fuel' =>
          let parent := Path.dirname pf p in
          if String.eqb parent p then Some (<[p := Fs.Dir]> f)
          else match ensure_dirs pf fuel' parent f with
               | Some f' => Some (<[p := Fs.Dir]> f')
               | None => None
               end
      end
  end.

Definition ensureDir (p : string) : M World unit :=
  fun w => match ensure_dirs (os_platform w) (String.length p) p (fs w) with
           | Some f => (Ok tt, with_fs w f)
           | None => (Throw (sys_error "EEXIST"), w)
           end.

(** Reads at most [n] bytes from the start of a file into a zeroed
    buffer of [n] bytes ([fs.open], [fs.read], [fs.close]). *)
Definition readPrefix (p : string) (n : nat) : M World (list byte) :=
  let* d := readFile p in
  ret (firstn n d ++ repeat x00 (n - length d))%list.

End Env.

(** ** Records of the history store and of the quarantine vault *)

Record HashSignature := {
  hs_hash : string;
  hs_hash_type : string;
  hs_name : string;
  hs_type : string;
  hs_severity : string;
  hs_description : string
}.

(** A pattern signature row; [ps_pattern] is the syntax tree of the
    regular-expression source text stored in the row. *)
Record PatternSignature := {
  ps_name : string;
  ps_type : string;
  ps_severity : string;
  ps_pattern : RegExp.regex;
  ps_description : string;
  ps_offset : option nat;
  ps_maxBytes : option nat
}.

Inductive ScanStatus := Running | Completed.

Record ScanSession := {
  ss_id : Z;
  ss_scan_type : string;
  ss_start_time : Z;
  ss_status : ScanStatus;
  ss_files_scanned : Z;
  ss_threats_found : Z;
  ss_end_time : option Z;
  ss_duration : option Z
}.

Record ThreatDetection := {
  td_id : Z;   (* [Date.now() + Math.random()], without the random fraction *)
  td_scan_id : option Z;
  td_file_path : string;
  td_threat_name : string;
  td_threat_type : string;
  td_severity : string;
  td_detection_method : string;
  td_detected_at : Z;
  td_action_taken : option string
}.

Record DbData := {
  hash_signatures : list HashSignature;
  pattern_signatures : list PatternSignature;
  scan_history : list ScanSession;
  threat_detections : list ThreatDetection
}.

(** Metadata of a quarantined file, as written next to the ciphertext.
    Times are milliseconds since the epoch; [toISOString] and
    [new Date(text)] convert to and from text without loss. *)
Record Metadata := {
  md_id : string;
  md_originalPath : string;
  md_fileName : string;
  md_fileSize : Z;
  md_quarantinedAt : Z;
  md_hash : string
}.

(** JSON text of the two kinds of documents the program stores
    ([fs.writeJson] / [fs.readJson]).  [None] from a parser stands for a
    document that cannot be read back. *)
Class JsonCodec := {
  stringify_meta : Metadata -> list byte;
  parse_meta : list byte -> option Metadata;
  stringify_db : DbData -> list byte;
  parse_db : list byte -> option DbData
}.

(** Reading back what was written gives the document. *)
Class JsonCodecLaws `{JsonCodec} := {
  parse_stringify_meta : forall m, parse_meta (stringify_meta m) = Some m;
  parse_stringify_db : forall d, parse_db (stringify_db d) = Some d
}.

Definition zoom {S T A} (proj : S -> T) (upd : S -> T -> S) (m : M T A) : M S A :=
  fun s => let '(r, t') := m (proj s) in (r, upd s t').

(** ** The history store ([ThreatDatabase]) *)

Module ThreatDatabase.
Section WithCodec.
Context `{JsonCodec}.
Variable config : Config.

Record t := mk { data : DbData; initialized : bool }.

Definition empty_data : DbData :=
  {| hash_signatures := []; pattern_signatures := [];
     scan_history := []; threat_detections := [] |}.

Definition new : t := {| data := empty_data; initialized := false |}.

(** The state of a method call: the environment and the object. *)
Definition St : Type := World * t.
Definition env {A} (m : M World A) : M St A :=
  zoom fst (fun s w => (w, snd s)) m.
Definition set_data (d : DbData) : M St unit :=
  modify (fun s => (fst s, {| data := d; initialized := initialized (snd s) |})).
Definition set_initialized : M St unit :=
  modify (fun s => (fst s, {| data := data (snd s); initialized := true |})).
Definition get_data : M St DbData := gets (fun s => data (snd s)).

(** [str.replace('.db', '.json')]: the first occurrence only. *)
Fixpoint replace_first (fuel : nat) (pat rep s : string) : string :=
  if String.prefix pat s then rep ++ String.substring (String.length pat)
                                      (String.length s - String.length pat) s
  else match fuel, s with
       | S fuel', String c s' => String c (replace_first fuel' pat rep s')
       | _, _ => s
       end.

Definition dbPath : string :=
  replace_first (String.length (paths_database config)) ".db" ".json"
                (paths_database config).

Definition save : M St unit :=
  let* d := get_data in
  env (Env.writeFile dbPath (stringify_db d)).

Definition eicar_md5 : HashSignature :=
  {| hs_hash := "44d88612fea8a8f36de82e1278abb02f";
     hs_hash_type := "md5";
     hs_name := "EICAR-Test-File";
     hs_type := "test";
     hs_severity := "low";
     hs_description := "EICAR antivirus test file" |}.

Definition eicar_sha256 : HashSignature :=
  {| hs_hash := "275a021bbfb6489e54d471899f7db9d1663fc695ec2fe2a2c4538aabf651fd0f";
     hs_hash_type := "sha256";
     hs_name := "EICAR-Test-File";
     hs_type := "test";
     hs_severity := "low";
     hs_description := "EICAR antivirus test file" |}.

(** [(Invoke-WebRequest|IWR|wget|curl).*\.(exe|dll|bat|ps1)] *)
Definition powershell_downloader : PatternSignature :=
  {| ps_name := "PowerShell.Downloader";
     ps_type := "trojan";
     ps_severity := "high";
     ps_pattern :=
       RegExp.seqs
         [RegExp.alts [RegExp.lit "Invoke-WebRequest"; RegExp.lit "IWR";
                       RegExp.lit "wget"; RegExp.lit "curl"];
          RegExp.any_star;
          RegExp.Chr ".";
          RegExp.alts [RegExp.lit "exe"; RegExp.lit "dll";
                       RegExp.lit "bat"; RegExp.lit "ps1"]];
     ps_description := "PowerShell download and execute pattern";
     ps_offset := None;
     ps_maxBytes := None |}.

Definition push_hash (l : list HashSignature) (sig : HashSignature) :=
  if existsb (fun h => String.eqb (hs_hash h) (hs_hash sig)) l then l
  else (l ++ [sig])%list.

Definition push_pattern (l : list PatternSignature) (sig : PatternSignature) :=
  if existsb (fun p => String.eqb (ps_name p) (ps_name sig)) l then l
  else (l ++ [sig])%list.

Definition populateInitialSignatures (d : DbData) : DbData :=
  {| hash_signatures := fold_left push_hash [eicar_md5; eicar_sha256] (hash_signatures d);
     pattern_signatures :=
       fold_left push_pattern [powershell_downloader] (pattern_signatures d);
     scan_history := scan_history d;
     threat_detections := threat_detections d |}.

Definition readJson : M St DbData :=
  let* bytes := env (Env.readFile dbPath) in
  match parse_db bytes with
  | Some d => ret d
  | None => throw (error_of "Unexpected token in JSON")
  end.

(** First half of [initialize]: the store is read when it exists and
    created otherwise. *)
Definition load : M St unit :=
  let* s := get in
  run* env (Env.ensureDir (Path.dirname (os_platform (fst s)) dbPath)) in
  let* present := env (Env.pathExists dbPath) in
  if present then let* fileData := readJson in set_data fileData
  else save.

Definition initialize : M St bool :=
  let* s := get in
  if initialized (snd s) then ret true
  else
    run* load in
    let* d := get_data in
    run* (if (length (hash_signatures d) =? 0)%nat then
            run* set_data (populateInitialSignatures d) in save
          else ret tt) in
    run* set_initialized in
    ret true.

Definition getHashSignatures (db : t) : list HashSignature := hash_signatures (data db).
Definition getPatternSignatures (db : t) : list PatternSignature :=
  pattern_signatures (data db).

Definition recordScanStart (scanType : string) : M St Z :=
  let* id := env Env.now in
  let* start := env Env.now in
  let* d := get_data in
  run* set_data
    {| hash_signatures := hash_signatures d;
       pattern_signatures := pattern_signatures d;
       scan_history :=
         (scan_history d ++
          [{| ss_id := id; ss_scan_type := scanType; ss_start_time := start;
              ss_status := Running; ss_files_scanned := 0; ss_threats_found := 0;
              ss_end_time := None; ss_duration := None |}])%list;
       threat_detections := threat_detections d |} in
  run* save in
  ret id.

(** Updates, in place, the first session whose id is [scanId]. *)
Fixpoint complete_first (scanId : Z) (endt filesScanned threatsFound duration : Z)
         (l : list ScanSession) : list ScanSession :=
  match l with
  | [] => []
  | s :: r =>
      if ss_id s =? scanId then
        {| ss_id := ss_id s; ss_scan_type := ss_scan_type s;
           ss_start_time := ss_start_time s; ss_status := Completed;
           ss_files_scanned := filesScanned; ss_threats_found := threatsFound;
           ss_end_time := Some endt; ss_duration := Some duration |} :: r
      else s :: complete_first scanId endt filesScanned threatsFound duration r
  end.

Definition recordScanComplete (scanId filesScanned threatsFound duration : Z)
  : M St unit :=
  let* d := get_data in
  if existsb (fun s => ss_id s =? scanId) (scan_history d) then
    let* endt := env Env.now in
    run* set_data
      {| hash_signatures := hash_signatures d;
         pattern_signatures := pattern_signatures d;
         scan_history :=
           complete_first scanId endt filesScanned threatsFound duration (scan_history d);
         threat_detections := threat_detections d |} in
    save
  else ret tt.

Definition recordThreatDetection (scanId : option Z)
           (filePath threatName threatType severity detectionMethod : string)
  : M St unit :=
  let* id := env Env.now in
  let* at_ := env Env.now in
  let* d := get_data in
  run* set_data
    {| hash_signatures := hash_signatures d;
       pattern_signatures := pattern_signatures d;
       scan_history := scan_history d;
       threat_detections :=
         (threat_detections d ++
          [{| td_id := id; td_scan_id := scanId; td_file_path := filePath;
              td_threat_name := threatName; td_threat_type := threatType;
              td_severity := severity; td_detection_method := detectionMethod;
              td_detected_at := at_; td_action_taken := None |}])%list |} in
  save.

End WithCodec.
End ThreatDatabase.

(** ** Digest engine ([HashGenerator]) *)

Module HashGenerator.

Record Hashes := { md5 : string; sha1 : string; sha256 : string }.

Definition hashes_of (content : list byte) : Hashes :=
  {| md5 := Digest.md5 content;
     sha1 := Digest.sha1 content;
     sha256 := Digest.sha256 content |}.

(** One read stream feeds the three digests; a stream error rejects. *)
Definition generateAllHashes (filePath : string) : M World Hashes :=
  let* content := Env.readFile filePath in
  run* modify (fun w => with_digested w (filePath :: digested w)) in
  ret (hashes_of content).

End HashGenerator.

(** What a detector reports about a file. *)
Record ThreatInfo := {
  ti_name : string;
  ti_type : string;
  ti_severity : string;
  ti_description : string;
  ti_method : string
}.

(** ** Signature store in memory ([SignatureDetector]) *)

Module SignatureDetector.

Record SigInfo := {
  si_name : string;
  si_type : string;
  si_severity : string;
  si_description : string
}.

Record CompiledPattern := {
  cp_name : string;
  cp_type : string;
  cp_severity : string;
  cp_description : string;
  cp_pattern : RegExp.t;
  cp_offset : nat;
  cp_maxBytes : nat
}.

Record t := mk {
  signaturesLoaded : bool;
  hashes : gmap string SigInfo;
  patterns : list CompiledPattern
}.

Definition new : t :=
  {| signaturesLoaded := false; hashes := ∅; patterns := [] |}.

Definition info_of_hash (sig : HashSignature) : SigInfo :=
  {| si_name := hs_name sig; si_type := hs_type sig;
     si_severity := hs_severity sig; si_description := hs_description sig |}.

(** [new RegExp(sig.pattern, 'gi')] *)
Definition compile (sig : PatternSignature) : CompiledPattern :=
  {| cp_name := ps_name sig; cp_type := ps_type sig;
     cp_severity := ps_severity sig; cp_description := ps_description sig;
     cp_pattern := RegExp.mk (ps_pattern sig) true true 0;
     cp_offset := match ps_offset sig with Some (S n) => S n | _ => 0%nat end;
     cp_maxBytes :=
       match ps_maxBytes sig with Some (S n) => S n | _ => (1024 * 1024)%nat end |}.

(** The first call fills the table and the pattern list; later calls do
    nothing.  A later row with the same digest replaces an earlier one. *)
Definition loadSignatures (hashSignatures : list HashSignature)
           (patternSignatures : list PatternSignature) (d : t) : t :=
  if signaturesLoaded d then d
  else
    {| signaturesLoaded := true;
       hashes :=
         fold_left (fun m sig => <[Str.toLowerCase (hs_hash sig) := info_of_hash sig]> m)
                   hashSignatures (hashes d);
       patterns := map compile patternSignatures |}.

Definition truthy (s : string) : bool := negb (String.eqb s "").

Definition lookup_digest (d : t) (h : string) : option SigInfo :=
  if truthy h then hashes d !! Str.toLowerCase h else None.

Definition checkHashSignatures (d : t) (h : HashGenerator.Hashes) : option SigInfo :=
  match lookup_digest d (HashGenerator.md5 h) with
  | Some i => Some i
  | None =>
      match lookup_digest d (HashGenerator.sha1 h) with
      | Some i => Some i
      | None => lookup_digest d (HashGenerator.sha256 h)
      end
  end.

Definition scanExtensions : list string :=
  [".exe"; ".dll"; ".bat"; ".cmd"; ".ps1"; ".vbs"; ".js"; ".jar"; ".scr"; ".com"].

Definition maxReadSize : Z := 5 * 1024 * 1024.

Definition info_of_pattern (p : CompiledPattern) : SigInfo :=
  {| si_name := cp_name p; si_type := cp_type p;
     si_severity := cp_severity p; si_description := cp_description p |}.

Definition with_pattern (p : CompiledPattern) (re : RegExp.t) : CompiledPattern :=
  {| cp_name := cp_name p; cp_type := cp_type p; cp_severity := cp_severity p;
     cp_description := cp_description p; cp_pattern := re;
     cp_offset := cp_offset p; cp_maxBytes := cp_maxBytes p |}.

(** The loop over the compiled patterns: each [test] leaves its
    [lastIndex] behind in the pattern object. *)
Fixpoint test_patterns (content : string) (ps : list CompiledPattern)
  : option SigInfo * list CompiledPattern :=
  match ps with
  | [] => (None, [])
  | p :: rest =>
      let '(hit, re') := RegExp.test (cp_pattern p) content in
      if hit then (Some (info_of_pattern p), with_pattern p re' :: rest)
      else let '(r, rest') := test_patterns content rest in
           (r, with_pattern p re' :: rest')
  end.

(** State of a call: the environment and the detector object. *)
Definition St : Type := World * t.
Definition env {A} (m : M World A) : M St A :=
  zoom fst (fun s w => (w, snd s)) m.

Definition checkPatternSignatures (filePath : string) : M St (option SigInfo) :=
  try_catch
    (let* s := get in
     let ext := Str.toLowerCase (Path.extname (os_platform (fst s)) filePath) in
     if negb (Str.includes scanExtensions ext) then ret None
     else
       let* stats := env (Env.stat filePath) in
       let readSize := Z.min (Fs.size stats) maxReadSize in
       let* buffer := env (Env.readPrefix filePath (Z.to_nat readSize)) in
       let content := Bytes.to_binary_string buffer in
       let* s' := get in
       let '(r, ps') := test_patterns content (patterns (snd s')) in
       run* modify (fun st : St =>
                      (fst st, {| signaturesLoaded := signaturesLoaded (snd st);
                                  hashes := hashes (snd st);
                                  patterns := ps' |})) in
       ret r)
    (fun _ => ret None).

Definition threat_of (i : SigInfo) (method : string) : ThreatInfo :=
  {| ti_name := si_name i; ti_type := si_type i; ti_severity := si_severity i;
     ti_description := si_description i; ti_method := method |}.

(** [detect]: [hs] and [ps] are the rows the shared database object
    returns when the signatures are loaded. *)
Definition detect (hs : list HashSignature) (ps : list PatternSignature)
           (filePath : string) (h : HashGenerator.Hashes) : M St (option ThreatInfo) :=
  run* modify (fun st : St => (fst st, loadSignatures hs ps (snd st))) in
  let* s := get in
  match checkHashSignatures (snd s) h with
  | Some i => ret (Some (threat_of i "signature-hash"))
  | None =>
      let* r := checkPatternSignatures filePath in
      match r with
      | Some i => ret (Some (threat_of i "signature-pattern"))
      | None => ret None
      end
  end.

End SignatureDetector.

(** ** Heuristic scorer ([HeuristicAnalyzer]) *)

Module HeuristicAnalyzer.

Definition suspicionThresholds (sensitivity : string) : option Z :=
  if String.eqb sensitivity "low" then Some 60
  else if String.eqb sensitivity "medium" then Some 40
  else if String.eqb sensitivity "high" then Some 25
  else None.

(** [config.detection.heuristicSensitivity || 'medium'] *)
Definition sensitivity_of (config : Config) : string :=
  if String.eqb (detection_heuristicSensitivity config) "" then "medium"
  else detection_heuristicSensitivity config.

Definition highRiskExtensions : list string :=
  [".exe"; ".scr"; ".pif"; ".bat"; ".cmd"; ".com"; ".vbs"; ".vbe";
   ".js"; ".jse"; ".wsf"; ".wsh"; ".msi"; ".jar"; ".ps1"; ".psm1"].

Definition mediumRiskExtensions : list string :=
  [".dll"; ".sys"; ".drv"; ".ocx"; ".cpl"; ".scf"; ".lnk"; ".inf";
   ".reg"; ".hta"; ".gadget"; ".application"; ".msp"; ".mst"].

Definition checkSuspiciousExtension (ext fileName : string) : Z :=
  if Str.includes highRiskExtensions ext then 15
  else if Str.includes mediumRiskExtensions ext then 10
  else 0.

Import RegExp.

Definition dot_exe : regex := lit ".exe".
Definition hex_digit_class : regex :=
  Class false [("a"%char, "f"%char); ("0"%char, "9"%char)].

Definition suspiciousPatterns : list regex :=
  [lit "crack"; lit "keygen"; lit "patch"; lit "loader"; lit "activator";
   seqs [lit "setup"; any_star; plus digit; dot_exe];
   seqs [lit "update"; any_star; plus digit; dot_exe];
   seqs [lit "invoice"; any_star; dot_exe];
   seqs [lit "document"; any_star; dot_exe];
   seqs [lit "photo"; any_star; dot_exe];
   seqs [lit "video"; any_star; dot_exe];
   seqs [at_least 10 digit; dot_exe];
   seqs [Bol; rep 32 hex_digit_class];
   lit "svchost"; lit "csrss"; lit "lsass"; lit "winlogon"].

Definition checkSuspiciousFileName (fileName : string) : Z :=
  if existsb (fun p => test_i p fileName) suspiciousPatterns then 20 else 0.

Definition suspiciousLocations : list regex :=
  [lit "\temp\"; lit "\tmp\"; lit "\appdata\local\temp"; lit "\downloads\";
   lit "\recycler\"; lit "\system32\"; lit "\syswow64\"].

Definition checkSuspiciousLocation (filePath : string) : Z :=
  if existsb (fun p => test_i p filePath) suspiciousLocations then 10 else 0.

Definition checkSuspiciousSize (size : Z) (ext : string) : Z :=
  if Str.includes [".exe"; ".dll"; ".scr"] ext && (size <? 10 * 1024) then 15
  else if Str.includes [".bat"; ".cmd"; ".vbs"; ".ps1"] ext && (1024 * 1024 <? size) then 10
  else 0.

(** On win32 the output of [attrib "<path>"] is searched for the letters
    H and S; a failing command counts for nothing. *)
Definition checkFileAttributes (w : World) (filePath ext : string) : Z :=
  match os_platform w with
  | Win32 =>
      match attrib_output w filePath with
      | Some output =>
          if Str.includes [".exe"; ".dll"; ".scr"; ".bat"; ".cmd"] ext
             && (Str.includes_char output "H" || Str.includes_char output "S")
          then 15 else 0
      | None => 0
      end
  | Posix => 0
  end.

Definition double_ext (e : string) : regex := seqs [lit e; dot_exe; Eol].

Definition doubleExtPatterns : list regex :=
  [double_ext ".pdf"; double_ext ".doc"; double_ext ".jpg"; double_ext ".png";
   double_ext ".txt"; double_ext ".zip"; double_ext ".rar";
   seqs [Chr "."; plus word; Chr ".";
         alts [lit "exe"; lit "scr"; lit "bat"; lit "cmd"; lit "vbs"; lit "js"];
         Eol]].

Definition hasDoubleExtension (fileName : string) : bool :=
  existsb (fun p => test_i p fileName) doubleExtPatterns.

Definition byte_at (buffer : list byte) (i : nat) : Z := Bytes.to_Z (nth i buffer x00).

Definition executable_header (buffer : list byte) : bool :=
  let b := byte_at buffer in
  ((b 0%nat =? 77) && (b 1%nat =? 90))
  || ((b 0%nat =? 127) && (b 1%nat =? 69) && (b 2%nat =? 76) && (b 3%nat =? 70))
  || ((b 0%nat =? 254) && (b 1%nat =? 237) && (b 2%nat =? 250))
  || ((b 0%nat =? 207) && (b 1%nat =? 250) && (b 2%nat =? 237)).

Definition hasExecutableContent (w : World) (filePath ext : string) : bool :=
  if Str.includes [".exe"; ".dll"; ".scr"; ".com"] ext then false
  else match fst (Env.readPrefix filePath 512 w) with
       | Ok buffer => executable_header buffer
       | Throw _ => false
       end.

(** The outcome of the seven checks on a file. *)
Record Checks := {
  extScore : Z;
  nameScore : Z;
  locationScore : Z;
  sizeScore : Z;
  attrScore : Z;
  doubleExtension : bool;
  executableContent : bool
}.

Definition checks (w : World) (filePath : string) (stats : Fs.Stats) : Checks :=
  let ext := Str.toLowerCase (Path.extname (os_platform w) filePath) in
  let fileName := Path.basename (os_platform w) filePath in
  {| extScore := checkSuspiciousExtension ext fileName;
     nameScore := checkSuspiciousFileName fileName;
     locationScore := checkSuspiciousLocation filePath;
     sizeScore := checkSuspiciousSize (Fs.size stats) ext;
     attrScore := checkFileAttributes w filePath ext;
     doubleExtension := hasDoubleExtension fileName;
     executableContent := hasExecutableContent w filePath ext |}.

(** [if (s > 0) { suspicionScore += s }] *)
Definition add_if_positive (score s : Z) : Z := if 0 <? s then score + s else score.

Definition suspicionScore (c : Checks) : Z :=
  let s := add_if_positive 0 (extScore c) in
  let s := add_if_positive s (nameScore c) in
  let s := add_if_positive s (locationScore c) in
  let s := add_if_positive s (sizeScore c) in
  let s := add_if_positive s (attrScore c) in
  let s := if doubleExtension c then s + 20 else s in
  if executableContent c then s + 15 else s.

Definition suspiciousTraits (ext : string) (c : Checks) : list string :=
  ((if 0 <? extScore c then [String.append "Suspicious extension: " ext] else [])
   ++ (if 0 <? nameScore c then ["Suspicious file name pattern"] else [])
   ++ (if 0 <? locationScore c then ["Suspicious file location"] else [])
   ++ (if 0 <? sizeScore c then ["Unusual file size"] else [])
   ++ (if 0 <? attrScore c then ["Suspicious file attributes"] else [])
   ++ (if doubleExtension c then ["Double extension detected"] else [])
   ++ (if executableContent c then ["Executable content in non-executable file"] else []))%list.

Fixpoint join_traits (l : list string) : string :=
  match l with
  | [] => ""
  | [x] => x
  | x :: r => x ++ ", " ++ join_traits r
  end.

Record Detection := {
  info : ThreatInfo;
  score : Z;
  traits : list string
}.

Definition analyze (config : Config) (w : World) (filePath : string) (stats : Fs.Stats)
  : option Detection :=
  let ext := Str.toLowerCase (Path.extname (os_platform w) filePath) in
  let c := checks w filePath stats in
  let total := suspicionScore c in
  let tr := suspiciousTraits ext c in
  match suspicionThresholds (sensitivity_of config) with
  | Some threshold =>
      if threshold <=? total then
        Some {| info :=
                  {| ti_name := "Heuristic Detection";
                     ti_type := "suspicious";
                     ti_severity :=
                       if 70 <=? total then "high"
                       else if 50 <=? total then "medium" else "low";
                     ti_description :=
                       "Suspicious file detected (score: " ++ Num.dec total
                       ++ "). Traits: " ++ join_traits tr;
                     ti_method := "heuristic" |};
                score := total;
                traits := tr |}
      else None
  | None => None
  end.

End HeuristicAnalyzer.

(** ** Scan orchestrator ([FileScanner]) *)

Record Threat := {
  th_path : string;
  th_name : string;
  th_type : string;
  th_severity : string;
  th_description : string;
  th_detectionMethod : string;
  th_fileSize : Z;
  th_detectedAt : Z
}.

Record ScanStats := {
  filesScanned : Z;
  threatsFound : Z;
  errors : Z;
  startTime : option Z;
  endTime : option Z;
  duration : option Z;
  threats : list Threat
}.

(** Events handed to the listeners ([emit]).  The percentage of a
    progress event, a rounded floating-point quotient, is left out. *)
Inductive Event :=
| EvScanStarted (totalFiles : nat) (type : string)
| EvProgress (filesScanned : Z) (totalFiles : nat) (currentFile : string) (threatsFound : Z)
| EvThreatFound (t : Threat)
| EvScanComplete (s : ScanStats)
| EvScanStopped.

Module FileScanner.
Section WithCodec.
Context `{JsonCodec}.
Variable config : Config.

Record t := mk {
  db : ThreatDatabase.t;
  signatureDetector : SignatureDetector.t;
  scanning : bool;
  paused : bool;
  stats : ScanStats;
  scanId : option Z;
  emitted : list Event   (* oldest first *)
}.

Definition fresh_stats (start : option Z) : ScanStats :=
  {| filesScanned := 0; threatsFound := 0; errors := 0;
     startTime := start; endTime := None; duration := None; threats := [] |}.

Definition new : t :=
  {| db := ThreatDatabase.new; signatureDetector := SignatureDetector.new;
     scanning := false; paused := false; stats := fresh_stats None;
     scanId := None; emitted := [] |}.

Definition St : Type := World * t.

Definition with_db (s : t) (d : ThreatDatabase.t) : t :=
  {| db := d; signatureDetector := signatureDetector s; scanning := scanning s;
     paused := paused s; stats := stats s; scanId := scanId s; emitted := emitted s |}.
Definition with_detector (s : t) (d : SignatureDetector.t) : t :=
  {| db := db s; signatureDetector := d; scanning := scanning s;
     paused := paused s; stats := stats s; scanId := scanId s; emitted := emitted s |}.
Definition with_scanning (s : t) (b : bool) : t :=
  {| db := db s; signatureDetector := signatureDetector s; scanning := b;
     paused := paused s; stats := stats s; scanId := scanId s; emitted := emitted s |}.
Definition with_stats (s : t) (st : ScanStats) : t :=
  {| db := db s; signatureDetector := signatureDetector s; scanning := scanning s;
     paused := paused s; stats := st; scanId := scanId s; emitted := emitted s |}.
Definition with_scanId (s : t) (i : option Z) : t :=
  {| db := db s; signatureDetector := signatureDetector s; scanning := scanning s;
     paused := paused s; stats := stats s; scanId := i; emitted := emitted s |}.
Definition with_emitted (s : t) (l : list Event) : t :=
  {| db := db s; signatureDetector := signatureDetector s; scanning := scanning s;
     paused := paused s; stats := stats s; scanId := scanId s; emitted := l |}.

(** The collaborators work on the environment and on their own object. *)
Definition env {A} (m : M World A) : M St A :=
  zoom fst (fun s w => (w, snd s)) m.
Definition on_db {A} (m : M ThreatDatabase.St A) : M St A :=
  zoom (fun s => (fst s, db (snd s)))
       (fun s r => (fst r, with_db (snd s) (snd r))) m.
Definition on_detector {A} (m : M SignatureDetector.St A) : M St A :=
  zoom (fun s => (fst s, signatureDetector (snd s)))
       (fun s r => (fst r, with_detector (snd s) (snd r))) m.
Definition this (f : t -> t) : M St unit := modify (fun s => (fst s, f (snd s))).
Definition emit (e : Event) : M St unit :=
  this (fun s => with_emitted s (emitted s ++ [e])%list).
Definition set_stats (f : ScanStats -> ScanStats) : M St unit :=
  this (fun s => with_stats s (f (stats s))).

(** [isExcluded]: the extension list first, then the path prefixes. *)
Definition isExcluded (pf : platform) (filePath : string) : bool :=
  let ext := Str.toLowerCase (Path.extname pf filePath) in
  if Str.includes (exclusions_extensions config) ext then true
  else existsb (fun excludedPath => Str.startsWith filePath excludedPath)
               (exclusions_paths config).

Definition handleThreatFound (filePath : string) (threatInfo : ThreatInfo)
           (st : Fs.Stats) : M St Threat :=
  let* detectedAt := env Env.now in
  let threat :=
    {| th_path := filePath; th_name := ti_name threatInfo;
       th_type := ti_type threatInfo; th_severity := ti_severity threatInfo;
       th_description := ti_description threatInfo;
       th_detectionMethod := ti_method threatInfo;
       th_fileSize := Fs.size st; th_detectedAt := detectedAt |} in
  run* set_stats (fun s =>
         {| filesScanned := filesScanned s; threatsFound := threatsFound s + 1;
            errors := errors s; startTime := startTime s; endTime := endTime s;
            duration := duration s; threats := (threats s ++ [threat])%list |}) in
  let* s := get in
  (* not awaited; a failure is only logged.  The record is added to the
     data in memory at once; the write of the document that follows is
     taken here to finish before the next write begins. *)
  run* try_catch
         (on_db (ThreatDatabase.recordThreatDetection config (scanId (snd s))
                   (th_path threat) (th_name threat) (th_type threat)
                   (th_severity threat) (th_detectionMethod threat)))
         (fun _ => ret tt) in
  run* emit (EvThreatFound threat) in
  ret threat.

Definition is_code (e : JsError) (code : string) : bool :=
  match err_code e with
  | Some c => String.eqb c code
  | None => false
  end.

Definition scanFile (filePath : string) : M St (option Threat) :=
  try_catch
    (run* on_db (ThreatDatabase.initialize config) in
     let* st := env (Env.stat filePath) in
     if exclusions_maxFileSize config <? Fs.size st then ret None
     else if Fs.isDirectory st then ret None
     else
       let* s := get in
       if isExcluded (os_platform (fst s)) filePath then ret None
       else
         let* hashes := env (HashGenerator.generateAllHashes filePath) in
         let* signatureThreat :=
           (if detection_enableSignatureScanning config then
              let* s := get in
              on_detector
                (SignatureDetector.detect
                   (ThreatDatabase.getHashSignatures (db (snd s)))
                   (ThreatDatabase.getPatternSignatures (db (snd s)))
                   filePath hashes)
            else ret None) in
         match signatureThreat with
         | Some ti => let* th := handleThreatFound filePath ti st in ret (Some th)
         | None =>
             if detection_enableHeuristicAnalysis config then
               let* s := get in
               match HeuristicAnalyzer.analyze config (fst s) filePath st with
               | Some d =>
                   let* th := handleThreatFound filePath (HeuristicAnalyzer.info d) st in
                   ret (Some th)
               | None => ret None
               end
             else ret None
         end)
    (fun error =>
       if negb (is_code error "ENOENT") && negb (is_code error "EACCES")
       then throw error else ret None).

(** [collectFiles]: a scan path that is missing, or whose enumeration
    fails, contributes nothing. *)
Fixpoint collectFiles (paths : list string) (deep : bool) : M St (list string) :=
  match paths with
  | [] => ret []
  | scanPath :: rest =>
      let* found :=
        try_catch
          (let* present := env (Env.pathExists scanPath) in
           if negb present then ret []
           else let* s := get in lift_result (glob_files (fst s) scanPath deep))
          (fun _ => ret []) in
      let* more := collectFiles rest deep in
      ret (found ++ more)%list
  end.

(** [stop()], called by another task. *)
Definition stop : M St unit :=
  run* this (fun s => with_scanning s false) in
  emit EvScanStopped.

Definition count_file (totalFiles : nat) (filePath : string) : M St unit :=
  run* set_stats (fun s =>
         {| filesScanned := filesScanned s + 1; threatsFound := threatsFound s;
            errors := errors s; startTime := startTime s; endTime := endTime s;
            duration := duration s; threats := threats s |}) in
  let* s := get in
  let n := filesScanned (stats (snd s)) in
  if (n mod 10 =? 0) || (n =? Z.of_nat totalFiles) then
    emit (EvProgress n totalFiles filePath (threatsFound (stats (snd s))))
  else ret tt.

Definition count_error : M St unit :=
  set_stats (fun s =>
    {| filesScanned := filesScanned s; threatsFound := threatsFound s;
       errors := errors s + 1; startTime := startTime s; endTime := endTime s;
       duration := duration s; threats := threats s |}).

(** The loop over the collected files; [i] is the index of the next
    file.  A pause only delays the loop and is not represented: the loop
    is the one of a scanner that is not paused while it runs.  (A paused
    scanner waits after the test of [scanning], so it handles one more
    file when it is resumed after a stop.) *)
Fixpoint scan_loop (totalFiles : nat) (i : nat) (files : list string) : M St unit :=
  match files with
  | [] => ret tt
  | filePath :: rest =>
      let* s0 := get in
      run* (match external_stop (fst s0) with
            | Some n => if (n =? i)%nat then stop else ret tt
            | None => ret tt
            end) in
      let* s := get in
      if negb (scanning (snd s)) then ret tt
      else
        run* try_catch
               (run* scanFile filePath in count_file totalFiles filePath)
               (fun _ => count_error) in
        scan_loop totalFiles (S i) rest
  end.

Definition resolve_paths (type : string) (paths : list string) : M St (list string) :=
  if String.eqb type "quick" then ret (scanPaths_quick config)
  else if String.eqb type "full" then ret (scanPaths_full config)
  else if String.eqb type "custom" && (0 <? length paths)%nat then ret paths
  else throw (error_of "Invalid scan type or paths").

Definition scan (type : string) (paths : list string) (deep : bool) : M St ScanStats :=
  run* this (fun s => with_scanning s true) in
  run* on_db (ThreatDatabase.initialize config) in
  let* id := on_db (ThreatDatabase.recordScanStart config type) in
  run* this (fun s => with_scanId s (Some id)) in
  let* start := env Env.now in
  run* this (fun s => with_stats s (fresh_stats (Some start))) in
  finally
    (try_catch
       (let* scanPaths := resolve_paths type paths in
        let* filesToScan := collectFiles scanPaths deep in
        let totalFiles := length filesToScan in
        run* emit (EvScanStarted totalFiles type) in
        run* scan_loop totalFiles 0 filesToScan in
        let* endt := env Env.now in
        run* set_stats (fun s =>
               {| filesScanned := filesScanned s; threatsFound := threatsFound s;
                  errors := errors s; startTime := startTime s;
                  endTime := Some endt; duration := Some (endt - start);
                  threats := threats s |}) in
        let* s := get in
        run* on_db (ThreatDatabase.recordScanComplete config id
                      (filesScanned (stats (snd s))) (threatsFound (stats (snd s)))
                      (endt - start)) in
        let* s := get in
        run* emit (EvScanComplete (stats (snd s))) in
        let* s := get in
        ret (stats (snd s)))
       (fun error => throw error))
    (fun s => (fst s, with_scanning (snd s) false)).

End WithCodec.
End FileScanner.

(** ** Quarantine vault ([QuarantineManager]) *)

Record QuarantineResult := {
  qr_success : bool;
  qr_quarantineId : string;
  qr_message : string
}.

Record RestoreResult := {
  rr_success : bool;
  rr_restoredPath : string;
  rr_message : string
}.

Module QuarantineManager.
Section WithCodec.
Context `{JsonCodec}.
Variable config : Config.

Definition quarantinePath : string := paths_quarantine config.

(** [Buffer.from(text)]: UTF-8, two bytes for a code from 128 to 255. *)
Definition utf8_char (c : ascii) : list byte :=
  let n := Z.of_nat (nat_of_ascii c) in
  if n <? 128 then [Bytes.of_Z n]
  else [Bytes.of_Z (192 + n / 64); Bytes.of_Z (128 + n mod 64)].
Definition buffer_from (s : string) : list byte :=
  concat (map utf8_char (list_ascii_of_string s)).

Definition encryptionKey : list byte :=
  buffer_from (Str.substring0 (Str.padEnd (quarantine_encryptionKey config) 32 "0") 32).

(** The constructor makes sure the quarantine directory exists. *)
Definition new : M World unit := Env.ensureDir quarantinePath.

Definition generateQuarantineId : M World string :=
  let* t := Env.now in
  let* r := Env.randomBytes 8 in
  ret ("quar_" ++ Num.dec t ++ "_" ++ Bytes.hex (map Bytes.to_Z r)).

(** A fresh 16-byte IV is drawn for every call and put in front of the
    ciphertext. *)
Definition encryptFile (content : list byte) : M World (list byte) :=
  let* iv := Env.randomBytes 16 in
  let* encrypted := lift_result (AES.encrypt encryptionKey iv content) in
  ret (iv ++ encrypted)%list.

Definition decryptFile (encryptedContent : list byte) : result (list byte) :=
  let iv := firstn 16 encryptedContent in
  let encrypted := skipn 16 encryptedContent in
  AES.decrypt encryptionKey iv encrypted.

Definition quar_path (pf : platform) (quarantineId : string) : string :=
  Path.join pf quarantinePath (quarantineId ++ ".quar").
Definition meta_path (pf : platform) (quarantineId : string) : string :=
  Path.join pf quarantinePath (quarantineId ++ ".json").

Definition readJson (p : string) : M World Metadata :=
  let* bytes := Env.readFile p in
  match parse_meta bytes with
  | Some m => ret m
  | None => throw (error_of "Unexpected token in JSON")
  end.

Definition quarantineFile (filePath : string) : M World QuarantineResult :=
  try_catch
    (let* present := Env.pathExists filePath in
     if negb present then throw (error_of "File not found")
     else
       let* stats := Env.stat filePath in
       let* pf := gets os_platform in
       let fileName := Path.basename pf filePath in
       let* quarantineId := generateQuarantineId in
       let* fileContent := Env.readFile filePath in
       let* encryptedContent := encryptFile fileContent in
       run* Env.writeFile (quar_path pf quarantineId) encryptedContent in
       let* at_ := Env.now in
       let metadata :=
         {| md_id := quarantineId;
            md_originalPath := filePath;
            md_fileName := fileName;
            md_fileSize := Fs.size stats;
            md_quarantinedAt := at_;
            md_hash := Digest.sha256 fileContent |} in
       run* Env.writeFile (meta_path pf quarantineId) (stringify_meta metadata) in
       run* Env.remove filePath in
       ret {| qr_success := true;
              qr_quarantineId := quarantineId;
              qr_message := "File quarantined successfully: " ++ fileName |})
    (fun error => throw error).

Definition restoreFile (quarantineId : string) : M World RestoreResult :=
  try_catch
    (let* pf := gets os_platform in
     let metadataPath := meta_path pf quarantineId in
     let quarantineFilePath := quar_path pf quarantineId in
     let* hasMeta := Env.pathExists metadataPath in
     let* hasQuar := (if hasMeta then Env.pathExists quarantineFilePath else ret false) in
     if negb hasMeta || negb hasQuar then throw (error_of "Quarantined file not found")
     else
       let* metadata := readJson metadataPath in
       let* encryptedContent := Env.readFile quarantineFilePath in
       let* decryptedContent := lift_result (decryptFile encryptedContent) in
       let* dirThere := Env.pathExists (Path.dirname pf (md_originalPath metadata)) in
       let* home := gets os_homedir in
       let restorePath :=
         if dirThere then md_originalPath metadata
         else Path.join pf (Path.join pf home "Desktop")
                        ("Restored_" ++ md_fileName metadata) in
       run* Env.writeFile restorePath decryptedContent in
       run* Env.remove quarantineFilePath in
       run* Env.remove metadataPath in
       ret {| rr_success := true;
              rr_restoredPath := restorePath;
              rr_message := "File restored to: " ++ restorePath |})
    (fun error => throw error).

Definition permanentDelete (quarantineId : string) : M World (bool * string) :=
  try_catch
    (let* pf := gets os_platform in
     let metadataPath := meta_path pf quarantineId in
     let quarantineFilePath := quar_path pf quarantineId in
     let* hasQuar := Env.pathExists quarantineFilePath in
     run* (if hasQuar then Env.remove quarantineFilePath else ret tt) in
     let* hasMeta := Env.pathExists metadataPath in
     run* (if hasMeta then Env.remove metadataPath else ret tt) in
     ret (true, "File permanently deleted from quarantine"))
    (fun error => throw error).

(** [Array.prototype.sort] with the comparator
    [new Date(b.quarantinedAt) - new Date(a.quarantinedAt)]: a stable
    sort; [a] stays before [b] unless the comparator is positive. *)
Definition compare_newest_first (a b : Metadata) : Z :=
  md_quarantinedAt b - md_quarantinedAt a.

Fixpoint insert_sorted (x : Metadata) (l : list Metadata) : list Metadata :=
  match l with
  | [] => [x]
  | y :: r =>
      if 0 <? compare_newest_first x y then y :: insert_sorted x r
      else x :: l
  end.

Definition sort_newest_first (l : list Metadata) : list Metadata :=
  fold_right insert_sorted [] l.

Fixpoint read_all (pf : platform) (metadataFiles : list string) : M World (list Metadata) :=
  match metadataFiles with
  | [] => ret []
  | f :: rest =>
      let* metadata := readJson (Path.join pf quarantinePath f) in
      let* more := read_all pf rest in
      ret (metadata :: more)
  end.

Definition getQuarantineList : M World (list Metadata) :=
  try_catch
    (let* pf := gets os_platform in
     let* files := Env.readdir quarantinePath in
     let metadataFiles := List.filter (fun f => Str.endsWith f ".json") files in
     let* quarantineList := read_all pf metadataFiles in
     ret (sort_newest_first quarantineList))
    (fun _ => ret []).

End WithCodec.
End QuarantineManager.

(** ** Enumerations used by the proofs *)

Module ProofSupport.

(** The 256 bytes, in increasing order. *)
Definition all_bytes : list byte := map (fun n => Bytes.of_Z (Z.of_nat n)) (seq 0 256).

End ProofSupport.

(** ** Published test vectors *)

Module TestVectors.

Definition bytes_of (l : list Z) : list byte := map Bytes.of_Z l.

(** FIPS-197, appendix C.3: AES-256. *)
Definition fips_key : list byte := bytes_of (map Z.of_nat (seq 0 32)).
Definition fips_plaintext : list byte :=
  bytes_of [0; 17; 34; 51; 68; 85; 102; 119; 136; 153; 170; 187; 204; 221; 238; 255].

(** The key the shipped configuration yields, and a fixed vector. *)
Definition shipped_key : list byte := Bytes.of_string "CHANGE_THIS_IN_PRODUCTION0000000".
Definition fixed_iv : list byte := bytes_of (map Z.of_nat (seq 0 16)).

Definition hex_of_result (r : result (list byte)) : string :=
  match r with
  | Ok b => Bytes.hex (map Bytes.to_Z b)
  | Throw e => err_message e
  end.

End TestVectors.

(** ** A reference encoding of the stored documents

    Each text field is written character by character, every character
    preceded by the byte 01, and closed by the byte 00; numbers are written
    in decimal.  It stands in for the JSON text of [fs.writeJson] wherever
    a concrete encoding is needed. *)

Module RefCodec.

Fixpoint enc_string (s : string) : list byte :=
  match s with
  | EmptyString => [x00]
  | String c s' => x01 :: byte_of_ascii c :: enc_string s'
  end.

Fixpoint dec_string (fuel : nat) (l : list byte) : option (string * list byte) :=
  match fuel, l with
  | _, x00 :: rest => Some (EmptyString, rest)
  | S fuel', x01 :: b :: rest =>
      match dec_string fuel' rest with
      | Some (s, rest') => Some (String (ascii_of_byte b) s, rest')
      | None => None
      end
  | _, _ => None
  end.

Definition enc_Z (z : Z) : list byte := enc_string (Num.dec z).
Definition dec_Z (l : list byte) : option (Z * list byte) :=
  match dec_string (length l) l with
  | Some (s, rest) =>
      match NilZero.int_of_string s with
      | Some d => Some (Z.of_int d, rest)
      | None => None
      end
  | None => None
  end.

Definition enc_meta (m : Metadata) : list byte :=
  (enc_string (md_id m) ++ enc_string (md_originalPath m)
   ++ enc_string (md_fileName m) ++ enc_Z (md_fileSize m)
   ++ enc_Z (md_quarantinedAt m) ++ enc_string (md_hash m))%list.

Definition dec_meta (l : list byte) : option Metadata :=
  match dec_string (length l) l with
  | Some (id, l1) =>
  match dec_string (length l1) l1 with
  | Some (orig, l2) =>
  match dec_string (length l2) l2 with
  | Some (name, l3) =>
  match dec_Z l3 with
  | Some (size, l4) =>
  match dec_Z l4 with
  | Some (at_, l5) =>
  match dec_string (length l5) l5 with
  | Some (h, []) =>
      Some {| md_id := id; md_originalPath := orig; md_fileName := name;
              md_fileSize := size; md_quarantinedAt := at_; md_hash := h |}
  | _ => None
  end | None => None end | None => None end | None => None end
  | None => None end | None => None end.

(** The history store is only ever written in the examples; its text
    is the number of rows of each collection. *)
Definition enc_db (d : DbData) : list byte :=
  (enc_Z (Z.of_nat (length (hash_signatures d)))
   ++ enc_Z (Z.of_nat (length (pattern_signatures d)))
   ++ enc_Z (Z.of_nat (length (scan_history d)))
   ++ enc_Z (Z.of_nat (length (threat_detections d))))%list.

#[export] Instance codec : JsonCodec :=
  {| stringify_meta := enc_meta;
     parse_meta := dec_meta;
     stringify_db := enc_db;
     parse_db := fun _ => None |}.

End RefCodec.

(** ** Sample environments *)

Module Sample.

Definition eicar : string :=
  "X5O!P%@AP[4\PZX54(P^)7CC)7}$EICAR-STANDARD-ANTIVIRUS-TEST-FILE!$H+H*".

Definition config : Config := default_config Posix "/opt/av" "/home/u" "/tmp".

Definition dirs (l : list string) : gmap string Fs.node :=
  list_to_map (map (fun p => (p, Fs.Dir)) l).

Definition base_dirs : gmap string Fs.node :=
  dirs ["/"; "/opt"; "/opt/av"; "/opt/av/quarantine"; "/opt/av/database";
        "/home"; "/home/u"; "/home/u/Downloads"; "/home/u/Desktop"; "/tmp"].

Definition file (s : string) : Fs.node := Fs.File (Bytes.of_string s) None.

(** An environment over a given file system, with a given clock and
    random source. *)
Definition world_with (clk : nat -> Z) (files : gmap string Fs.node)
           (listing : list string) (ent : nat -> byte) : World :=
  {| fs := files ∪ base_dirs;
     os_platform := Posix;
     os_homedir := "/home/u";
     clock := clk;
     ticks := 0;
     entropy := ent;
     drawn := 0;
     attrib_output := fun _ => None;
     glob_files := fun p deep =>
       Ok (List.filter (fun f => Str.startsWith f p) listing);
     external_stop := None;
     digested := [] |}.

(** The clock starts at 1000 and advances by one per reading. *)
Definition world := world_with (fun n => 1000 + Z.of_nat n).

(** A clock that stands still. *)
Definition frozen_world := world_with (fun _ => 1000).

Definition counting : nat -> byte := fun n => Bytes.of_Z (Z.of_nat n).
Definition constant : nat -> byte := fun _ => x00.

End Sample.

(** ** Vocabulary of the statements *)

(** The order of the quarantine listing: the later timestamp first. *)
Definition newest_first (a b : Metadata) : Prop :=
  md_quarantinedAt b <= md_quarantinedAt a.

(** Outcome messages of the quarantine operations. *)
Definition deleted_message : string := "File permanently deleted from quarantine".
Definition not_found : JsError := error_of "Quarantined file not found".

(** Characters that may occur where the statements need to tell names
    apart. *)
Definition underscore (c : ascii) : bool := Ascii.eqb c "_".

Fixpoint string_forallb (f : ascii -> bool) (s : string) : bool :=
  match s with
  | EmptyString => true
  | String c s' => f c && string_forallb f s'
  end.

Definition dec_char (c : ascii) : bool :=
  let n := nat_of_ascii c in ((48 <=? n) && (n <=? 57) || (n =? 45))%nat.

Definition hex_char (c : ascii) : bool :=
  let n := nat_of_ascii c in ((48 <=? n) && (n <=? 57) || (97 <=? n) && (n <=? 102))%nat.

Definition unhex (c : ascii) : Z :=
  let n := Z.of_nat (nat_of_ascii c) in if n <? 58 then n - 48 else n - 87.

(** The id and the initialisation vector a quarantine call obtains in the
    environment [w]: the id uses the next clock reading and the next eight
    random bytes, the vector the sixteen bytes after those. *)
Definition quarantine_id (w : World) : string :=
  "quar_" ++ Num.dec (clock w (ticks w)) ++ "_"
  ++ Bytes.hex (map Bytes.to_Z (map (entropy w) (seq (drawn w) 8))).

Definition quarantine_iv (w : World) : list byte :=
  map (entropy w) (seq (drawn w + 8) 16).

Definition no_sep (pf : platform) (c : ascii) : bool := negb (Path.is_sep pf c).

(** [w'] differs from [w] at most in the file system and in the record of
    digested paths. *)
Definition same_machine (w w' : World) : Prop :=
  os_platform w' = os_platform w /\ os_homedir w' = os_homedir w
  /\ clock w' = clock w /\ ticks w' = ticks w
  /\ entropy w' = entropy w /\ drawn w' = drawn w.

(** The metadata document a quarantine call writes for [filePath]. *)
Definition metadata_of (w : World) (filePath : string) (content : list byte) : Metadata :=
  {| md_id := quarantine_id w;
     md_originalPath := filePath;
     md_fileName := Path.basename (os_platform w) filePath;
     md_fileSize := Z.of_nat (length content);
     md_quarantinedAt := clock w (S (ticks w));
     md_hash := Digest.sha256 content |}.

(** The values of a byte. *)
Definition byte_range (b : Z) : Prop := 0 <= b < 256.

(** Blocks of the cipher. *)
Definition block16 (b : list byte) : Prop := length b = 16%nat.

Definition col_eqb (x y : AES.column) : bool :=
  let '(a, b, c, d) := x in
  let '(a', b', c', d') := y in
  Byte.eqb a a' && Byte.eqb b b' && Byte.eqb c c' && Byte.eqb d d'.

(** A sample run of the vault: one file with the EICAR text in the
    downloads directory. *)
Module SampleVault.
Import Sample RefCodec.

Definition path : string := "/home/u/Downloads/eicar.com".
Definition content : list byte := Bytes.of_string eicar.
Definition start : World := world (<[path := file eicar]> ∅) [path] counting.
Definition quarantined := QuarantineManager.quarantineFile config path start.
Definition id : string := "quar_1000_0001020304050607".
Definition restored := QuarantineManager.restoreFile config id (snd quarantined).

(** Two files quarantined one after the other. *)
Definition path_a : string := "/home/u/Downloads/a.bin".
Definition path_b : string := "/home/u/Downloads/b.bin".
Definition two_files : gmap string Fs.node :=
  <[path_a := file "first"]> (<[path_b := file "second"]> ∅).
Definition id_bytes (w : World) : list byte := map (entropy w) (seq (drawn w) 8).

End SampleVault.

(** One outcome of the checks has at least the traits of another. *)
Definition checks_le (c c' : HeuristicAnalyzer.Checks) : Prop :=
  HeuristicAnalyzer.extScore c <= HeuristicAnalyzer.extScore c'
  /\ HeuristicAnalyzer.nameScore c <= HeuristicAnalyzer.nameScore c'
  /\ HeuristicAnalyzer.locationScore c <= HeuristicAnalyzer.locationScore c'
  /\ HeuristicAnalyzer.sizeScore c <= HeuristicAnalyzer.sizeScore c'
  /\ HeuristicAnalyzer.attrScore c <= HeuristicAnalyzer.attrScore c'
  /\ (HeuristicAnalyzer.doubleExtension c = true -> HeuristicAnalyzer.doubleExtension c' = true)
  /\ (HeuristicAnalyzer.executableContent c = true -> HeuristicAnalyzer.executableContent c' = true).

(** The contributions of the seven checks, added up. *)
Definition sum_of_weights (c : HeuristicAnalyzer.Checks) : Z :=
  HeuristicAnalyzer.extScore c + HeuristicAnalyzer.nameScore c
  + HeuristicAnalyzer.locationScore c + HeuristicAnalyzer.sizeScore c
  + HeuristicAnalyzer.attrScore c
  + (if HeuristicAnalyzer.doubleExtension c then 20 else 0)
  + (if HeuristicAnalyzer.executableContent c then 15 else 0).

Module SampleHeuristic.
Import Sample.

Definition plain : string := "/home/u/Downloads/report.exe".
Definition doubled : string := "/home/u/Downloads/report.pdf.exe".
Definition small : Fs.Stats := {| Fs.size := 5; Fs.isDirectory := false |}.
Definition w : World :=
  world (<[plain := file "hello"]> (<[doubled := file "hello"]> ∅)) [plain; doubled] counting.

End SampleHeuristic.

(** A compiled pattern occurs somewhere in a text, and the first
    signature of a catalog, in catalog order, whose pattern does. *)
Definition pattern_matches (p : SignatureDetector.CompiledPattern) (content : string) : bool :=
  match RegExp.search (RegExp.source (SignatureDetector.cp_pattern p))
                      (RegExp.ignoreCase (SignatureDetector.cp_pattern p))
                      0 (list_ascii_of_string content) with
  | Some _ => true
  | None => false
  end.

Definition first_matching_signature (content : string)
           (ps : list SignatureDetector.CompiledPattern) : option SignatureDetector.SigInfo :=
  option_map SignatureDetector.info_of_pattern
             (List.find (fun p => pattern_matches p content) ps).

Definition rewound (p : SignatureDetector.CompiledPattern) : Prop :=
  RegExp.lastIndex (SignatureDetector.cp_pattern p) = 0%nat.

(** Two scripts that fetch a program; the second is the shorter one. *)
Module SamplePatterns.
Import Sample.

Definition path_a : string := "/home/u/Downloads/a.ps1".
Definition path_b : string := "/home/u/Downloads/b.ps1".
Definition text_a : string := "xxxxxxxxx curl http://h/a.exe".
Definition text_b : string := "curl http://h/a.exe".
Definition w : World :=
  world (<[path_a := file text_a]> (<[path_b := file text_b]> ∅)) [path_a; path_b] counting.
Definition detector : SignatureDetector.t :=
  SignatureDetector.loadSignatures [] [ThreatDatabase.powershell_downloader]
                                   SignatureDetector.new.
Definition downloader : SignatureDetector.SigInfo :=
  {| SignatureDetector.si_name := "PowerShell.Downloader";
     SignatureDetector.si_type := "trojan";
     SignatureDetector.si_severity := "high";
     SignatureDetector.si_description := "PowerShell download and execute pattern" |}.
Definition first_call := SignatureDetector.checkPatternSignatures path_a (w, detector).
Definition same_file_again := SignatureDetector.checkPatternSignatures path_a (snd first_call).
Definition other_file := SignatureDetector.checkPatternSignatures path_b (snd first_call).

End SamplePatterns.

(** ** Vocabulary of the scanner statements *)

(** The session a scan records when it starts. *)
Definition running_session (id start : Z) (type : string) : ScanSession :=
  {| ss_id := id; ss_scan_type := type; ss_start_time := start; ss_status := Running;
     ss_files_scanned := 0; ss_threats_found := 0; ss_end_time := None; ss_duration := None |}.

Definition invalid_request : JsError := error_of "Invalid scan type or paths".

(** The three digests of a content, in the order the detector looks them
    up. *)
Definition digests_of (content : list byte) : list string :=
  [Digest.md5 content; Digest.sha1 content; Digest.sha256 content].

(** A row of the catalog whose digest, in lower case, is a digest of the
    content. *)
Definition cataloged (hs : list HashSignature) (content : list byte) (sig : HashSignature) : Prop :=
  In sig hs /\ In (Str.toLowerCase (hs_hash sig)) (digests_of content).

(** The entry one catalog row puts into the table of a detector. *)
Definition add_row (m : gmap string SignatureDetector.SigInfo) (sig : HashSignature)
  : gmap string SignatureDetector.SigInfo :=
  <[Str.toLowerCase (hs_hash sig) := SignatureDetector.info_of_hash sig]> m.

(** The table a detector builds from a catalog, and a detector that is
    either new or has loaded exactly that catalog. *)
Definition table_of (hs : list HashSignature) : gmap string SignatureDetector.SigInfo :=
  SignatureDetector.hashes (SignatureDetector.loadSignatures hs [] SignatureDetector.new).

Definition in_step (d : SignatureDetector.t) (hs : list HashSignature) : Prop :=
  SignatureDetector.hashes (SignatureDetector.loadSignatures hs [] d) = table_of hs.

Definition eicar_bytes : list byte := Bytes.of_string Sample.eicar.

(** A file other than the history store whose size exceeds the bound. *)
Definition oversized (config : Config) (w : World) (p : string) : bool :=
  negb (String.eqb p (ThreatDatabase.dbPath config))
  && match fs w !! p with
     | Some (Fs.File content _) => exclusions_maxFileSize config <? Z.of_nat (length content)
     | _ => false
     end.

(** The files a scan started in a state collects: the steps of [scan] up
    to [collectFiles]. *)
Definition enumerated `{JsonCodec} (config : Config) (type : string) (paths : list string)
           (deep : bool) : M FileScanner.St (list string) :=
  run* FileScanner.this (fun s => FileScanner.with_scanning s true) in
  run* FileScanner.on_db (ThreatDatabase.initialize config) in
  let* id := FileScanner.on_db (ThreatDatabase.recordScanStart config type) in
  run* FileScanner.this (fun s => FileScanner.with_scanId s (Some id)) in
  let* start := FileScanner.env Env.now in
  run* FileScanner.this (fun s => FileScanner.with_stats s (FileScanner.fresh_stats (Some start))) in
  let* scanPaths := FileScanner.resolve_paths config type paths in
  FileScanner.collectFiles scanPaths deep.

(** ** What the steps of a scan leave alone *)

(** Every run of [m] relates the state before to the state after. *)
Definition preserves {S A} (R : S -> S -> Prop) (m : M S A) : Prop :=
  forall s r s', m s = (r, s') -> R s s'.

Definition within_size (config : Config) (w : World) (q : string) : Prop :=
  q = ThreatDatabase.dbPath config
  \/ exists content e, fs w !! q = Some (Fs.File content e)
                       /\ Z.of_nat (length content) <= exclusions_maxFileSize config.

(** Regular files other than the history store are kept as they are, no
    file appears, and a newly digested path is a file within the bound. *)
Record world_step (config : Config) (w w' : World) : Prop := {
  step_stop : external_stop w' = external_stop w;
  step_files : forall q content e, q <> ThreatDatabase.dbPath config ->
      (fs w !! q = Some (Fs.File content e) <-> fs w' !! q = Some (Fs.File content e));
  step_digested : forall q, In q (digested w') -> In q (digested w) \/ within_size config w q
}.

Record db_step (config : Config) (a b : ThreatDatabase.St) : Prop := {
  db_world : world_step config (fst a) (fst b);
  db_init : ThreatDatabase.initialized (snd a) = true ->
            ThreatDatabase.initialized (snd b) = true
}.

Definition detector_step (a b : SignatureDetector.St) : Prop := fst b = fst a.

Record scan_step (config : Config) (a b : FileScanner.St) : Prop := {
  sc_world : world_step config (fst a) (fst b);
  sc_init : ThreatDatabase.initialized (FileScanner.db (snd a)) = true ->
            ThreatDatabase.initialized (FileScanner.db (snd b)) = true;
  sc_scanning : FileScanner.scanning (snd b) = FileScanner.scanning (snd a);
  sc_counted : filesScanned (FileScanner.stats (snd b)) = filesScanned (FileScanner.stats (snd a));
  sc_errors : errors (FileScanner.stats (snd b)) = errors (FileScanner.stats (snd a))
}.

(** Sample scans. *)
Module SampleScan.
Import Sample RefCodec.

Definition in_downloads (name content : string) : World :=
  world (<[Path.join Posix "/home/u/Downloads" name := file content]> ∅)
        [Path.join Posix "/home/u/Downloads" name] counting.

Definition eicar_com : string := "/home/u/Downloads/eicar.com".
Definition eicar_pdf : string := "/home/u/Downloads/eicar.pdf".
Definition eicar_txt : string := "/home/u/Downloads/eicar.txt".
Definition big : string := "/home/u/Downloads/big.bin".

Definition empty_world : World := world ∅ [] counting.

(** The shipped configuration with a bound of three bytes. *)
Definition tight_config : Config :=
  {| paths_quarantine := paths_quarantine config;
     paths_database := paths_database config;
     scanPaths_quick := scanPaths_quick config;
     scanPaths_full := scanPaths_full config;
     exclusions_paths := exclusions_paths config;
     exclusions_extensions := exclusions_extensions config;
     exclusions_maxFileSize := 3;
     detection_enableSignatureScanning := true;
     detection_enableHeuristicAnalysis := true;
     detection_heuristicSensitivity := "medium";
     quarantine_encryptionKey := quarantine_encryptionKey config |}.

Definition started (w : World) : ThreatDatabase.St :=
  snd (ThreatDatabase.initialize config (w, ThreatDatabase.new)).

Definition loaded (w : World) : ThreatDatabase.St :=
  snd (ThreatDatabase.load config (w, ThreatDatabase.new)).

(** The scan of one file with the EICAR text, by a new scanner. *)
Definition scan_of (name : string) :=
  FileScanner.scanFile config (Path.join Posix "/home/u/Downloads" name)
                       (in_downloads name eicar, FileScanner.new).

(** A custom scan without paths. *)
Definition recorded : ThreatDatabase.St :=
  snd (ThreatDatabase.recordScanStart config "custom" (started empty_world)).
Definition invalid_scan :=
  FileScanner.scan config "custom" [] true (empty_world, FileScanner.new).

(** A quick scan over one file of five bytes, with the bound at three. *)
Definition big_world : World := in_downloads "big.bin" "hello".
Definition tight_scan := FileScanner.scan tight_config "quick" [] true (big_world, FileScanner.new).
Definition tight_enumeration :=
  enumerated tight_config "quick" [] true (big_world, FileScanner.new).
Definition tight_stats : ScanStats :=
  {| filesScanned := 1; threatsFound := 0; errors := 0; startTime := Some 1002;
     endTime := Some 1003; duration := Some 1; threats := [] |}.

End SampleScan.

(** ** Further functions of the digest engine ([HashGenerator]) *)

Module Hashing.

(** The algorithms the program asks for by name. *)
Inductive algorithm := MD5 | SHA1 | SHA256.

Definition digest (a : algorithm) (content : list byte) : string :=
  match a with
  | MD5 => Digest.md5 content
  | SHA1 => Digest.sha1 content
  | SHA256 => Digest.sha256 content
  end.

(** One read stream feeds one digest; a stream error rejects. *)
Definition generateHash (filePath : string) (a : algorithm) : M World string :=
  let* content := Env.readFile filePath in
  run* modify (fun w => with_digested w (filePath :: digested w)) in
  ret (digest a content).

Definition generateMD5 (filePath : string) : M World string := generateHash filePath MD5.
Definition generateSHA256 (filePath : string) : M World string := generateHash filePath SHA256.
Definition generateSHA1 (filePath : string) : M World string := generateHash filePath SHA1.

(** [actualHash.toLowerCase() === expectedHash.toLowerCase()] *)
Definition verifyHash (filePath expectedHash : string) (a : algorithm) : M World bool :=
  let* actualHash := generateHash filePath a in
  ret (String.eqb (Str.toLowerCase actualHash) (Str.toLowerCase expectedHash)).

End Hashing.

(** ** The header check of the signature store ([checkPEHeader]) *)

Module PeHeader.

(** [buffer[i]]: [None] stands for [undefined], past the end. *)
Definition at_index (buffer : list byte) (i : Z) : option Z :=
  if (i <? 0) || (Z.of_nat (length buffer) <=? i) then None
  else match nth_error buffer (Z.to_nat i) with
       | Some b => Some (Bytes.to_Z b)
       | None => None
       end.

Definition is_byte (x : option Z) (v : Z) : bool :=
  match x with
  | Some b => b =? v
  | None => false
  end.

(** [buffer.readUInt32LE(off)] on a buffer that is long enough. *)
Definition readUInt32LE (buffer : list byte) (off : nat) : Z :=
  Digest.le_word (map Bytes.to_Z (firstn 4 (skipn off buffer))).

Definition checkPEHeader (filePath : string)
  : M SignatureDetector.St (option SignatureDetector.SigInfo) :=
  try_catch
    (let* s := get in
     let ext := Str.toLowerCase (Path.extname (os_platform (fst s)) filePath) in
     if negb (String.eqb ext ".exe") && negb (String.eqb ext ".dll") then ret None
     else
       let* buffer := SignatureDetector.env (Env.readPrefix filePath 1024) in
       if negb (is_byte (at_index buffer 0) 77) || negb (is_byte (at_index buffer 1) 90)
       then ret None
       else
         let peOffset := readUInt32LE buffer 60 in
         if is_byte (at_index buffer peOffset) 80 && is_byte (at_index buffer (peOffset + 1)) 69
         then ret None
         else ret None)
    (fun _ => ret None).

End PeHeader.

(** ** Queries of the history store ([getScanHistory], [getStatistics]) *)

Module Js.

(** [Array.prototype.sort] with the comparator [key(b) - key(a)]: a
    stable sort; [a] stays before [b] unless the comparator is
    positive. *)
Fixpoint insert_desc {A} (key : A -> Z) (x : A) (l : list A) : list A :=
  match l with
  | [] => [x]
  | y :: r => if 0 <? key y - key x then y :: insert_desc key x r else x :: l
  end.

Definition sort_desc {A} (key : A -> Z) (l : list A) : list A :=
  fold_right (insert_desc key) [] l.

(** [Set.prototype.add] on a set kept in insertion order. *)
Definition set_add (x : string) (l : list string) : list string :=
  if existsb (String.eqb x) l then l else (l ++ [x])%list.

(** [Set.prototype.delete] *)
Definition set_delete (x : string) (l : list string) : list string :=
  List.filter (fun y => negb (String.eqb x y)) l.

End Js.

Record Statistics := {
  totalScans : nat;
  totalThreats : nat;
  totalFilesScanned : Z;
  recentThreats : list ThreatDetection
}.

Module History.

(** [[...scan_history].sort(...).slice(0, limit)]; the stored list is
    copied first and stays as it is. *)
Definition getScanHistory (limit : nat) (db : ThreatDatabase.t) : list ScanSession :=
  firstn limit (Js.sort_desc ss_start_time (scan_history (ThreatDatabase.data db))).

Definition defaultLimit : nat := 50.

Definition getStatistics (db : ThreatDatabase.t) : Statistics :=
  {| totalScans := length (scan_history (ThreatDatabase.data db));
     totalThreats := length (threat_detections (ThreatDatabase.data db));
     totalFilesScanned :=
       fold_left (fun sum s => sum + ss_files_scanned s)
                 (scan_history (ThreatDatabase.data db)) 0;
     recentThreats :=
       firstn 10 (Js.sort_desc td_detected_at
                               (threat_detections (ThreatDatabase.data db))) |}.

End History.

(** ** Expiry of quarantined files ([cleanOldQuarantine]) *)

Module Expiry.
Section WithCodec.
Context `{JsonCodec}.
Variable config : Config.

(** [days_before now n]: the time [setDate(getDate() - n)] yields from
    [now] in the local calendar of the host. *)
Variable days_before : Z -> Z -> Z.

Fixpoint clean_each (cutoffDate : Z) (list : list Metadata) : M World unit :=
  match list with
  | [] => ret tt
  | item :: rest =>
      run* (if md_quarantinedAt item <? cutoffDate then
              run* QuarantineManager.permanentDelete config (md_id item) in ret tt
            else ret tt) in
      clean_each cutoffDate rest
  end.

Definition cleanOldQuarantine (daysOld : Z) : M World unit :=
  try_catch
    (let* list := QuarantineManager.getQuarantineList config in
     let* now := Env.now in
     let cutoffDate := days_before now daysOld in
     clean_each cutoffDate list)
    (fun _ => ret tt).

Definition defaultDays : Z := 30.

End WithCodec.
End Expiry.

(** ** Real-time protection ([FileWatcher]) *)

Inductive WatcherEvent :=
| EvStarted
| EvStopped
| EvThreatQuarantined (t : Threat)
| EvThreatDetected (t : Threat).

(** Desktop notifications: the threat found in a file, and the
    quarantined threat. *)
Inductive Notice :=
| NoticeThreatDetected (name fileName : string)
| NoticeQuarantined (name : string).

Module FileWatcher.
Section WithCodec.
Context `{JsonCodec}.
Variable config : Config.

Record t := mk {
  scanner : FileScanner.t;
  watching : bool;
  scanQueue : list string;      (* a Set, in insertion order *)
  processing : bool;
  emitted : list WatcherEvent;  (* oldest first *)
  notified : list Notice        (* oldest first *)
}.

Definition St : Type := World * t.

Definition with_scanner (s : t) (x : FileScanner.t) : t :=
  {| scanner := x; watching := watching s; scanQueue := scanQueue s;
     processing := processing s; emitted := emitted s; notified := notified s |}.
Definition with_watching (s : t) (b : bool) : t :=
  {| scanner := scanner s; watching := b; scanQueue := scanQueue s;
     processing := processing s; emitted := emitted s; notified := notified s |}.
Definition with_scanQueue (s : t) (q : list string) : t :=
  {| scanner := scanner s; watching := watching s; scanQueue := q;
     processing := processing s; emitted := emitted s; notified := notified s |}.
Definition with_processing (s : t) (b : bool) : t :=
  {| scanner := scanner s; watching := watching s; scanQueue := scanQueue s;
     processing := b; emitted := emitted s; notified := notified s |}.
Definition with_emitted (s : t) (l : list WatcherEvent) : t :=
  {| scanner := scanner s; watching := watching s; scanQueue := scanQueue s;
     processing := processing s; emitted := l; notified := notified s |}.
Definition with_notified (s : t) (l : list Notice) : t :=
  {| scanner := scanner s; watching := watching s; scanQueue := scanQueue s;
     processing := processing s; emitted := emitted s; notified := l |}.

(** The constructor builds a scanner and a quarantine manager, which
    makes sure the quarantine directory exists. *)
Definition new : M World t :=
  run* QuarantineManager.new config in
  ret {| scanner := FileScanner.new; watching := false; scanQueue := [];
         processing := false; emitted := []; notified := [] |}.

Definition env {A} (m : M World A) : M St A :=
  zoom fst (fun s w => (w, snd s)) m.
Definition on_scanner {A} (m : M FileScanner.St A) : M St A :=
  zoom (fun s => (fst s, scanner (snd s)))
       (fun s r => (fst r, with_scanner (snd s) (snd r))) m.
Definition this (f : t -> t) : M St unit := modify (fun s => (fst s, f (snd s))).
Definition emit (e : WatcherEvent) : M St unit :=
  this (fun s => with_emitted s (emitted s ++ [e])%list).
Definition notify (n : Notice) : M St unit :=
  this (fun s => with_notified s (notified s ++ [n])%list).

(** [start()]: the registration with the file-system watcher is the
    environment's part; what remains is the flag and the event. *)
Definition start : M St unit :=
  let* s := get in
  if watching (snd s) then ret tt
  else
    run* this (fun s => with_watching s true) in
    emit EvStarted.

Definition stop : M St unit :=
  run* this (fun s => with_watching s false) in
  run* this (fun s => with_scanQueue s []) in
  emit EvStopped.

Definition handleFileChange (filePath : string) : M St unit :=
  this (fun s => with_scanQueue s (Js.set_add filePath (scanQueue s))).

(** [{ ...threat, path: filePath }] *)
Definition with_path (th : Threat) (filePath : string) : Threat :=
  {| th_path := filePath; th_name := th_name th; th_type := th_type th;
     th_severity := th_severity th; th_description := th_description th;
     th_detectionMethod := th_detectionMethod th; th_fileSize := th_fileSize th;
     th_detectedAt := th_detectedAt th |}.

Definition scanAndHandle (filePath : string) : M St unit :=
  try_catch
    (let* threat := on_scanner (FileScanner.scanFile config filePath) in
     match threat with
     | Some th =>
         let* s := get in
         run* notify (NoticeThreatDetected (th_name th)
                        (Path.basename (os_platform (fst s)) (th_path th))) in
         try_catch
           (run* env (QuarantineManager.quarantineFile config filePath) in
            run* notify (NoticeQuarantined (th_name th)) in
            emit (EvThreatQuarantined (with_path th filePath)))
           (fun _ => emit (EvThreatDetected (with_path th filePath)))
     | None => ret tt
     end)
    (fun _ => ret tt).

(** One turn of the loop of [processQueue], without the pause that
    follows it. *)
Definition process_turn : M St unit :=
  let* s := get in
  if negb (watching (snd s)) then ret tt
  else
    match scanQueue (snd s) with
    | filePath :: _ =>
        if processing (snd s) then ret tt
        else
          run* this (fun s => with_processing s true) in
          run* this (fun s => with_scanQueue s (Js.set_delete filePath (scanQueue s))) in
          run* try_catch (scanAndHandle filePath) (fun _ => ret tt) in
          this (fun s => with_processing s false)
    | [] => ret tt
    end.

Definition isWatching (s : t) : bool := watching s.

End WithCodec.
End FileWatcher.

(** ** Vocabulary of the further statements *)

(** What the scan of a file, or of a list of files, leaves of the
    bookkeeping: the history and the scan id stay, and the threats
    reported are added at the end, each for one of the paths [allowed]. *)
Record trace_step (allowed : list string) (a b : FileScanner.St) : Prop := {
  tr_init : ThreatDatabase.initialized (FileScanner.db (snd a)) = true ->
            ThreatDatabase.initialized (FileScanner.db (snd b)) = true
            /\ scan_history (ThreatDatabase.data (FileScanner.db (snd b)))
               = scan_history (ThreatDatabase.data (FileScanner.db (snd a)));
  tr_scanId : FileScanner.scanId (snd b) = FileScanner.scanId (snd a);
  tr_start : startTime (FileScanner.stats (snd b)) = startTime (FileScanner.stats (snd a));
  tr_threats : exists new,
      threats (FileScanner.stats (snd b)) = (threats (FileScanner.stats (snd a)) ++ new)%list
      /\ threatsFound (FileScanner.stats (snd b))
         = threatsFound (FileScanner.stats (snd a)) + Z.of_nat (length new)
      /\ Forall (fun t => In (th_path t) allowed) new
}.

(** The store keeps its history once it is initialised. *)
Definition history_step (a b : ThreatDatabase.St) : Prop :=
  ThreatDatabase.initialized (snd a) = true ->
  ThreatDatabase.initialized (snd b) = true
  /\ scan_history (ThreatDatabase.data (snd b)) = scan_history (ThreatDatabase.data (snd a)).

(** A session as [recordScanComplete] leaves it. *)
Definition completed_with (st : ScanStats) (x : ScanSession) : Prop :=
  ss_status x = Completed
  /\ ss_files_scanned x = filesScanned st
  /\ ss_threats_found x = threatsFound st
  /\ ss_duration x = duration st
  /\ ss_end_time x <> None.

Definition has_id (id : Z) (x : ScanSession) : bool := ss_id x =? id.

(** The scanner object when the loop of a scan starts, the statistics a
    scan returns, and the scanner object it leaves. *)
Definition loop_start (s : FileScanner.t) (d : ThreatDatabase.t) (id start : Z)
           (totalFiles : nat) (type : string) : FileScanner.t :=
  FileScanner.with_emitted
    (FileScanner.with_stats
       (FileScanner.with_scanId (FileScanner.with_db (FileScanner.with_scanning s true) d)
                                (Some id))
       (FileScanner.fresh_stats (Some start)))
    (FileScanner.emitted s ++ [EvScanStarted totalFiles type])%list.

Definition finished (x : ScanStats) (start endt : Z) : ScanStats :=
  {| filesScanned := filesScanned x; threatsFound := threatsFound x; errors := errors x;
     startTime := startTime x; endTime := Some endt; duration := Some (endt - start);
     threats := threats x |}.

Definition loop_end (s : FileScanner.t) (st : ScanStats) (d : ThreatDatabase.t) : FileScanner.t :=
  FileScanner.with_scanning
    (FileScanner.with_emitted (FileScanner.with_db (FileScanner.with_stats s st) d)
                              (FileScanner.emitted s ++ [EvScanComplete st])%list)
    false.

(** The text a pattern check reads from a regular file: the first
    [min size maxReadSize] bytes, one character per byte. *)
Definition checked_text (content : list byte) : string :=
  Bytes.to_binary_string
    (firstn (Z.to_nat (Z.min (Z.of_nat (length content)) SignatureDetector.maxReadSize))
            content).

(** A character that [Buffer.from] writes as one byte. *)
Definition ascii7 (c : ascii) : bool := Z.of_nat (nat_of_ascii c) <? 128.

(** [n] characters ['0']. *)
Definition zeros (n : nat) : string := string_of_list_ascii (repeat "0"%char n).

(** The configuration with another quarantine key. *)
Definition with_encryptionKey (c : Config) (key : string) : Config :=
  {| paths_quarantine := paths_quarantine c;
     paths_database := paths_database c;
     scanPaths_quick := scanPaths_quick c;
     scanPaths_full := scanPaths_full c;
     exclusions_paths := exclusions_paths c;
     exclusions_extensions := exclusions_extensions c;
     exclusions_maxFileSize := exclusions_maxFileSize c;
     detection_enableSignatureScanning := detection_enableSignatureScanning c;
     detection_enableHeuristicAnalysis := detection_enableHeuristicAnalysis c;
     detection_heuristicSensitivity := detection_heuristicSensitivity c;
     quarantine_encryptionKey := key |}.

(** Nothing appears in the file system, and clock and random source
    stand where they stood. *)
Definition shrinks (w w' : World) : Prop :=
  same_machine w w'
  /\ (forall q, fs w !! q = None -> fs w' !! q = None)
  /\ (forall q n, fs w' !! q = Some n -> fs w !! q = Some n).

(** The names of the metadata documents in the quarantine directory, in
    the order [readdir] reports them. *)
Definition metadata_files (config : Config) (w : World) : list string :=
  match fst (Env.readdir (paths_quarantine config) w) with
  | Ok files => List.filter (fun f => Str.endsWith f ".json") files
  | Throw _ => []
  end.

(** The row the store keeps for a reported threat of the scan [id]. *)
Definition row_of (id : option Z) (row : ThreatDetection) (t : Threat) : Prop :=
  td_scan_id row = id
  /\ td_file_path row = th_path t
  /\ td_threat_name row = th_name t
  /\ td_threat_type row = th_type t
  /\ td_severity row = th_severity t
  /\ td_detection_method row = th_detectionMethod t
  /\ td_action_taken row = None.

(** The store keeps its detections once it is initialised. *)
Definition detections_step (a b : ThreatDatabase.St) : Prop :=
  ThreatDatabase.initialized (snd a) = true ->
  ThreatDatabase.initialized (snd b) = true
  /\ threat_detections (ThreatDatabase.data (snd b))
     = threat_detections (ThreatDatabase.data (snd a)).

(** Threats reported and rows recorded go together. *)
Record ledger_step (a b : FileScanner.St) : Prop := {
  lg_scanId : FileScanner.scanId (snd b) = FileScanner.scanId (snd a);
  lg_rows : ThreatDatabase.initialized (FileScanner.db (snd a)) = true ->
            ThreatDatabase.initialized (FileScanner.db (snd b)) = true
            /\ exists new rows,
                 threats (FileScanner.stats (snd b))
                 = (threats (FileScanner.stats (snd a)) ++ new)%list
                 /\ threat_detections (ThreatDatabase.data (FileScanner.db (snd b)))
                    = (threat_detections (ThreatDatabase.data (FileScanner.db (snd a)))
                       ++ rows)%list
                 /\ Forall2 (row_of (FileScanner.scanId (snd a))) rows new
}.

(** The order of a list sorted by [Js.sort_desc]: the larger key first. *)
Definition desc {A} (key : A -> Z) (a b : A) : Prop := key b <= key a.

(** The configuration with another heuristic sensitivity. *)
Definition with_sensitivity (c : Config) (s : string) : Config :=
  {| paths_quarantine := paths_quarantine c;
     paths_database := paths_database c;
     scanPaths_quick := scanPaths_quick c;
     scanPaths_full := scanPaths_full c;
     exclusions_paths := exclusions_paths c;
     exclusions_extensions := exclusions_extensions c;
     exclusions_maxFileSize := exclusions_maxFileSize c;
     detection_enableSignatureScanning := detection_enableSignatureScanning c;
     detection_enableHeuristicAnalysis := detection_enableHeuristicAnalysis c;
     detection_heuristicSensitivity := s;
     quarantine_encryptionKey := quarantine_encryptionKey c |}.

(** ** The row a detector reports *)

(** A catalog row carries a digest when its hash, in lower case, is the
    digest. *)
Definition carries (digest : string) (sig : HashSignature) : bool :=
  String.eqb (Str.toLowerCase (hs_hash sig)) digest.

(** The row a digest stands for in the table built from a catalog: of
    the rows that carry it, the last one. *)
Definition last_row (hs : list HashSignature) (digest : string) : option HashSignature :=
  List.find (carries digest) (rev hs).

(** The row reported for a content: the md5 digest is looked up first,
    then the sha1 digest, then the sha256 digest. *)
Definition reported_row (hs : list HashSignature) (content : list byte)
  : option HashSignature :=
  match last_row hs (Digest.md5 content) with
  | Some r => Some r
  | None =>
      match last_row hs (Digest.sha1 content) with
      | Some r => Some r
      | None => last_row hs (Digest.sha256 content)
      end
  end.

(** No file has been hashed between two states of the environment. *)
Definition digests_kept (w w' : World) : Prop := digested w' = digested w.

Definition store_digests_kept (a b : ThreatDatabase.St) : Prop :=
  digests_kept (fst a) (fst b).

(** ** The metadata documents of the quarantine directory *)

(** The document [name] of the quarantine directory can be read and
    holds the metadata record [m]. *)
Definition documented `{JsonCodec} (config : Config) (w : World) (name : string)
           (m : Metadata) : Prop :=
  exists bytes,
    fs w !! Path.join (os_platform w) (paths_quarantine config) name
    = Some (Fs.File bytes None)
    /\ parse_meta bytes = Some m.

(** ** Restoring and expiring *)

(** Both objects of a quarantined file can be read back: the metadata
    document holds a record and the ciphertext decrypts. *)
Definition restorable `{JsonCodec} (config : Config) (quarantineId : string) (w : World)
  : Prop :=
  (exists bytes m,
      fs w !! QuarantineManager.meta_path config (os_platform w) quarantineId
      = Some (Fs.File bytes None)
      /\ parse_meta bytes = Some m)
  /\ exists enc dec,
       fs w !! QuarantineManager.quar_path config (os_platform w) quarantineId
       = Some (Fs.File enc None)
       /\ QuarantineManager.decryptFile config enc = Ok dec.

(** [q] is neither [p] nor below [p]. *)
Definition outside (pf : platform) (p q : string) : Prop :=
  q <> p /\ Env.below pf p q = false.

(** ** Sample runs of the further statements *)

Module Examples.
Import Sample RefCodec.

(** What a run returned, and the state it left. *)
Definition value_of {S A} (dflt : A) (r : result A * S) : A :=
  match fst r with
  | Ok a => a
  | Throw _ => dflt
  end.

Definition stats_of {S} (r : result ScanStats * S) : ScanStats :=
  value_of (FileScanner.fresh_stats None) r.

(** A quick scan, by a new scanner, over one file with the EICAR text. *)
Definition eicar_world : World := SampleScan.in_downloads "eicar.com" eicar.
Definition eicar_scan :=
  FileScanner.scan config "quick" [] true (eicar_world, FileScanner.new).
Definition eicar_opened :=
  ThreatDatabase.initialize config (eicar_world, ThreatDatabase.new).

(** The same over two files, stopped by another task after the first. *)
Definition path_a : string := "/home/u/Downloads/a.bin".
Definition path_b : string := "/home/u/Downloads/b.bin".
Definition stopping (w : World) (n : nat) : World :=
  {| fs := fs w; os_platform := os_platform w; os_homedir := os_homedir w;
     clock := clock w; ticks := ticks w; entropy := entropy w; drawn := drawn w;
     attrib_output := attrib_output w; glob_files := glob_files w;
     external_stop := Some n; digested := digested w |}.
Definition two_files : World :=
  world (<[path_a := file "one"]> (<[path_b := file "two"]> ∅)) [path_a; path_b] counting.
Definition stopped_scan :=
  FileScanner.scan config "quick" [] true (stopping two_files 1, FileScanner.new).

(** A scanner whose store is open, and files that cannot be read. *)
Definition open_world (w : World) : World :=
  fst (snd (ThreatDatabase.initialize config (w, ThreatDatabase.new))).
Definition open_scanner (w : World) : FileScanner.t :=
  FileScanner.with_db FileScanner.new
    (snd (snd (ThreatDatabase.initialize config (w, ThreatDatabase.new)))).
Definition missing : string := "/home/u/Downloads/gone.bin".
Definition busy : string := "/home/u/Downloads/busy.bin".
Definition busy_world : World :=
  world (<[busy := Fs.File (Bytes.of_string "locked") (Some "EBUSY")]> ∅) [busy] counting.
Definition busy_scan := FileScanner.scanFile config busy (busy_world, FileScanner.new).

(** A first call of the detector, with the seeded catalog, on the file
    with the EICAR text. *)
Definition seeded_hashes : list HashSignature :=
  [ThreatDatabase.eicar_md5; ThreatDatabase.eicar_sha256].
Definition seeded_patterns : list PatternSignature := [ThreatDatabase.powershell_downloader].
Definition eicar_detect :=
  SignatureDetector.detect seeded_hashes seeded_patterns SampleScan.eicar_com
    (HashGenerator.hashes_of eicar_bytes) (eicar_world, SignatureDetector.new).

(** A file that the heuristic reports at every sensitivity. *)
Definition the {A} (dflt : A) (o : option A) : A :=
  match o with
  | Some a => a
  | None => dflt
  end.
Definition no_detection : HeuristicAnalyzer.Detection :=
  {| HeuristicAnalyzer.info :=
       {| ti_name := ""; ti_type := ""; ti_severity := ""; ti_description := "";
          ti_method := "" |};
     HeuristicAnalyzer.score := 0;
     HeuristicAnalyzer.traits := [] |}.
Definition cracked : string := "/home/u/Downloads/crack.pdf.exe".
Definition cracked_world : World := world (<[cracked := file "hello"]> ∅) [cracked] counting.
Definition cracked_detection : HeuristicAnalyzer.Detection :=
  the no_detection
      (HeuristicAnalyzer.analyze (with_sensitivity config "low") cracked_world cracked
                                 SampleHeuristic.small).
Definition doubled_detection : HeuristicAnalyzer.Detection :=
  the no_detection
      (HeuristicAnalyzer.analyze config SampleHeuristic.w SampleHeuristic.doubled
                                 SampleHeuristic.small).

(** Runs of the quarantine vault. *)
Definition busy_quarantine := QuarantineManager.quarantineFile config busy busy_world.
Definition unknown_restore :=
  QuarantineManager.restoreFile config "quar_0_00" SampleScan.empty_world.
Definition restored_result : RestoreResult :=
  {| rr_success := true; rr_restoredPath := SampleVault.path;
     rr_message := "File restored to: /home/u/Downloads/eicar.com" |}.
Definition quarantined_result : QuarantineResult :=
  {| qr_success := true; qr_quarantineId := SampleVault.id;
     qr_message := "File quarantined successfully: eicar.com" |}.
(** The vault after a quarantine, with the ciphertext object cut down to
    three bytes. *)
Definition tampered : World :=
  with_fs (snd SampleVault.quarantined)
    (<[QuarantineManager.quar_path config Posix SampleVault.id := file "abc"]>
       (fs (snd SampleVault.quarantined))).
Definition tampered_restore :=
  QuarantineManager.restoreFile config SampleVault.id tampered.
Definition hello : list byte := Bytes.of_string "hello".
Definition hello_encrypted : list byte :=
  value_of [] (QuarantineManager.encryptFile config hello eicar_world).
(** A key with a character that takes two bytes. *)
Definition wide_config : Config :=
  with_encryptionKey config (String (ascii_of_nat 233) "cl").
(** Whole days in milliseconds, as in a calendar without clock changes. *)
Definition days_before (now n : Z) : Z := now - n * 86400000.
Definition vault_listing : list Metadata :=
  value_of [] (QuarantineManager.getQuarantineList config (snd SampleVault.quarantined)).
Definition vault_names : list string :=
  value_of [] (Env.readdir (paths_quarantine config) (snd SampleVault.quarantined)).
Definition vault_records : list Metadata :=
  value_of [] (QuarantineManager.read_all config Posix
                 (metadata_files config (snd SampleVault.quarantined))
                 (snd SampleVault.quarantined)).

(** A store document that cannot be read back. *)
Definition store_path : string := "/opt/av/database/signatures.json".
Definition broken_store : World :=
  world (<[store_path := file "{ not json"]> ∅) [] counting.

(** A codec that reads back one document, for the examples in which a
    store is opened again. *)
Definition same_bytes (a b : list byte) : bool :=
  String.eqb (Bytes.hex (map Bytes.to_Z a)) (Bytes.hex (map Bytes.to_Z b)).
Definition reading (doc : DbData) : JsonCodec :=
  {| stringify_meta := enc_meta;
     parse_meta := dec_meta;
     stringify_db := enc_db;
     parse_db := fun bytes => if same_bytes bytes (enc_db doc) then Some doc else None |}.
Definition seeded : DbData :=
  ThreatDatabase.populateInitialSignatures ThreatDatabase.empty_data.
Definition first_open : result bool * ThreatDatabase.St :=
  @ThreatDatabase.initialize (reading seeded) config (SampleScan.empty_world, ThreatDatabase.new).
Definition saved_again : result unit * ThreatDatabase.St :=
  @ThreatDatabase.save (reading seeded) config (snd first_open).

End Examples.

(** * The digests and the cipher on published vectors *)

Section Vectors.
Import TestVectors.

Example md5_abc : Digest.md5 (Bytes.of_string "abc") = "900150983cd24fb0d6963f7d28e17f72".
Proof. vm_compute. reflexivity. Qed.

Example md5_empty : Digest.md5 [] = "d41d8cd98f00b204e9800998ecf8427e".
Proof. vm_compute. reflexivity. Qed.

Example sha1_abc :
  Digest.sha1 (Bytes.of_string "abc") = "a9993e364706816aba3e25717850c26c9cd0d89d".
Proof. vm_compute. reflexivity. Qed.

Example sha256_abc :
  Digest.sha256 (Bytes.of_string "abc")
  = "ba7816bf8f01cfea414140de5dae2223b00361a396177a9cb410ff61f20015ad".
Proof. vm_compute. reflexivity. Qed.

(** The digests of the EICAR test file, as the seeded rows have them. *)
Example md5_eicar :
  Digest.md5 (Bytes.of_string Sample.eicar) = hs_hash ThreatDatabase.eicar_md5.
Proof. vm_compute. reflexivity. Qed.

Example sha256_eicar :
  Digest.sha256 (Bytes.of_string Sample.eicar) = hs_hash ThreatDatabase.eicar_sha256.
Proof. vm_compute. reflexivity. Qed.

Example sha1_eicar :
  Digest.sha1 (Bytes.of_string Sample.eicar) = "3395856ce81f2b7382dee72602f798b642f14140".
Proof. vm_compute. reflexivity. Qed.

Example aes_fips_197 :
  Bytes.hex (map Bytes.to_Z (AES.encrypt_block (AES.key_schedule fips_key) fips_plaintext))
  = "8ea2b7ca516745bfeafc49904b496089".
Proof. vm_compute. reflexivity. Qed.

(** [openssl enc -aes-256-cbc] with the same key and vector. *)
Example aes_cbc_two_blocks :
  hex_of_result (AES.encrypt shipped_key fixed_iv
                   (Bytes.of_string "hello quarantine, this is more than one block!"))
  = "0317b09fd2f4515db9c2b991d0cbeac3ded2883984c08f1d80f2404572a9e52681233c4c6857cedc0320f3f11e2dec22".
Proof. vm_compute. reflexivity. Qed.

Example aes_cbc_empty :
  hex_of_result (AES.encrypt shipped_key fixed_iv []) = "f4e9a3987d321f44c53051f1d10e908f".
Proof. vm_compute. reflexivity. Qed.

End Vectors.

(** * Facts about bytes *)

Section ByteEnumeration.

Lemma all_bytes_complete (b : byte) : In b ProofSupport.all_bytes.
Proof.
  assert (H : existsb (Byte.eqb b) ProofSupport.all_bytes = true)
    by (destruct b; vm_compute; reflexivity).
  apply existsb_exists in H. destruct H as [x [Hin Heq]].
  apply Byte.byte_dec_bl in Heq. subst. exact Hin.
Qed.

Lemma byte_forall (P : byte -> bool) :
  forallb P ProofSupport.all_bytes = true -> forall b, P b = true.
Proof.
  intros H b. rewrite forallb_forall in H. apply H, all_bytes_complete.
Qed.

End ByteEnumeration.

(** Decides a closed statement over one or two bytes by enumeration. *)
Ltac by_bytes1 :=
  let b := fresh "b" in
  intro b; apply Byte.byte_dec_bl;
  revert b; apply byte_forall; vm_compute; reflexivity.

Lemma to_Z_inj a b : Bytes.to_Z a = Bytes.to_Z b -> a = b.
Proof.
  unfold Bytes.to_Z. intros H. apply N2Z.inj in H.
  pose proof (Byte.of_to_N a) as Ha. rewrite H, Byte.of_to_N in Ha. congruence.
Qed.

Lemma to_Z_range b : 0 <= Bytes.to_Z b < 256.
Proof.
  unfold Bytes.to_Z. pose proof (Byte.to_N_bounded b). lia.
Qed.

Lemma of_Z_to_Z b : Bytes.of_Z (Bytes.to_Z b) = b.
Proof.
  unfold Bytes.of_Z. rewrite Z.mod_small by apply to_Z_range.
  unfold Bytes.to_Z. rewrite N2Z.id, Byte.of_to_N. reflexivity.
Qed.

Lemma to_Z_of_Z z : 0 <= z < 256 -> Bytes.to_Z (Bytes.of_Z z) = z.
Proof.
  intros Hz. unfold Bytes.of_Z. rewrite Z.mod_small by lia.
  destruct (Byte.of_N (Z.to_N z)) as [b|] eqn:E.
  - apply Byte.to_of_N in E. unfold Bytes.to_Z. rewrite E. lia.
  - exfalso. pose proof (Byte.to_of_N_option_map (Z.to_N z)) as H.
    rewrite E in H. simpl in H.
    destruct (N.leb_spec (Z.to_N z) 255); [discriminate | lia].
Qed.

Lemma byte_high_bits x n : 0 <= x < 256 -> 8 <= n -> Z.testbit x n = false.
Proof.
  intros Hx Hn. apply Z.bits_above_log2; [lia|].
  destruct (Z.eq_dec x 0) as [->|Hne]; [simpl; lia|].
  assert (Z.log2 x < 8) by (apply Z.log2_lt_pow2; simpl; lia). lia.
Qed.

Lemma lxor_byte_range x y : 0 <= x < 256 -> 0 <= y < 256 -> 0 <= Z.lxor x y < 256.
Proof.
  intros Hx Hy.
  assert (E : Z.lxor x y = Z.lxor x y mod 2 ^ 8).
  { apply Z.bits_inj'. intros n Hn. rewrite Z.testbit_mod_pow2 by lia.
    destruct (Z.ltb_spec n 8) as [Hlt|Hge]; [reflexivity|]. simpl.
    rewrite Z.lxor_spec, (byte_high_bits x n), (byte_high_bits y n) by lia.
    reflexivity. }
  rewrite E. apply Z.mod_pos_bound. lia.
Qed.

Lemma to_Z_xor a b :
  Bytes.to_Z (Bytes.xor a b) = Z.lxor (Bytes.to_Z a) (Bytes.to_Z b).
Proof.
  unfold Bytes.xor. apply to_Z_of_Z. apply lxor_byte_range; apply to_Z_range.
Qed.

(** Equalities between exclusive-or combinations, modulo associativity
    and commutativity, are settled bit by bit. *)
Ltac xor_ac :=
  apply to_Z_inj; rewrite ?to_Z_xor;
  apply Z.bits_inj'; intros ? _; rewrite ?Z.lxor_spec; btauto.

Lemma xor_comm a b : Bytes.xor a b = Bytes.xor b a.
Proof. xor_ac. Qed.

Lemma xor_assoc a b c : Bytes.xor (Bytes.xor a b) c = Bytes.xor a (Bytes.xor b c).
Proof. xor_ac. Qed.

Lemma xor_cancel_r a k : Bytes.xor (Bytes.xor a k) k = a.
Proof. xor_ac. Qed.

Lemma xor_0_r : forall a, Bytes.xor a x00 = a.
Proof. by_bytes1. Qed.

Lemma xor_0_l : forall a, Bytes.xor x00 a = a.
Proof. by_bytes1. Qed.

(** * AES: the inverse cipher undoes the cipher *)

Lemma inv_sbox_sbox : forall b, AES.inv_sbox (AES.sbox b) = b.
Proof. by_bytes1. Qed.

Lemma to_Z_xtime : forall b,
  Bytes.to_Z (AES.xtime b)
  = Z.lxor (Z.land (Z.shiftl (Bytes.to_Z b) 1) 255)
           (if Z.testbit (Bytes.to_Z b) 7 then 27 else 0).
Proof.
  intro b. apply Z.eqb_eq. revert b.
  apply (byte_forall (fun b => Bytes.to_Z (AES.xtime b)
    =? Z.lxor (Z.land (Z.shiftl (Bytes.to_Z b) 1) 255)
              (if Z.testbit (Bytes.to_Z b) 7 then 27 else 0))).
  vm_compute. reflexivity.
Qed.

Lemma xtime_xor a b :
  AES.xtime (Bytes.xor a b) = Bytes.xor (AES.xtime a) (AES.xtime b).
Proof.
  apply to_Z_inj. rewrite to_Z_xor, !to_Z_xtime, to_Z_xor.
  apply Z.bits_inj'. intros n Hn.
  rewrite !Z.lxor_spec, !Z.land_spec, !Z.shiftl_spec, !Z.lxor_spec by lia.
  destruct (Z.testbit (Bytes.to_Z a) 7), (Z.testbit (Bytes.to_Z b) 7); simpl;
    rewrite ?Z.testbit_0_l; btauto.
Qed.

Lemma mul2_xor a b :
  AES.mul2 (Bytes.xor a b) = Bytes.xor (AES.mul2 a) (AES.mul2 b).
Proof. apply xtime_xor. Qed.
Lemma mul3_xor a b :
  AES.mul3 (Bytes.xor a b) = Bytes.xor (AES.mul3 a) (AES.mul3 b).
Proof. unfold AES.mul3. rewrite !xtime_xor. xor_ac. Qed.
Lemma mul9_xor a b :
  AES.mul9 (Bytes.xor a b) = Bytes.xor (AES.mul9 a) (AES.mul9 b).
Proof. unfold AES.mul9. rewrite !xtime_xor. xor_ac. Qed.
Lemma mul11_xor a b :
  AES.mul11 (Bytes.xor a b) = Bytes.xor (AES.mul11 a) (AES.mul11 b).
Proof. unfold AES.mul11. rewrite !xtime_xor. xor_ac. Qed.
Lemma mul13_xor a b :
  AES.mul13 (Bytes.xor a b) = Bytes.xor (AES.mul13 a) (AES.mul13 b).
Proof. unfold AES.mul13. rewrite !xtime_xor. xor_ac. Qed.
Lemma mul14_xor a b :
  AES.mul14 (Bytes.xor a b) = Bytes.xor (AES.mul14 a) (AES.mul14 b).
Proof. unfold AES.mul14. rewrite !xtime_xor. xor_ac. Qed.

Lemma mix_column_additive x y :
  AES.mix_column (AES.col_xor x y) = AES.col_xor (AES.mix_column x) (AES.mix_column y).
Proof.
  destruct x as [[[a b] c] d], y as [[[a' b'] c'] d'].
  unfold AES.mix_column, AES.col_xor.
  rewrite (mul2_xor a a'), (mul2_xor b b'), (mul2_xor c c'), (mul2_xor d d'),
    (mul3_xor a a'), (mul3_xor b b'), (mul3_xor c c'), (mul3_xor d d').
  generalize (AES.mul2 a) (AES.mul2 b) (AES.mul2 c) (AES.mul2 d)
    (AES.mul2 a') (AES.mul2 b') (AES.mul2 c') (AES.mul2 d')
    (AES.mul3 a) (AES.mul3 b) (AES.mul3 c) (AES.mul3 d)
    (AES.mul3 a') (AES.mul3 b') (AES.mul3 c') (AES.mul3 d').
  intros.
  repeat match goal with |- (_, _) = (_, _) => f_equal end; xor_ac.
Qed.

Lemma inv_mix_column_additive x y :
  AES.inv_mix_column (AES.col_xor x y)
  = AES.col_xor (AES.inv_mix_column x) (AES.inv_mix_column y).
Proof.
  destruct x as [[[a b] c] d], y as [[[a' b'] c'] d'].
  unfold AES.inv_mix_column, AES.col_xor.
  rewrite (mul9_xor a a'), (mul9_xor b b'), (mul9_xor c c'), (mul9_xor d d'),
    (mul11_xor a a'), (mul11_xor b b'), (mul11_xor c c'), (mul11_xor d d'),
    (mul13_xor a a'), (mul13_xor b b'), (mul13_xor c c'), (mul13_xor d d'),
    (mul14_xor a a'), (mul14_xor b b'), (mul14_xor c c'), (mul14_xor d d').
  generalize (AES.mul9 a) (AES.mul9 b) (AES.mul9 c) (AES.mul9 d)
    (AES.mul9 a') (AES.mul9 b') (AES.mul9 c') (AES.mul9 d')
    (AES.mul11 a) (AES.mul11 b) (AES.mul11 c) (AES.mul11 d)
    (AES.mul11 a') (AES.mul11 b') (AES.mul11 c') (AES.mul11 d')
    (AES.mul13 a) (AES.mul13 b) (AES.mul13 c) (AES.mul13 d)
    (AES.mul13 a') (AES.mul13 b') (AES.mul13 c') (AES.mul13 d')
    (AES.mul14 a) (AES.mul14 b) (AES.mul14 c) (AES.mul14 d)
    (AES.mul14 a') (AES.mul14 b') (AES.mul14 c') (AES.mul14 d').
  intros.
  repeat match goal with |- (_, _) = (_, _) => f_equal end; xor_ac.
Qed.

Lemma col_eqb_eq x y : col_eqb x y = true -> x = y.
Proof.
  destruct x as [[[a b] c] d], y as [[[a' b'] c'] d']. simpl.
  rewrite !andb_true_iff. intros [[[H1 H2] H3] H4].
  apply Byte.byte_dec_bl in H1, H2, H3, H4. congruence.
Qed.

Ltac by_col :=
  let b := fresh "b" in
  intro b; apply col_eqb_eq; revert b; apply byte_forall; vm_compute; reflexivity.

Lemma inv_mix_basis_0 : forall a,
  AES.inv_mix_column (AES.mix_column (a, x00, x00, x00)) = (a, x00, x00, x00).
Proof. by_col. Qed.
Lemma inv_mix_basis_1 : forall a,
  AES.inv_mix_column (AES.mix_column (x00, a, x00, x00)) = (x00, a, x00, x00).
Proof. by_col. Qed.
Lemma inv_mix_basis_2 : forall a,
  AES.inv_mix_column (AES.mix_column (x00, x00, a, x00)) = (x00, x00, a, x00).
Proof. by_col. Qed.
Lemma inv_mix_basis_3 : forall a,
  AES.inv_mix_column (AES.mix_column (x00, x00, x00, a)) = (x00, x00, x00, a).
Proof. by_col. Qed.

Lemma column_decompose a b c d :
  (a, b, c, d) =
  AES.col_xor (AES.col_xor (a, x00, x00, x00) (x00, b, x00, x00))
              (AES.col_xor (x00, x00, c, x00) (x00, x00, x00, d)).
Proof.
  unfold AES.col_xor. rewrite !xor_0_r, !xor_0_l. reflexivity.
Qed.

Lemma inv_mix_column_mix_column x : AES.inv_mix_column (AES.mix_column x) = x.
Proof.
  destruct x as [[[a b] c] d].
  rewrite (column_decompose a b c d) at 1.
  rewrite !mix_column_additive, !inv_mix_column_additive.
  rewrite inv_mix_basis_0, inv_mix_basis_1, inv_mix_basis_2, inv_mix_basis_3.
  symmetry. apply column_decompose.
Qed.

Lemma inv_mix_columns_mix_columns s : AES.inv_mix_columns (AES.mix_columns s) = s.
Proof.
  destruct s as [[[a b] c] d]. unfold AES.inv_mix_columns, AES.mix_columns, AES.st_map.
  rewrite !inv_mix_column_mix_column. reflexivity.
Qed.

Lemma inv_sub_bytes_sub_bytes s : AES.inv_sub_bytes (AES.sub_bytes s) = s.
Proof.
  destruct s as [[[[[[a0 a1] a2] a3] [[[b0 b1] b2] b3]] [[[c0 c1] c2] c3]] [[[d0 d1] d2] d3]].
  unfold AES.inv_sub_bytes, AES.sub_bytes, AES.st_map, AES.col_map.
  rewrite !inv_sbox_sbox. reflexivity.
Qed.

Lemma inv_shift_rows_shift_rows s : AES.inv_shift_rows (AES.shift_rows s) = s.
Proof.
  destruct s as [[[[[[a0 a1] a2] a3] [[[b0 b1] b2] b3]] [[[c0 c1] c2] c3]] [[[d0 d1] d2] d3]].
  reflexivity.
Qed.

Lemma add_round_key_involutive k s : AES.add_round_key k (AES.add_round_key k s) = s.
Proof.
  destruct s as [[[[[[a0 a1] a2] a3] [[[b0 b1] b2] b3]] [[[c0 c1] c2] c3]] [[[d0 d1] d2] d3]].
  destruct k as [[[[[[p0 p1] p2] p3] [[[q0 q1] q2] q3]] [[[r0 r1] r2] r3]] [[[t0 t1] t2] t3]].
  unfold AES.add_round_key, AES.col_xor. rewrite !xor_cancel_r. reflexivity.
Qed.

Lemma inv_rounds_rounds mids s :
  fold_left AES.inv_round (rev mids)
            (AES.shift_rows (AES.sub_bytes (fold_left AES.round mids s)))
  = AES.shift_rows (AES.sub_bytes s).
Proof.
  revert s. induction mids as [|k mids IH]; intros s; [reflexivity|].
  simpl. rewrite fold_left_app. rewrite IH. simpl.
  unfold AES.inv_round, AES.round.
  rewrite inv_shift_rows_shift_rows, inv_sub_bytes_sub_bytes,
    add_round_key_involutive, inv_mix_columns_mix_columns.
  reflexivity.
Qed.

Lemma inv_cipher_cipher k0 mids kl s :
  AES.inv_cipher k0 mids kl (AES.cipher k0 mids kl s) = s.
Proof.
  unfold AES.inv_cipher, AES.cipher.
  rewrite add_round_key_involutive, inv_rounds_rounds.
  rewrite inv_shift_rows_shift_rows, inv_sub_bytes_sub_bytes.
  apply add_round_key_involutive.
Qed.

(** * CBC chaining and PKCS#7 padding *)

Lemma of_list_to_list s : AES.of_list (AES.to_list s) = s.
Proof.
  destruct s as [[[[[[a0 a1] a2] a3] [[[b0 b1] b2] b3]] [[[c0 c1] c2] c3]] [[[d0 d1] d2] d3]].
  reflexivity.
Qed.

Lemma length_to_list s : length (AES.to_list s) = 16%nat.
Proof.
  destruct s as [[[[[[a0 a1] a2] a3] [[[b0 b1] b2] b3]] [[[c0 c1] c2] c3]] [[[d0 d1] d2] d3]].
  reflexivity.
Qed.

Lemma to_list_of_list l : length l = 16%nat -> AES.to_list (AES.of_list l) = l.
Proof.
  intros H.
  do 16 (destruct l as [|? l]; [discriminate H|]).
  destruct l; [reflexivity | discriminate H].
Qed.

Lemma length_encrypt_block ks b : length (AES.encrypt_block ks b) = 16%nat.
Proof. apply length_to_list. Qed.

Lemma decrypt_encrypt_block ks b :
  length b = 16%nat -> AES.decrypt_block ks (AES.encrypt_block ks b) = b.
Proof.
  intros H. unfold AES.decrypt_block, AES.encrypt_block.
  rewrite of_list_to_list, inv_cipher_cipher. apply to_list_of_list, H.
Qed.

Lemma length_xor_bytes a b :
  length a = length b -> length (AES.xor_bytes a b) = length a.
Proof.
  revert b. induction a as [|x a IH]; intros [|y b] H; simpl in *;
    try discriminate; [reflexivity|]. f_equal. apply IH. lia.
Qed.

Lemma xor_bytes_cancel a b :
  length a = length b -> AES.xor_bytes (AES.xor_bytes a b) b = a.
Proof.
  revert b. induction a as [|x a IH]; intros [|y b] H; simpl in *;
    try discriminate; [reflexivity|].
  rewrite xor_cancel_r. f_equal. apply IH. lia.
Qed.

Lemma cbc_encrypt_blocks ks iv bs : Forall block16 (AES.cbc_encrypt ks iv bs).
Proof.
  revert iv. induction bs as [|b bs IH]; intros iv; simpl; constructor.
  - apply length_encrypt_block.
  - apply IH.
Qed.

Lemma length_cbc_encrypt ks iv bs : length (AES.cbc_encrypt ks iv bs) = length bs.
Proof.
  revert iv. induction bs as [|b bs IH]; intros iv; simpl; [reflexivity|].
  f_equal. apply IH.
Qed.

Lemma cbc_decrypt_encrypt ks iv bs :
  block16 iv -> Forall block16 bs ->
  AES.cbc_decrypt ks iv (AES.cbc_encrypt ks iv bs) = bs.
Proof.
  intros Hiv Hbs. revert iv Hiv.
  induction Hbs as [|b bs Hb Hbs IH]; intros iv Hiv; simpl; [reflexivity|].
  unfold block16 in *.
  rewrite decrypt_encrypt_block by (rewrite length_xor_bytes; congruence).
  rewrite xor_bytes_cancel by congruence.
  f_equal. apply IH. apply length_encrypt_block.
Qed.

Lemma blocks_concat {A} n (bs : list (list A)) :
  Forall (fun b => length b = n) bs ->
  Bytes.blocks n (length bs) (concat bs) = bs.
Proof.
  induction 1 as [|b bs Hb Hbs IH]; simpl; [reflexivity|].
  rewrite (take_app_length' b _ n (eq_sym Hb)), (drop_app_length' b _ n (eq_sym Hb)).
  f_equal. exact IH.
Qed.

Lemma concat_blocks {A} n k (l : list A) :
  length l = (k * n)%nat -> concat (Bytes.blocks n k l) = l.
Proof.
  revert l. induction k as [|k IH]; intros l H; simpl.
  - destruct l; [reflexivity | discriminate].
  - rewrite IH.
    + apply firstn_skipn.
    + rewrite length_skipn. lia.
Qed.

Lemma blocks_lengths {A} n k (l : list A) :
  length l = (k * n)%nat -> Forall (fun b => length b = n) (Bytes.blocks n k l).
Proof.
  revert l. induction k as [|k IH]; intros l H; simpl; constructor.
  - rewrite length_firstn. lia.
  - apply IH. rewrite length_skipn. lia.
Qed.

Lemma length_blocks {A} n k (l : list A) : length (Bytes.blocks n k l) = k.
Proof.
  revert l. induction k as [|k IH]; intros l; simpl; [reflexivity|].
  f_equal. apply IH.
Qed.

Lemma pad_len_range n : (1 <= AES.pad_len n <= 16)%nat.
Proof.
  unfold AES.pad_len. pose proof (Nat.mod_upper_bound n 16). lia.
Qed.

Lemma length_pkcs7_pad c :
  length (AES.pkcs7_pad c) = ((length c / 16 + 1) * 16)%nat.
Proof.
  unfold AES.pkcs7_pad, AES.pad_len. rewrite length_app, repeat_length.
  pose proof (Nat.div_mod_eq (length c) 16).
  pose proof (Nat.mod_upper_bound (length c) 16). lia.
Qed.

Lemma forallb_repeat {A} (f : A -> bool) x n :
  f x = true -> forallb f (repeat x n) = true.
Proof.
  intros H. induction n as [|n IH]; simpl; [reflexivity|]. rewrite H. exact IH.
Qed.

Lemma pkcs7_unpad_pad c : AES.pkcs7_unpad (AES.pkcs7_pad c) = Some c.
Proof.
  unfold AES.pkcs7_unpad, AES.pkcs7_pad.
  pose proof (pad_len_range (length c)) as Hn.
  set (n := AES.pad_len (length c)) in *.
  set (pb := Bytes.of_Z (Z.of_nat n)).
  assert (Hpb : Z.to_nat (Bytes.to_Z pb) = n).
  { unfold pb. rewrite to_Z_of_Z by lia. lia. }
  rewrite rev_app_distr, rev_repeat.
  destruct n as [|m] eqn:En; [lia|].
  simpl repeat at 1. cbn [app]. rewrite Hpb.
  rewrite length_app, repeat_length.
  replace ((1 <=? S m)%nat) with true by (symmetry; apply Nat.leb_le; lia).
  replace ((S m <=? 16)%nat) with true by (symmetry; apply Nat.leb_le; lia).
  replace ((S m <=? length c + S m)%nat) with true by (symmetry; apply Nat.leb_le; lia).
  cbn [andb].
  replace (length c + S m - S m)%nat with (length c) by lia.
  rewrite skipn_app, Nat.sub_diag, skipn_all. cbn [app skipn].
  rewrite firstn_app, Nat.sub_diag, firstn_all. cbn [firstn].
  rewrite app_nil_r.
  change (drop 0 (repeat pb (S m))) with (repeat pb (S m)).
  rewrite forallb_repeat; [reflexivity|].
  apply Byte.byte_dec_lb. reflexivity.
Qed.

Lemma length_concat_blocks16 cs :
  Forall block16 cs -> length (concat cs) = (length cs * 16)%nat.
Proof.
  induction 1 as [|b bs Hb Hbs IH]; simpl; [reflexivity|].
  rewrite length_app, IH, Hb. lia.
Qed.

(** Decryption under the same key and initialisation vector returns the
    plaintext that was encrypted. *)
Lemma aes_decrypt_encrypt key iv content ct :
  AES.encrypt key iv content = Ok ct ->
  AES.decrypt key iv ct = Ok content.
Proof.
  unfold AES.encrypt, AES.decrypt.
  destruct (length key =? 32)%nat eqn:Hk; [|discriminate].
  destruct (length iv =? 16)%nat eqn:Hiv; [|discriminate].
  change (negb true) with false. cbv beta iota zeta.
  intros H. assert (E : ct = concat (AES.cbc_encrypt (AES.key_schedule key) iv
    (Bytes.blocks 16 (length (AES.pkcs7_pad content) / 16) (AES.pkcs7_pad content))))
    by congruence.
  subst ct. clear H.
  apply Nat.eqb_eq in Hiv.
  pose proof (length_pkcs7_pad content) as Hlen.
  set (p := AES.pkcs7_pad content) in *.
  set (k := (length content / 16 + 1)%nat) in *.
  assert (Hdiv : (length p / 16 = k)%nat) by (rewrite Hlen; apply Nat.div_mul; lia).
  rewrite Hdiv.
  set (cs := AES.cbc_encrypt (AES.key_schedule key) iv (Bytes.blocks 16 k p)).
  assert (Hcs : Forall block16 cs) by apply cbc_encrypt_blocks.
  assert (Hlcs : length cs = k)
    by (unfold cs; rewrite length_cbc_encrypt; apply length_blocks).
  assert (Hcat : length (concat cs) = (k * 16)%nat)
    by (rewrite <- Hlcs; apply length_concat_blocks16, Hcs).
  rewrite Hcat.
  replace ((k * 16 =? 0)%nat) with false by (symmetry; apply Nat.eqb_neq; lia).
  rewrite Nat.Div0.mod_mul. change (negb (0 =? 0)%nat) with false.
  cbv beta iota. change (false || false) with false. cbv beta iota.
  rewrite Nat.div_mul by lia.
  rewrite <- Hlcs at 1. rewrite (blocks_concat 16 cs Hcs).
  unfold cs. rewrite cbc_decrypt_encrypt.
  - rewrite concat_blocks by exact Hlen. unfold p. rewrite pkcs7_unpad_pad. reflexivity.
  - exact Hiv.
  - apply blocks_lengths, Hlen.
Qed.

(** * Stepping through computations *)

Section MonadFacts.
Context {S A B : Type}.

Lemma bind_ok (m : M S A) (k : A -> M S B) s a s' :
  m s = (Ok a, s') -> bind m k s = k a s'.
Proof. unfold bind. intros ->. reflexivity. Qed.

Lemma bind_throw (m : M S A) (k : A -> M S B) s e s' :
  m s = (Throw e, s') -> bind m k s = (Throw e, s').
Proof. unfold bind. intros ->. reflexivity. Qed.

Lemma bind_inv_ok (m : M S A) (k : A -> M S B) s b s2 :
  bind m k s = (Ok b, s2) ->
  exists a s1, m s = (Ok a, s1) /\ k a s1 = (Ok b, s2).
Proof.
  unfold bind. destruct (m s) as [[a|e] s1]; intros E; [eauto | discriminate].
Qed.

Lemma try_catch_ok (m : M S A) h s a s' :
  m s = (Ok a, s') -> try_catch m h s = (Ok a, s').
Proof. unfold try_catch. intros ->. reflexivity. Qed.

Lemma try_catch_throw (m : M S A) h s e s' :
  m s = (Throw e, s') -> try_catch m h s = h e s'.
Proof. unfold try_catch. intros ->. reflexivity. Qed.

(** A handler that only rethrows changes nothing. *)
Lemma try_catch_rethrow (m : M S A) s :
  try_catch m (fun e => throw e) s = m s.
Proof. unfold try_catch, throw. destruct (m s) as [[a|e] s']; reflexivity. Qed.

(** The same steps when only the result matters. *)
Lemma bind_ok_ex (m : M S A) (k : A -> M S B) s a s1 r :
  m s = (Ok a, s1) -> (exists s', k a s1 = (r, s')) -> exists s', bind m k s = (r, s').
Proof. intros E [s' E']. exists s'. rewrite (bind_ok _ _ _ _ _ E). exact E'. Qed.

Lemma try_catch_ok_ex (m : M S A) h s a :
  (exists s', m s = (Ok a, s')) -> exists s', try_catch m h s = (Ok a, s').
Proof. intros [s' E]. exists s'. apply try_catch_ok, E. Qed.

(** A property of the result that every continuation establishes. *)
Lemma bind_value (Q : B -> S -> Prop) (m : M S A) (k : A -> M S B) :
  (forall a s r s', k a s = (Ok r, s') -> Q r s') ->
  forall s r s', bind m k s = (Ok r, s') -> Q r s'.
Proof.
  intros Hk s r s' E. apply bind_inv_ok in E as (a & s1 & _ & E). exact (Hk _ _ _ _ E).
Qed.

End MonadFacts.

Lemma zoom_eq {S T A} (proj : S -> T) (upd : S -> T -> S) (m : M T A) s r t' :
  m (proj s) = (r, t') -> zoom proj upd m s = (r, upd s t').
Proof. unfold zoom. intros ->. reflexivity. Qed.

(** Exposes the next step of a computation applied to a state. *)
Ltac mstep :=
  match goal with
  | |- context [bind ?m ?k ?s] =>
      let r := fresh "r" in let s' := fresh "s" in let E := fresh "E" in
      destruct (m s) as [[r|r] s'] eqn:E;
      [rewrite (bind_ok m k s r s' E) | rewrite (bind_throw m k s r s' E)]
  end.

(** * The file system operations *)

Section EnvFacts.

Lemma remove_spec p w :
  exists w', Env.remove p w = (Ok tt, w')
    /\ fs w' !! p = None
    /\ (forall q, fs w !! q = None -> fs w' !! q = None)
    /\ (forall q n, fs w' !! q = Some n -> fs w !! q = Some n)
    /\ same_machine w w'.
Proof.
  unfold Env.remove. destruct (fs w !! p) as [[d a|]|] eqn:E.
  - eexists. split; [reflexivity|]. simpl. repeat split.
    + apply lookup_delete_eq.
    + intros q Hq. destruct (decide (p = q)) as [->|Hne].
      * apply lookup_delete_eq.
      * rewrite lookup_delete_ne by done. exact Hq.
    + intros q n Hq. destruct (decide (p = q)) as [->|Hne].
      * rewrite lookup_delete_eq in Hq. discriminate.
      * rewrite lookup_delete_ne in Hq by done. exact Hq.
  - eexists. split; [reflexivity|]. simpl. repeat split.
    + apply map_lookup_filter_None. left. apply lookup_delete_eq.
    + intros q Hq. apply map_lookup_filter_None. left.
      destruct (decide (p = q)) as [->|Hne].
      * apply lookup_delete_eq.
      * rewrite lookup_delete_ne by done. exact Hq.
    + intros q n Hq. apply map_lookup_filter_Some in Hq as [Hq _].
      destruct (decide (p = q)) as [->|Hne].
      * rewrite lookup_delete_eq in Hq. discriminate.
      * rewrite lookup_delete_ne in Hq by done. exact Hq.
  - exists w. repeat split; auto.
Qed.

(** Removing a regular file leaves every other entry alone. *)
Lemma remove_file_other p w d a q :
  fs w !! p = Some (Fs.File d a) -> q <> p ->
  fs (snd (Env.remove p w)) !! q = fs w !! q.
Proof.
  intros Hp Hq. unfold Env.remove. rewrite Hp. simpl.
  apply lookup_delete_ne. congruence.
Qed.

Lemma pathExists_eq p w :
  Env.pathExists p w
  = (Ok (match fs w !! p with Some _ => true | None => false end), w).
Proof. reflexivity. Qed.

End EnvFacts.

(** * Permanent deletion *)

Section PermanentDelete.
Context `{JsonCodec}.
Variable config : Config.

Lemma permanentDelete_spec quarantineId w :
  exists w',
    QuarantineManager.permanentDelete config quarantineId w
      = (Ok (true, deleted_message), w')
    /\ fs w' !! QuarantineManager.quar_path config (os_platform w) quarantineId = None
    /\ fs w' !! QuarantineManager.meta_path config (os_platform w) quarantineId = None
    /\ os_platform w' = os_platform w.
Proof.
  unfold QuarantineManager.permanentDelete.
  rewrite try_catch_rethrow.
  set (qp := QuarantineManager.quar_path config (os_platform w) quarantineId).
  set (mp := QuarantineManager.meta_path config (os_platform w) quarantineId).
  unfold bind at 1. unfold gets at 1. fold qp mp.
  unfold bind at 1. rewrite pathExists_eq.
  (* the ciphertext object *)
  assert (Hq : exists w1, (if match fs w !! qp with Some _ => true | None => false end
                           then Env.remove qp else ret tt) w = (Ok tt, w1)
               /\ fs w1 !! qp = None /\ os_platform w1 = os_platform w).
  { destruct (fs w !! qp) eqn:E.
    - destruct (remove_spec qp w) as (w1 & E1 & Hnone & _ & _ & Hpf & _).
      exists w1. auto.
    - exists w. auto. }
  destruct Hq as (w1 & E1 & Hq1 & Hpf1).
  rewrite (bind_ok _ _ _ _ _ E1).
  unfold bind at 1. rewrite pathExists_eq.
  (* the metadata object *)
  assert (Hm : exists w2, (if match fs w1 !! mp with Some _ => true | None => false end
                           then Env.remove mp else ret tt) w1 = (Ok tt, w2)
               /\ fs w2 !! mp = None /\ fs w2 !! qp = None
               /\ os_platform w2 = os_platform w1).
  { destruct (fs w1 !! mp) eqn:E.
    - destruct (remove_spec mp w1) as (w2 & E2 & Hnone & Hkeep & _ & Hpf & _).
      exists w2. auto.
    - exists w1. auto. }
  destruct Hm as (w2 & E2 & Hm2 & Hq2 & Hpf2).
  rewrite (bind_ok _ _ _ _ _ E2).
  exists w2. repeat split; try assumption; congruence.
Qed.

Lemma restoreFile_missing quarantineId w :
  fs w !! QuarantineManager.meta_path config (os_platform w) quarantineId = None
  \/ fs w !! QuarantineManager.quar_path config (os_platform w) quarantineId = None ->
  QuarantineManager.restoreFile config quarantineId w = (Throw not_found, w).
Proof.
  intros Hmiss. unfold QuarantineManager.restoreFile.
  rewrite try_catch_rethrow.
  unfold bind at 1. unfold gets at 1.
  unfold bind at 1. rewrite pathExists_eq.
  destruct (fs w !! QuarantineManager.meta_path config (os_platform w) quarantineId) eqn:Em.
  - destruct Hmiss as [?|Hq]; [discriminate|].
    unfold bind at 1. rewrite pathExists_eq, Hq. reflexivity.
  - reflexivity.
Qed.

End PermanentDelete.

(** * The quarantine listing *)

Section Listing.
Context `{JsonCodec}.
Variable config : Config.

Lemma insert_sorted_perm x l :
  Permutation (x :: l) (QuarantineManager.insert_sorted x l).
Proof.
  induction l as [|y l IH]; simpl; [reflexivity|].
  destruct (0 <? QuarantineManager.compare_newest_first x y); [|reflexivity].
  rewrite perm_swap. apply perm_skip, IH.
Qed.

Lemma sort_newest_first_perm l :
  Permutation l (QuarantineManager.sort_newest_first l).
Proof.
  induction l as [|x l IH]; simpl; [reflexivity|].
  rewrite <- insert_sorted_perm. apply perm_skip, IH.
Qed.

Lemma insert_sorted_sorted x l :
  StronglySorted newest_first l ->
  StronglySorted newest_first (QuarantineManager.insert_sorted x l).
Proof.
  induction 1 as [|y l Hl IH Hy]; simpl.
  - repeat constructor.
  - unfold QuarantineManager.compare_newest_first at 1.
    destruct (Z.ltb_spec 0 (md_quarantinedAt y - md_quarantinedAt x)) as [Hlt|Hge].
    + constructor; [exact IH|].
      rewrite <- (insert_sorted_perm x l). constructor; [|exact Hy].
      unfold newest_first. lia.
    + constructor; [constructor; assumption|].
      constructor; [unfold newest_first; lia|].
      eapply Forall_impl; [exact Hy|].
      unfold newest_first. intros z Hz. lia.
Qed.

Lemma sort_newest_first_sorted l :
  StronglySorted newest_first (QuarantineManager.sort_newest_first l).
Proof.
  induction l as [|x l IH]; simpl; [constructor|].
  apply insert_sorted_sorted, IH.
Qed.

Lemma readFile_state p w : snd (Env.readFile p w) = w.
Proof.
  unfold Env.readFile. destruct (fs w !! p) as [[d [c|]|]|]; reflexivity.
Qed.

Lemma readJson_state p w : snd (QuarantineManager.readJson p w) = w.
Proof.
  unfold QuarantineManager.readJson, bind.
  pose proof (readFile_state p w) as E.
  destruct (Env.readFile p w) as [[bytes|e] w']; simpl in E; subst; [|reflexivity].
  destruct (parse_meta bytes); reflexivity.
Qed.

Lemma read_all_state pf files w :
  snd (QuarantineManager.read_all config pf files w) = w.
Proof.
  revert w. induction files as [|f files IH]; intros w; [reflexivity|].
  simpl. unfold bind.
  pose proof (readJson_state (Path.join pf (QuarantineManager.quarantinePath config) f) w) as E.
  destruct (QuarantineManager.readJson _ w) as [[m|e] w']; simpl in E; subst;
    [|reflexivity].
  pose proof (IH w) as E'.
  destruct (QuarantineManager.read_all config pf files w) as [[ms|e] w'];
    simpl in E'; subst; reflexivity.
Qed.

Lemma readdir_state p w : snd (Env.readdir p w) = w.
Proof.
  unfold Env.readdir. destruct (fs w !! p) as [[d a|]|]; reflexivity.
Qed.

End Listing.

(** * Text: decimal and hexadecimal renderings, names *)

Lemma append_cons c (a b : string) : (String c a ++ b)%string = String c (a ++ b)%string.
Proof. reflexivity. Qed.

Lemma append_nil (b : string) : ("" ++ b)%string = b.
Proof. reflexivity. Qed.

Lemma string_app_inv_head (s a b : string) : (s ++ a = s ++ b)%string -> a = b.
Proof.
  induction s as [|c s IH]; rewrite ?append_nil, ?append_cons; [auto|].
  intros E. injection E as E. auto.
Qed.

Lemma string_app_assoc (a b c : string) : ((a ++ b) ++ c = a ++ (b ++ c))%string.
Proof.
  induction a as [|x a IH]; rewrite ?append_nil, ?append_cons; [reflexivity|].
  f_equal. exact IH.
Qed.

Lemma string_forallb_app f (a b : string) :
  string_forallb f (a ++ b) = string_forallb f a && string_forallb f b.
Proof.
  induction a as [|c a IH]; rewrite ?append_nil, ?append_cons; simpl; [reflexivity|].
  rewrite <- andb_assoc. f_equal. exact IH.
Qed.

Lemma string_forallb_impl (f g : ascii -> bool) s :
  (forall c, f c = true -> g c = true) ->
  string_forallb f s = true -> string_forallb g s = true.
Proof.
  intros Hfg. induction s as [|c s IH]; simpl; [auto|].
  rewrite !andb_true_iff. intros [Hc Hs]. auto.
Qed.

(** Two texts of the form [a ++ c ++ x], where [c] occurs in neither
    [a], are equal only if their parts are. *)
Lemma split_at_marker (f : ascii -> bool) (c : ascii) (a b x y : string) :
  f c = false ->
  string_forallb f a = true -> string_forallb f b = true ->
  (a ++ String c x = b ++ String c y)%string -> a = b /\ x = y.
Proof.
  intros Hc. revert b. induction a as [|p a IH]; intros [|q b];
    rewrite ?append_nil, ?append_cons; simpl.
  - intros _ _ E. injection E as E. auto.
  - rewrite andb_true_iff. intros _ [Hq _] E. injection E as E1 E2. subst q. congruence.
  - rewrite andb_true_iff. intros [Hp _] _ E. injection E as E1 E2. subst p. congruence.
  - rewrite !andb_true_iff. intros [_ Ha] [_ Hb] E. injection E as E1 E2. subst q.
    destruct (IH b Ha Hb E2) as [-> ->]. auto.
Qed.

Section Decimal.

Lemma dec_parse z : NilZero.int_of_string (Num.dec z) = Some (Z.to_int z).
Proof.
  unfold Num.dec. apply NilZero.isi.
  - destruct z; simpl; try discriminate.
    intros E. injection E as E. now apply DecimalPos.Unsigned.to_uint_nonnil in E.
  - destruct z; simpl; try discriminate.
    intros E. injection E as E. now apply DecimalPos.Unsigned.to_uint_nonnil in E.
Qed.

Lemma dec_inj a b : Num.dec a = Num.dec b -> a = b.
Proof.
  intros E. apply DecimalZ.to_int_inj.
  pose proof (dec_parse a) as Ha. rewrite E, dec_parse in Ha. congruence.
Qed.

Lemma uint_chars d : string_forallb dec_char (NilEmpty.string_of_uint d) = true.
Proof. induction d; simpl; auto. Qed.

Lemma dec_chars z : string_forallb dec_char (Num.dec z) = true.
Proof.
  unfold Num.dec, NilZero.string_of_int, NilZero.string_of_uint.
  destruct (Z.to_int z) as [d|d]; destruct d; simpl; auto using uint_chars.
Qed.

End Decimal.

Section Hexadecimal.

Lemma unhex_hex_digit d : 0 <= d < 16 -> unhex (Bytes.hex_digit d) = d.
Proof.
  intros Hd.
  assert (E : d = 0 \/ d = 1 \/ d = 2 \/ d = 3 \/ d = 4 \/ d = 5 \/ d = 6 \/ d = 7
              \/ d = 8 \/ d = 9 \/ d = 10 \/ d = 11 \/ d = 12 \/ d = 13 \/ d = 14
              \/ d = 15) by lia.
  repeat (destruct E as [->|E]; [reflexivity|]). subst. reflexivity.
Qed.

Lemma hex_digit_char d : 0 <= d < 16 -> hex_char (Bytes.hex_digit d) = true.
Proof.
  intros Hd.
  assert (E : d = 0 \/ d = 1 \/ d = 2 \/ d = 3 \/ d = 4 \/ d = 5 \/ d = 6 \/ d = 7
              \/ d = 8 \/ d = 9 \/ d = 10 \/ d = 11 \/ d = 12 \/ d = 13 \/ d = 14
              \/ d = 15) by lia.
  repeat (destruct E as [->|E]; [reflexivity|]). subst. reflexivity.
Qed.

Lemma hex_chars l : string_forallb hex_char (Bytes.hex (map Bytes.to_Z l)) = true.
Proof.
  induction l as [|b l IH]; simpl; [reflexivity|].
  pose proof (to_Z_range b) as Hb.
  rewrite !hex_digit_char, IH; [reflexivity| |].
  - apply Z.mod_pos_bound. lia.
  - split; [apply Z.div_pos; lia | apply Z.div_lt_upper_bound; lia].
Qed.

Lemma hex_inj l1 l2 :
  Bytes.hex (map Bytes.to_Z l1) = Bytes.hex (map Bytes.to_Z l2) -> l1 = l2.
Proof.
  revert l2. induction l1 as [|a l1 IH]; intros [|b l2]; simpl;
    try discriminate; [reflexivity|].
  intros E. injection E as E1 E2 E3.
  pose proof (to_Z_range a) as Ha. pose proof (to_Z_range b) as Hb.
  apply (f_equal unhex) in E1, E2.
  rewrite !unhex_hex_digit in E1, E2;
    try (apply Z.mod_pos_bound; lia);
    try (split; [apply Z.div_pos; lia | apply Z.div_lt_upper_bound; lia]).
  f_equal; [|apply IH, E3].
  apply to_Z_inj.
  rewrite (Z.div_mod (Bytes.to_Z a) 16), (Z.div_mod (Bytes.to_Z b) 16) by lia.
  congruence.
Qed.

End Hexadecimal.

(** * Inversion of the environment's operations *)

Lemma readFile_ok p w d w' :
  Env.readFile p w = (Ok d, w') -> w' = w /\ fs w !! p = Some (Fs.File d None).
Proof.
  unfold Env.readFile. destruct (fs w !! p) as [[d' [c|]|]|]; intros E;
    try discriminate. injection E as <- <-. auto.
Qed.

Lemma readFile_eq p w d :
  fs w !! p = Some (Fs.File d None) -> Env.readFile p w = (Ok d, w).
Proof. unfold Env.readFile. intros ->. reflexivity. Qed.

Lemma writeFile_ok p d w u w' :
  Env.writeFile p d w = (Ok u, w') ->
  w' = with_fs w (<[p := Fs.File d None]> (fs w)).
Proof.
  unfold Env.writeFile.
  destruct (fs w !! Path.dirname (os_platform w) p) as [[? ?|]|]; try discriminate.
  destruct (fs w !! p) as [[? [c|]|]|]; intros E; try discriminate;
    injection E as _ <-; reflexivity.
Qed.

Lemma stat_ok p w st w' :
  Env.stat p w = (Ok st, w') ->
  w' = w /\ match fs w !! p with
            | Some (Fs.File d _) => st = {| Fs.size := Z.of_nat (length d); Fs.isDirectory := false |}
            | Some Fs.Dir => st = {| Fs.size := 0; Fs.isDirectory := true |}
            | None => False
            end.
Proof.
  unfold Env.stat. destruct (fs w !! p) as [[d a|]|]; intros E; try discriminate;
    injection E as <- <-; auto.
Qed.

(** * Names in the quarantine store *)

Section Names.

Lemma list_ascii_app (a b : string) :
  list_ascii_of_string (a ++ b) = (list_ascii_of_string a ++ list_ascii_of_string b)%list.
Proof.
  induction a as [|c a IH]; rewrite ?append_nil, ?append_cons; simpl; [reflexivity|].
  f_equal. exact IH.
Qed.

Lemma forallb_chars f (s : string) :
  forallb f (list_ascii_of_string s) = string_forallb f s.
Proof. induction s as [|c s IH]; simpl; [reflexivity|]. rewrite IH. reflexivity. Qed.

Lemma take_while_all {A} (f : A -> bool) (l : list A) x r :
  forallb f l = true -> f x = false ->
  Path.take_while f (l ++ x :: r) = l.
Proof.
  intros Hl Hx. induction l as [|y l IH]; simpl in *.
  - rewrite Hx. reflexivity.
  - apply andb_true_iff in Hl as [Hy Hl]. rewrite Hy, IH by assumption. reflexivity.
Qed.

Lemma take_while_forallb {A} (f : A -> bool) (l : list A) :
  forallb f (Path.take_while f l) = true.
Proof.
  induction l as [|y l IH]; simpl; [reflexivity|].
  destruct (f y) eqn:E; simpl; [rewrite E, IH|]; reflexivity.
Qed.

Lemma forallb_rev {A} (f : A -> bool) (l : list A) :
  forallb f (rev l) = forallb f l.
Proof.
  induction l as [|y l IH]; simpl; [reflexivity|].
  rewrite forallb_app, IH. simpl. rewrite andb_true_r. apply andb_comm.
Qed.

Lemma sep_is_sep pf : exists c, Path.sep pf = String c "" /\ Path.is_sep pf c = true.
Proof. destruct pf; eexists; split; reflexivity. Qed.

(** The base name of [dir ++ sep ++ name] is [name], for a non-empty
    name free of separators. *)
Lemma basename_join pf dir name :
  name <> "" -> string_forallb (no_sep pf) name = true ->
  Path.basename pf (Path.join pf dir name) = name.
Proof.
  intros Hne Hname.
  destruct (sep_is_sep pf) as (c & Hsep & Hc).
  unfold Path.basename, Path.last_component, Path.join. rewrite Hsep.
  rewrite !list_ascii_app. simpl list_ascii_of_string.
  set (d := list_ascii_of_string dir).
  set (n := list_ascii_of_string name).
  assert (Hn : forallb (no_sep pf) n = true) by (unfold n; rewrite forallb_chars; exact Hname).
  assert (Hnn : n <> []).
  { unfold n. destruct name; [congruence | discriminate]. }
  assert (Hbody : exists d', skipn (Path.drive_len pf (d ++ c :: n)%list) (d ++ c :: n)%list
                             = (d' ++ c :: n)%list).
  { destruct pf; [|exists d; reflexivity].
    injection Hsep as <-.
    destruct d as [|x [|y d]]; simpl.
    - exists []. destruct n; reflexivity.
    - exists [x]. rewrite andb_false_r. reflexivity.
    - destruct (Path.is_letter x && Ascii.eqb y ":");
        [exists d | exists (x :: y :: d)]; reflexivity. }
  change (d ++ [c] ++ n)%list with (d ++ c :: n)%list.
  destruct Hbody as (d' & ->).
  rewrite rev_app_distr. simpl rev. rewrite <- !app_assoc. simpl app.
  assert (Hrn : forallb (no_sep pf) (rev n) = true) by (rewrite forallb_rev; exact Hn).
  assert (Hdrop : forall r, Path.drop_while (Path.is_sep pf) (rev n ++ r)%list = (rev n ++ r)%list).
  { intros r. destruct (rev n) as [|z l] eqn:E.
    - exfalso. apply Hnn. rewrite <- (rev_involutive n), E. reflexivity.
    - simpl in Hrn. apply andb_true_iff in Hrn as [Hz _].
      simpl. unfold no_sep in Hz. apply negb_true_iff in Hz. rewrite Hz. reflexivity. }
  rewrite Hdrop.
  rewrite (take_while_all (fun c0 => negb (Path.is_sep pf c0)) (rev n) c (rev d')).
  - rewrite rev_involutive. unfold n. apply string_of_list_ascii_of_string.
  - exact Hrn.
  - rewrite Hc. reflexivity.
Qed.

End Names.

(** * What a quarantine call leaves behind *)

Section Vault.
Context `{JsonCodec}.
Variable config : Config.

Lemma quar_meta_paths_differ pf id :
  QuarantineManager.quar_path config pf id <> QuarantineManager.meta_path config pf id.
Proof.
  unfold QuarantineManager.quar_path, QuarantineManager.meta_path, Path.join.
  intros E. do 3 apply string_app_inv_head in E. discriminate.
Qed.

Lemma generateQuarantineId_eq w :
  QuarantineManager.generateQuarantineId w
  = (Ok (quarantine_id w), with_drawn (with_ticks w (S (ticks w))) (drawn w + 8)).
Proof. reflexivity. Qed.

Lemma encryptFile_ok content w ct w' :
  QuarantineManager.encryptFile config content w = (Ok ct, w') ->
  exists e,
    AES.encrypt (QuarantineManager.encryptionKey config)
                (map (entropy w) (seq (drawn w) 16)) content = Ok e
    /\ ct = (map (entropy w) (seq (drawn w) 16) ++ e)%list
    /\ w' = with_drawn w (drawn w + 16).
Proof.
  unfold QuarantineManager.encryptFile, bind, Env.randomBytes, lift_result, ret.
  destruct (AES.encrypt _ _ content) as [e|err]; intros E; [|discriminate].
  injection E as <- <-. eauto.
Qed.

Lemma quarantineFile_ok filePath w r w1 :
  QuarantineManager.quarantineFile config filePath w = (Ok r, w1) ->
  exists content e,
    fs w !! filePath = Some (Fs.File content None)
    /\ AES.encrypt (QuarantineManager.encryptionKey config) (quarantine_iv w) content = Ok e
    /\ qr_quarantineId r = quarantine_id w
    /\ fs w1 !! filePath = None
    /\ (forall q n, fs w1 !! q = Some n ->
          (<[QuarantineManager.meta_path config (os_platform w) (quarantine_id w)
               := Fs.File (stringify_meta (metadata_of w filePath content)) None]>
             (<[QuarantineManager.quar_path config (os_platform w) (quarantine_id w)
                  := Fs.File (quarantine_iv w ++ e)%list None]> (fs w))) !! q = Some n)
    /\ os_platform w1 = os_platform w
    /\ os_homedir w1 = os_homedir w
    /\ clock w1 = clock w /\ ticks w1 = S (S (ticks w))
    /\ entropy w1 = entropy w /\ drawn w1 = (drawn w + 24)%nat.
Proof.
  unfold QuarantineManager.quarantineFile. rewrite try_catch_rethrow. intros Hq.
  apply bind_inv_ok in Hq as (present & s1 & E1 & Hq).
  rewrite pathExists_eq in E1. injection E1 as <- <-.
  destruct (fs w !! filePath) as [n0|] eqn:Efile; [|discriminate Hq].
  cbn [negb] in Hq.
  apply bind_inv_ok in Hq as (st & s2 & E2 & Hq).
  apply stat_ok in E2 as [-> Hst]. rewrite Efile in Hst.
  apply bind_inv_ok in Hq as (pf & s3 & E3 & Hq).
  injection E3 as <- <-.
  apply bind_inv_ok in Hq as (id & s4 & E4 & Hq).
  rewrite generateQuarantineId_eq in E4. injection E4 as <- <-.
  apply bind_inv_ok in Hq as (content & s5 & E5 & Hq).
  apply readFile_ok in E5 as [-> Hcontent]. cbn [fs with_drawn with_ticks] in Hcontent.
  rewrite Efile in Hcontent. injection Hcontent as ->. subst st.
  apply bind_inv_ok in Hq as (ct & s6 & E6 & Hq).
  apply encryptFile_ok in E6 as (e & Henc & -> & ->).
  cbn [entropy drawn with_drawn with_ticks] in Henc, Hq.
  apply bind_inv_ok in Hq as (u7 & s7 & E7 & Hq).
  apply writeFile_ok in E7 as ->.
  apply bind_inv_ok in Hq as (at_ & s8 & E8 & Hq).
  injection E8 as <- <-.
  apply bind_inv_ok in Hq as (u9 & s9 & E9 & Hq).
  apply writeFile_ok in E9 as ->.
  apply bind_inv_ok in Hq as (u10 & s10 & E10 & Hq).
  injection Hq as <- <-.
  match type of E10 with Env.remove _ ?w0 = _ =>
    destruct (remove_spec filePath w0)
      as (w' & E' & Hgone & _ & Hkeep & Hpf & Hhome & Hclock & Hticks & Hent & Hdrawn)
  end.
  rewrite E' in E10. injection E10 as _ <-.
  cbn [os_platform os_homedir clock ticks entropy drawn with_fs with_ticks with_drawn]
    in Hpf, Hhome, Hclock, Hticks, Hent, Hdrawn.
  exists content, e.
  replace (quarantine_iv w) with (map (entropy w) (seq (drawn w + 8) 16)) by reflexivity.
  split; [reflexivity|]. split; [exact Henc|]. split; [reflexivity|].
  split; [exact Hgone|]. split.
  - intros q n Hqn. apply Hkeep in Hqn. exact Hqn.
  - repeat split; try assumption. lia.
Qed.

End Vault.

(** * Names written by the vault never collide with a restore target *)

Section VaultNames.

Lemma string_forallb_of_list f l :
  string_forallb f (string_of_list_ascii l) = forallb f l.
Proof. induction l as [|c l IH]; simpl; [reflexivity|]. rewrite IH. reflexivity. Qed.

Lemma basename_no_sep pf p : string_forallb (no_sep pf) (Path.basename pf p) = true.
Proof.
  unfold Path.basename, Path.last_component.
  rewrite string_forallb_of_list, forallb_rev.
  apply (take_while_forallb (fun c => negb (Path.is_sep pf c))).
Qed.

Lemma dec_char_no_sep pf c : dec_char c = true -> no_sep pf c = true.
Proof.
  unfold dec_char, no_sep, Path.is_sep. intros Hc.
  destruct pf; destruct (Ascii.eqb_spec c "/"); try (subst; discriminate Hc);
    try reflexivity.
  destruct (Ascii.eqb_spec c "\"); [subst; discriminate Hc | reflexivity].
Qed.

Lemma hex_char_no_sep pf c : hex_char c = true -> no_sep pf c = true.
Proof.
  unfold hex_char, no_sep, Path.is_sep. intros Hc.
  destruct pf; destruct (Ascii.eqb_spec c "/"); try (subst; discriminate Hc);
    try reflexivity.
  destruct (Ascii.eqb_spec c "\"); [subst; discriminate Hc | reflexivity].
Qed.

Lemma quarantine_id_no_sep pf w ext :
  string_forallb (no_sep pf) ext = true ->
  string_forallb (no_sep pf) (quarantine_id w ++ ext) = true.
Proof.
  intros Hext. unfold quarantine_id.
  rewrite !string_forallb_app, Hext.
  rewrite (string_forallb_impl dec_char (no_sep pf) _ (dec_char_no_sep pf) (dec_chars _)).
  rewrite (string_forallb_impl hex_char (no_sep pf) _ (hex_char_no_sep pf) (hex_chars _)).
  destruct pf; reflexivity.
Qed.

Lemma quarantine_id_head w ext : exists s, (quarantine_id w ++ ext)%string = String "q" s.
Proof. unfold quarantine_id. eexists. reflexivity. Qed.

(** A fallback restore target is never an object of the store. *)
Lemma fallback_not_store_object pf home dir fileName w ext :
  string_forallb (no_sep pf) fileName = true ->
  string_forallb (no_sep pf) ext = true ->
  Path.join pf (Path.join pf home "Desktop") ("Restored_" ++ fileName)
  <> Path.join pf dir (quarantine_id w ++ ext).
Proof.
  intros Hname Hext E.
  apply (f_equal (Path.basename pf)) in E.
  rewrite !basename_join in E.
  - destruct (quarantine_id_head w ext) as (s & Hs). rewrite Hs in E. discriminate.
  - destruct (quarantine_id_head w ext) as (s & Hs). rewrite Hs. discriminate.
  - apply quarantine_id_no_sep, Hext.
  - discriminate.
  - rewrite string_forallb_app, Hname. destruct pf; reflexivity.
Qed.

End VaultNames.

(** * Quarantine, then restore *)

Section RoundTrip.
Context `{JsonCodec}.
Hypothesis parse_stringify : forall m, parse_meta (stringify_meta m) = Some m.
Variable config : Config.

Lemma length_random_bytes (f : nat -> byte) a n : length (map f (seq a n)) = n.
Proof. rewrite length_map, length_seq. reflexivity. Qed.

Lemma decryptFile_encrypted iv e content :
  length iv = 16%nat ->
  AES.encrypt (QuarantineManager.encryptionKey config) iv content = Ok e ->
  QuarantineManager.decryptFile config (iv ++ e)%list = Ok content.
Proof.
  intros Hiv Henc. unfold QuarantineManager.decryptFile.
  rewrite (take_app_length' iv e 16 (eq_sym Hiv)),
          (drop_app_length' iv e 16 (eq_sym Hiv)).
  apply aes_decrypt_encrypt, Henc.
Qed.

Lemma restore_after_quarantine w filePath r w1 rr w2 :
  QuarantineManager.quarantineFile config filePath w = (Ok r, w1) ->
  QuarantineManager.restoreFile config (qr_quarantineId r) w1 = (Ok rr, w2) ->
  exists content,
    fs w !! filePath = Some (Fs.File content None)
    /\ fs w2 !! rr_restoredPath rr = Some (Fs.File content None).
Proof.
  intros Hq Hr.
  apply quarantineFile_ok in Hq
    as (content & e & Hfile & Henc & Hid & Hgone & Hkeep & Hpf & Hhome & _).
  exists content. split; [exact Hfile|].
  rewrite Hid in Hr. clear Hid r.
  set (id := quarantine_id w) in *.
  set (qp := QuarantineManager.quar_path config (os_platform w) id) in *.
  set (mp := QuarantineManager.meta_path config (os_platform w) id) in *.
  set (meta := metadata_of w filePath content) in *.
  assert (Hne : qp <> mp) by apply quar_meta_paths_differ.
  unfold QuarantineManager.restoreFile in Hr. rewrite try_catch_rethrow in Hr.
  apply bind_inv_ok in Hr as (pf & s1 & E1 & Hr). injection E1 as <- <-.
  rewrite Hpf in Hr. fold qp mp in Hr.
  apply bind_inv_ok in Hr as (hasMeta & s2 & E2 & Hr).
  rewrite pathExists_eq in E2. injection E2 as <- <-.
  destruct (fs w1 !! mp) as [nm|] eqn:Em.
  2: { unfold bind, ret, throw in Hr. simpl in Hr. discriminate. }
  apply bind_inv_ok in Hr as (hasQuar & s3 & E3 & Hr).
  rewrite pathExists_eq in E3. injection E3 as <- <-.
  destruct (fs w1 !! qp) as [nq|] eqn:Eq.
  2: { simpl in Hr. discriminate. }
  cbn [negb orb] in Hr.
  (* the two objects are the ones the quarantine call wrote *)
  pose proof (Hkeep _ _ Em) as Hm. rewrite lookup_insert_eq in Hm. injection Hm as <-.
  pose proof (Hkeep _ _ Eq) as Hq'.
  rewrite lookup_insert_ne, lookup_insert_eq in Hq' by congruence. injection Hq' as <-.
  apply bind_inv_ok in Hr as (metadata & s4 & E4 & Hr).
  unfold QuarantineManager.readJson in E4.
  rewrite (bind_ok _ _ _ _ _ (readFile_eq _ _ _ Em)), parse_stringify in E4.
  injection E4 as <- <-.
  apply bind_inv_ok in Hr as (enc & s5 & E5 & Hr).
  rewrite (readFile_eq _ _ _ Eq) in E5. injection E5 as <- <-.
  apply bind_inv_ok in Hr as (dec & s6 & E6 & Hr).
  unfold lift_result in E6.
  assert (Hd : QuarantineManager.decryptFile config (quarantine_iv w ++ e)%list = Ok content)
    by (apply decryptFile_encrypted; [apply length_random_bytes | exact Henc]).
  change (QuarantineManager.decryptFile config _)
    with (QuarantineManager.decryptFile config (quarantine_iv w ++ e)%list) in E6.
  rewrite Hd in E6.
  injection E6 as <- <-.
  apply bind_inv_ok in Hr as (dirThere & s7 & E7 & Hr).
  rewrite pathExists_eq in E7. injection E7 as <- <-.
  apply bind_inv_ok in Hr as (home & s8 & E8 & Hr). injection E8 as <- <-.
  set (rp := if match fs w1 !! Path.dirname (os_platform w) (md_originalPath meta) with
                | Some _ => true | None => false end
             then md_originalPath meta
             else Path.join (os_platform w) (Path.join (os_platform w) (os_homedir w1) "Desktop")
                            ("Restored_" ++ md_fileName meta)) in *.
  (* the target is neither of the two objects *)
  assert (Hrp : rp <> qp /\ rp <> mp).
  { unfold rp. destruct (fs w1 !! Path.dirname _ _).
    - simpl. split; intros ->; congruence.
    - split; apply fallback_not_store_object;
        try apply basename_no_sep; destruct (os_platform w); reflexivity. }
  destruct Hrp as [Hrq Hrm].
  apply bind_inv_ok in Hr as (u9 & s9 & E9 & Hr).
  apply writeFile_ok in E9 as ->.
  apply bind_inv_ok in Hr as (u10 & s10 & E10 & Hr).
  apply bind_inv_ok in Hr as (u11 & s11 & E11 & Hr).
  injection Hr as <- <-.
  change (fs s11 !! rp = Some (Fs.File content None)).
  assert (Hs10 : s10 = snd (Env.remove qp (with_fs w1 (<[rp:=Fs.File content None]> (fs w1)))))
    by (apply (f_equal snd) in E10; symmetry; exact E10).
  assert (Hs11 : s11 = snd (Env.remove mp s10))
    by (apply (f_equal snd) in E11; symmetry; exact E11).
  assert (F10 : forall q, q <> qp ->
                 fs s10 !! q = (<[rp:=Fs.File content None]> (fs w1)) !! q).
  { intros q Hqne. rewrite Hs10.
    rewrite (remove_file_other qp _ (quarantine_iv w ++ e)%list None q); [reflexivity| |exact Hqne].
    cbn [fs with_fs]. rewrite lookup_insert_ne by congruence. exact Eq. }
  rewrite Hs11.
  rewrite (remove_file_other mp s10 (stringify_meta meta) None rp).
  - rewrite F10 by exact Hrq. apply lookup_insert_eq.
  - rewrite F10 by congruence. rewrite lookup_insert_ne by congruence. exact Em.
  - exact Hrm.
Qed.

End RoundTrip.

(** * The reference encoding can be read back *)

Section RefCodecFacts.

Lemma length_enc_string s :
  length (RefCodec.enc_string s) = (2 * String.length s + 1)%nat.
Proof. induction s as [|c s IH]; simpl; [reflexivity|]. rewrite IH. lia. Qed.

Lemma dec_string_cons fuel b rest :
  RefCodec.dec_string (S fuel) (x01 :: b :: rest)
  = match RefCodec.dec_string fuel rest with
    | Some (s, rest') => Some (String (ascii_of_byte b) s, rest')
    | None => None
    end.
Proof. reflexivity. Qed.

Lemma dec_string_end fuel rest :
  RefCodec.dec_string fuel (x00 :: rest) = Some (EmptyString, rest).
Proof. destruct fuel; reflexivity. Qed.

Lemma dec_enc_string s rest fuel :
  (String.length s <= fuel)%nat ->
  RefCodec.dec_string fuel (RefCodec.enc_string s ++ rest)%list = Some (s, rest).
Proof.
  revert fuel. induction s as [|c s IH]; intros fuel Hf.
  - apply dec_string_end.
  - destruct fuel as [|fuel]; [simpl in Hf; lia|].
    simpl in Hf. change (RefCodec.enc_string (String c s) ++ rest)%list
      with (x01 :: byte_of_ascii c :: (RefCodec.enc_string s ++ rest))%list.
    rewrite dec_string_cons, IH by lia. rewrite ascii_of_byte_of_ascii. reflexivity.
Qed.

Lemma dec_enc_string_all s rest :
  let l := (RefCodec.enc_string s ++ rest)%list in
  RefCodec.dec_string (length l) l = Some (s, rest).
Proof.
  intros l. apply dec_enc_string. unfold l.
  rewrite length_app, length_enc_string. lia.
Qed.

Lemma dec_enc_Z z rest :
  RefCodec.dec_Z (RefCodec.enc_Z z ++ rest)%list = Some (z, rest).
Proof.
  unfold RefCodec.dec_Z, RefCodec.enc_Z.
  rewrite dec_enc_string_all, dec_parse, DecimalZ.of_to. reflexivity.
Qed.

Lemma ref_codec_meta m : RefCodec.dec_meta (RefCodec.enc_meta m) = Some m.
Proof.
  unfold RefCodec.dec_meta, RefCodec.enc_meta.
  rewrite dec_enc_string_all, dec_enc_string_all, dec_enc_string_all.
  rewrite dec_enc_Z, dec_enc_Z.
  rewrite <- (app_nil_r (RefCodec.enc_string (md_hash m))).
  rewrite dec_enc_string_all. destruct m; reflexivity.
Qed.

End RefCodecFacts.

(** * Digests as text *)

Section DigestText.

Lemma length_le_bytes n x : length (Digest.le_bytes n x) = n.
Proof. unfold Digest.le_bytes. rewrite length_map, length_seq. reflexivity. Qed.

Lemma length_be_bytes n x : length (Digest.be_bytes n x) = n.
Proof. unfold Digest.be_bytes. rewrite length_rev. apply length_le_bytes. Qed.

Lemma le_bytes_range n x : Forall byte_range (Digest.le_bytes n x).
Proof.
  unfold Digest.le_bytes. apply Forall_map, Forall_forall. intros i _.
  unfold byte_range. change 255 with (Z.ones 8). rewrite Z.land_ones by lia.
  apply Z.mod_pos_bound. lia.
Qed.

Lemma be_bytes_range n x : Forall byte_range (Digest.be_bytes n x).
Proof. unfold Digest.be_bytes. apply Forall_rev, le_bytes_range. Qed.

Lemma md5_bytes_shape msg :
  length (Digest.md5_bytes msg) = 16%nat /\ Forall byte_range (Digest.md5_bytes msg).
Proof.
  unfold Digest.md5_bytes. cbv zeta.
  destruct (fold_left Digest.md5_block _ _) as [[[a b] c] d].
  rewrite !length_app, !length_le_bytes. split; [reflexivity|].
  rewrite !Forall_app. repeat split; apply le_bytes_range.
Qed.

Lemma sha1_bytes_shape msg :
  length (Digest.sha1_bytes msg) = 20%nat /\ Forall byte_range (Digest.sha1_bytes msg).
Proof.
  unfold Digest.sha1_bytes. cbv zeta.
  destruct (fold_left Digest.sha1_block _ _) as [[[[a b] c] d] e].
  rewrite !length_app, !length_be_bytes. split; [reflexivity|].
  rewrite !Forall_app. repeat split; apply be_bytes_range.
Qed.

Lemma length_sha256_step W st i : length (Digest.sha256_step W st i) = length st.
Proof.
  unfold Digest.sha256_step.
  destruct st as [|a [|b [|c [|d [|e [|f [|g [|h [|x st]]]]]]]]]; reflexivity.
Qed.

Lemma length_sha256_rounds W idx st :
  length (fold_left (Digest.sha256_step W) idx st) = length st.
Proof.
  revert st. induction idx as [|i idx IH]; intros st; [reflexivity|].
  cbn [fold_left]. rewrite IH. apply length_sha256_step.
Qed.

Lemma length_sha256_block h block : length (Digest.sha256_block h block) = length h.
Proof.
  unfold Digest.sha256_block. cbv zeta.
  rewrite length_map, length_combine, length_sha256_rounds. lia.
Qed.

Lemma length_sha256_blocks bl h :
  length (fold_left Digest.sha256_block bl h) = length h.
Proof.
  revert h. induction bl as [|b bl IH]; intros h; [reflexivity|].
  cbn [fold_left]. rewrite IH. apply length_sha256_block.
Qed.

Lemma concat_be_bytes_shape l :
  length (concat (map (Digest.be_bytes 4) l)) = (4 * length l)%nat
  /\ Forall byte_range (concat (map (Digest.be_bytes 4) l)).
Proof.
  induction l as [|x l [IHl IHr]]; [split; [reflexivity | constructor]|].
  cbn [map concat]. rewrite length_app, length_be_bytes, IHl. split; [simpl; lia|].
  rewrite Forall_app. split; [apply be_bytes_range | exact IHr].
Qed.

Lemma sha256_bytes_shape msg :
  length (Digest.sha256_bytes msg) = 32%nat /\ Forall byte_range (Digest.sha256_bytes msg).
Proof.
  unfold Digest.sha256_bytes. cbv zeta.
  destruct (concat_be_bytes_shape
              (fold_left Digest.sha256_block
                 (Bytes.blocks 64 (length (Digest.pad Digest.be_bytes msg) / 64)
                    (Digest.pad Digest.be_bytes msg)) Digest.sha256_H0)) as [Hl Hr].
  split; [|exact Hr]. rewrite Hl, length_sha256_blocks. reflexivity.
Qed.

Lemma length_hex l : String.length (Bytes.hex l) = (2 * length l)%nat.
Proof. induction l as [|b l IH]; simpl; [reflexivity|]. rewrite IH. lia. Qed.

Lemma lower_char_hex c : hex_char c = true -> Str.lower_char c = c.
Proof.
  unfold hex_char, Str.lower_char. intros Hc.
  destruct ((65 <=? nat_of_ascii c)%nat && (nat_of_ascii c <=? 90)%nat
            || (192 <=? nat_of_ascii c)%nat && (nat_of_ascii c <=? 222)%nat
               && negb (nat_of_ascii c =? 215)%nat) eqn:E; [|reflexivity].
  exfalso.
  rewrite orb_true_iff, !andb_true_iff, !Nat.leb_le in Hc.
  rewrite orb_true_iff, !andb_true_iff, !Nat.leb_le in E. lia.
Qed.

Lemma toLowerCase_hex_chars s :
  string_forallb hex_char s = true -> Str.toLowerCase s = s.
Proof.
  induction s as [|c s IH]; simpl; [reflexivity|].
  rewrite andb_true_iff. intros [Hc Hs]. rewrite lower_char_hex, IH by assumption.
  reflexivity.
Qed.

Lemma hex_chars_range l : Forall byte_range l -> string_forallb hex_char (Bytes.hex l) = true.
Proof.
  induction 1 as [|b l Hb Hl IH]; simpl; [reflexivity|]. unfold byte_range in Hb.
  rewrite !hex_digit_char, IH; [reflexivity| |].
  - apply Z.mod_pos_bound. lia.
  - split; [apply Z.div_pos; lia | apply Z.div_lt_upper_bound; lia].
Qed.

(** A digest in hexadecimal is not empty and is its own lower-case
    form. *)
Lemma digest_text l n :
  length l = S n -> Forall byte_range l ->
  SignatureDetector.truthy (Bytes.hex l) = true /\ Str.toLowerCase (Bytes.hex l) = Bytes.hex l.
Proof.
  intros Hl Hr. split.
  - destruct l as [|b l]; [discriminate|]. reflexivity.
  - apply toLowerCase_hex_chars, hex_chars_range, Hr.
Qed.

Lemma md5_text content :
  SignatureDetector.truthy (Digest.md5 content) = true
  /\ Str.toLowerCase (Digest.md5 content) = Digest.md5 content.
Proof.
  destruct (md5_bytes_shape (map Bytes.to_Z content)) as [Hl Hr].
  exact (digest_text _ _ Hl Hr).
Qed.

Lemma sha1_text content :
  SignatureDetector.truthy (Digest.sha1 content) = true
  /\ Str.toLowerCase (Digest.sha1 content) = Digest.sha1 content.
Proof.
  destruct (sha1_bytes_shape (map Bytes.to_Z content)) as [Hl Hr].
  exact (digest_text _ _ Hl Hr).
Qed.

Lemma sha256_text content :
  SignatureDetector.truthy (Digest.sha256 content) = true
  /\ Str.toLowerCase (Digest.sha256 content) = Digest.sha256 content.
Proof.
  destruct (sha256_bytes_shape (map Bytes.to_Z content)) as [Hl Hr].
  exact (digest_text _ _ Hl Hr).
Qed.

End DigestText.

(** * The table of hash signatures *)

Section HashTable.
Import SignatureDetector.

Lemma table_lookup hs : forall m k i,
  fold_left add_row hs m !! k = Some i ->
  (exists sig, In sig hs /\ Str.toLowerCase (hs_hash sig) = k /\ i = info_of_hash sig)
  \/ m !! k = Some i.
Proof.
  induction hs as [|sig hs IH]; intros m k i Hk; [right; exact Hk|].
  cbn [fold_left] in Hk. apply IH in Hk as [(sig' & Hin & Hkey & Hi)|Hk].
  - left. exists sig'. split; [right; exact Hin | auto].
  - unfold add_row in Hk.
    destruct (decide (Str.toLowerCase (hs_hash sig) = k)) as [E|E].
    + subst k. rewrite lookup_insert_eq in Hk. injection Hk as <-.
      left. exists sig. split; [left; reflexivity | auto].
    + rewrite lookup_insert_ne in Hk by exact E. right. exact Hk.
Qed.

Lemma table_keeps hs : forall m k,
  is_Some (m !! k) -> is_Some (fold_left add_row hs m !! k).
Proof.
  induction hs as [|y hs IH]; intros m k Hk; [exact Hk|].
  cbn [fold_left]. apply IH. unfold add_row.
  destruct (decide (Str.toLowerCase (hs_hash y) = k)) as [<-|N].
  - rewrite lookup_insert_eq. eauto.
  - rewrite lookup_insert_ne by exact N. exact Hk.
Qed.

Lemma table_has hs : forall m sig,
  In sig hs -> is_Some (fold_left add_row hs m !! Str.toLowerCase (hs_hash sig)).
Proof.
  induction hs as [|x hs IH]; intros m sig Hin; [destruct Hin|].
  cbn [fold_left]. destruct Hin as [->|Hin]; [|apply IH, Hin].
  apply table_keeps. unfold add_row. rewrite lookup_insert_eq. eauto.
Qed.

Lemma table_of_eq hs : table_of hs = fold_left add_row hs ∅.
Proof. reflexivity. Qed.

Lemma hashes_loadSignatures hs ps d :
  hashes (loadSignatures hs ps d) = hashes (loadSignatures hs [] d).
Proof. unfold loadSignatures. destruct (signaturesLoaded d); reflexivity. Qed.

(** The lookup of one digest in the table of a catalog. *)
Lemma lookup_digest_cataloged hs d h i :
  hashes d = table_of hs -> Str.toLowerCase h = h ->
  lookup_digest d h = Some i ->
  exists sig, In sig hs /\ Str.toLowerCase (hs_hash sig) = h /\ i = info_of_hash sig.
Proof.
  intros Hd Hh. unfold lookup_digest. destruct (truthy h); [|discriminate].
  rewrite Hd, Hh, table_of_eq. intros Hi.
  apply table_lookup in Hi as [Hi|Hi]; [exact Hi|].
  rewrite lookup_empty in Hi. discriminate.
Qed.

Lemma lookup_digest_has hs d h sig :
  hashes d = table_of hs -> truthy h = true -> Str.toLowerCase h = h ->
  In sig hs -> Str.toLowerCase (hs_hash sig) = h ->
  is_Some (lookup_digest d h).
Proof.
  intros Hd Ht Hh Hin Hkey. unfold lookup_digest. rewrite Ht, Hd, Hh, table_of_eq, <- Hkey.
  apply table_has, Hin.
Qed.

(** A content with a cataloged digest is reported with the data of a
    cataloged row that carries one of its digests. *)
Lemma checkHashSignatures_cataloged hs d content sig :
  hashes d = table_of hs ->
  cataloged hs content sig ->
  exists sig', cataloged hs content sig'
               /\ checkHashSignatures d (HashGenerator.hashes_of content)
                  = Some (info_of_hash sig').
Proof.
  intros Hd [Hin Hkey].
  destruct (md5_text content) as [T1 L1], (sha1_text content) as [T2 L2],
           (sha256_text content) as [T3 L3].
  unfold checkHashSignatures, HashGenerator.hashes_of.
  cbn [HashGenerator.md5 HashGenerator.sha1 HashGenerator.sha256].
  destruct (lookup_digest d (Digest.md5 content)) as [i|] eqn:E1.
  { destruct (lookup_digest_cataloged _ _ _ _ Hd L1 E1) as (s' & Hs & Hk & ->).
    exists s'. split; [|reflexivity]. split; [exact Hs|]. rewrite Hk. left. reflexivity. }
  destruct (lookup_digest d (Digest.sha1 content)) as [i|] eqn:E2.
  { destruct (lookup_digest_cataloged _ _ _ _ Hd L2 E2) as (s' & Hs & Hk & ->).
    exists s'. split; [|reflexivity]. split; [exact Hs|]. rewrite Hk. right. left. reflexivity. }
  destruct (lookup_digest d (Digest.sha256 content)) as [i|] eqn:E3.
  { destruct (lookup_digest_cataloged _ _ _ _ Hd L3 E3) as (s' & Hs & Hk & ->).
    exists s'. split; [|reflexivity]. split; [exact Hs|]. rewrite Hk.
    right. right. left. reflexivity. }
  exfalso. destruct Hkey as [K|[K|[K|[]]]].
  - destruct (lookup_digest_has hs d _ sig Hd T1 L1 Hin (eq_sym K)) as [i Hi]. congruence.
  - destruct (lookup_digest_has hs d _ sig Hd T2 L2 Hin (eq_sym K)) as [i Hi]. congruence.
  - destruct (lookup_digest_has hs d _ sig Hd T3 L3 Hin (eq_sym K)) as [i Hi]. congruence.
Qed.

End HashTable.

(** * Pattern signatures *)

Section Patterns.
Import SignatureDetector.

(** With every pattern object rewound, the loop returns the first
    signature of the catalog whose pattern occurs in the text. *)
Lemma test_patterns_rewound content ps :
  Forall rewound ps ->
  fst (test_patterns content ps) = first_matching_signature content ps.
Proof.
  induction 1 as [|p ps Hp Hps IH]; [reflexivity|].
  unfold first_matching_signature in *. cbn [test_patterns List.find].
  unfold pattern_matches at 1. unfold RegExp.test. unfold rewound in Hp. rewrite Hp.
  replace (if RegExp.global (cp_pattern p) then 0%nat else 0%nat) with 0%nat
    by (destruct (RegExp.global _); reflexivity).
  change (length (list_ascii_of_string content) <? 0)%nat with false.
  cbn [skipn].
  destruct (RegExp.search _ _ 0 _) as [e|]; [reflexivity|].
  destruct (test_patterns content ps) as [r rest']. exact IH.
Qed.

(** Files outside the allow-list are not opened and leave the detector
    as it was. *)
Lemma checkPatternSignatures_other_extension filePath (s : St) :
  Str.includes scanExtensions
    (Str.toLowerCase (Path.extname (os_platform (fst s)) filePath)) = false ->
  checkPatternSignatures filePath s = (Ok None, s).
Proof.
  intros Hext. unfold checkPatternSignatures, try_catch, bind, get.
  rewrite Hext. reflexivity.
Qed.

(** The text handed to the patterns: at most [maxReadSize] bytes from
    the start of the file. *)
Lemma readPrefix_bounded p n w buffer w' :
  Env.readPrefix p n w = (Ok buffer, w') -> length buffer = n.
Proof.
  unfold Env.readPrefix. intros E.
  apply bind_inv_ok in E as (d & w1 & _ & E). injection E as <- _.
  rewrite length_app, length_firstn, repeat_length. lia.
Qed.

End Patterns.

(** * The scan orchestrator *)

Section ScannerSteps.
Context `{JsonCodec}.
Variable config : Config.

Lemma this_eq (f : FileScanner.t -> FileScanner.t) (s : FileScanner.St) :
  FileScanner.this f s = (Ok tt, (fst s, f (snd s))).
Proof. reflexivity. Qed.

Lemma on_db_eq {A} (m : M ThreatDatabase.St A) w s r w' d' :
  m (w, FileScanner.db s) = (r, (w', d')) ->
  FileScanner.on_db m (w, s) = (r, (w', FileScanner.with_db s d')).
Proof. intros E. unfold FileScanner.on_db, zoom. cbn. rewrite E. reflexivity. Qed.

Lemma save_ok w d u w' d' :
  ThreatDatabase.save config (w, d) = (Ok u, (w', d')) ->
  d' = d
  /\ w' = with_fs w (<[ThreatDatabase.dbPath config :=
                        Fs.File (stringify_db (ThreatDatabase.data d)) None]> (fs w)).
Proof.
  unfold ThreatDatabase.save, ThreatDatabase.get_data, ThreatDatabase.env, bind, gets, zoom.
  cbn. destruct (Env.writeFile _ _ w) as [[u'|e] w1] eqn:E; intros E'; [|discriminate].
  injection E' as _ <- <-. apply writeFile_ok in E. auto.
Qed.

(** A started session is appended to the history, in memory and in the
    stored document. *)
Lemma recordScanStart_ok type w1 d1 id w2 d2 :
  ThreatDatabase.recordScanStart config type (w1, d1) = (Ok id, (w2, d2)) ->
  id = clock w1 (ticks w1)
  /\ ThreatDatabase.initialized d2 = ThreatDatabase.initialized d1
  /\ hash_signatures (ThreatDatabase.data d2) = hash_signatures (ThreatDatabase.data d1)
  /\ scan_history (ThreatDatabase.data d2)
     = (scan_history (ThreatDatabase.data d1)
        ++ [running_session id (clock w1 (S (ticks w1))) type])%list
  /\ fs w2 !! ThreatDatabase.dbPath config
     = Some (Fs.File (stringify_db (ThreatDatabase.data d2)) None).
Proof.
  unfold ThreatDatabase.recordScanStart.
  unfold bind at 1. cbn. unfold bind.
  match goal with |- context [ThreatDatabase.save config ?s] =>
    destruct (ThreatDatabase.save config s) as [[u|e] [w' d']] eqn:E end;
    intros E'; [|discriminate].
  injection E' as <- <- <-. apply save_ok in E as [-> ->].
  cbn. rewrite lookup_insert_eq. repeat split; reflexivity.
Qed.

Lemma env_eq {A} (m : M World A) w (s : FileScanner.t) r w' :
  m w = (r, w') -> FileScanner.env m (w, s) = (r, (w', s)).
Proof. intros E. unfold FileScanner.env, zoom. cbn. rewrite E. reflexivity. Qed.

Lemma on_detector_eq {A} (m : M SignatureDetector.St A) w s r w' d' :
  m (w, FileScanner.signatureDetector s) = (r, (w', d')) ->
  FileScanner.on_detector m (w, s) = (r, (w', FileScanner.with_detector s d')).
Proof. intros E. unfold FileScanner.on_detector, zoom. cbn. rewrite E. reflexivity. Qed.

(** Reporting a threat never fails: a failure to record it is dropped. *)
Lemma handleThreatFound_ok filePath ti st (s : FileScanner.St) :
  exists s',
    FileScanner.handleThreatFound config filePath ti st s
    = (Ok {| th_path := filePath; th_name := ti_name ti; th_type := ti_type ti;
             th_severity := ti_severity ti; th_description := ti_description ti;
             th_detectionMethod := ti_method ti; th_fileSize := Fs.size st;
             th_detectedAt := clock (fst s) (ticks (fst s)) |}, s').
Proof.
  unfold FileScanner.handleThreatFound.
  unfold bind at 1. cbn. unfold bind at 1. unfold try_catch.
  match goal with |- context [FileScanner.on_db ?m ?x] =>
    destruct (FileScanner.on_db m x) as [[u|e] s1] end;
    cbn; eexists; reflexivity.
Qed.

(** A run of the detector on hashes that are in its table. *)
Lemma detect_hash_hit hs ps filePath h w d i :
  SignatureDetector.checkHashSignatures (SignatureDetector.loadSignatures hs ps d) h = Some i ->
  SignatureDetector.detect hs ps filePath h (w, d)
  = (Ok (Some (SignatureDetector.threat_of i "signature-hash")),
     (w, SignatureDetector.loadSignatures hs ps d)).
Proof.
  intros Hi. unfold SignatureDetector.detect. unfold bind at 1. cbn.
  unfold bind at 1. cbn. rewrite Hi. reflexivity.
Qed.

(** The scan of a readable file within the bound, not excluded, whose
    content has a cataloged digest. *)
Lemma scanFile_hash_hit w s b w1 d1 filePath content sig :
  ThreatDatabase.initialize config (w, FileScanner.db s) = (Ok b, (w1, d1)) ->
  fs w1 !! filePath = Some (Fs.File content None) ->
  Z.of_nat (length content) <= exclusions_maxFileSize config ->
  FileScanner.isExcluded config (os_platform w1) filePath = false ->
  detection_enableSignatureScanning config = true ->
  in_step (FileScanner.signatureDetector s) (hash_signatures (ThreatDatabase.data d1)) ->
  cataloged (hash_signatures (ThreatDatabase.data d1)) content sig ->
  exists sig' st',
    cataloged (hash_signatures (ThreatDatabase.data d1)) content sig'
    /\ FileScanner.scanFile config filePath (w, s)
       = (Ok (Some {| th_path := filePath; th_name := hs_name sig'; th_type := hs_type sig';
                      th_severity := hs_severity sig';
                      th_description := hs_description sig';
                      th_detectionMethod := "signature-hash";
                      th_fileSize := Z.of_nat (length content);
                      th_detectedAt := clock w1 (ticks w1) |}), st').
Proof.
  intros Hinit Hfile Hsize Hexcl Hsig Hstep Hcat.
  set (hs := hash_signatures (ThreatDatabase.data d1)) in *.
  set (ps := pattern_signatures (ThreatDatabase.data d1)).
  assert (Htable : SignatureDetector.hashes
                     (SignatureDetector.loadSignatures hs ps (FileScanner.signatureDetector s))
                   = table_of hs).
  { rewrite hashes_loadSignatures. exact Hstep. }
  destruct (checkHashSignatures_cataloged hs _ content sig Htable Hcat) as (sig' & Hcat' & Hhit).
  exists sig'.
  cut (exists st', FileScanner.scanFile config filePath (w, s)
       = (Ok (Some {| th_path := filePath; th_name := hs_name sig'; th_type := hs_type sig';
                      th_severity := hs_severity sig';
                      th_description := hs_description sig';
                      th_detectionMethod := "signature-hash";
                      th_fileSize := Z.of_nat (length content);
                      th_detectedAt := clock w1 (ticks w1) |}), st')).
  { intros [st' E]. exists st'. split; [exact Hcat' | exact E]. }
  unfold FileScanner.scanFile. apply try_catch_ok_ex.
  eapply bind_ok_ex; [apply on_db_eq; exact Hinit|].
  eapply bind_ok_ex; [apply env_eq; unfold Env.stat; rewrite Hfile; reflexivity|].
  cbn [Fs.size Fs.isDirectory].
  destruct (Z.ltb_spec (exclusions_maxFileSize config) (Z.of_nat (length content))); [lia|].
  eapply bind_ok_ex; [reflexivity|]. cbn [fst snd]. rewrite Hexcl.
  eapply bind_ok_ex.
  { apply env_eq. unfold HashGenerator.generateAllHashes.
    erewrite bind_ok by (apply readFile_eq, Hfile). reflexivity. }
  rewrite Hsig.
  eapply bind_ok_ex.
  { eapply eq_trans; [apply bind_ok; reflexivity|].
    apply on_detector_eq, detect_hash_hit. exact Hhit. }
  cbv beta iota.
  match goal with |- exists s', bind (FileScanner.handleThreatFound _ ?p ?ti ?st) _ ?x = _ =>
    destruct (handleThreatFound_ok p ti st x) as [s' Hs'] end.
  exists s'. rewrite (bind_ok _ _ _ _ _ Hs'). reflexivity.
Qed.

(** An empty catalog is seeded by [initialize]. *)
Lemma initialize_seeds w d w0 d0 b w1 d1 :
  ThreatDatabase.initialized d = false ->
  ThreatDatabase.load config (w, d) = (Ok tt, (w0, d0)) ->
  hash_signatures (ThreatDatabase.data d0) = [] ->
  ThreatDatabase.initialize config (w, d) = (Ok b, (w1, d1)) ->
  hash_signatures (ThreatDatabase.data d1)
  = [ThreatDatabase.eicar_md5; ThreatDatabase.eicar_sha256]
  /\ ThreatDatabase.initialized d1 = true
  /\ fs w1 !! ThreatDatabase.dbPath config
     = Some (Fs.File (stringify_db (ThreatDatabase.data d1)) None).
Proof.
  intros Hd Hload Hempty. unfold ThreatDatabase.initialize.
  unfold bind at 1. cbn [get fst snd]. rewrite Hd.
  rewrite (bind_ok _ _ _ _ _ Hload).
  unfold bind at 1. cbn [ThreatDatabase.get_data gets fst snd]. rewrite Hempty.
  cbn [length Nat.eqb].
  unfold bind at 1. unfold bind at 1. cbn [ThreatDatabase.set_data modify fst snd].
  match goal with |- context [ThreatDatabase.save config ?x] =>
    destruct (ThreatDatabase.save config x) as [[u|e] [w' d']] eqn:E end;
    [|discriminate].
  apply save_ok in E as [-> ->]. cbn. intros E. injection E as _ <- <-.
  cbn. rewrite Hempty, lookup_insert_eq. repeat split; reflexivity.
Qed.

End ScannerSteps.

(** * What the steps of a scan leave alone *)

Section Preserves.
Context {S : Type} (R : S -> S -> Prop) `{!Reflexive R} `{!Transitive R}.

Lemma preserves_ret {A} (a : A) : preserves R (ret a).
Proof. intros s r s' E. injection E as _ <-. reflexivity. Qed.

Lemma preserves_throw {A} e : preserves R (@throw S A e).
Proof. intros s r s' E. injection E as _ <-. reflexivity. Qed.

Lemma preserves_get : preserves R get.
Proof. intros s r s' E. injection E as _ <-. reflexivity. Qed.

Lemma preserves_gets {A} (f : S -> A) : preserves R (gets f).
Proof. intros s r s' E. injection E as _ <-. reflexivity. Qed.

Lemma preserves_lift_result {A} (x : result A) : preserves R (lift_result x).
Proof. intros s r s' E. injection E as _ <-. reflexivity. Qed.

Lemma preserves_modify f : (forall s, R s (f s)) -> preserves R (modify f).
Proof. intros Hf s r s' E. injection E as _ <-. apply Hf. Qed.

(** A computation that leaves the state as it is. *)
Lemma preserves_reader {A} (m : M S A) :
  (forall s, snd (m s) = s) -> preserves R m.
Proof. intros Hm s r s' E. specialize (Hm s). rewrite E in Hm. cbn in Hm. subst s'. reflexivity. Qed.

Lemma preserves_bind {A B} (m : M S A) (k : A -> M S B) :
  preserves R m -> (forall a, preserves R (k a)) -> preserves R (bind m k).
Proof.
  intros Hm Hk s r s' E. unfold bind in E.
  destruct (m s) as [[a|e] s1] eqn:Em.
  - transitivity s1; [exact (Hm _ _ _ Em) | exact (Hk _ _ _ _ E)].
  - injection E as _ <-. exact (Hm _ _ _ Em).
Qed.

Lemma preserves_try_catch {A} (m : M S A) h :
  preserves R m -> (forall e, preserves R (h e)) -> preserves R (try_catch m h).
Proof.
  intros Hm Hh s r s' E. unfold try_catch in E.
  destruct (m s) as [[a|e] s1] eqn:Em.
  - injection E as _ <-. exact (Hm _ _ _ Em).
  - transitivity s1; [exact (Hm _ _ _ Em) | exact (Hh _ _ _ _ E)].
Qed.

End Preserves.

Lemma preserves_zoom {S T A} (RS : S -> S -> Prop) (RT : T -> T -> Prop)
      (proj : S -> T) (upd : S -> T -> S) (m : M T A) :
  preserves RT m -> (forall s t', RT (proj s) t' -> RS s (upd s t')) ->
  preserves RS (zoom proj upd m).
Proof.
  intros Hm Hup s r s' E. unfold zoom in E.
  destruct (m (proj s)) as [r' t'] eqn:Em. injection E as _ <-.
  apply Hup. exact (Hm _ _ _ Em).
Qed.

Create HintDb pres discriminated.

(** Decomposes a computation into its steps; the steps that remain are
    looked up among the proved facts. *)
Ltac pres :=
  repeat first
    [ solve [eauto with pres]
    | refine (preserves_ret _ _) | refine (preserves_throw _ _) | refine (preserves_get _)
    | refine (preserves_gets _ _) | refine (preserves_lift_result _ _)
    | refine (preserves_bind _ _ _ _ _); [|intros ?]
    | refine (preserves_try_catch _ _ _ _ _); [|intros ?]
    | match goal with
      | |- preserves _ (if ?b then _ else _) => destruct b
      | |- preserves _ (match ?x with _ => _ end) => destruct x
      end ].

Section WorldSteps.
Variable config : Config.

Lemma world_step_refl : Reflexive (world_step config).
Proof.
  intros w. constructor; [reflexivity | intros; reflexivity | intros q Hq; left; exact Hq].
Qed.

Lemma within_size_back w w' q :
  world_step config w w' -> within_size config w' q -> within_size config w q.
Proof.
  intros Hs [->|(c & e & Hq & Hle)]; [left; reflexivity|].
  destruct (decide (q = ThreatDatabase.dbPath config)) as [->|N]; [left; reflexivity|].
  right. exists c, e. split; [|exact Hle]. apply (step_files _ _ _ Hs); assumption.
Qed.

Lemma world_step_trans : Transitive (world_step config).
Proof.
  intros a b c Hab Hbc. constructor.
  - rewrite (step_stop _ _ _ Hbc). apply (step_stop _ _ _ Hab).
  - intros q content e N. rewrite (step_files _ _ _ Hab q content e N).
    apply (step_files _ _ _ Hbc q content e N).
  - intros q Hq. destruct (step_digested _ _ _ Hbc q Hq) as [Hb|Hb].
    + apply (step_digested _ _ _ Hab q Hb).
    + right. eapply within_size_back; eassumption.
Qed.

Existing Instance world_step_refl.
Existing Instance world_step_trans.

Lemma now_step : preserves (world_step config) Env.now.
Proof.
  intros w r w' E. injection E as _ <-.
  constructor; [reflexivity | intros; reflexivity | intros q Hq; left; exact Hq].
Qed.

Lemma pathExists_step p : preserves (world_step config) (Env.pathExists p).
Proof. apply preserves_reader; [typeclasses eauto | reflexivity]. Qed.

Lemma stat_step p : preserves (world_step config) (Env.stat p).
Proof.
  apply preserves_reader; [typeclasses eauto|]. intros w. unfold Env.stat.
  destruct (fs w !! p) as [[d a|]|]; reflexivity.
Qed.

Lemma readFile_step p : preserves (world_step config) (Env.readFile p).
Proof.
  apply preserves_reader; [typeclasses eauto|]. intros w. unfold Env.readFile.
  destruct (fs w !! p) as [[d [c|]|]|]; reflexivity.
Qed.

(** Writing the history store. *)
Lemma writeFile_db_step data :
  preserves (world_step config) (Env.writeFile (ThreatDatabase.dbPath config) data).
Proof.
  intros w r w' E. unfold Env.writeFile in E.
  destruct (fs w !! Path.dirname (os_platform w) (ThreatDatabase.dbPath config))
    as [[? ?|]|]; [injection E as _ <-; reflexivity| |injection E as _ <-; reflexivity].
  destruct (fs w !! ThreatDatabase.dbPath config) as [[? [c|]|]|];
    injection E as _ <-; try reflexivity.
  - constructor; [reflexivity| |intros q Hq; left; exact Hq].
    intros q content e N. cbn. rewrite lookup_insert_ne by congruence. reflexivity.
  - constructor; [reflexivity| |intros q Hq; left; exact Hq].
    intros q content e N. cbn. rewrite lookup_insert_ne by congruence. reflexivity.
Qed.

(** Creating directories touches no entry that exists. *)
Lemma ensure_dirs_kept pf fuel : forall p f f' q,
  Env.ensure_dirs pf fuel p f = Some f' ->
  f' !! q = f !! q \/ (f !! q = None /\ f' !! q = Some Fs.Dir).
Proof.
  induction fuel as [|fuel IH]; intros p f f' q; cbn [Env.ensure_dirs].
  - destruct (f !! p) as [[? ?|]|] eqn:Ep; intros E; try discriminate.
    + injection E as <-. left. reflexivity.
    + injection E as <-. destruct (decide (p = q)) as [->|N].
      * right. rewrite lookup_insert_eq. auto.
      * left. apply lookup_insert_ne, N.
  - destruct (f !! p) as [[? ?|]|] eqn:Ep; intros E; try discriminate.
    + injection E as <-. left. reflexivity.
    + destruct (String.eqb (Path.dirname pf p) p).
      * injection E as <-. destruct (decide (p = q)) as [->|N].
        -- right. rewrite lookup_insert_eq. auto.
        -- left. apply lookup_insert_ne, N.
      * destruct (Env.ensure_dirs pf fuel (Path.dirname pf p) f) as [f1|] eqn:E1;
          [|discriminate].
        injection E as <-. destruct (decide (p = q)) as [->|N].
        -- right. rewrite lookup_insert_eq. auto.
        -- rewrite lookup_insert_ne by exact N. apply (IH _ _ _ q E1).
Qed.

Lemma ensureDir_step p : preserves (world_step config) (Env.ensureDir p).
Proof.
  intros w r w' E. unfold Env.ensureDir in E.
  destruct (Env.ensure_dirs (os_platform w) (String.length p) p (fs w)) as [f|] eqn:Ef;
    injection E as _ <-; [|reflexivity].
  constructor; [reflexivity| |intros q Hq; left; exact Hq].
  intros q content e _. cbn.
  destruct (ensure_dirs_kept _ _ _ _ _ q Ef) as [->|[Hn Hd]]; [reflexivity|].
  rewrite Hn, Hd. split; discriminate.
Qed.

End WorldSteps.

#[export] Hint Resolve now_step pathExists_step stat_step readFile_step writeFile_db_step
  ensureDir_step : pres.

Existing Instance world_step_refl.
Existing Instance world_step_trans.

Section StoreSteps.
Context `{JsonCodec}.
Variable config : Config.

Lemma db_step_refl : Reflexive (db_step config).
Proof. intros a. constructor; [reflexivity | auto]. Qed.

Lemma db_step_trans : Transitive (db_step config).
Proof.
  intros a b c Hab Hbc. constructor.
  - transitivity (fst b); [apply (db_world _ _ _ Hab) | apply (db_world _ _ _ Hbc)].
  - intros Ha. apply (db_init _ _ _ Hbc), (db_init _ _ _ Hab), Ha.
Qed.

Existing Instance db_step_refl.
Existing Instance db_step_trans.

Lemma db_env_step {A} (m : M World A) :
  preserves (world_step config) m -> preserves (db_step config) (ThreatDatabase.env m).
Proof.
  intros Hm. apply (preserves_zoom _ (world_step config)); [exact Hm|].
  intros s w' Hw. constructor; [exact Hw | auto].
Qed.

Lemma set_data_step d : preserves (db_step config) (ThreatDatabase.set_data d).
Proof. apply preserves_modify. intros s. constructor; [reflexivity | auto]. Qed.

Lemma set_initialized_step : preserves (db_step config) ThreatDatabase.set_initialized.
Proof. apply preserves_modify. intros s. constructor; [reflexivity | auto]. Qed.

Hint Resolve db_env_step set_data_step set_initialized_step : pres.

Lemma save_step : preserves (db_step config) (ThreatDatabase.save config).
Proof. unfold ThreatDatabase.save, ThreatDatabase.get_data. pres. Qed.

Lemma readJson_step : preserves (db_step config) (ThreatDatabase.readJson config).
Proof. unfold ThreatDatabase.readJson. pres. Qed.

Hint Resolve save_step readJson_step : pres.

Lemma load_step : preserves (db_step config) (ThreatDatabase.load config).
Proof. unfold ThreatDatabase.load. pres. Qed.

Hint Resolve load_step : pres.

Lemma initialize_step : preserves (db_step config) (ThreatDatabase.initialize config).
Proof. unfold ThreatDatabase.initialize, ThreatDatabase.get_data. pres. Qed.

Lemma recordScanStart_step type :
  preserves (db_step config) (ThreatDatabase.recordScanStart config type).
Proof. unfold ThreatDatabase.recordScanStart, ThreatDatabase.get_data. pres. Qed.

Lemma recordScanComplete_step id n t d :
  preserves (db_step config) (ThreatDatabase.recordScanComplete config id n t d).
Proof. unfold ThreatDatabase.recordScanComplete, ThreatDatabase.get_data. pres. Qed.

Lemma recordThreatDetection_step id p n t sv m :
  preserves (db_step config) (ThreatDatabase.recordThreatDetection config id p n t sv m).
Proof. unfold ThreatDatabase.recordThreatDetection, ThreatDatabase.get_data. pres. Qed.

(** Once initialised, the store stays so, and [initialize] does nothing. *)
Lemma initialize_done w d :
  ThreatDatabase.initialized d = true ->
  ThreatDatabase.initialize config (w, d) = (Ok true, (w, d)).
Proof.
  intros Hd. unfold ThreatDatabase.initialize, bind, get. cbn. rewrite Hd. reflexivity.
Qed.

Lemma initialize_initialized w d b w1 d1 :
  ThreatDatabase.initialize config (w, d) = (Ok b, (w1, d1)) ->
  ThreatDatabase.initialized d1 = true.
Proof.
  unfold ThreatDatabase.initialize. unfold bind at 1. cbn [get fst snd].
  destruct (ThreatDatabase.initialized d) eqn:Hd.
  - intros E. injection E as _ _ <-. exact Hd.
  - intros E.
    apply bind_inv_ok in E as (u & s1 & _ & E).
    apply bind_inv_ok in E as (dd & s2 & _ & E).
    apply bind_inv_ok in E as (u' & s3 & _ & E).
    apply bind_inv_ok in E as (u'' & s4 & E4 & E).
    injection E4 as _ <-. injection E as _ _ <-. reflexivity.
Qed.

End StoreSteps.

#[export] Hint Resolve db_env_step set_data_step set_initialized_step save_step readJson_step
  load_step initialize_step recordScanStart_step recordScanComplete_step
  recordThreatDetection_step : pres.
Existing Instance db_step_refl.
Existing Instance db_step_trans.

Section DetectorSteps.

Lemma detector_step_refl : Reflexive detector_step.
Proof. intros a. reflexivity. Qed.

Lemma detector_step_trans : Transitive detector_step.
Proof. intros a b c Hab Hbc. unfold detector_step in *. congruence. Qed.

Existing Instance detector_step_refl.
Existing Instance detector_step_trans.

Lemma detector_env_step {A} (m : M World A) :
  (forall w, snd (m w) = w) -> preserves detector_step (SignatureDetector.env m).
Proof.
  intros Hm s r s' E. unfold SignatureDetector.env, zoom in E.
  specialize (Hm (fst s)). destruct (m (fst s)) as [r' w']. injection E as _ <-.
  exact Hm.
Qed.

Lemma stat_reader p w : snd (Env.stat p w) = w.
Proof. unfold Env.stat. destruct (fs w !! p) as [[d a|]|]; reflexivity. Qed.

Lemma readFile_reader p w : snd (Env.readFile p w) = w.
Proof. unfold Env.readFile. destruct (fs w !! p) as [[d [c|]|]|]; reflexivity. Qed.

Lemma readPrefix_reader p n w : snd (Env.readPrefix p n w) = w.
Proof.
  unfold Env.readPrefix, bind. pose proof (readFile_reader p w) as Hr.
  destruct (Env.readFile p w) as [[d|e] w']; exact Hr.
Qed.

Lemma checkPatternSignatures_step filePath :
  preserves detector_step (SignatureDetector.checkPatternSignatures filePath).
Proof.
  unfold SignatureDetector.checkPatternSignatures.
  pres; try (apply detector_env_step; intros; first [apply stat_reader | apply readPrefix_reader]).
  apply preserves_modify. intros s. reflexivity.
Qed.

Lemma detect_step hs ps filePath h :
  preserves detector_step (SignatureDetector.detect hs ps filePath h).
Proof.
  unfold SignatureDetector.detect.
  pose proof checkPatternSignatures_step.
  pres. apply preserves_modify. intros s. reflexivity.
Qed.

End DetectorSteps.

Existing Instance detector_step_refl.
Existing Instance detector_step_trans.
#[export] Hint Resolve detect_step : pres.

Section ScannerFrame.
Context `{JsonCodec}.
Variable config : Config.

Lemma scan_step_refl : Reflexive (scan_step config).
Proof. intros a. constructor; [reflexivity | auto | reflexivity..]. Qed.

Lemma scan_step_trans : Transitive (scan_step config).
Proof.
  intros a b c Hab Hbc. constructor.
  - transitivity (fst b); [apply (sc_world _ _ _ Hab) | apply (sc_world _ _ _ Hbc)].
  - intros Ha. apply (sc_init _ _ _ Hbc), (sc_init _ _ _ Hab), Ha.
  - rewrite (sc_scanning _ _ _ Hbc). apply (sc_scanning _ _ _ Hab).
  - rewrite (sc_counted _ _ _ Hbc). apply (sc_counted _ _ _ Hab).
  - rewrite (sc_errors _ _ _ Hbc). apply (sc_errors _ _ _ Hab).
Qed.

Existing Instance scan_step_refl.
Existing Instance scan_step_trans.

Lemma scan_env_step {A} (m : M World A) :
  preserves (world_step config) m -> preserves (scan_step config) (FileScanner.env m).
Proof.
  intros Hm. apply (preserves_zoom _ (world_step config)); [exact Hm|].
  intros s w' Hw. constructor; [exact Hw | auto | reflexivity..].
Qed.

Lemma scan_on_db_step {A} (m : M ThreatDatabase.St A) :
  preserves (db_step config) m -> preserves (scan_step config) (FileScanner.on_db m).
Proof.
  intros Hm. apply (preserves_zoom _ (db_step config)); [exact Hm|].
  intros s r Hr. constructor; cbn; [apply (db_world _ _ _ Hr) | apply (db_init _ _ _ Hr)
                                   | reflexivity..].
Qed.

Lemma scan_on_detector_step {A} (m : M SignatureDetector.St A) :
  preserves detector_step m -> preserves (scan_step config) (FileScanner.on_detector m).
Proof.
  intros Hm. apply (preserves_zoom _ detector_step); [exact Hm|].
  intros s r Hr. unfold detector_step in Hr. cbn in Hr.
  constructor; cbn; [rewrite Hr; reflexivity | auto | reflexivity..].
Qed.

Lemma emit_step e : preserves (scan_step config) (FileScanner.emit e).
Proof.
  apply preserves_modify. intros s. constructor; [reflexivity | auto | reflexivity..].
Qed.

Lemma set_stats_step f :
  (forall st, filesScanned (f st) = filesScanned st /\ errors (f st) = errors st) ->
  preserves (scan_step config) (FileScanner.set_stats f).
Proof.
  intros Hf. apply preserves_modify. intros s.
  constructor; cbn; [reflexivity | auto | reflexivity | apply Hf | apply Hf].
Qed.

Hint Resolve scan_env_step scan_on_db_step scan_on_detector_step emit_step : pres.

Lemma handleThreatFound_step filePath ti st :
  preserves (scan_step config) (FileScanner.handleThreatFound config filePath ti st).
Proof.
  unfold FileScanner.handleThreatFound. pres.
  apply set_stats_step. intros s. split; reflexivity.
Qed.

End ScannerFrame.

Existing Instance scan_step_refl.
Existing Instance scan_step_trans.
#[export] Hint Resolve scan_env_step scan_on_db_step scan_on_detector_step emit_step
  handleThreatFound_step : pres.

(** * The loop over the collected files *)

Section ScanLoop.
Context `{JsonCodec}.
Variable config : Config.

Lemma env_inv {A} (m : M World A) (s : FileScanner.St) r s' :
  FileScanner.env m s = (r, s') -> m (fst s) = (r, fst s') /\ snd s' = snd s.
Proof.
  unfold FileScanner.env, zoom. destruct (m (fst s)) as [r' w']. intros E.
  injection E as <- <-. auto.
Qed.

Lemma on_db_inv {A} (m : M ThreatDatabase.St A) (s : FileScanner.St) r s' :
  FileScanner.on_db m s = (r, s') ->
  m (fst s, FileScanner.db (snd s)) = (r, (fst s', FileScanner.db (snd s')))
  /\ snd s' = FileScanner.with_db (snd s) (FileScanner.db (snd s')).
Proof.
  unfold FileScanner.on_db, zoom. cbn.
  destruct (m (fst s, FileScanner.db (snd s))) as [r' [w' d']]. intros E.
  injection E as <- <-. auto.
Qed.

Lemma with_db_same (s : FileScanner.t) : FileScanner.with_db s (FileScanner.db s) = s.
Proof. destruct s. reflexivity. Qed.

Lemma generateAllHashes_inv p w r w' :
  HashGenerator.generateAllHashes p w = (r, w') ->
  (exists content, fs w !! p = Some (Fs.File content None)
                   /\ w' = with_digested w (p :: digested w))
  \/ w' = w.
Proof.
  unfold HashGenerator.generateAllHashes. unfold bind at 1.
  destruct (Env.readFile p w) as [[d|e] w1] eqn:E.
  - apply readFile_ok in E as [-> Hp]. intros E. injection E as _ <-.
    left. exists d. auto.
  - pose proof (readFile_reader p w) as Hr. rewrite E in Hr. cbn in Hr. subst w1.
    intros E'. injection E' as _ <-. right. reflexivity.
Qed.

(** Digesting a file whose size was found within the bound. *)
Lemma generateAllHashes_step filePath st (s : FileScanner.St) r s' :
  Env.stat filePath (fst s) = (Ok st, fst s) ->
  (exclusions_maxFileSize config <? Fs.size st) = false ->
  FileScanner.env (HashGenerator.generateAllHashes filePath) s = (r, s') ->
  scan_step config s s'.
Proof.
  intros Hst Hsize E. apply env_inv in E as [E Hsnd].
  apply stat_ok in Hst as [_ Hst]. apply Z.ltb_ge in Hsize.
  apply generateAllHashes_inv in E as [(content & Hp & Hw)|Hw].
  - rewrite Hp in Hst. subst st. cbn in Hsize.
    constructor; rewrite ?Hsnd, ?Hw; try reflexivity; [|auto].
    constructor; [reflexivity | intros; reflexivity |].
    intros q [<-|Hq]; [|left; exact Hq].
    right. right. exists content, None. auto.
  - constructor; rewrite ?Hsnd, ?Hw; try reflexivity. auto.
Qed.

(** The scan of one file keeps the other files, digests only files within
    the bound, and changes neither the counters nor the scanning flag. *)
Lemma scanFile_step filePath :
  preserves (scan_step config) (FileScanner.scanFile config filePath).
Proof.
  unfold FileScanner.scanFile.
  refine (preserves_try_catch _ _ _ _ _); [|intros e; pres].
  intros s r s' E.
  unfold bind at 1 in E.
  destruct (FileScanner.on_db (ThreatDatabase.initialize config) s) as [[u|e] s1] eqn:E1.
  2:{ injection E as _ <-. eapply scan_on_db_step; [apply initialize_step | exact E1]. }
  assert (H1 : scan_step config s s1)
    by (eapply scan_on_db_step; [apply initialize_step | exact E1]).
  transitivity s1; [exact H1|]. clear E1 H1 s.
  unfold bind at 1 in E.
  destruct (FileScanner.env (Env.stat filePath) s1) as [[st|e] s2] eqn:E2.
  2:{ injection E as _ <-. eapply scan_env_step; [apply stat_step | exact E2]. }
  apply env_inv in E2 as [E2 Hsnd]. pose proof (stat_ok _ _ _ _ E2) as [Hfst _].
  assert (s2 = s1) by (destruct s1, s2; cbn in *; congruence). subst s2. clear Hsnd Hfst.
  destruct (exclusions_maxFileSize config <? Fs.size st) eqn:Hsize;
    [injection E as _ <-; reflexivity|].
  destruct (Fs.isDirectory st) eqn:Hdir; [injection E as _ <-; reflexivity|].
  unfold bind at 1 in E. cbn [get] in E.
  destruct (FileScanner.isExcluded config (os_platform (fst s1)) filePath);
    [injection E as _ <-; reflexivity|].
  unfold bind at 1 in E.
  destruct (FileScanner.env (HashGenerator.generateAllHashes filePath) s1)
    as [[h|e] s3] eqn:E3.
  2:{ injection E as _ <-. exact (generateAllHashes_step _ _ _ _ _ E2 Hsize E3). }
  transitivity s3; [exact (generateAllHashes_step _ _ _ _ _ E2 Hsize E3)|].
  revert E. generalize s3 r s'.
  match goal with |- forall a b c, ?m a = (b, c) -> _ =>
    change (preserves (scan_step config) m) end.
  pres.
Qed.

(** An oversized file is neither opened nor reported. *)
Lemma scanFile_oversized filePath (s : FileScanner.St) :
  ThreatDatabase.initialized (FileScanner.db (snd s)) = true ->
  oversized config (fst s) filePath = true ->
  FileScanner.scanFile config filePath s = (Ok None, s).
Proof.
  intros Hinit Hover. destruct s as [w s]. cbn [fst snd] in *.
  unfold oversized in Hover. apply andb_true_iff in Hover as [_ Hover].
  destruct (fs w !! filePath) as [[content e|]|] eqn:Hp; try discriminate.
  unfold FileScanner.scanFile. apply try_catch_ok.
  erewrite bind_ok by (apply on_db_eq, initialize_done, Hinit).
  rewrite with_db_same.
  erewrite bind_ok by (apply env_eq; unfold Env.stat; rewrite Hp; reflexivity).
  cbn [Fs.size]. rewrite Hover. reflexivity.
Qed.

Lemma oversized_step w w' p :
  world_step config w w' -> oversized config w' p = oversized config w p.
Proof.
  intros Hs. unfold oversized.
  destruct (String.eqb_spec p (ThreatDatabase.dbPath config)) as [E|N]; [reflexivity|].
  cbn [negb andb].
  destruct (fs w !! p) as [[content e|]|] eqn:Hp.
  - apply (step_files _ _ _ Hs p content e N) in Hp. rewrite Hp. reflexivity.
  - destruct (fs w' !! p) as [[content e|]|] eqn:Hp'; try reflexivity.
    apply (step_files _ _ _ Hs p content e N) in Hp'. congruence.
  - destruct (fs w' !! p) as [[content e|]|] eqn:Hp'; try reflexivity.
    apply (step_files _ _ _ Hs p content e N) in Hp'. congruence.
Qed.

Lemma count_file_ok totalFiles filePath (s : FileScanner.St) :
  exists s',
    FileScanner.count_file totalFiles filePath s = (Ok tt, s')
    /\ fst s' = fst s
    /\ FileScanner.db (snd s') = FileScanner.db (snd s)
    /\ FileScanner.scanning (snd s') = FileScanner.scanning (snd s)
    /\ filesScanned (FileScanner.stats (snd s')) = filesScanned (FileScanner.stats (snd s)) + 1
    /\ errors (FileScanner.stats (snd s')) = errors (FileScanner.stats (snd s)).
Proof.
  unfold FileScanner.count_file. unfold bind at 1. cbn.
  match goal with |- context [if ?c then _ else _] => destruct c end;
    cbn; eexists; repeat split.
Qed.

Lemma count_error_ok (s : FileScanner.St) :
  exists s',
    FileScanner.count_error s = (Ok tt, s')
    /\ fst s' = fst s
    /\ FileScanner.db (snd s') = FileScanner.db (snd s)
    /\ FileScanner.scanning (snd s') = FileScanner.scanning (snd s)
    /\ filesScanned (FileScanner.stats (snd s')) = filesScanned (FileScanner.stats (snd s))
    /\ errors (FileScanner.stats (snd s')) = errors (FileScanner.stats (snd s)) + 1.
Proof. eexists. repeat split. Qed.

(** One turn of the loop: the file is counted as scanned or as an error;
    an oversized file is counted as scanned. *)
Lemma turn_spec totalFiles filePath (a : FileScanner.St) r b :
  try_catch (run* FileScanner.scanFile config filePath in
             FileScanner.count_file totalFiles filePath)
            (fun _ => FileScanner.count_error) a = (r, b) ->
  r = Ok tt
  /\ world_step config (fst a) (fst b)
  /\ (ThreatDatabase.initialized (FileScanner.db (snd a)) = true ->
      ThreatDatabase.initialized (FileScanner.db (snd b)) = true)
  /\ FileScanner.scanning (snd b) = FileScanner.scanning (snd a)
  /\ filesScanned (FileScanner.stats (snd b)) + errors (FileScanner.stats (snd b))
     = filesScanned (FileScanner.stats (snd a)) + errors (FileScanner.stats (snd a)) + 1
  /\ filesScanned (FileScanner.stats (snd a)) <= filesScanned (FileScanner.stats (snd b))
  /\ (ThreatDatabase.initialized (FileScanner.db (snd a)) = true ->
      oversized config (fst a) filePath = true ->
      filesScanned (FileScanner.stats (snd b))
      = filesScanned (FileScanner.stats (snd a)) + 1).
Proof.
  unfold try_catch, bind.
  destruct (FileScanner.scanFile config filePath a) as [[th|e] s1] eqn:E1.
  - pose proof (scanFile_step filePath _ _ _ E1) as [Hw Hi Hs Hc He].
    destruct (count_file_ok totalFiles filePath s1) as (s2 & -> & Hw2 & Hd2 & Hs2 & Hc2 & He2).
    intros E. injection E as <- <-.
    rewrite Hw2, Hd2, Hs2, Hc2, He2, Hs, Hc, He.
    split; [reflexivity|]. split; [exact Hw|]. split; [exact Hi|].
    split; [reflexivity|]. split; [lia|]. split; [lia|]. reflexivity.
  - pose proof (scanFile_step filePath _ _ _ E1) as [Hw Hi Hs Hc He].
    destruct (count_error_ok s1) as (s2 & -> & Hw2 & Hd2 & Hs2 & Hc2 & He2).
    intros E. injection E as <- <-.
    rewrite Hw2, Hd2, Hs2, Hc2, He2, Hs, Hc, He.
    split; [reflexivity|]. split; [exact Hw|]. split; [exact Hi|].
    split; [reflexivity|]. split; [lia|]. split; [lia|].
    intros Hinit Hover. rewrite (scanFile_oversized _ _ Hinit Hover) in E1. discriminate.
Qed.

Lemma scan_loop_spec totalFiles files : forall i (a : FileScanner.St) r b,
  FileScanner.scan_loop config totalFiles i files a = (r, b) ->
  external_stop (fst a) = None ->
  FileScanner.scanning (snd a) = true ->
  ThreatDatabase.initialized (FileScanner.db (snd a)) = true ->
  r = Ok tt
  /\ world_step config (fst a) (fst b)
  /\ FileScanner.scanning (snd b) = true
  /\ ThreatDatabase.initialized (FileScanner.db (snd b)) = true
  /\ filesScanned (FileScanner.stats (snd b)) + errors (FileScanner.stats (snd b))
     = filesScanned (FileScanner.stats (snd a)) + errors (FileScanner.stats (snd a))
       + Z.of_nat (length files)
  /\ filesScanned (FileScanner.stats (snd a))
     + Z.of_nat (length (List.filter (oversized config (fst a)) files))
     <= filesScanned (FileScanner.stats (snd b)).
Proof.
  induction files as [|filePath rest IH]; intros i a r b E Hstop Hscan Hinit.
  - injection E as <- <-. cbn [length List.filter].
    split; [reflexivity|]. split; [reflexivity|]. split; [exact Hscan|].
    split; [exact Hinit|]. split; lia.
  - cbn [FileScanner.scan_loop] in E.
    unfold bind at 1 in E. cbn [get] in E. rewrite Hstop in E.
    unfold bind at 1 in E. cbn [ret] in E.
    unfold bind at 1 in E. cbn [get] in E. rewrite Hscan in E. cbn [negb] in E.
    unfold bind at 1 in E.
    match type of E with context [try_catch ?m ?h a] =>
      destruct (try_catch m h a) as [r1 s1] eqn:E1 end.
    apply turn_spec in E1 as (-> & Hw & Hi & Hs & Hsum & Hmono & Hover).
    apply IH in E as (-> & Hw' & Hs' & Hi' & Hsum' & Hover').
    2:{ rewrite (step_stop _ _ _ Hw). exact Hstop. }
    2:{ rewrite Hs. exact Hscan. }
    2:{ apply Hi, Hinit. }
    split; [reflexivity|]. split; [transitivity (fst s1); assumption|].
    split; [exact Hs'|]. split; [exact Hi'|].
    split; [cbn [length]; lia|].
    rewrite (List.filter_ext _ _ (fun p => oversized_step _ _ p Hw)) in Hover'.
    cbn [List.filter]. destruct (oversized config (fst a) filePath) eqn:Ho.
    + specialize (Hover Hinit eq_refl). cbn [length]. lia.
    + lia.
Qed.

Lemma collectFiles_step paths deep :
  preserves (scan_step config) (FileScanner.collectFiles paths deep).
Proof.
  induction paths as [|p paths IH]; cbn [FileScanner.collectFiles]; pres.
Qed.

Lemma resolve_paths_step type paths :
  preserves (scan_step config) (FileScanner.resolve_paths config type paths).
Proof. unfold FileScanner.resolve_paths. pres. Qed.

Lemma with_scanId_step i :
  preserves (scan_step config) (FileScanner.this (fun s => FileScanner.with_scanId s i)).
Proof.
  apply preserves_modify. intros s. constructor; [reflexivity | auto | reflexivity..].
Qed.

(** A completed scan: every collected file has been counted, as scanned
    or as an error, the oversized ones as scanned; the other files are as
    they were, and only files within the bound have been digested. *)
Lemma scan_counts type paths deep w s st fin :
  FileScanner.scan config type paths deep (w, s) = (Ok st, fin) ->
  external_stop w = None ->
  exists files mid,
    enumerated config type paths deep (w, s) = (Ok files, mid)
    /\ world_step config w (fst fin)
    /\ filesScanned st + errors st = Z.of_nat (length files)
    /\ Z.of_nat (length (List.filter (oversized config w) files)) <= filesScanned st.
Proof.
  intros E Hstop. unfold FileScanner.scan in E.
  apply bind_inv_ok in E as (u1 & s1 & E1 & E).
  apply bind_inv_ok in E as (u2 & s2 & E2 & E).
  apply bind_inv_ok in E as (id & s3 & E3 & E).
  apply bind_inv_ok in E as (u4 & s4 & E4 & E).
  apply bind_inv_ok in E as (start & s5 & E5 & E).
  apply bind_inv_ok in E as (u6 & s6 & E6 & E).
  unfold finally in E. rewrite try_catch_rethrow in E.
  match type of E with (let '(_, _) := ?m s6 in _) = _ =>
    destruct (m s6) as [rb fin0] eqn:Eb end.
  injection E as -> <-.
  apply bind_inv_ok in Eb as (scanPaths & s7 & E7 & Eb).
  apply bind_inv_ok in Eb as (files & s8 & E8 & Eb).
  apply bind_inv_ok in Eb as (u9 & s9 & E9 & Eb).
  apply bind_inv_ok in Eb as (u10 & s10 & E10 & Eb).
  exists files, s8. split.
  { unfold enumerated.
    rewrite (bind_ok _ _ _ _ _ E1), (bind_ok _ _ _ _ _ E2), (bind_ok _ _ _ _ _ E3),
      (bind_ok _ _ _ _ _ E4), (bind_ok _ _ _ _ _ E5), (bind_ok _ _ _ _ _ E6),
      (bind_ok _ _ _ _ _ E7). exact E8. }
  (* up to the loop *)
  injection E1 as _ <-. cbn [fst snd] in *.
  pose proof (scan_on_db_step config _ (initialize_step config) _ _ _ E2) as S2.
  apply on_db_inv in E2 as [E2 _]. apply initialize_initialized in E2.
  pose proof (scan_on_db_step config _ (recordScanStart_step config type) _ _ _ E3) as S3.
  pose proof (with_scanId_step _ _ _ _ E4) as S4.
  pose proof (scan_env_step config _ (now_step config) _ _ _ E5) as S5.
  assert (S15 : scan_step config (w, FileScanner.with_scanning s true) s5).
  { transitivity s2; [exact S2|]. transitivity s3; [exact S3|].
    transitivity s4; [exact S4 | exact S5]. }
  assert (I5 : ThreatDatabase.initialized (FileScanner.db (snd s5)) = true).
  { apply (sc_init _ _ _ S5), (sc_init _ _ _ S4), (sc_init _ _ _ S3), E2. }
  injection E6 as _ <-.
  pose proof (resolve_paths_step _ _ _ _ _ E7) as S7.
  pose proof (collectFiles_step _ _ _ _ _ E8) as S8.
  pose proof (emit_step config _ _ _ _ E9) as S9.
  assert (S69 : scan_step config
                  (fst s5, FileScanner.with_stats (snd s5) (FileScanner.fresh_stats (Some start)))
                  s9).
  { transitivity s7; [exact S7|]. transitivity s8; [exact S8 | exact S9]. }
  clear S2 S3 S4 S5 S7 S8 S9 E2 E3 E4 E5 E7 E8 E9.
  destruct S15 as [W15 _ C15 _ _]. destruct S69 as [W69 I69 C69 N69 R69].
  cbn [fst snd] in *.
  assert (W9 : world_step config w (fst s9)) by (transitivity (fst s5); assumption).
  apply scan_loop_spec in E10 as (_ & W10 & C10 & I10 & Hsum & Hover).
  2:{ rewrite (step_stop _ _ _ W9). exact Hstop. }
  2:{ rewrite C69. cbn. rewrite C15. reflexivity. }
  2:{ apply I69. exact I5. }
  rewrite N69, R69 in Hsum. rewrite N69 in Hover. cbn in Hsum, Hover.
  rewrite (List.filter_ext _ _ (fun p => oversized_step _ _ p W9)) in Hover.
  (* after the loop *)
  assert (Sfin : scan_step config s10 fin0).
  { revert Eb. generalize s10 (Ok st : result ScanStats) fin0.
    match goal with |- forall a b c, ?m a = (b, c) -> _ =>
      change (preserves (scan_step config) m) end.
    pres. apply set_stats_step. intros x. split; reflexivity. }
  assert (Hst : st = FileScanner.stats (snd fin0)).
  { revert Eb. generalize s10 st fin0.
    do 6 (apply bind_value; intros ?).
    intros x r x' E. apply bind_inv_ok in E as (y & x1 & Ey & E).
    injection Ey as <- <-. injection E as <- <-. reflexivity. }
  destruct Sfin as [Wf _ _ Nf Rf].
  split; [transitivity (fst s9); [exact W9|]; transitivity (fst s10); assumption|].
  rewrite Hst, Nf, Rf. split; lia.
Qed.

End ScanLoop.
(** * The row reported for a content, and excluded files *)

Section ReportedRow.
Import SignatureDetector.

Lemma find_last {A} (p : A -> bool) (l : list A) x :
  List.find p (l ++ [x])%list
  = match List.find p l with
    | Some y => Some y
    | None => if p x then Some x else None
    end.
Proof.
  induction l as [|a l IH]; cbn [List.find app]; [reflexivity|].
  destruct (p a); [reflexivity | exact IH].
Qed.

(** The table built from a catalog answers with the last row that
    carries the digest. *)
Lemma table_last hs : forall m k,
  fold_left add_row hs m !! k
  = match last_row hs k with
    | Some r => Some (info_of_hash r)
    | None => m !! k
    end.
Proof.
  induction hs as [|x hs IH]; intros m k; [reflexivity|].
  cbn [fold_left]. rewrite IH. unfold last_row. cbn [rev]. rewrite find_last.
  destruct (List.find (carries k) (rev hs)) as [r|]; [reflexivity|].
  unfold add_row, carries.
  destruct (String.eqb_spec (Str.toLowerCase (hs_hash x)) k) as [->|N].
  - apply lookup_insert_eq.
  - apply lookup_insert_ne. exact N.
Qed.

Lemma last_row_carries hs k r :
  last_row hs k = Some r -> In r hs /\ Str.toLowerCase (hs_hash r) = k.
Proof.
  unfold last_row. intros E. apply List.find_some in E as [Hin Hc].
  split; [apply in_rev, Hin | apply String.eqb_eq, Hc].
Qed.

Lemma last_row_has hs k sig :
  In sig hs -> Str.toLowerCase (hs_hash sig) = k -> is_Some (last_row hs k).
Proof.
  intros Hin Hk. unfold last_row.
  destruct (List.find (carries k) (rev hs)) as [r|] eqn:E; [eauto|]. exfalso.
  pose proof (List.find_none _ _ E sig (proj1 (in_rev _ _) Hin)) as N.
  unfold carries in N. rewrite Hk, String.eqb_refl in N. discriminate.
Qed.

(** Of two rows with the same digest the later one is the row of the
    digest. *)
Lemma last_row_later hs k sig :
  carries k sig = true -> last_row (hs ++ [sig]) k = Some sig.
Proof.
  intros Hc. unfold last_row. rewrite rev_app_distr. cbn [rev app List.find].
  rewrite Hc. reflexivity.
Qed.

Lemma last_row_earlier hs k sig :
  carries k sig = false -> last_row (hs ++ [sig]) k = last_row hs k.
Proof.
  intros Hc. unfold last_row. rewrite rev_app_distr. cbn [rev app List.find].
  rewrite Hc. reflexivity.
Qed.

Lemma lookup_digest_last hs d h :
  hashes d = table_of hs -> truthy h = true -> Str.toLowerCase h = h ->
  lookup_digest d h = option_map info_of_hash (last_row hs h).
Proof.
  intros Hd Ht Hh. unfold lookup_digest. rewrite Ht, Hd, Hh, table_of_eq, table_last.
  destruct (last_row hs h); [reflexivity | apply lookup_empty].
Qed.

(** What the detector answers for the digests of a content. *)
Lemma checkHashSignatures_reported hs d content :
  hashes d = table_of hs ->
  checkHashSignatures d (HashGenerator.hashes_of content)
  = option_map info_of_hash (reported_row hs content).
Proof.
  intros Hd.
  destruct (md5_text content) as [T1 L1], (sha1_text content) as [T2 L2],
           (sha256_text content) as [T3 L3].
  unfold checkHashSignatures, HashGenerator.hashes_of, reported_row.
  cbn [HashGenerator.md5 HashGenerator.sha1 HashGenerator.sha256].
  rewrite (lookup_digest_last hs d _ Hd T1 L1), (lookup_digest_last hs d _ Hd T2 L2),
    (lookup_digest_last hs d _ Hd T3 L3).
  destruct (last_row hs (Digest.md5 content)); [reflexivity|].
  destruct (last_row hs (Digest.sha1 content)); reflexivity.
Qed.

Lemma reported_row_cataloged hs content r :
  reported_row hs content = Some r -> cataloged hs content r.
Proof.
  unfold reported_row, cataloged, digests_of. intros E.
  destruct (last_row hs (Digest.md5 content)) as [r1|] eqn:E1.
  { injection E as <-. apply last_row_carries in E1 as [Hin ->]. split; [exact Hin|].
    left. reflexivity. }
  destruct (last_row hs (Digest.sha1 content)) as [r2|] eqn:E2.
  { injection E as <-. apply last_row_carries in E2 as [Hin ->]. split; [exact Hin|].
    right. left. reflexivity. }
  apply last_row_carries in E as [Hin ->]. split; [exact Hin|].
  right. right. left. reflexivity.
Qed.

Lemma cataloged_reported hs content sig :
  cataloged hs content sig -> exists r, reported_row hs content = Some r.
Proof.
  intros [Hin Hkey]. unfold reported_row.
  destruct (last_row hs (Digest.md5 content)) as [r1|] eqn:E1; [eauto|].
  destruct (last_row hs (Digest.sha1 content)) as [r2|] eqn:E2; [eauto|].
  destruct (last_row hs (Digest.sha256 content)) as [r3|] eqn:E3; [eauto|].
  exfalso. destruct Hkey as [K|[K|[K|[]]]].
  - destruct (last_row_has hs _ sig Hin (eq_sym K)) as [r Hr]. congruence.
  - destruct (last_row_has hs _ sig Hin (eq_sym K)) as [r Hr]. congruence.
  - destruct (last_row_has hs _ sig Hin (eq_sym K)) as [r Hr]. congruence.
Qed.

Lemma find_split {A} (p : A -> bool) (l : list A) r :
  List.find p l = Some r ->
  exists l1 l2, l = (l1 ++ r :: l2)%list /\ p r = true
                /\ List.Forall (fun x => p x = false) l1.
Proof.
  induction l as [|a l IH]; [discriminate|]. cbn [List.find]. destruct (p a) eqn:Ea.
  - intros E. injection E as <-. exists [], l.
    split; [reflexivity|]. split; [exact Ea | constructor].
  - intros E. destruct (IH E) as (l1 & l2 & -> & Hr & Hf). exists (a :: l1), l2.
    split; [reflexivity|]. split; [exact Hr|]. constructor; assumption.
Qed.

Lemma last_row_split hs k r :
  last_row hs k = Some r ->
  exists before after,
    hs = (before ++ r :: after)%list /\ carries k r = true
    /\ List.Forall (fun x => carries k x = false) after.
Proof.
  unfold last_row. intros E. destruct (find_split _ _ _ E) as (l1 & l2 & Hl & Hr & Hf).
  exists (rev l2), (rev l1). split.
  - rewrite <- (rev_involutive hs), Hl, rev_app_distr. cbn [rev].
    rewrite <- app_assoc. reflexivity.
  - split; [exact Hr | apply List.Forall_rev, Hf].
Qed.

Lemma last_row_none hs k :
  last_row hs k = None -> List.Forall (fun x => carries k x = false) hs.
Proof.
  intros E. apply List.Forall_forall. intros x Hx.
  exact (List.find_none _ _ E x (proj1 (in_rev _ _) Hx)).
Qed.

(** The reported row is the last row that carries the first digest, in
    the order md5, sha1, sha256, that any row carries. *)
Lemma reported_row_spec hs content r :
  reported_row hs content = Some r ->
  exists pre k post before after,
    digests_of content = (pre ++ k :: post)%list
    /\ List.Forall (fun k' => List.Forall (fun x => carries k' x = false) hs) pre
    /\ hs = (before ++ r :: after)%list
    /\ carries k r = true
    /\ List.Forall (fun x => carries k x = false) after.
Proof.
  unfold reported_row, digests_of. intros E.
  destruct (last_row hs (Digest.md5 content)) as [r1|] eqn:E1.
  { injection E as <-. destruct (last_row_split _ _ _ E1) as (before & after & Hs).
    exists [], (Digest.md5 content), [Digest.sha1 content; Digest.sha256 content],
      before, after.
    split; [reflexivity|]. split; [constructor | exact Hs]. }
  apply last_row_none in E1.
  destruct (last_row hs (Digest.sha1 content)) as [r2|] eqn:E2.
  { injection E as <-. destruct (last_row_split _ _ _ E2) as (before & after & Hs).
    exists [Digest.md5 content], (Digest.sha1 content), [Digest.sha256 content],
      before, after.
    split; [reflexivity|]. split; [repeat constructor; exact E1 | exact Hs]. }
  apply last_row_none in E2.
  destruct (last_row_split _ _ _ E) as (before & after & Hs).
  exists [Digest.md5 content; Digest.sha1 content], (Digest.sha256 content), [],
    before, after.
  split; [reflexivity|]. split; [repeat constructor; assumption | exact Hs].
Qed.

End ReportedRow.

(** * Steps that hash nothing *)

Section DigestsKept.
Context `{JsonCodec}.
Variable config : Config.

Lemma digests_kept_refl : Reflexive digests_kept.
Proof. intros w. reflexivity. Qed.

Lemma digests_kept_trans : Transitive digests_kept.
Proof. intros a b c Hab Hbc. unfold digests_kept in *. congruence. Qed.

Lemma store_digests_kept_refl : Reflexive store_digests_kept.
Proof. intros a. reflexivity. Qed.

Lemma store_digests_kept_trans : Transitive store_digests_kept.
Proof. intros a b c Hab Hbc. unfold store_digests_kept, digests_kept in *. congruence. Qed.

Existing Instance digests_kept_refl.
Existing Instance digests_kept_trans.
Existing Instance store_digests_kept_refl.
Existing Instance store_digests_kept_trans.

Lemma pathExists_digests p : preserves digests_kept (Env.pathExists p).
Proof. apply preserves_reader; [typeclasses eauto | reflexivity]. Qed.

Lemma readFile_digests p : preserves digests_kept (Env.readFile p).
Proof.
  apply preserves_reader; [typeclasses eauto|]. intros w. unfold Env.readFile.
  destruct (fs w !! p) as [[d [c|]|]|]; reflexivity.
Qed.

Lemma writeFile_digests p data : preserves digests_kept (Env.writeFile p data).
Proof.
  intros w r w' E. unfold Env.writeFile in E.
  destruct (fs w !! Path.dirname (os_platform w) p) as [[? ?|]|];
    [injection E as _ <-; reflexivity| |injection E as _ <-; reflexivity].
  destruct (fs w !! p) as [[? [c|]|]|]; injection E as _ <-; reflexivity.
Qed.

Lemma ensureDir_digests p : preserves digests_kept (Env.ensureDir p).
Proof.
  intros w r w' E. unfold Env.ensureDir in E.
  destruct (Env.ensure_dirs (os_platform w) (String.length p) p (fs w)) as [f|];
    injection E as _ <-; reflexivity.
Qed.

Lemma store_env_digests {A} (m : M World A) :
  preserves digests_kept m -> preserves store_digests_kept (ThreatDatabase.env m).
Proof.
  intros Hm. apply (preserves_zoom _ digests_kept); [exact Hm|].
  intros s w' Hw. exact Hw.
Qed.

Lemma set_data_digests d : preserves store_digests_kept (ThreatDatabase.set_data d).
Proof. apply preserves_modify. intros s. reflexivity. Qed.

Lemma set_initialized_digests : preserves store_digests_kept ThreatDatabase.set_initialized.
Proof. apply preserves_modify. intros s. reflexivity. Qed.

Hint Resolve pathExists_digests readFile_digests writeFile_digests ensureDir_digests
  store_env_digests set_data_digests set_initialized_digests : pres.

(** Opening the store hashes no file. *)
Lemma initialize_digests : preserves store_digests_kept (ThreatDatabase.initialize config).
Proof.
  unfold ThreatDatabase.initialize, ThreatDatabase.load, ThreatDatabase.readJson,
    ThreatDatabase.save, ThreatDatabase.get_data.
  pres.
Qed.

(** The scan of a readable file within the bound, not excluded, whose
    content has a cataloged digest, reports the row of the first digest
    the catalog carries. *)
Lemma scanFile_reported_row w s b w1 d1 filePath content r :
  ThreatDatabase.initialize config (w, FileScanner.db s) = (Ok b, (w1, d1)) ->
  fs w1 !! filePath = Some (Fs.File content None) ->
  Z.of_nat (length content) <= exclusions_maxFileSize config ->
  FileScanner.isExcluded config (os_platform w1) filePath = false ->
  detection_enableSignatureScanning config = true ->
  in_step (FileScanner.signatureDetector s) (hash_signatures (ThreatDatabase.data d1)) ->
  reported_row (hash_signatures (ThreatDatabase.data d1)) content = Some r ->
  exists st',
    FileScanner.scanFile config filePath (w, s)
    = (Ok (Some {| th_path := filePath; th_name := hs_name r; th_type := hs_type r;
                   th_severity := hs_severity r;
                   th_description := hs_description r;
                   th_detectionMethod := "signature-hash";
                   th_fileSize := Z.of_nat (length content);
                   th_detectedAt := clock w1 (ticks w1) |}), st').
Proof.
  intros Hinit Hfile Hsize Hexcl Hsig Hstep Hrow.
  set (hs := hash_signatures (ThreatDatabase.data d1)) in *.
  set (ps := pattern_signatures (ThreatDatabase.data d1)).
  assert (Htable : SignatureDetector.hashes
                     (SignatureDetector.loadSignatures hs ps (FileScanner.signatureDetector s))
                   = table_of hs).
  { rewrite hashes_loadSignatures. exact Hstep. }
  pose proof (checkHashSignatures_reported hs _ content Htable) as Hhit.
  rewrite Hrow in Hhit. cbn [option_map] in Hhit.
  unfold FileScanner.scanFile. apply try_catch_ok_ex.
  eapply bind_ok_ex; [apply on_db_eq; exact Hinit|].
  eapply bind_ok_ex; [apply env_eq; unfold Env.stat; rewrite Hfile; reflexivity|].
  cbn [Fs.size Fs.isDirectory].
  destruct (Z.ltb_spec (exclusions_maxFileSize config) (Z.of_nat (length content))); [lia|].
  eapply bind_ok_ex; [reflexivity|]. cbn [fst snd]. rewrite Hexcl.
  eapply bind_ok_ex.
  { apply env_eq. unfold HashGenerator.generateAllHashes.
    erewrite bind_ok by (apply readFile_eq, Hfile). reflexivity. }
  rewrite Hsig.
  eapply bind_ok_ex.
  { eapply eq_trans; [apply bind_ok; reflexivity|].
    apply on_detector_eq, detect_hash_hit. exact Hhit. }
  cbv beta iota.
  match goal with |- exists s', bind (FileScanner.handleThreatFound _ ?p ?ti ?st) _ ?x = _ =>
    destruct (handleThreatFound_ok config p ti st x) as [s' Hs'] end.
  exists s'. rewrite (bind_ok _ _ _ _ _ Hs'). reflexivity.
Qed.

(** The scan of an existing path that is excluded answers null, and no
    file is hashed on the way. *)
Lemma scanFile_excluded w s b w1 d1 filePath :
  ThreatDatabase.initialize config (w, FileScanner.db s) = (Ok b, (w1, d1)) ->
  is_Some (fs w1 !! filePath) ->
  FileScanner.isExcluded config (os_platform w1) filePath = true ->
  exists st',
    FileScanner.scanFile config filePath (w, s) = (Ok None, st')
    /\ digested (fst st') = digested w.
Proof.
  intros Hinit [node Hnode] Hexcl.
  exists (w1, FileScanner.with_db s d1). split; [|exact (initialize_digests _ _ _ Hinit)].
  unfold FileScanner.scanFile. apply try_catch_ok.
  erewrite bind_ok by (apply on_db_eq; exact Hinit).
  destruct node as [content access|].
  - erewrite bind_ok by (apply env_eq; unfold Env.stat; rewrite Hnode; reflexivity).
    cbn [Fs.size Fs.isDirectory].
    destruct (exclusions_maxFileSize config <? Z.of_nat (length content)); [reflexivity|].
    erewrite bind_ok by reflexivity. cbn [fst snd]. rewrite Hexcl. reflexivity.
  - erewrite bind_ok by (apply env_eq; unfold Env.stat; rewrite Hnode; reflexivity).
    cbn [Fs.size Fs.isDirectory].
    destruct (exclusions_maxFileSize config <? 0); reflexivity.
Qed.

End DigestsKept.
(** * The metadata documents read by the listing *)

Section Documents.
Context `{JsonCodec}.
Variable config : Config.

(** Reading one document: either it is a readable file with a metadata
    record, which is the result, or the read throws. *)
Lemma readJson_cases p w :
  (exists bytes m,
      fs w !! p = Some (Fs.File bytes None) /\ parse_meta bytes = Some m
      /\ QuarantineManager.readJson p w = (Ok m, w))
  \/ ((forall bytes m, fs w !! p = Some (Fs.File bytes None) -> parse_meta bytes <> Some m)
      /\ exists e, QuarantineManager.readJson p w = (Throw e, w)).
Proof.
  unfold QuarantineManager.readJson, bind, Env.readFile.
  destruct (fs w !! p) as [[bytes [code|]|]|] eqn:Ep.
  - right. split; [intros ? ? [=] | eexists; reflexivity].
  - destruct (parse_meta bytes) as [m|] eqn:Em.
    + left. exists bytes, m. auto.
    + right. split; [|eexists; reflexivity].
      intros bytes' m' [= <-]. congruence.
  - right. split; [intros ? ? [=] | eexists; reflexivity].
  - right. split; [intros ? ? [=] | eexists; reflexivity].
Qed.

(** The collecting loop answers with the records of the documents, in
    the order of the names, exactly when every name has a readable
    document with a record. *)
Lemma read_all_documented names : forall w records,
  fst (QuarantineManager.read_all config (os_platform w) names w) = Ok records
  <-> Forall2 (documented config w) names records.
Proof.
  induction names as [|f names IH]; intros w records.
  - cbn. split.
    + intros [= <-]. constructor.
    + intros Hall. inversion Hall. reflexivity.
  - cbn [QuarantineManager.read_all]. unfold bind at 1.
    destruct (readJson_cases
                (Path.join (os_platform w) (QuarantineManager.quarantinePath config) f) w)
      as [(bytes & m & Hf & Hp & E)|(Hno & e & E)]; rewrite E.
    + unfold bind at 1.
      pose proof (read_all_state config (os_platform w) names w) as Est.
      destruct (QuarantineManager.read_all config (os_platform w) names w)
        as [[ms|e] w'] eqn:Er; simpl in Est; subst w'; cbn.
      * split.
        -- intros [= <-]. constructor; [exists bytes; auto|].
           apply IH. rewrite Er. reflexivity.
        -- intros Hall. inversion Hall as [|? m' ? ms' (bytes' & Hf' & Hp') Hrest]; subst.
           unfold QuarantineManager.quarantinePath in Hf. rewrite Hf in Hf'.
           injection Hf' as <-. rewrite Hp in Hp'. injection Hp' as <-.
           apply IH in Hrest. rewrite Er in Hrest. cbn in Hrest. congruence.
      * split; [discriminate|].
        intros Hall. inversion Hall as [|? m' ? ms' _ Hrest]; subst.
        apply IH in Hrest. rewrite Er in Hrest. discriminate.
    + cbn. split; [discriminate|].
      intros Hall. inversion Hall as [|? m' ? ms' (bytes' & Hf' & Hp') _]; subst.
      exfalso. exact (Hno _ _ Hf' Hp').
Qed.

Lemma documented_each names w records name :
  Forall2 (documented config w) names records -> In name names ->
  exists m, documented config w name m.
Proof.
  induction 1 as [|f m names records Hd _ IH]; intros Hin; [destruct Hin|].
  destruct Hin as [->|Hin]; [exists m; exact Hd | exact (IH Hin)].
Qed.

(** The listing: never a throw, never a change of the environment; the
    records of the documents, newest first, or nothing. *)
Lemma getQuarantineList_documents w :
  exists l,
    QuarantineManager.getQuarantineList config w = (Ok l, w)
    /\ StronglySorted newest_first l
    /\ (forall files records,
          fst (Env.readdir (paths_quarantine config) w) = Ok files ->
          Forall2 (documented config w)
                  (List.filter (fun f => Str.endsWith f ".json") files) records ->
          Permutation records l)
    /\ (forall files name,
          fst (Env.readdir (paths_quarantine config) w) = Ok files ->
          In name (List.filter (fun f => Str.endsWith f ".json") files) ->
          (forall m, ~ documented config w name m) ->
          l = [])
    /\ (forall e, fst (Env.readdir (paths_quarantine config) w) = Throw e -> l = []).
Proof.
  unfold QuarantineManager.getQuarantineList, try_catch.
  unfold bind at 1. unfold gets at 1.
  unfold bind at 1.
  pose proof (readdir_state (QuarantineManager.quarantinePath config) w) as Ed.
  change (QuarantineManager.quarantinePath config) with (paths_quarantine config) in *.
  destruct (Env.readdir (paths_quarantine config) w) as [[files|e] w'];
    simpl in Ed; subst w'; simpl fst.
  - unfold bind at 1.
    pose proof (read_all_state config (os_platform w)
                  (List.filter (fun f => Str.endsWith f ".json") files) w) as Er.
    pose proof (read_all_documented
                  (List.filter (fun f => Str.endsWith f ".json") files) w) as Hdoc.
    destruct (QuarantineManager.read_all config (os_platform w) _ w) as [[records|e] w'];
      simpl in Er; subst w'; simpl fst in *.
    + eexists. split; [reflexivity|]. split; [apply sort_newest_first_sorted|].
      split; [|split].
      * intros files' records' [= <-] Hall. apply Hdoc in Hall. injection Hall as <-.
        apply sort_newest_first_perm.
      * intros files' name [= <-] Hin Hno. exfalso.
        destruct (documented_each _ _ _ name (proj1 (Hdoc records) eq_refl) Hin) as [m Hm].
        exact (Hno m Hm).
      * intros e. discriminate.
    + exists []. split; [reflexivity|]. split; [constructor|]. split; [|split].
      * intros files' records' [= <-] Hall. apply Hdoc in Hall. discriminate.
      * reflexivity.
      * reflexivity.
  - exists []. split; [reflexivity|]. split; [constructor|]. split; [|split].
    + intros files' records'. discriminate.
    + reflexivity.
    + reflexivity.
Qed.

End Documents.

(** A listing of one record. *)
Lemma singleton_listing (P : Metadata -> Prop) (records l : list Metadata) :
  Permutation records l -> length records = 1%nat -> List.Forall P records ->
  exists m, l = [m] /\ P m.
Proof.
  intros Hp Hlen Hall.
  destruct records as [|m [|m' records]]; try discriminate Hlen.
  apply Permutation_length_1_inv in Hp. subst l.
  exists m. split; [reflexivity|]. inversion Hall. assumption.
Qed.

(** * Claims about the heuristic scorer *)

Section Heuristic.
Import HeuristicAnalyzer.

Lemma add_if_positive_mono s s' x x' :
  s <= s' -> x <= x' -> add_if_positive s x <= add_if_positive s' x'.
Proof.
  intros Hs Hx. unfold add_if_positive.
  destruct (Z.ltb_spec 0 x), (Z.ltb_spec 0 x'); lia.
Qed.

Lemma add_if_positive_nonneg s x : 0 <= x -> add_if_positive s x = s + x.
Proof.
  intros Hx. unfold add_if_positive. destruct (Z.ltb_spec 0 x); lia.
Qed.

Lemma suspicionScore_mono c c' : checks_le c c' -> suspicionScore c <= suspicionScore c'.
Proof.
  intros (He & Hn & Hl & Hs & Ha & Hd & Hx). unfold suspicionScore.
  assert (H5 : add_if_positive (add_if_positive (add_if_positive (add_if_positive
                 (add_if_positive 0 (extScore c)) (nameScore c)) (locationScore c))
                 (sizeScore c)) (attrScore c)
               <= add_if_positive (add_if_positive (add_if_positive (add_if_positive
                 (add_if_positive 0 (extScore c')) (nameScore c')) (locationScore c'))
                 (sizeScore c')) (attrScore c'))
    by (repeat apply add_if_positive_mono; lia).
  destruct (doubleExtension c) eqn:Ed; [rewrite (Hd eq_refl)|];
    (destruct (executableContent c) eqn:Ex; [rewrite (Hx eq_refl)|]);
    destruct (doubleExtension c'), (executableContent c'); lia.
Qed.

Lemma checks_nonneg w filePath stats :
  let c := checks w filePath stats in
  0 <= extScore c /\ 0 <= nameScore c /\ 0 <= locationScore c
  /\ 0 <= sizeScore c /\ 0 <= attrScore c.
Proof.
  cbn [checks extScore nameScore locationScore sizeScore attrScore].
  repeat split.
  - unfold checkSuspiciousExtension. repeat destruct (Str.includes _ _); lia.
  - unfold checkSuspiciousFileName. destruct (existsb _ _); lia.
  - unfold checkSuspiciousLocation. destruct (existsb _ _); lia.
  - unfold checkSuspiciousSize.
    repeat match goal with |- context [if ?b then _ else _] => destruct b end; lia.
  - unfold checkFileAttributes.
    repeat match goal with
           | |- context [match ?b with _ => _ end] => destruct b
           end; lia.
Qed.

Lemma suspicionScore_sum c :
  0 <= extScore c -> 0 <= nameScore c -> 0 <= locationScore c ->
  0 <= sizeScore c -> 0 <= attrScore c ->
  suspicionScore c = sum_of_weights c.
Proof.
  intros. unfold suspicionScore, sum_of_weights.
  rewrite !add_if_positive_nonneg by assumption.
  destruct (doubleExtension c), (executableContent c); lia.
Qed.

End Heuristic.

(** C9.  The suspicion score is monotonic in the triggered traits: when
    every check of one file yields at least what it yields for another
    (in particular when one more check fires and the others are
    unchanged), the total is not smaller; a detection therefore stays a
    detection, with a score that is not smaller.  The total is the sum of
    the seven contributions, none of which is negative. *)
Theorem heuristic_score_monotone (config : Config) (w w' : World) (filePath filePath' : string)
        (stats stats' : Fs.Stats) :
  checks_le (HeuristicAnalyzer.checks w filePath stats)
            (HeuristicAnalyzer.checks w' filePath' stats') ->
  HeuristicAnalyzer.suspicionScore (HeuristicAnalyzer.checks w filePath stats)
    <= HeuristicAnalyzer.suspicionScore (HeuristicAnalyzer.checks w' filePath' stats')
  /\ (forall d, HeuristicAnalyzer.analyze config w filePath stats = Some d ->
        exists d', HeuristicAnalyzer.analyze config w' filePath' stats' = Some d'
                   /\ HeuristicAnalyzer.score d <= HeuristicAnalyzer.score d')
  /\ HeuristicAnalyzer.suspicionScore (HeuristicAnalyzer.checks w filePath stats)
     = sum_of_weights (HeuristicAnalyzer.checks w filePath stats)
  /\ 0 <= HeuristicAnalyzer.suspicionScore (HeuristicAnalyzer.checks w filePath stats).
Proof.
  intros Hle. pose proof (suspicionScore_mono _ _ Hle) as Hmono.
  pose proof (checks_nonneg w filePath stats) as (H1 & H2 & H3 & H4 & H5).
  pose proof (suspicionScore_sum _ H1 H2 H3 H4 H5) as Hsum.
  split; [exact Hmono|]. split; [|split; [exact Hsum|]].
  - intros d. unfold HeuristicAnalyzer.analyze.
    destruct (HeuristicAnalyzer.suspicionThresholds _) as [t|]; [|discriminate].
    destruct (Z.leb_spec t (HeuristicAnalyzer.suspicionScore
                              (HeuristicAnalyzer.checks w filePath stats))) as [Ht|Ht];
      [|discriminate].
    intros E. injection E as <-.
    destruct (Z.leb_spec t (HeuristicAnalyzer.suspicionScore
                              (HeuristicAnalyzer.checks w' filePath' stats'))) as [Ht'|Ht'];
      [|lia].
    eexists. split; [reflexivity|]. exact Hmono.
  - rewrite Hsum. unfold sum_of_weights.
    destruct (HeuristicAnalyzer.doubleExtension _), (HeuristicAnalyzer.executableContent _); lia.
Qed.

Lemma heuristic_score_monotone_witness :
  HeuristicAnalyzer.suspicionScore
    (HeuristicAnalyzer.checks SampleHeuristic.w SampleHeuristic.plain SampleHeuristic.small)
    <= HeuristicAnalyzer.suspicionScore
         (HeuristicAnalyzer.checks SampleHeuristic.w SampleHeuristic.doubled SampleHeuristic.small)
  /\ (forall d, HeuristicAnalyzer.analyze Sample.config SampleHeuristic.w SampleHeuristic.plain
                  SampleHeuristic.small = Some d ->
        exists d', HeuristicAnalyzer.analyze Sample.config SampleHeuristic.w
                     SampleHeuristic.doubled SampleHeuristic.small = Some d'
                   /\ HeuristicAnalyzer.score d <= HeuristicAnalyzer.score d')
  /\ HeuristicAnalyzer.suspicionScore
       (HeuristicAnalyzer.checks SampleHeuristic.w SampleHeuristic.plain SampleHeuristic.small)
     = sum_of_weights
         (HeuristicAnalyzer.checks SampleHeuristic.w SampleHeuristic.plain SampleHeuristic.small)
  /\ 0 <= HeuristicAnalyzer.suspicionScore
            (HeuristicAnalyzer.checks SampleHeuristic.w SampleHeuristic.plain SampleHeuristic.small).
Proof.
  apply (heuristic_score_monotone Sample.config).
  unfold checks_le. vm_compute. repeat split; try discriminate; auto.
Defined.

(** The two sample files: the plain one scores 30, the one with the
    double extension 50. *)
Example sample_scores :
  HeuristicAnalyzer.suspicionScore
    (HeuristicAnalyzer.checks SampleHeuristic.w SampleHeuristic.plain SampleHeuristic.small) = 30
  /\ HeuristicAnalyzer.suspicionScore
       (HeuristicAnalyzer.checks SampleHeuristic.w SampleHeuristic.doubled SampleHeuristic.small) = 50.
Proof. vm_compute. split; reflexivity. Qed.

(** * Claims about pattern matching *)

(** C7.  The compiled patterns keep their search position between files.
    With the seeded catalog, the first pattern check of a script that
    fetches a program reports the downloader signature; the next check of
    the very same file, and the check of another, shorter script with the
    same command, report nothing, although the signature's pattern occurs
    in both texts. *)
Theorem pattern_position_survives_between_files :
  fst SamplePatterns.first_call = Ok (Some SamplePatterns.downloader)
  /\ fst SamplePatterns.same_file_again = Ok None
  /\ fst SamplePatterns.other_file = Ok None
  /\ first_matching_signature SamplePatterns.text_a
       (SignatureDetector.patterns SamplePatterns.detector) = Some SamplePatterns.downloader
  /\ first_matching_signature SamplePatterns.text_b
       (SignatureDetector.patterns SamplePatterns.detector) = Some SamplePatterns.downloader
  /\ fst (SignatureDetector.checkPatternSignatures SamplePatterns.path_b
            (SamplePatterns.w, SamplePatterns.detector)) = Ok (Some SamplePatterns.downloader).
Proof. vm_compute. repeat split; reflexivity. Qed.

(** * Claims about the scan orchestrator *)

(** C2.  A scan whose request names neither the quick nor the full scan,
    nor a custom scan with at least one path, throws after its session has
    been recorded: when the store initialises and records the start, the
    call ends with the error [Invalid scan type or paths], the scanner is
    no longer scanning, and the session the call created is the last one
    of the history, still with status [Running], zero counts and no end
    time or duration, in memory and in the stored document. *)
Theorem scan_invalid_request_leaves_session_running `{JsonCodec} (config : Config)
        (w : World) (s : FileScanner.t) (type : string) (paths : list string) (deep : bool)
        (b : bool) (w1 : World) (d1 : ThreatDatabase.t) (id : Z) (w2 : World)
        (d2 : ThreatDatabase.t) :
  String.eqb type "quick" = false ->
  String.eqb type "full" = false ->
  String.eqb type "custom" && (0 <? length paths)%nat = false ->
  ThreatDatabase.initialize config (w, FileScanner.db s) = (Ok b, (w1, d1)) ->
  ThreatDatabase.recordScanStart config type (w1, d1) = (Ok id, (w2, d2)) ->
  exists fin,
    FileScanner.scan config type paths deep (w, s) = (Throw invalid_request, fin)
    /\ FileScanner.scanning (snd fin) = false
    /\ FileScanner.scanId (snd fin) = Some id
    /\ FileScanner.db (snd fin) = d2
    /\ fs (fst fin) = fs w2
    /\ (exists start,
          scan_history (ThreatDatabase.data d2)
          = (scan_history (ThreatDatabase.data d1) ++ [running_session id start type])%list)
    /\ fs w2 !! ThreatDatabase.dbPath config
       = Some (Fs.File (stringify_db (ThreatDatabase.data d2)) None).
Proof.
  intros Hq Hf Hc Hinit Hstart.
  pose proof (recordScanStart_ok _ _ _ _ _ _ _ Hstart) as (_ & _ & _ & Hhist & Hdoc).
  unfold FileScanner.scan.
  erewrite bind_ok by apply this_eq. cbn [fst snd].
  erewrite bind_ok by (apply on_db_eq; exact Hinit).
  erewrite bind_ok by (apply on_db_eq; exact Hstart).
  erewrite bind_ok by apply this_eq. cbn [fst snd].
  unfold bind at 1. cbn [FileScanner.env zoom Env.now fst snd].
  erewrite bind_ok by apply this_eq. cbn [fst snd].
  unfold finally. rewrite try_catch_rethrow.
  unfold FileScanner.resolve_paths. rewrite Hq, Hf, Hc.
  unfold bind, throw. eexists. split; [reflexivity|].
  cbn. repeat split; eauto.
Qed.

Lemma scan_invalid_request_leaves_session_running_witness :
  exists fin,
    SampleScan.invalid_scan = (Throw invalid_request, fin)
    /\ FileScanner.scanning (snd fin) = false
    /\ FileScanner.scanId (snd fin) = Some 1000
    /\ FileScanner.db (snd fin) = snd SampleScan.recorded
    /\ fs (fst fin) = fs (fst SampleScan.recorded)
    /\ (exists start,
          scan_history (ThreatDatabase.data (snd SampleScan.recorded))
          = (scan_history (ThreatDatabase.data (snd (SampleScan.started SampleScan.empty_world)))
             ++ [running_session 1000 start "custom"])%list)
    /\ fs (fst SampleScan.recorded) !! ThreatDatabase.dbPath Sample.config
       = Some (Fs.File (@stringify_db RefCodec.codec
                          (ThreatDatabase.data (snd SampleScan.recorded))) None).
Proof.
  apply (@scan_invalid_request_leaves_session_running RefCodec.codec Sample.config
           SampleScan.empty_world FileScanner.new "custom" [] true true
           (fst (SampleScan.started SampleScan.empty_world))
           (snd (SampleScan.started SampleScan.empty_world))).
  - reflexivity.
  - reflexivity.
  - reflexivity.
  - vm_compute. reflexivity.
  - vm_compute. reflexivity.
Defined.

(** C1, as stated, fails for an excluded extension: a file with the EICAR
    text and the extension [.pdf] has the cataloged MD5 digest, and its
    scan returns no threat. *)
Lemma excluded_extension_hides_hash_match :
  fs (SampleScan.in_downloads "eicar.pdf" Sample.eicar) !! SampleScan.eicar_pdf
  = Some (Fs.File eicar_bytes None)
  /\ cataloged
       (hash_signatures
          (ThreatDatabase.data (FileScanner.db (snd (snd (SampleScan.scan_of "eicar.pdf"))))))
       eicar_bytes ThreatDatabase.eicar_md5
  /\ fst (SampleScan.scan_of "eicar.pdf") = Ok None.
Proof.
  vm_compute. split; [reflexivity|]. split; [|reflexivity].
  split; left; reflexivity.
Qed.

(** C1.  Let the store open, and let the path name a regular file.  If
    the extension or the path of the file is excluded, [scanFile] returns
    null and no file is hashed, whatever the content and the catalog.  If
    the file is readable, within the size bound and not excluded, with
    signature scanning enabled and a detector that is new or has loaded
    the present catalog, and one of the digests of the content (md5, sha1,
    sha256) equals the digest, in lower case, of a cataloged row, then
    [scanFile] returns a threat for the file with detection method
    [signature-hash] and the name, type, severity and description of one
    cataloged row: the md5 digest is looked up first, then sha1, then
    sha256, and of the rows that carry the first digest found, the last
    one of the catalog is reported. *)
Theorem scanFile_hash_match `{JsonCodec} (config : Config) (w : World) (s : FileScanner.t)
        (b : bool) (w1 : World) (d1 : ThreatDatabase.t) (filePath : string)
        (content : list byte) (access : option string) :
  ThreatDatabase.initialize config (w, FileScanner.db s) = (Ok b, (w1, d1)) ->
  fs w1 !! filePath = Some (Fs.File content access) ->
  (FileScanner.isExcluded config (os_platform w1) filePath = true ->
   exists st',
     FileScanner.scanFile config filePath (w, s) = (Ok None, st')
     /\ digested (fst st') = digested w)
  /\ (forall sig,
        access = None ->
        Z.of_nat (length content) <= exclusions_maxFileSize config ->
        FileScanner.isExcluded config (os_platform w1) filePath = false ->
        detection_enableSignatureScanning config = true ->
        in_step (FileScanner.signatureDetector s) (hash_signatures (ThreatDatabase.data d1)) ->
        cataloged (hash_signatures (ThreatDatabase.data d1)) content sig ->
        exists sig' th st',
          FileScanner.scanFile config filePath (w, s) = (Ok (Some th), st')
          /\ th_path th = filePath
          /\ th_detectionMethod th = "signature-hash"
          /\ th_name th = hs_name sig'
          /\ th_type th = hs_type sig'
          /\ th_severity th = hs_severity sig'
          /\ th_description th = hs_description sig'
          /\ cataloged (hash_signatures (ThreatDatabase.data d1)) content sig'
          /\ reported_row (hash_signatures (ThreatDatabase.data d1)) content = Some sig'
          /\ exists pre k post before after,
               digests_of content = (pre ++ k :: post)%list
               /\ List.Forall
                    (fun k' => List.Forall (fun x => carries k' x = false)
                                 (hash_signatures (ThreatDatabase.data d1))) pre
               /\ hash_signatures (ThreatDatabase.data d1) = (before ++ sig' :: after)%list
               /\ carries k sig' = true
               /\ List.Forall (fun x => carries k x = false) after).
Proof.
  intros Hinit Hfile. split.
  - intros Hexcl.
    exact (scanFile_excluded config w s b w1 d1 filePath Hinit
             (ex_intro _ _ Hfile) Hexcl).
  - intros sig -> Hsize Hexcl Hsig Hstep Hcat.
    destruct (cataloged_reported _ _ _ Hcat) as [sig' Hrow].
    destruct (scanFile_reported_row config w s b w1 d1 filePath content sig'
                Hinit Hfile Hsize Hexcl Hsig Hstep Hrow) as [st' E].
    exists sig'. eexists. exists st'. split; [exact E|]. cbn.
    do 6 (split; [reflexivity|]).
    split; [exact (reported_row_cataloged _ _ _ Hrow)|].
    split; [exact Hrow | exact (reported_row_spec _ _ _ Hrow)].
Qed.

Lemma scanFile_hash_match_witness :
  (exists th st',
     SampleScan.scan_of "eicar.com" = (Ok (Some th), st')
     /\ th_path th = SampleScan.eicar_com
     /\ th_detectionMethod th = "signature-hash"
     /\ th_name th = hs_name ThreatDatabase.eicar_md5
     /\ th_severity th = hs_severity ThreatDatabase.eicar_md5)
  /\ (exists st',
        SampleScan.scan_of "eicar.pdf" = (Ok None, st')
        /\ digested (fst st') = digested (SampleScan.in_downloads "eicar.pdf" Sample.eicar)).
Proof.
  split.
  - destruct (@scanFile_hash_match RefCodec.codec Sample.config
                (SampleScan.in_downloads "eicar.com" Sample.eicar) FileScanner.new true
                (fst (SampleScan.started (SampleScan.in_downloads "eicar.com" Sample.eicar)))
                (snd (SampleScan.started (SampleScan.in_downloads "eicar.com" Sample.eicar)))
                SampleScan.eicar_com eicar_bytes None) as [_ Hhit].
    + vm_compute. reflexivity.
    + vm_compute. reflexivity.
    + destruct (Hhit ThreatDatabase.eicar_md5)
        as (sig' & th & st' & E & Hp & Hm & Hn & _ & Hs & _ & _ & Hrow & _).
      * reflexivity.
      * vm_compute. discriminate.
      * vm_compute. reflexivity.
      * reflexivity.
      * reflexivity.
      * vm_compute. split; left; reflexivity.
      * assert (Hmd5 : reported_row
                         (hash_signatures
                            (ThreatDatabase.data
                               (snd (SampleScan.started
                                       (SampleScan.in_downloads "eicar.com" Sample.eicar)))))
                         eicar_bytes
                       = Some ThreatDatabase.eicar_md5).
        { vm_compute. reflexivity. }
        rewrite Hmd5 in Hrow. injection Hrow as <-.
        exists th, st'. split; [exact E|]. split; [exact Hp|]. split; [exact Hm|].
        split; [exact Hn | exact Hs].
  - destruct (@scanFile_hash_match RefCodec.codec Sample.config
                (SampleScan.in_downloads "eicar.pdf" Sample.eicar) FileScanner.new true
                (fst (SampleScan.started (SampleScan.in_downloads "eicar.pdf" Sample.eicar)))
                (snd (SampleScan.started (SampleScan.in_downloads "eicar.pdf" Sample.eicar)))
                SampleScan.eicar_pdf eicar_bytes None) as [Hexcl _].
    + vm_compute. reflexivity.
    + vm_compute. reflexivity.
    + apply Hexcl. vm_compute. reflexivity.
Defined.

(** C5, as stated, fails for a name with an excluded extension: a new
    store is seeded with the two EICAR rows, and the scan of a file with
    the EICAR text named [eicar.txt] returns no threat. *)
Lemma eicar_text_file_not_detected :
  hash_signatures
    (ThreatDatabase.data (FileScanner.db (snd (snd (SampleScan.scan_of "eicar.txt")))))
  = [ThreatDatabase.eicar_md5; ThreatDatabase.eicar_sha256]
  /\ fs (SampleScan.in_downloads "eicar.txt" Sample.eicar) !! SampleScan.eicar_txt
     = Some (Fs.File eicar_bytes None)
  /\ fst (SampleScan.scan_of "eicar.txt") = Ok None.
Proof. vm_compute. repeat split; reflexivity. Qed.

(** C5.  When the hash-signature collection is empty after the store has
    been read or created, [initialize] seeds it with the MD5 and SHA-256
    rows of the EICAR test file, both named [EICAR-Test-File]; every
    readable file that holds the EICAR text, is within the size bound and
    has neither an excluded extension nor an excluded path is then
    reported, with signature scanning enabled and a detector in step with
    the catalog, as [EICAR-Test-File] by [signature-hash]; for every file
    with an excluded extension or path, [scanFile] returns null and no
    file is hashed, whatever the content. *)
Theorem eicar_seeded_and_detected `{JsonCodec} (config : Config) (w : World) (s : FileScanner.t)
        (w0 : World) (d0 : ThreatDatabase.t) (b : bool) (w1 : World) (d1 : ThreatDatabase.t) :
  ThreatDatabase.initialized (FileScanner.db s) = false ->
  ThreatDatabase.load config (w, FileScanner.db s) = (Ok tt, (w0, d0)) ->
  hash_signatures (ThreatDatabase.data d0) = [] ->
  ThreatDatabase.initialize config (w, FileScanner.db s) = (Ok b, (w1, d1)) ->
  hash_signatures (ThreatDatabase.data d1)
  = [ThreatDatabase.eicar_md5; ThreatDatabase.eicar_sha256]
  /\ hs_name ThreatDatabase.eicar_md5 = "EICAR-Test-File"
  /\ hs_name ThreatDatabase.eicar_sha256 = "EICAR-Test-File"
  /\ (forall filePath,
        fs w1 !! filePath = Some (Fs.File eicar_bytes None) ->
        Z.of_nat (length eicar_bytes) <= exclusions_maxFileSize config ->
        FileScanner.isExcluded config (os_platform w1) filePath = false ->
        detection_enableSignatureScanning config = true ->
        in_step (FileScanner.signatureDetector s) (hash_signatures (ThreatDatabase.data d1)) ->
        exists th st',
          FileScanner.scanFile config filePath (w, s) = (Ok (Some th), st')
          /\ th_path th = filePath
          /\ th_name th = "EICAR-Test-File"
          /\ th_detectionMethod th = "signature-hash")
  /\ (forall filePath content access,
        fs w1 !! filePath = Some (Fs.File content access) ->
        FileScanner.isExcluded config (os_platform w1) filePath = true ->
        exists st',
          FileScanner.scanFile config filePath (w, s) = (Ok None, st')
          /\ digested (fst st') = digested w).
Proof.
  intros Hnew Hload Hempty Hinit.
  destruct (initialize_seeds config _ _ _ _ _ _ _ Hnew Hload Hempty Hinit) as (Hseed & _ & _).
  split; [exact Hseed|]. split; [reflexivity|]. split; [reflexivity|]. split.
  - intros filePath Hfile Hsize Hexcl Hsig Hstep.
    assert (Hcat : cataloged (hash_signatures (ThreatDatabase.data d1)) eicar_bytes
                             ThreatDatabase.eicar_md5).
    { rewrite Hseed. split; [left; reflexivity | left; vm_compute; reflexivity]. }
    destruct (scanFile_hash_hit config w s b w1 d1 filePath eicar_bytes _
                Hinit Hfile Hsize Hexcl Hsig Hstep Hcat) as (sig' & st' & [Hin _] & E).
    eexists. exists st'. split; [exact E|]. cbn. split; [reflexivity|].
    split; [|reflexivity].
    rewrite Hseed in Hin. destruct Hin as [<-|[<-|[]]]; reflexivity.
  - intros filePath content access Hfile Hexcl.
    exact (scanFile_excluded config w s b w1 d1 filePath Hinit
             (ex_intro _ _ Hfile) Hexcl).
Qed.

Lemma eicar_seeded_and_detected_witness :
  hash_signatures (ThreatDatabase.data
     (snd (SampleScan.started (SampleScan.in_downloads "eicar.com" Sample.eicar))))
  = [ThreatDatabase.eicar_md5; ThreatDatabase.eicar_sha256]
  /\ (exists th st',
        SampleScan.scan_of "eicar.com" = (Ok (Some th), st')
        /\ th_path th = SampleScan.eicar_com
        /\ th_name th = "EICAR-Test-File"
        /\ th_detectionMethod th = "signature-hash")
  /\ (exists st',
        SampleScan.scan_of "eicar.txt" = (Ok None, st')
        /\ digested (fst st') = digested (SampleScan.in_downloads "eicar.txt" Sample.eicar)).
Proof.
  destruct (@eicar_seeded_and_detected RefCodec.codec Sample.config
              (SampleScan.in_downloads "eicar.com" Sample.eicar) FileScanner.new
              (fst (SampleScan.loaded (SampleScan.in_downloads "eicar.com" Sample.eicar)))
              (snd (SampleScan.loaded (SampleScan.in_downloads "eicar.com" Sample.eicar)))
              true
              (fst (SampleScan.started (SampleScan.in_downloads "eicar.com" Sample.eicar)))
              (snd (SampleScan.started (SampleScan.in_downloads "eicar.com" Sample.eicar))))
    as (Hseed & _ & _ & Hhit & _).
  - reflexivity.
  - vm_compute. reflexivity.
  - vm_compute. reflexivity.
  - vm_compute. reflexivity.
  - destruct (@eicar_seeded_and_detected RefCodec.codec Sample.config
                (SampleScan.in_downloads "eicar.txt" Sample.eicar) FileScanner.new
                (fst (SampleScan.loaded (SampleScan.in_downloads "eicar.txt" Sample.eicar)))
                (snd (SampleScan.loaded (SampleScan.in_downloads "eicar.txt" Sample.eicar)))
                true
                (fst (SampleScan.started (SampleScan.in_downloads "eicar.txt" Sample.eicar)))
                (snd (SampleScan.started (SampleScan.in_downloads "eicar.txt" Sample.eicar))))
      as (_ & _ & _ & _ & Hexcl).
    + reflexivity.
    + vm_compute. reflexivity.
    + vm_compute. reflexivity.
    + vm_compute. reflexivity.
    + split; [exact Hseed|]. split.
      * apply (Hhit SampleScan.eicar_com).
        -- vm_compute. reflexivity.
        -- vm_compute. discriminate.
        -- vm_compute. reflexivity.
        -- reflexivity.
        -- reflexivity.
      * apply (Hexcl SampleScan.eicar_txt eicar_bytes None).
        -- vm_compute. reflexivity.
        -- vm_compute. reflexivity.
Defined.




(** * Claims about the quarantine vault *)

(** C8.  After a file has been quarantined, [permanentDelete] on the
    returned id succeeds and leaves neither the ciphertext object nor the
    metadata object of that id; a restore of that id then fails with the
    not-found error; deleting again succeeds, as does the deletion of any
    id in any state of the store, whether its objects exist or not. *)
Theorem permanentDelete_after_quarantine `{JsonCodec} (config : Config)
        (w : World) (filePath : string) (r : QuarantineResult) (w1 : World) :
  QuarantineManager.quarantineFile config filePath w = (Ok r, w1) ->
  exists w2,
    QuarantineManager.permanentDelete config (qr_quarantineId r) w1
      = (Ok (true, deleted_message), w2)
    /\ fs w2 !! QuarantineManager.quar_path config (os_platform w2) (qr_quarantineId r) = None
    /\ fs w2 !! QuarantineManager.meta_path config (os_platform w2) (qr_quarantineId r) = None
    /\ QuarantineManager.restoreFile config (qr_quarantineId r) w2 = (Throw not_found, w2)
    /\ (exists w3, QuarantineManager.permanentDelete config (qr_quarantineId r) w2
                   = (Ok (true, deleted_message), w3))
    /\ (forall w0 id0, exists w',
           QuarantineManager.permanentDelete config id0 w0 = (Ok (true, deleted_message), w')).
Proof.
  intros _.
  destruct (permanentDelete_spec config (qr_quarantineId r) w1) as (w2 & E & Hq & Hm & Hpf).
  exists w2. rewrite Hpf. repeat split; try assumption.
  - apply restoreFile_missing. left. rewrite Hpf. exact Hm.
  - destruct (permanentDelete_spec config (qr_quarantineId r) w2) as (w3 & E3 & _).
    exists w3. exact E3.
  - intros w0 id0.
    destruct (permanentDelete_spec config id0 w0) as (w' & E' & _).
    exists w'. exact E'.
Qed.

(** C10.  [getQuarantineList] never throws and leaves the environment as
    it is.  Its result is sorted newest first by the quarantine time.
    When the directory is read and every name in it that ends in [.json]
    is a readable document holding a metadata record, the result is
    these records, rearranged.  When one such name has no readable
    document with a record, or when the directory cannot be read, the
    result is the empty list. *)
Theorem getQuarantineList_total `{JsonCodec} (config : Config) (w : World) :
  exists l,
    QuarantineManager.getQuarantineList config w = (Ok l, w)
    /\ StronglySorted newest_first l
    /\ (forall files records,
          fst (Env.readdir (paths_quarantine config) w) = Ok files ->
          Forall2 (documented config w)
                  (List.filter (fun f => Str.endsWith f ".json") files) records ->
          Permutation records l)
    /\ (forall files name,
          fst (Env.readdir (paths_quarantine config) w) = Ok files ->
          In name (List.filter (fun f => Str.endsWith f ".json") files) ->
          (forall m, ~ documented config w name m) ->
          l = [])
    /\ (forall e, fst (Env.readdir (paths_quarantine config) w) = Throw e -> l = []).
Proof. exact (getQuarantineList_documents config w). Qed.

Lemma getQuarantineList_total_witness :
  exists m,
    @QuarantineManager.getQuarantineList RefCodec.codec Sample.config
      (snd SampleVault.quarantined)
    = (Ok [m], snd SampleVault.quarantined)
    /\ md_id m = SampleVault.id
    /\ md_originalPath m = SampleVault.path.
Proof.
  destruct (@getQuarantineList_total RefCodec.codec Sample.config
              (snd SampleVault.quarantined)) as (l & E & _ & Hrecords & _).
  assert (Hp := Hrecords Examples.vault_names Examples.vault_records).
  assert (Hdir : fst (Env.readdir (paths_quarantine Sample.config)
                        (snd SampleVault.quarantined)) = Ok Examples.vault_names).
  { vm_compute. reflexivity. }
  assert (Hall : Forall2 (@documented RefCodec.codec Sample.config
                            (snd SampleVault.quarantined))
                         (List.filter (fun f => Str.endsWith f ".json") Examples.vault_names)
                         Examples.vault_records).
  { apply read_all_documented. vm_compute. reflexivity. }
  specialize (Hp Hdir Hall).
  destruct (singleton_listing
              (fun m => md_id m = SampleVault.id /\ md_originalPath m = SampleVault.path)
              Examples.vault_records l Hp) as (m & -> & Hm).
  - vm_compute. reflexivity.
  - vm_compute. repeat constructor.
  - exists m. split; [exact E | exact Hm].
Defined.

(** C4.  Quarantine followed by restore of the returned id writes back
    the original bytes: the restored file holds exactly the content the
    file had before the quarantine call, so its digest is the digest of
    the original; and [decryptFile] undoes [encryptFile] for whatever
    initialisation vector was drawn.  The metadata document is assumed to
    be readable back from its JSON text. *)
Theorem quarantine_restore_roundtrip `{JsonCodec} (config : Config)
        (w : World) (filePath : string) (content : list byte) (access : option string)
        (r : QuarantineResult) (w1 : World) (rr : RestoreResult) (w2 : World) :
  (forall m, parse_meta (stringify_meta m) = Some m) ->
  fs w !! filePath = Some (Fs.File content access) ->
  QuarantineManager.quarantineFile config filePath w = (Ok r, w1) ->
  QuarantineManager.restoreFile config (qr_quarantineId r) w1 = (Ok rr, w2) ->
  (exists restored,
      fs w2 !! rr_restoredPath rr = Some (Fs.File restored None)
      /\ restored = content
      /\ Digest.sha256 restored = Digest.sha256 content)
  /\ (forall plain w0 ct w0',
         QuarantineManager.encryptFile config plain w0 = (Ok ct, w0') ->
         QuarantineManager.decryptFile config ct = Ok plain).
Proof.
  intros Hlaw Hfile Hq Hr. split.
  - destruct (restore_after_quarantine Hlaw config w filePath r w1 rr w2 Hq Hr)
      as (c & Hc & Hres).
    rewrite Hfile in Hc. injection Hc as -> ->.
    exists c. auto.
  - intros plain w0 ct w0' Henc.
    apply encryptFile_ok in Henc as (e & He & -> & _).
    apply decryptFile_encrypted; [apply length_random_bytes | exact He].
Qed.

Lemma quarantine_restore_roundtrip_witness :
  (exists restored,
      fs (snd SampleVault.restored) !! SampleVault.path = Some (Fs.File restored None)
      /\ restored = SampleVault.content
      /\ Digest.sha256 restored = Digest.sha256 SampleVault.content)
  /\ (forall plain w0 ct w0',
         @QuarantineManager.encryptFile Sample.config plain w0 = (Ok ct, w0') ->
         @QuarantineManager.decryptFile Sample.config ct = Ok plain).
Proof.
  apply (@quarantine_restore_roundtrip RefCodec.codec Sample.config SampleVault.start SampleVault.path
           SampleVault.content None
           {| qr_success := true; qr_quarantineId := SampleVault.id;
              qr_message := "File quarantined successfully: eicar.com" |}
           (snd SampleVault.quarantined)
           {| rr_success := true; rr_restoredPath := SampleVault.path;
              rr_message := "File restored to: /home/u/Downloads/eicar.com" |}
           (snd SampleVault.restored)).
  - exact ref_codec_meta.
  - vm_compute. reflexivity.
  - vm_compute. reflexivity.
  - vm_compute. reflexivity.
Defined.

(** C6, as stated, fails: when the clock reads the same millisecond and
    the random source repeats itself, two sequential quarantine calls on
    two different files obtain the same id and put the same
    initialisation vector in front of their ciphertexts. *)
Lemma sequential_quarantine_collision :
  let w := Sample.frozen_world SampleVault.two_files [] Sample.constant in
  let q1 := @QuarantineManager.quarantineFile RefCodec.codec Sample.config SampleVault.path_a w in
  let q2 := @QuarantineManager.quarantineFile RefCodec.codec Sample.config SampleVault.path_b (snd q1) in
  let qp := QuarantineManager.quar_path Sample.config Posix "quar_1000_0000000000000000" in
  SampleVault.path_a <> SampleVault.path_b
  /\ (exists r1 r2 ct1 ct2,
         fst q1 = Ok r1 /\ fst q2 = Ok r2
         /\ qr_quarantineId r1 = qr_quarantineId r2
         /\ fs (snd q1) !! qp = Some (Fs.File ct1 None)
         /\ fs (snd q2) !! qp = Some (Fs.File ct2 None)
         /\ firstn 16 ct1 = firstn 16 ct2).
Proof.
  split; [discriminate|].
  vm_compute. do 4 eexists. repeat split.
Qed.

(** C6, amended.  For two sequential successful quarantine calls: each id
    is made of the clock reading and of eight freshly drawn random bytes,
    and the two ids are equal exactly when both the readings and the draws
    coincide; the sixteen bytes in front of each ciphertext are the
    sixteen bytes drawn next from the random source by that call, the
    second call drawing further down the stream than the first. *)
Theorem sequential_quarantine_distinct `{JsonCodec} (config : Config)
        (w : World) (p1 p2 : string) (r1 r2 : QuarantineResult) (w1 w2 : World) :
  QuarantineManager.quarantineFile config p1 w = (Ok r1, w1) ->
  QuarantineManager.quarantineFile config p2 w1 = (Ok r2, w2) ->
  (qr_quarantineId r1 = qr_quarantineId r2
     <-> clock w (ticks w) = clock w (S (S (ticks w)))
         /\ map (entropy w) (seq (drawn w) 8) = map (entropy w) (seq (drawn w + 24) 8))
  /\ (forall ct a,
        fs w1 !! QuarantineManager.quar_path config (os_platform w) (qr_quarantineId r1)
          = Some (Fs.File ct a) ->
        firstn 16 ct = map (entropy w) (seq (drawn w + 8) 16))
  /\ (forall ct a,
        fs w2 !! QuarantineManager.quar_path config (os_platform w) (qr_quarantineId r2)
          = Some (Fs.File ct a) ->
        firstn 16 ct = map (entropy w) (seq (drawn w + 32) 16)).
Proof.
  intros H1 H2.
  apply quarantineFile_ok in H1
    as (c1 & e1 & _ & _ & Hid1 & _ & Hkeep1 & Hpf & _ & Hclock & Hticks & Hent & Hdrawn).
  apply quarantineFile_ok in H2
    as (c2 & e2 & _ & _ & Hid2 & _ & Hkeep2 & _).
  rewrite Hid1, Hid2.
  assert (Hid : quarantine_id w1
                = "quar_" ++ Num.dec (clock w (S (S (ticks w)))) ++ "_"
                  ++ Bytes.hex (map Bytes.to_Z (map (entropy w) (seq (drawn w + 24) 8)))).
  { unfold quarantine_id. rewrite Hclock, Hticks, Hent, Hdrawn. reflexivity. }
  assert (Hiv : quarantine_iv w1 = map (entropy w) (seq (drawn w + 32) 16)).
  { unfold quarantine_iv. rewrite Hent, Hdrawn.
    replace (drawn w + 24 + 8)%nat with (drawn w + 32)%nat by lia. reflexivity. }
  split; [|split].
  - rewrite Hid. unfold quarantine_id. split.
    + intros E. apply string_app_inv_head in E.
      apply (split_at_marker dec_char "_") in E as [Et Eb];
        [|reflexivity|apply dec_chars|apply dec_chars].
      split; [apply dec_inj, Et | apply hex_inj, Eb].
    + intros [-> ->]. reflexivity.
  - intros ct a Hct. apply Hkeep1 in Hct.
    rewrite lookup_insert_ne, lookup_insert_eq in Hct
      by (apply not_eq_sym, quar_meta_paths_differ).
    assert (E : ct = (quarantine_iv w ++ e1)%list) by congruence.
    rewrite E. apply take_app_length'. apply eq_sym, length_random_bytes.
  - intros ct a Hct. rewrite <- Hpf in Hct. apply Hkeep2 in Hct.
    rewrite lookup_insert_ne, lookup_insert_eq in Hct
      by (apply not_eq_sym, quar_meta_paths_differ).
    assert (E : ct = (quarantine_iv w1 ++ e2)%list) by congruence.
    rewrite E, <- Hiv. apply take_app_length'. apply eq_sym, length_random_bytes.
Qed.

Lemma sequential_quarantine_distinct_witness :
  let w := Sample.world SampleVault.two_files [] Sample.counting in
  let q1 := @QuarantineManager.quarantineFile RefCodec.codec Sample.config SampleVault.path_a w in
  let q2 := @QuarantineManager.quarantineFile RefCodec.codec Sample.config SampleVault.path_b (snd q1) in
  let id1 := "quar_1000_0001020304050607" in
  let id2 := "quar_1002_18191a1b1c1d1e1f" in
  (id1 = id2
     <-> clock w (ticks w) = clock w (S (S (ticks w)))
         /\ map (entropy w) (seq (drawn w) 8) = map (entropy w) (seq (drawn w + 24) 8))
  /\ (forall ct a,
        fs (snd q1) !! QuarantineManager.quar_path Sample.config (os_platform w) id1
          = Some (Fs.File ct a) ->
        firstn 16 ct = map (entropy w) (seq (drawn w + 8) 16))
  /\ (forall ct a,
        fs (snd q2) !! QuarantineManager.quar_path Sample.config (os_platform w) id2
          = Some (Fs.File ct a) ->
        firstn 16 ct = map (entropy w) (seq (drawn w + 32) 16)).
Proof.
  intros w q1 q2 id1 id2.
  apply (@sequential_quarantine_distinct RefCodec.codec Sample.config w
           SampleVault.path_a SampleVault.path_b
           {| qr_success := true; qr_quarantineId := id1;
              qr_message := "File quarantined successfully: a.bin" |}
           {| qr_success := true; qr_quarantineId := id2;
              qr_message := "File quarantined successfully: b.bin" |}
           (snd q1) (snd q2)).
  - vm_compute. reflexivity.
  - vm_compute. reflexivity.
Defined.

Lemma permanentDelete_after_quarantine_witness :
  exists w2,
    @QuarantineManager.permanentDelete Sample.config SampleVault.id (snd SampleVault.quarantined)
      = (Ok (true, deleted_message), w2)
    /\ fs w2 !! QuarantineManager.quar_path Sample.config (os_platform w2) SampleVault.id = None
    /\ fs w2 !! QuarantineManager.meta_path Sample.config (os_platform w2) SampleVault.id = None
    /\ @QuarantineManager.restoreFile RefCodec.codec Sample.config SampleVault.id w2
       = (Throw not_found, w2)
    /\ (exists w3, @QuarantineManager.permanentDelete Sample.config SampleVault.id w2
                   = (Ok (true, deleted_message), w3))
    /\ (forall w0 id0, exists w',
           @QuarantineManager.permanentDelete Sample.config id0 w0
           = (Ok (true, deleted_message), w')).
Proof.
  apply (@permanentDelete_after_quarantine RefCodec.codec Sample.config SampleVault.start
           SampleVault.path
           {| qr_success := true; qr_quarantineId := SampleVault.id;
              qr_message := "File quarantined successfully: eicar.com" |}
           (snd SampleVault.quarantined)).
  vm_compute. reflexivity.
Defined.

(** * The bookkeeping of a scan *)

Section StoreRecords.
Context `{JsonCodec}.
Variable config : Config.

Lemma history_step_refl : Reflexive history_step.
Proof. intros a Ha. auto. Qed.

Lemma history_step_trans : Transitive history_step.
Proof.
  intros a b c Hab Hbc Ha. destruct (Hab Ha) as [Hb Eb].
  destruct (Hbc Hb) as [Hc Ec]. split; [exact Hc | congruence].
Qed.

Lemma save_state w d r w' d' :
  ThreatDatabase.save config (w, d) = (r, (w', d')) -> d' = d.
Proof.
  unfold ThreatDatabase.save, ThreatDatabase.get_data, ThreatDatabase.env, bind, gets, zoom.
  cbn. destruct (Env.writeFile _ _ w) as [[u|e] w1]; intros E; injection E as _ _ <-;
    reflexivity.
Qed.

Lemma db_env_state {A} (m : M World A) w d r w' d' :
  ThreatDatabase.env m (w, d) = (r, (w', d')) -> d' = d /\ m w = (r, w').
Proof.
  unfold ThreatDatabase.env, zoom. cbn. destruct (m w) as [r1 w1]. intros E.
  injection E as <- <- <-. auto.
Qed.

(** A detection is appended in memory whether or not the store can be
    written. *)
Lemma recordThreatDetection_inv id p n t sv m w d r w' d' :
  ThreatDatabase.recordThreatDetection config id p n t sv m (w, d) = (r, (w', d')) ->
  ThreatDatabase.initialized d' = ThreatDatabase.initialized d
  /\ scan_history (ThreatDatabase.data d') = scan_history (ThreatDatabase.data d)
  /\ hash_signatures (ThreatDatabase.data d') = hash_signatures (ThreatDatabase.data d)
  /\ exists row,
       threat_detections (ThreatDatabase.data d')
       = (threat_detections (ThreatDatabase.data d) ++ [row])%list
       /\ td_scan_id row = id /\ td_file_path row = p /\ td_threat_name row = n
       /\ td_detection_method row = m /\ td_action_taken row = None.
Proof.
  unfold ThreatDatabase.recordThreatDetection. unfold bind at 1. cbn.
  intros E. apply db_env_state in E as [-> _].
  cbn. repeat split. eexists. split; [reflexivity|]. cbn. auto.
Qed.

Lemma recordThreatDetection_history id p n t sv m :
  preserves history_step (ThreatDatabase.recordThreatDetection config id p n t sv m).
Proof.
  intros [w d] r [w' d'] E Hd. apply recordThreatDetection_inv in E as (Hi & Hh & _).
  cbn in *. split; congruence.
Qed.

Lemma initialize_history : preserves history_step (ThreatDatabase.initialize config).
Proof.
  intros [w d] r [w' d'] E Hd. cbn in Hd.
  rewrite (initialize_done config w d Hd) in E. injection E as _ _ <-. auto.
Qed.

(** What [recordScanComplete] leaves. *)
Lemma recordScanComplete_ok id n t dur w d u w' d' :
  ThreatDatabase.recordScanComplete config id n t dur (w, d) = (Ok u, (w', d')) ->
  ThreatDatabase.initialized d' = ThreatDatabase.initialized d
  /\ (existsb (has_id id) (scan_history (ThreatDatabase.data d)) = true ->
      scan_history (ThreatDatabase.data d')
      = ThreatDatabase.complete_first id (clock w (ticks w)) n t dur
          (scan_history (ThreatDatabase.data d))
      /\ fs w' !! ThreatDatabase.dbPath config
         = Some (Fs.File (stringify_db (ThreatDatabase.data d')) None))
  /\ (existsb (has_id id) (scan_history (ThreatDatabase.data d)) = false ->
      d' = d /\ w' = w).
Proof.
  unfold ThreatDatabase.recordScanComplete. unfold bind at 1. cbn.
  fold (has_id id).
  destruct (existsb (has_id id) (scan_history (ThreatDatabase.data d))) eqn:Ex.
  - intros E. apply db_env_state in E as [-> E]. apply writeFile_ok in E. subst w'.
    cbn. rewrite lookup_insert_eq. repeat split; try reflexivity; discriminate.
  - intros E. injection E as _ <- <-. repeat split; try reflexivity; discriminate.
Qed.

(** The first session with the given id is the one that is completed. *)
Lemma find_complete_first id e n t dur l :
  existsb (has_id id) l = true ->
  exists x,
    List.find (has_id id) (ThreatDatabase.complete_first id e n t dur l) = Some x
    /\ ss_id x = id /\ ss_status x = Completed /\ ss_files_scanned x = n
    /\ ss_threats_found x = t /\ ss_duration x = Some dur /\ ss_end_time x = Some e.
Proof.
  induction l as [|y l IH]; [discriminate|].
  cbn [existsb ThreatDatabase.complete_first]. unfold has_id at 1.
  destruct (ss_id y =? id) eqn:Ey.
  - intros _. eexists. cbn [List.find]. unfold has_id at 1. cbn [ss_id].
    rewrite Ey. split; [reflexivity|]. cbn. apply Z.eqb_eq in Ey. auto 10.
  - cbn [orb]. intros Hl. destruct (IH Hl) as (x & Hx & Hrest).
    exists x. cbn [List.find]. unfold has_id at 1. rewrite Ey. auto.
Qed.

Lemma complete_first_fresh id e n t dur l x :
  Forall (fun y => ss_id y <> id) l -> ss_id x = id ->
  ThreatDatabase.complete_first id e n t dur (l ++ [x])
  = (l ++ [{| ss_id := ss_id x; ss_scan_type := ss_scan_type x;
              ss_start_time := ss_start_time x; ss_status := Completed;
              ss_files_scanned := n; ss_threats_found := t;
              ss_end_time := Some e; ss_duration := Some dur |}])%list.
Proof.
  intros Hl Hx. induction Hl as [|y l Hy Hl IH]; cbn.
  - apply Z.eqb_eq in Hx. rewrite Hx. reflexivity.
  - apply Z.eqb_neq in Hy. rewrite Hy, IH. reflexivity.
Qed.

End StoreRecords.

Existing Instance history_step_refl.
Existing Instance history_step_trans.
#[export] Hint Resolve recordThreatDetection_history initialize_history : pres.

Section ScannerTrace.
Context `{JsonCodec}.
Variable config : Config.
Variable allowed : list string.

Lemma trace_step_refl : Reflexive (trace_step allowed).
Proof.
  intros a. constructor; auto. exists []. rewrite app_nil_r. cbn.
  split; [reflexivity|]. split; [lia | constructor].
Qed.

Lemma trace_step_trans : Transitive (trace_step allowed).
Proof.
  intros a b c [Iab Sab Tab (n1 & E1 & F1 & P1)] [Ibc Sbc Tbc (n2 & E2 & F2 & P2)].
  constructor.
  - intros Ha. destruct (Iab Ha) as [Hb Eb]. destruct (Ibc Hb) as [Hc Ec].
    split; [exact Hc | congruence].
  - congruence.
  - congruence.
  - exists (n1 ++ n2)%list. rewrite E2, E1, F2, F1, <- app_assoc, length_app, Forall_app.
    split; [reflexivity|]. split; [lia | auto].
Qed.

Existing Instance trace_step_refl.
Existing Instance trace_step_trans.

(** Steps that touch neither the store nor the statistics. *)
Lemma trace_same (a b : FileScanner.St) :
  FileScanner.db (snd b) = FileScanner.db (snd a) ->
  FileScanner.scanId (snd b) = FileScanner.scanId (snd a) ->
  threats (FileScanner.stats (snd b)) = threats (FileScanner.stats (snd a)) ->
  threatsFound (FileScanner.stats (snd b)) = threatsFound (FileScanner.stats (snd a)) ->
  startTime (FileScanner.stats (snd b)) = startTime (FileScanner.stats (snd a)) ->
  trace_step allowed a b.
Proof.
  intros Hd Hi Ht Hn Hs. constructor; [rewrite Hd; auto | exact Hi | exact Hs |].
  exists []. rewrite app_nil_r. cbn. split; [exact Ht|]. split; [lia | constructor].
Qed.

Lemma trace_env {A} (m : M World A) : preserves (trace_step allowed) (FileScanner.env m).
Proof.
  intros s r s' E. unfold FileScanner.env, zoom in E.
  destruct (m (fst s)) as [r' w']. injection E as _ <-. apply trace_same; reflexivity.
Qed.

Lemma trace_on_detector {A} (m : M SignatureDetector.St A) :
  preserves (trace_step allowed) (FileScanner.on_detector m).
Proof.
  intros s r s' E. unfold FileScanner.on_detector, zoom in E.
  destruct (m _) as [r' x']. injection E as _ <-. apply trace_same; reflexivity.
Qed.

Lemma trace_on_db {A} (m : M ThreatDatabase.St A) :
  preserves history_step m -> preserves (trace_step allowed) (FileScanner.on_db m).
Proof.
  intros Hm s r s' E. unfold FileScanner.on_db, zoom in E.
  destruct (m (fst s, FileScanner.db (snd s))) as [r' x'] eqn:Em. injection E as _ <-.
  constructor; cbn; try reflexivity.
  - exact (Hm _ _ _ Em).
  - exists []. rewrite app_nil_r. cbn. split; [reflexivity|]. split; [lia | constructor].
Qed.

Lemma trace_emit e : preserves (trace_step allowed) (FileScanner.emit e).
Proof. intros s r s' E. injection E as _ <-. apply trace_same; reflexivity. Qed.

Lemma trace_this f :
  (forall s, FileScanner.db (f s) = FileScanner.db s
             /\ FileScanner.scanId (f s) = FileScanner.scanId s
             /\ FileScanner.stats (f s) = FileScanner.stats s) ->
  preserves (trace_step allowed) (FileScanner.this f).
Proof.
  intros Hf s r s' E. injection E as _ <-. destruct (Hf (snd s)) as (Hd & Hi & Hs).
  apply trace_same; cbn; congruence.
Qed.

Hint Resolve trace_env trace_on_detector trace_on_db trace_emit : pres.

Lemma trace_handleThreatFound filePath ti st :
  In filePath allowed ->
  preserves (trace_step allowed) (FileScanner.handleThreatFound config filePath ti st).
Proof.
  intros Hp. unfold FileScanner.handleThreatFound. pres.
  intros s r s' E. injection E as _ <-. constructor; cbn; try reflexivity; [auto|].
  eexists. split; [reflexivity|]. cbn. split; [reflexivity|].
  constructor; [exact Hp | constructor].
Qed.

Hint Resolve trace_handleThreatFound : pres.

Lemma trace_scanFile filePath :
  In filePath allowed ->
  preserves (trace_step allowed) (FileScanner.scanFile config filePath).
Proof. intros Hp. unfold FileScanner.scanFile. pres. Qed.

Lemma trace_count_file totalFiles filePath :
  preserves (trace_step allowed) (FileScanner.count_file totalFiles filePath).
Proof.
  unfold FileScanner.count_file. pres.
  intros s r s' E. injection E as _ <-. apply trace_same; reflexivity.
Qed.

Lemma trace_count_error : preserves (trace_step allowed) FileScanner.count_error.
Proof. intros s r s' E. injection E as _ <-. apply trace_same; reflexivity. Qed.

Lemma trace_stop : preserves (trace_step allowed) FileScanner.stop.
Proof.
  unfold FileScanner.stop. pres. apply trace_this. intros s. repeat split.
Qed.

Hint Resolve trace_scanFile trace_count_file trace_count_error trace_stop : pres.

Lemma trace_scan_loop totalFiles files : forall i,
  (forall f, In f files -> In f allowed) ->
  preserves (trace_step allowed) (FileScanner.scan_loop config totalFiles i files).
Proof.
  induction files as [|filePath rest IH]; intros i Hin; cbn [FileScanner.scan_loop].
  - pres.
  - assert (Hp : In filePath allowed) by (apply Hin; left; reflexivity).
    assert (Hrest : forall j, preserves (trace_step allowed)
                                (FileScanner.scan_loop config totalFiles j rest))
      by (intros j; apply IH; intros f Hf; apply Hin; right; exact Hf).
    pres.
Qed.

End ScannerTrace.

(** * The course of a scan *)

Section ScanInversion.
Context `{JsonCodec}.
Variable config : Config.

Lemma resolve_paths_state type paths (s : FileScanner.St) r s' :
  FileScanner.resolve_paths config type paths s = (r, s') -> s' = s.
Proof.
  unfold FileScanner.resolve_paths.
  repeat match goal with |- context [if ?c then _ else _] => destruct c end;
    intros E; injection E as _ <-; reflexivity.
Qed.

(** Collecting the files changes nothing and never fails. *)
Lemma collectFiles_total paths deep (s : FileScanner.St) :
  exists files, FileScanner.collectFiles paths deep s = (Ok files, s).
Proof.
  induction paths as [|p paths [rest IH]]; [exists []; reflexivity|].
  cbn [FileScanner.collectFiles].
  assert (E : exists found,
             try_catch
               (let* present := FileScanner.env (Env.pathExists p) in
                if negb present then ret []
                else let* s0 := get in lift_result (glob_files (fst s0) p deep))
               (fun _ => ret []) s = (Ok found, s)).
  { unfold try_catch, bind, FileScanner.env, zoom, Env.pathExists, gets, get, lift_result.
    cbn. destruct s as [w x]. cbn.
    destruct (fs w !! p); cbn; [|eexists; reflexivity].
    destruct (glob_files w p deep); eexists; reflexivity. }
  destruct E as [found E]. rewrite (bind_ok _ _ _ _ _ E), (bind_ok _ _ _ _ _ IH).
  eexists. reflexivity.
Qed.

Lemma collectFiles_state paths deep (s : FileScanner.St) r s' :
  FileScanner.collectFiles paths deep s = (r, s') -> s' = s /\ exists files, r = Ok files.
Proof.
  destruct (collectFiles_total paths deep s) as [files E]. rewrite E.
  intros E'. injection E' as <- <-. eauto.
Qed.

(** The steps of a scan that returns its statistics. *)
Lemma scan_inv type paths deep w s st fin :
  FileScanner.scan config type paths deep (w, s) = (Ok st, fin) ->
  exists b w1 d1 id w2 d2 files s10 w13 d13,
    ThreatDatabase.initialize config (w, FileScanner.db s) = (Ok b, (w1, d1))
    /\ ThreatDatabase.recordScanStart config type (w1, d1) = (Ok id, (w2, d2))
    /\ fst (enumerated config type paths deep (w, s)) = Ok files
    /\ FileScanner.scan_loop config (length files) 0 files
         (with_ticks w2 (S (ticks w2)),
          loop_start s d2 id (clock w2 (ticks w2)) (length files) type)
       = (Ok tt, s10)
    /\ ThreatDatabase.recordScanComplete config id
         (filesScanned (FileScanner.stats (snd s10)))
         (threatsFound (FileScanner.stats (snd s10)))
         (clock (fst s10) (ticks (fst s10)) - clock w2 (ticks w2))
         (with_ticks (fst s10) (S (ticks (fst s10))), FileScanner.db (snd s10))
       = (Ok tt, (w13, d13))
    /\ st = finished (FileScanner.stats (snd s10)) (clock w2 (ticks w2))
                     (clock (fst s10) (ticks (fst s10)))
    /\ fin = (w13, loop_end (snd s10) st d13).
Proof.
  intros E. unfold FileScanner.scan in E.
  apply bind_inv_ok in E as (u1 & s1 & E1 & E). injection E1 as _ <-.
  apply bind_inv_ok in E as (b & s2 & E2 & E).
  pose proof (on_db_inv _ _ _ _ E2) as [E2' Hs2]. cbn [fst snd] in E2', Hs2.
  destruct s2 as [w1 x2]. cbn [fst snd] in *.
  remember (FileScanner.db x2) as d1 eqn:Hd1. subst x2. clear Hd1 E2.
  apply bind_inv_ok in E as (id & s3 & E3 & E).
  pose proof (on_db_inv _ _ _ _ E3) as [E3' Hs3]. cbn [fst snd] in E3', Hs3.
  destruct s3 as [w2 x3]. cbn [fst snd] in *.
  remember (FileScanner.db x3) as d2 eqn:Hd2. subst x3. clear Hd2 E3.
  apply bind_inv_ok in E as (u4 & s4 & E4 & E). injection E4 as _ <-.
  apply bind_inv_ok in E as (start & s5 & E5 & E). injection E5 as <- <-.
  apply bind_inv_ok in E as (u6 & s6 & E6 & E). injection E6 as _ <-.
  cbn [fst snd] in E.
  unfold finally in E. rewrite try_catch_rethrow in E.
  match type of E with (let '(_, _) := ?m ?x in _) = _ =>
    destruct (m x) as [rb fin0] eqn:Eb end.
  injection E as -> <-.
  apply bind_inv_ok in Eb as (scanPaths & s7 & E7 & Eb).
  pose proof (resolve_paths_state _ _ _ _ _ E7) as ->.
  apply bind_inv_ok in Eb as (files & s8 & E8 & Eb).
  pose proof (collectFiles_state _ _ _ _ _ E8) as [-> _].
  apply bind_inv_ok in Eb as (u9 & s9 & E9 & Eb). injection E9 as _ <-.
  apply bind_inv_ok in Eb as (u10 & s10 & E10 & Eb). destruct u10.
  apply bind_inv_ok in Eb as (endt & s11 & E11 & Eb).
  apply env_inv in E11 as [E11 H11]. injection E11 as <- E11.
  apply bind_inv_ok in Eb as (u12 & s12 & E12 & Eb). injection E12 as _ <-.
  apply bind_inv_ok in Eb as (g12 & s12' & E12 & Eb). injection E12 as <- <-.
  apply bind_inv_ok in Eb as (u13 & s13 & E13 & Eb). destruct u13.
  pose proof (on_db_inv _ _ _ _ E13) as [E13' Hs13]. cbn [fst snd] in E13', Hs13.
  destruct s13 as [w13 x13]. cbn [fst snd] in *.
  remember (FileScanner.db x13) as d13 eqn:Hd13. subst x13. clear Hd13 E13.
  apply bind_inv_ok in Eb as (g13 & s13' & Eg & Eb). injection Eg as <- <-.
  apply bind_inv_ok in Eb as (u14 & s14 & E14 & Eb). injection E14 as _ <-.
  apply bind_inv_ok in Eb as (g14 & s14' & Eg & Eb). injection Eg as <- <-.
  injection Eb as <- <-.
  exists b, w1, d1, id, w2, d2, files, s10, w13, d13.
  destruct s11 as [w11 x11]. cbn [fst snd] in *. subst w11 x11.
  split; [exact E2'|]. split; [exact E3'|]. split.
  { unfold enumerated.
    erewrite bind_ok by apply this_eq. cbn [fst snd].
    erewrite bind_ok by (apply on_db_eq; exact E2').
    erewrite bind_ok by (apply on_db_eq; exact E3').
    erewrite bind_ok by apply this_eq. cbn [fst snd].
    unfold bind at 1. cbn [FileScanner.env zoom Env.now fst snd].
    erewrite bind_ok by apply this_eq. cbn [fst snd].
    rewrite (bind_ok _ _ _ _ _ E7), E8. reflexivity. }
  split; [exact E10|]. split; [exact E13'|]. split; reflexivity.
Qed.

End ScanInversion.

Section ScanFacts.
Context `{JsonCodec}.
Variable config : Config.

Lemma existsb_app_last {A} (f : A -> bool) l x : f x = true -> existsb f (l ++ [x]) = true.
Proof. intros Hx. rewrite existsb_app. cbn. rewrite Hx. apply orb_true_iff. right. reflexivity. Qed.

Lemma find_fresh id l x :
  Forall (fun y => ss_id y <> id) l -> has_id id x = true ->
  List.find (has_id id) (l ++ [x]) = Some x.
Proof.
  intros Hl Hx. induction Hl as [|y l Hy Hl IH]; cbn.
  - rewrite Hx. reflexivity.
  - unfold has_id at 1. apply Z.eqb_neq in Hy. rewrite Hy. exact IH.
Qed.

(** The state in which the loop of a scan starts. *)
Lemma loop_start_facts type w s b w1 d1 id w2 d2 total :
  ThreatDatabase.initialize config (w, FileScanner.db s) = (Ok b, (w1, d1)) ->
  ThreatDatabase.recordScanStart config type (w1, d1) = (Ok id, (w2, d2)) ->
  let s9 := (with_ticks w2 (S (ticks w2)),
             loop_start s d2 id (clock w2 (ticks w2)) total type) in
  ThreatDatabase.initialized (FileScanner.db (snd s9)) = true
  /\ external_stop (fst s9) = external_stop w
  /\ existsb (has_id id) (scan_history (ThreatDatabase.data (FileScanner.db (snd s9)))) = true
  /\ scan_history (ThreatDatabase.data d2)
     = (scan_history (ThreatDatabase.data d1)
        ++ [running_session id (clock w1 (S (ticks w1))) type])%list
  /\ id = clock w1 (ticks w1).
Proof.
  intros E2 E3 s9.
  pose proof (initialize_initialized config _ _ _ _ _ E2) as Hi.
  pose proof (recordScanStart_ok config _ _ _ _ _ _ E3) as (Hid & Hi2 & _ & Hh & _).
  pose proof (initialize_step config _ _ _ E2) as [W1 _].
  pose proof (recordScanStart_step config type _ _ _ E3) as [W2 _].
  cbn [fst snd] in *. subst s9. cbn [fst snd loop_start FileScanner.db FileScanner.with_emitted
    FileScanner.with_stats FileScanner.with_scanId FileScanner.with_db].
  split; [congruence|]. split.
  { cbn. rewrite (step_stop _ _ _ W2). apply (step_stop _ _ _ W1). }
  split; [|split; [exact Hh | exact Hid]].
  rewrite Hh. apply existsb_app_last. unfold has_id. cbn. apply Z.eqb_refl.
Qed.

(** A scan that returns its statistics has completed its session. *)
Lemma scan_completes type paths deep w s st fin :
  FileScanner.scan config type paths deep (w, s) = (Ok st, fin) ->
  FileScanner.scanning (snd fin) = false
  /\ exists id x,
       FileScanner.scanId (snd fin) = Some id
       /\ List.find (has_id id)
            (scan_history (ThreatDatabase.data (FileScanner.db (snd fin)))) = Some x
       /\ ss_id x = id
       /\ completed_with st x
       /\ fs (fst fin) !! ThreatDatabase.dbPath config
          = Some (Fs.File (stringify_db (ThreatDatabase.data (FileScanner.db (snd fin)))) None)
       /\ forall b w1 d1,
            ThreatDatabase.initialize config (w, FileScanner.db s) = (Ok b, (w1, d1)) ->
            Forall (fun y => ss_id y <> id) (scan_history (ThreatDatabase.data d1)) ->
            scan_history (ThreatDatabase.data (FileScanner.db (snd fin)))
            = (scan_history (ThreatDatabase.data d1) ++ [x])%list
            /\ ss_scan_type x = type.
Proof.
  intros E.
  destruct (scan_inv config _ _ _ _ _ _ _ E)
    as (b & w1 & d1 & id & w2 & d2 & files & s10 & w13 & d13 & E2 & E3 & _ & E10 & E13 & -> & ->).
  destruct (loop_start_facts _ _ _ _ _ _ _ _ _ (length files) E2 E3) as (Hi & _ & Hex & Hh & Hid).
  pose proof (trace_scan_loop config files (length files) files 0 (fun f Hf => Hf) _ _ _ E10)
    as [Tinit Tid _ _].
  destruct (Tinit Hi) as [Hi10 Hh10]. cbn [fst snd] in *.
  apply recordScanComplete_ok in E13 as (_ & Hok & _).
  rewrite Hh10 in Hok. destruct (Hok Hex) as [Hh13 Hdoc]. clear Hok.
  split; [reflexivity|].
  destruct (find_complete_first id
              (clock (with_ticks (fst s10) (S (ticks (fst s10))))
                     (ticks (with_ticks (fst s10) (S (ticks (fst s10))))))
              (filesScanned (FileScanner.stats (snd s10)))
              (threatsFound (FileScanner.stats (snd s10)))
              (clock (fst s10) (ticks (fst s10)) - clock w2 (ticks w2)) _ Hex)
    as (x & Hx & Hxid & Hst & Hn & Ht & Hd & He).
  exists id, x. cbn [loop_end FileScanner.scanId FileScanner.with_scanning
    FileScanner.with_emitted FileScanner.with_db FileScanner.with_stats FileScanner.db fst snd].
  split; [rewrite Tid; reflexivity|].
  split; [rewrite Hh13; exact Hx|]. split; [exact Hxid|].
  split; [unfold completed_with; cbn; rewrite He; repeat split; auto; discriminate|].
  split; [exact Hdoc|].
  intros b' w1' d1' E2' Hfresh. rewrite E2 in E2'. injection E2' as <- <- <-.
  rewrite Hh13. cbn [loop_start FileScanner.db FileScanner.with_emitted
    FileScanner.with_stats FileScanner.with_scanId FileScanner.with_db] in Hx |- *.
  rewrite Hh in Hx |- *.
  rewrite complete_first_fresh in Hx |- * by (assumption || reflexivity).
  rewrite find_fresh in Hx by (assumption || (unfold has_id; cbn; apply Z.eqb_refl)).
  injection Hx as <-. split; reflexivity.
Qed.

(** The threats a scan returns are counted one by one, and each is for
    one of the collected files. *)
Lemma scan_threats type paths deep w s st fin :
  FileScanner.scan config type paths deep (w, s) = (Ok st, fin) ->
  exists files,
    fst (enumerated config type paths deep (w, s)) = Ok files
    /\ threatsFound st = Z.of_nat (length (threats st))
    /\ Forall (fun t => In (th_path t) files) (threats st).
Proof.
  intros E.
  destruct (scan_inv config _ _ _ _ _ _ _ E)
    as (b & w1 & d1 & id & w2 & d2 & files & s10 & w13 & d13 & E2 & E3 & Hen & E10 & E13 & -> & ->).
  pose proof (trace_scan_loop config files (length files) files 0 (fun f Hf => Hf) _ _ _ E10)
    as [_ _ _ (new & Hnew & Hcount & Hpaths)].
  cbn in Hnew, Hcount. exists files. split; [exact Hen|].
  cbn [finished threatsFound threats]. rewrite Hnew, Hcount. auto.
Qed.

(** The loop when another task stops the scan once [n] files have been
    handled. *)
Lemma scan_loop_stopped totalFiles n files : forall i (a : FileScanner.St) r b,
  FileScanner.scan_loop config totalFiles i files a = (r, b) ->
  external_stop (fst a) = Some n ->
  (i <= n)%nat ->
  FileScanner.scanning (snd a) = true ->
  r = Ok tt
  /\ filesScanned (FileScanner.stats (snd b)) + errors (FileScanner.stats (snd b))
     = filesScanned (FileScanner.stats (snd a)) + errors (FileScanner.stats (snd a))
       + Z.of_nat (Nat.min (n - i) (length files))
  /\ FileScanner.scanning (snd b) = negb (n - i <? length files)%nat.
Proof.
  induction files as [|filePath rest IH]; intros i a r b E Hstop Hi Hscan.
  - injection E as <- <-. cbn [length]. rewrite Nat.min_0_r.
    split; [reflexivity|]. split; [lia|]. rewrite Hscan. reflexivity.
  - cbn [FileScanner.scan_loop] in E.
    unfold bind at 1 in E. cbn [get] in E. rewrite Hstop in E.
    destruct (Nat.eqb_spec n i) as [->|Hne].
    + unfold bind at 1 in E. cbn in E. injection E as <- <-. cbn [length].
      rewrite Nat.sub_diag. cbn. split; [reflexivity|]. split; [lia | reflexivity].
    + unfold bind at 1 in E. cbn [ret] in E.
      unfold bind at 1 in E. cbn [get] in E. rewrite Hscan in E. cbn [negb] in E.
      unfold bind at 1 in E.
      match type of E with context [try_catch ?m ?h a] =>
        destruct (try_catch m h a) as [r1 s1] eqn:E1 end.
      apply turn_spec in E1 as (-> & Hw & _ & Hs & Hsum & _ & _).
      apply IH in E as (-> & Hsum' & Hscan'); [|rewrite (step_stop _ _ _ Hw); exact Hstop
                                              |lia|rewrite Hs; exact Hscan].
      split; [reflexivity|]. cbn [length].
      replace (n - i)%nat with (S (n - S i)) by lia. split.
      * rewrite <- Nat.succ_min_distr. lia.
      * rewrite Hscan'. reflexivity.
Qed.

(** A stopped scan has counted the files handled before the stop. *)
Lemma scan_stopped type paths deep w s st fin n :
  FileScanner.scan config type paths deep (w, s) = (Ok st, fin) ->
  external_stop w = Some n ->
  exists files,
    fst (enumerated config type paths deep (w, s)) = Ok files
    /\ filesScanned st + errors st = Z.of_nat (Nat.min n (length files)).
Proof.
  intros E Hstop.
  destruct (scan_inv config _ _ _ _ _ _ _ E)
    as (b & w1 & d1 & id & w2 & d2 & files & s10 & w13 & d13 & E2 & E3 & Hen & E10 & E13 & -> & ->).
  destruct (loop_start_facts _ _ _ _ _ _ _ _ _ (length files) E2 E3) as (_ & Hs & _).
  apply scan_loop_stopped with (n := n) in E10 as (_ & Hsum & _);
    [|rewrite Hs; exact Hstop|lia|reflexivity].
  exists files. split; [exact Hen|]. cbn in Hsum |- *. rewrite Nat.sub_0_r in Hsum. lia.
Qed.

(** What [scanFile] throws, and what it makes of a missing file. *)
Lemma scanFile_throws filePath (s : FileScanner.St) e s' :
  FileScanner.scanFile config filePath s = (Throw e, s') ->
  FileScanner.is_code e "ENOENT" = false /\ FileScanner.is_code e "EACCES" = false.
Proof.
  unfold FileScanner.scanFile, try_catch.
  match goal with |- (match ?m s with _ => _ end) = _ -> _ =>
    destruct (m s) as [[th|e0] s1] end; [discriminate|].
  destruct (FileScanner.is_code e0 "ENOENT") eqn:E1; [discriminate|].
  destruct (FileScanner.is_code e0 "EACCES") eqn:E2; [discriminate|].
  cbn. intros E. injection E as <- _. auto.
Qed.

Lemma scanFile_missing filePath w (s : FileScanner.t) :
  ThreatDatabase.initialized (FileScanner.db s) = true ->
  fs w !! filePath = None ->
  FileScanner.scanFile config filePath (w, s) = (Ok None, (w, s)).
Proof.
  intros Hi Hp. unfold FileScanner.scanFile.
  rewrite (try_catch_throw _ _ _ (sys_error "ENOENT") (w, s)); [reflexivity|].
  erewrite bind_ok by (apply on_db_eq, initialize_done, Hi).
  rewrite with_db_same.
  apply bind_throw. apply env_eq. unfold Env.stat. rewrite Hp. reflexivity.
Qed.

(** A file that can be opened by nobody ([EACCES]) is passed over in the
    same way. *)
Lemma scanFile_unreadable filePath w (s : FileScanner.t) content :
  ThreatDatabase.initialized (FileScanner.db s) = true ->
  fs w !! filePath = Some (Fs.File content (Some "EACCES")) ->
  FileScanner.scanFile config filePath (w, s) = (Ok None, (w, s)).
Proof.
  intros Hi Hp. unfold FileScanner.scanFile, try_catch.
  erewrite bind_ok by (apply on_db_eq, initialize_done, Hi).
  rewrite with_db_same.
  erewrite bind_ok by (apply env_eq; unfold Env.stat; rewrite Hp; reflexivity).
  cbn [Fs.size Fs.isDirectory].
  destruct (exclusions_maxFileSize config <? Z.of_nat (length content)); [reflexivity|].
  unfold bind at 1. cbn [get fst snd].
  destruct (FileScanner.isExcluded config (os_platform w) filePath); [reflexivity|].
  unfold bind at 1. unfold FileScanner.env, zoom, HashGenerator.generateAllHashes.
  unfold bind at 1. unfold Env.readFile. cbn [fst snd]. rewrite Hp. reflexivity.
Qed.

(** Paths are collected one after the other, without removing
    repetitions. *)
Lemma collectFiles_app paths1 paths2 deep (s : FileScanner.St) :
  exists files1 files2,
    FileScanner.collectFiles paths1 deep s = (Ok files1, s)
    /\ FileScanner.collectFiles paths2 deep s = (Ok files2, s)
    /\ FileScanner.collectFiles (paths1 ++ paths2) deep s = (Ok (files1 ++ files2)%list, s).
Proof.
  destruct (collectFiles_total paths2 deep s) as [files2 E2].
  induction paths1 as [|p paths1 (f1 & f2 & E1 & E2' & E12)].
  - exists [], files2. auto.
  - rewrite E2 in E2'. injection E2' as <-.
    cbn [FileScanner.collectFiles app].
    match goal with |- context [bind ?m _ s] =>
      destruct (m s) as [[found|e] s1] eqn:Em end.
    + assert (s1 = s).
      { pose proof (collectFiles_state [p] deep s) as Hs. cbn [FileScanner.collectFiles] in Hs.
        rewrite (bind_ok _ _ _ _ _ Em) in Hs. cbn in Hs.
        destruct (Hs _ _ eq_refl) as [Hs1 _]. exact Hs1. }
      subst s1. exists (found ++ f1)%list, files2.
      rewrite !(bind_ok _ _ _ _ _ Em), !(bind_ok _ _ _ _ _ E1), !(bind_ok _ _ _ _ _ E12).
      unfold ret. rewrite app_assoc. auto.
    + exfalso. destruct (collectFiles_total [p] deep s) as [fl Hfl].
      cbn [FileScanner.collectFiles] in Hfl. rewrite (bind_throw _ _ _ _ _ Em) in Hfl.
      discriminate.
Qed.

Lemma collectFiles_missing p deep w (s : FileScanner.t) :
  fs w !! p = None -> FileScanner.collectFiles [p] deep (w, s) = (Ok [], (w, s)).
Proof.
  intros Hp. cbn [FileScanner.collectFiles].
  unfold try_catch, bind, FileScanner.env, zoom, Env.pathExists, gets. cbn.
  rewrite Hp. reflexivity.
Qed.

End ScanFacts.

(** * More on the signature store in memory *)

Section DetectorFacts.
Import SignatureDetector.

Lemma detector_env_eq {A} (m : M World A) w (d : t) r w' :
  m w = (r, w') -> env m (w, d) = (r, (w', d)).
Proof. intros E. unfold env, zoom. cbn. rewrite E. reflexivity. Qed.

(** The pattern check never throws. *)
Lemma checkPatternSignatures_total filePath (s : St) :
  exists o s', checkPatternSignatures filePath s = (Ok o, s').
Proof.
  unfold checkPatternSignatures, try_catch.
  match goal with |- context [match ?m s with _ => _ end] =>
    destruct (m s) as [[o|e] s1] end; eauto.
Qed.

(** The hash lookup reports exactly the cataloged digests. *)
Lemma checkHashSignatures_sound hs d content i :
  hashes d = table_of hs ->
  checkHashSignatures d (HashGenerator.hashes_of content) = Some i ->
  exists sig, cataloged hs content sig /\ i = info_of_hash sig.
Proof.
  intros Hd. destruct (md5_text content) as [_ L1], (sha1_text content) as [_ L2],
                      (sha256_text content) as [_ L3].
  unfold checkHashSignatures, HashGenerator.hashes_of.
  cbn [HashGenerator.md5 HashGenerator.sha1 HashGenerator.sha256].
  destruct (lookup_digest d (Digest.md5 content)) as [i1|] eqn:E1.
  { intros E. injection E as <-.
    destruct (lookup_digest_cataloged _ _ _ _ Hd L1 E1) as (s' & Hs & Hk & ->).
    exists s'. split; [|reflexivity]. split; [exact Hs|]. rewrite Hk. left. reflexivity. }
  destruct (lookup_digest d (Digest.sha1 content)) as [i2|] eqn:E2.
  { intros E. injection E as <-.
    destruct (lookup_digest_cataloged _ _ _ _ Hd L2 E2) as (s' & Hs & Hk & ->).
    exists s'. split; [|reflexivity]. split; [exact Hs|]. rewrite Hk. right. left. reflexivity. }
  intros E3.
  destruct (lookup_digest_cataloged _ _ _ _ Hd L3 E3) as (s' & Hs & Hk & ->).
  exists s'. split; [|reflexivity]. split; [exact Hs|]. rewrite Hk.
  right. right. left. reflexivity.
Qed.

(** On a miss every pattern is left rewound. *)
Lemma test_patterns_miss content ps :
  Forall rewound ps ->
  fst (test_patterns content ps) = None ->
  Forall rewound (snd (test_patterns content ps)).
Proof.
  induction 1 as [|p ps Hp Hps IH]; [constructor|].
  cbn [test_patterns]. unfold RegExp.test. unfold rewound in Hp. rewrite Hp.
  replace (if RegExp.global (cp_pattern p) then 0%nat else 0%nat) with 0%nat
    by (destruct (RegExp.global _); reflexivity).
  change (length (list_ascii_of_string content) <? 0)%nat with false.
  cbn [skipn].
  destruct (RegExp.search _ _ 0 _) as [e|]; [discriminate|].
  destruct (test_patterns content ps) as [r rest']. cbn [fst snd] in *.
  intros Hr. constructor; [|exact (IH Hr)].
  unfold rewound. cbn. destruct (RegExp.global (cp_pattern p)); [reflexivity | exact Hp].
Qed.

(** The loop keeps the catalog: only the search positions change. *)
Lemma test_patterns_catalog content ps :
  map info_of_pattern (snd (test_patterns content ps)) = map info_of_pattern ps
  /\ map (fun p => RegExp.source (cp_pattern p)) (snd (test_patterns content ps))
     = map (fun p => RegExp.source (cp_pattern p)) ps.
Proof.
  induction ps as [|p ps [IH1 IH2]]; [split; reflexivity|].
  cbn [test_patterns]. destruct (RegExp.test (cp_pattern p) content) as [hit re'] eqn:Et.
  assert (Hsrc : RegExp.source re' = RegExp.source (cp_pattern p)).
  { unfold RegExp.test in Et.
    repeat match type of Et with
           | context [if ?c then _ else _] => destruct c
           | context [match ?c with _ => _ end] => destruct c
           end; injection Et as _ <-; reflexivity. }
  destruct hit.
  - cbn. rewrite Hsrc. split; reflexivity.
  - destruct (test_patterns content ps) as [r rest']. cbn in *.
    rewrite IH1, IH2, Hsrc. split; reflexivity.
Qed.

(** The pattern check of a readable file with an allow-listed extension,
    by a detector whose patterns are rewound. *)
Lemma checkPatternSignatures_rewound filePath w d content :
  Forall rewound (patterns d) ->
  fs w !! filePath = Some (Fs.File content None) ->
  Str.includes scanExtensions
    (Str.toLowerCase (Path.extname (os_platform w) filePath)) = true ->
  exists d',
    checkPatternSignatures filePath (w, d)
    = (Ok (first_matching_signature (checked_text content) (patterns d)), (w, d'))
    /\ hashes d' = hashes d
    /\ signaturesLoaded d' = signaturesLoaded d
    /\ map info_of_pattern (patterns d') = map info_of_pattern (patterns d)
    /\ (first_matching_signature (checked_text content) (patterns d) = None ->
        Forall rewound (patterns d')).
Proof.
  intros Hrew Hp Hext.
  unfold checkPatternSignatures, try_catch.
  unfold bind at 1. cbn [get fst snd]. rewrite Hext. cbn [negb].
  erewrite bind_ok by (apply detector_env_eq; unfold Env.stat; rewrite Hp; reflexivity).
  cbn [Fs.size].
  set (n := Z.to_nat (Z.min (Z.of_nat (length content)) maxReadSize)).
  assert (Hn : (n <= length content)%nat) by (subst n; lia).
  erewrite bind_ok.
  2:{ apply detector_env_eq. unfold Env.readPrefix.
      erewrite bind_ok by (apply readFile_eq, Hp). reflexivity. }
  replace (n - length content)%nat with 0%nat by lia. cbn [repeat]. rewrite app_nil_r.
  unfold bind at 1. cbn [get fst snd].
  fold (checked_text content). fold n.
  pose proof (test_patterns_rewound (checked_text content) (patterns d) Hrew) as Hfirst.
  pose proof (test_patterns_miss (checked_text content) (patterns d) Hrew) as Hmiss.
  pose proof (test_patterns_catalog (checked_text content) (patterns d)) as [Hcat _].
  unfold checked_text in *. fold n in Hfirst, Hmiss, Hcat |- *.
  destruct (test_patterns _ (patterns d)) as [r ps'].
  cbn [fst snd] in *. subst r.
  unfold bind, modify, ret. cbn.
  eexists. split; [reflexivity|]. cbn. auto.
Qed.

(** The verdict of [detect]: a hash verdict exactly for the cataloged
    digests, otherwise what the pattern check says. *)
Lemma detect_verdict hs ps filePath content w d r s' :
  in_step d hs ->
  detect hs ps filePath (HashGenerator.hashes_of content) (w, d) = (r, s') ->
  exists o,
    r = Ok o
    /\ ((exists sig, cataloged hs content sig) ->
        exists sig', cataloged hs content sig'
                     /\ o = Some (threat_of (info_of_hash sig') "signature-hash"))
    /\ ((forall sig, ~ cataloged hs content sig) ->
        match o with
        | Some ti => ti_method ti = "signature-pattern"
        | None => True
        end).
Proof.
  intros Hstep. unfold detect. unfold bind at 1. cbn [modify fst snd].
  unfold bind at 1. cbn [get fst snd].
  assert (Htable : hashes (loadSignatures hs ps d) = table_of hs)
    by (rewrite hashes_loadSignatures; exact Hstep).
  destruct (checkHashSignatures (loadSignatures hs ps d) (HashGenerator.hashes_of content))
    as [i|] eqn:Hc.
  - intros E. injection E as <- _.
    destruct (checkHashSignatures_sound _ _ _ _ Htable Hc) as (sig1 & Hcat1 & ->).
    eexists. split; [reflexivity|]. split.
    + intros _. exists sig1. auto.
    + intros Hno. exfalso. exact (Hno _ Hcat1).
  - destruct (checkPatternSignatures_total filePath (w, loadSignatures hs ps d))
      as (o & s1 & Ep).
    rewrite (bind_ok _ _ _ _ _ Ep).
    intros E. destruct o as [i|]; injection E as <- _; eexists; (split; [reflexivity|]).
    + split; [|intros _; reflexivity].
      intros [sig Hsig].
      destruct (checkHashSignatures_cataloged _ _ _ _ Htable Hsig) as (x & _ & Hx).
      congruence.
    + split; [|auto].
      intros [sig Hsig].
      destruct (checkHashSignatures_cataloged _ _ _ _ Htable Hsig) as (x & _ & Hx).
      congruence.
Qed.

(** The signatures are loaded once. *)
Lemma loadSignatures_once hs1 ps1 hs2 ps2 d :
  loadSignatures hs2 ps2 (loadSignatures hs1 ps1 d) = loadSignatures hs1 ps1 d.
Proof.
  unfold loadSignatures. destruct (signaturesLoaded d) eqn:Hd; cbn; [rewrite Hd|]; reflexivity.
Qed.

Lemma detect_loaded hs ps filePath h w d r w' d' :
  detect hs ps filePath h (w, d) = (r, (w', d')) ->
  signaturesLoaded d' = true
  /\ hashes d' = hashes (loadSignatures hs ps d)
  /\ map info_of_pattern (patterns d') = map info_of_pattern (patterns (loadSignatures hs ps d)).
Proof.
  unfold detect. unfold bind at 1. cbn [modify fst snd].
  unfold bind at 1. cbn [get fst snd].
  assert (Hl : signaturesLoaded (loadSignatures hs ps d) = true)
    by (unfold loadSignatures; destruct (signaturesLoaded d) eqn:Hd; [exact Hd | reflexivity]).
  destruct (checkHashSignatures _ h).
  - intros E. injection E as _ _ <-. auto.
  - unfold bind. unfold checkPatternSignatures, try_catch.
    unfold bind at 1. cbn [get fst snd].
    destruct (negb _); cbn.
    + intros E. injection E as _ _ <-. auto.
    + unfold bind at 1, env, zoom. cbn [fst snd].
      pose proof (stat_reader filePath w) as Hst.
      destruct (Env.stat filePath w) as [[st|e] w1]; cbn in Hst; subst w1; cbn.
      2:{ intros E. injection E as _ _ <-. auto. }
      unfold bind at 1. cbn [fst snd].
      match goal with |- context [Env.readPrefix ?p ?n w] =>
        pose proof (readPrefix_reader p n w) as Hrd;
        destruct (Env.readPrefix p n w) as [[buf|e] w1] end; cbn in Hrd; subst w1; cbn.
      2:{ intros E. injection E as _ _ <-. auto. }
      unfold bind at 1. cbn [get fst snd].
      match goal with |- context [test_patterns ?c ?l] =>
        pose proof (test_patterns_catalog c l) as [Hcat _];
        destruct (test_patterns c l) as [o ps'] end.
      cbn in Hcat |- *. unfold bind, modify, ret. cbn.
      destruct o; intros E; injection E as _ _ <-; cbn; auto.
Qed.

End DetectorFacts.

Section HeaderCheck.
Import SignatureDetector.

(** The header check reports nothing, whatever the file. *)
Lemma checkPEHeader_nothing filePath (s : St) :
  PeHeader.checkPEHeader filePath s = (Ok None, s).
Proof.
  unfold PeHeader.checkPEHeader, try_catch. unfold bind at 1. cbn [get].
  destruct (negb _ && negb _); [reflexivity|].
  unfold bind, env, zoom.
  pose proof (readPrefix_reader filePath 1024 (fst s)) as Hr.
  destruct (Env.readPrefix filePath 1024 (fst s)) as [[buffer|e] w']; cbn in Hr; subst w'.
  - destruct s as [w d]. cbn.
    destruct (negb _ || negb _); [reflexivity|].
    destruct (_ && _); reflexivity.
  - destruct s as [w d]. reflexivity.
Qed.

End HeaderCheck.

(** * More on the heuristic scorer *)

Section HeuristicFacts.
Import HeuristicAnalyzer.

Lemma thresholds_values s t :
  suspicionThresholds s = Some t -> t = 60 \/ t = 40 \/ t = 25.
Proof.
  unfold suspicionThresholds.
  repeat match goal with |- context [if ?c then _ else _] => destruct c end;
    intros E; inversion E; auto.
Qed.

(** The values the seven checks can take. *)
Lemma checks_values w filePath stats :
  let c := checks w filePath stats in
  (extScore c = 0 \/ extScore c = 10 \/ extScore c = 15)
  /\ (nameScore c = 0 \/ nameScore c = 20)
  /\ (locationScore c = 0 \/ locationScore c = 10)
  /\ (sizeScore c = 0 \/ sizeScore c = 10 \/ sizeScore c = 15)
  /\ (attrScore c = 0 \/ attrScore c = 15).
Proof.
  cbn [checks extScore nameScore locationScore sizeScore attrScore].
  repeat split.
  - unfold checkSuspiciousExtension. repeat destruct (Str.includes _ _); auto.
  - unfold checkSuspiciousFileName. destruct (existsb _ _); auto.
  - unfold checkSuspiciousLocation. destruct (existsb _ _); auto.
  - unfold checkSuspiciousSize.
    repeat match goal with |- context [if ?b then _ else _] => destruct b end; auto.
  - unfold checkFileAttributes.
    repeat match goal with
           | |- context [match ?b with _ => _ end] => destruct b
           end; auto.
Qed.

(** One entry of the list of traits per check that fired. *)
Lemma length_traits ext c :
  length (suspiciousTraits ext c)
  = ((if (0 <? extScore c)%Z then 1 else 0) + (if (0 <? nameScore c)%Z then 1 else 0)
     + (if (0 <? locationScore c)%Z then 1 else 0) + (if (0 <? sizeScore c)%Z then 1 else 0)
     + (if (0 <? attrScore c)%Z then 1 else 0) + (if doubleExtension c then 1 else 0)
     + (if executableContent c then 1 else 0))%nat.
Proof.
  unfold suspiciousTraits. rewrite !length_app.
  destruct (0 <? extScore c), (0 <? nameScore c), (0 <? locationScore c),
           (0 <? sizeScore c), (0 <? attrScore c), (doubleExtension c),
           (executableContent c); reflexivity.
Qed.

(** No single trait reaches a threshold. *)
Lemma analyze_two_traits config w filePath stats d :
  analyze config w filePath stats = Some d ->
  (2 <= length (traits d))%nat
  /\ score d = suspicionScore (checks w filePath stats)
  /\ 25 <= score d.
Proof.
  unfold analyze.
  destruct (suspicionThresholds (sensitivity_of config)) as [t|] eqn:Ht; [|discriminate].
  destruct (Z.leb_spec t (suspicionScore (checks w filePath stats))) as [Hle|]; [|discriminate].
  intros E. injection E as <-. cbn [traits score].
  apply thresholds_values in Ht.
  split; [|split; [reflexivity | lia]].
  rewrite length_traits.
  pose proof (checks_values w filePath stats) as (He & Hn & Hl & Hs & Ha).
  cbv zeta in He, Hn, Hl, Hs, Ha.
  revert Hle. unfold suspicionScore, add_if_positive.
  generalize dependent (checks w filePath stats). intros c.
  destruct (doubleExtension c), (executableContent c);
    intros [He|[He|He]] [Hn|Hn] [Hl|Hl] [Hs|[Hs|Hs]] [Ha|Ha];
    rewrite He, Hn, Hl, Hs, Ha; cbn; lia.
Qed.

(** The configuration matters through the threshold only. *)
Lemma analyze_sensitivity config1 config2 w filePath stats t1 t2 d :
  suspicionThresholds (sensitivity_of config1) = Some t1 ->
  suspicionThresholds (sensitivity_of config2) = Some t2 ->
  t2 <= t1 ->
  analyze config1 w filePath stats = Some d ->
  analyze config2 w filePath stats = Some d.
Proof.
  unfold analyze. intros -> -> Ht.
  destruct (Z.leb_spec t1 (suspicionScore (checks w filePath stats))) as [H1|]; [|discriminate].
  destruct (Z.leb_spec t2 (suspicionScore (checks w filePath stats))) as [H2|]; [|lia].
  auto.
Qed.

Lemma analyze_unknown_sensitivity config w filePath stats :
  suspicionThresholds (sensitivity_of config) = None ->
  analyze config w filePath stats = None.
Proof. unfold analyze. intros ->. reflexivity. Qed.

End HeuristicFacts.

Section LocationCheck.
Import RegExp.

Lemma canon_backslash x : canon x = "\"%char -> x = "\"%char.
Proof.
  destruct x as [[] [] [] [] [] [] [] []]; vm_compute; intros E;
    first [reflexivity | discriminate E].
Qed.

(** A pattern that starts with a character occurs only in texts that
    have that character, up to the case of letters. *)
Lemma search_first_char c r s : forall i,
  Forall (fun x => chr_match true c x = false) s ->
  search (Seq (Chr c) r) true i s = None.
Proof.
  induction s as [|x s IH]; intros i Hs.
  - reflexivity.
  - inversion Hs as [|? ? Hx Hs']; subst. cbn [search run]. rewrite Hx. apply IH, Hs'.
Qed.

Lemma no_backslash_chars s :
  Str.includes_char s "\" = false ->
  Forall (fun x => chr_match true "\" x = false) (list_ascii_of_string s).
Proof.
  induction s as [|x s IH]; cbn [Str.includes_char list_ascii_of_string]; [constructor|].
  intros Hx. apply orb_false_iff in Hx as [Hx Hs]. constructor; [|exact (IH Hs)].
  unfold chr_match. apply Ascii.eqb_neq in Hx. apply Ascii.eqb_neq.
  intros E. apply Hx. change (canon "\") with "\"%char in E. symmetry in E.
  apply canon_backslash in E. exact E.
Qed.

(** Without a backslash in the path, the location check does not fire. *)
Lemma location_needs_backslash filePath :
  Str.includes_char filePath "\" = false ->
  HeuristicAnalyzer.checkSuspiciousLocation filePath = 0.
Proof.
  intros Hp. apply no_backslash_chars in Hp.
  unfold HeuristicAnalyzer.checkSuspiciousLocation.
  replace (existsb (fun p => test_i p filePath) HeuristicAnalyzer.suspiciousLocations)
    with false; [reflexivity|].
  symmetry. unfold HeuristicAnalyzer.suspiciousLocations.
  cbn [existsb]. unfold test_i, test. cbn [global lastIndex source ignoreCase].
  change (length (list_ascii_of_string filePath) <? 0)%nat with false. cbn [skipn lit].
  rewrite !search_first_char by exact Hp. reflexivity.
Qed.

End LocationCheck.

(** * Failure and edge behaviour of the quarantine vault *)

Section ThrowSteps.
Context {S A B : Type}.

Lemma bind_inv_throw (m : M S A) (k : A -> M S B) s e s' :
  bind m k s = (Throw e, s') ->
  m s = (Throw e, s') \/ exists a s1, m s = (Ok a, s1) /\ k a s1 = (Throw e, s').
Proof.
  unfold bind. destruct (m s) as [[a|e0] s1]; intros E; [right; eauto | left; injection E as <- <-; reflexivity].
Qed.

End ThrowSteps.

Lemma writeFile_throw p d w e w' : Env.writeFile p d w = (Throw e, w') -> w' = w.
Proof.
  unfold Env.writeFile.
  destruct (fs w !! Path.dirname (os_platform w) p) as [[? ?|]|];
    [| destruct (fs w !! p) as [[? [c|]|]|] |];
    intros E; try discriminate; injection E as _ <-; reflexivity.
Qed.

Lemma remove_ok p w : fst (Env.remove p w) = Ok tt.
Proof. destruct (remove_spec p w) as (w' & -> & _). reflexivity. Qed.

Section VaultFailure.
Context `{JsonCodec}.
Variable config : Config.
Import QuarantineManager.

Lemma encryptFile_state content w :
  snd (encryptFile config content w) = with_drawn w (drawn w + 16).
Proof.
  unfold encryptFile, bind, Env.randomBytes, lift_result, ret.
  destruct (AES.encrypt _ _ content); reflexivity.
Qed.

(** A quarantine call on a missing file. *)
Lemma quarantineFile_missing filePath w :
  fs w !! filePath = None ->
  quarantineFile config filePath w = (Throw (error_of "File not found"), w).
Proof.
  intros Hfile. unfold quarantineFile. rewrite try_catch_rethrow.
  erewrite bind_ok by apply pathExists_eq. rewrite Hfile. reflexivity.
Qed.

(** A quarantine call on a file that cannot be opened: the error of the
    open is passed on, after the id has been drawn and before anything
    is written. *)
Lemma quarantineFile_unreadable filePath w content code :
  fs w !! filePath = Some (Fs.File content (Some code)) ->
  quarantineFile config filePath w
  = (Throw (sys_error code), with_drawn (with_ticks w (S (ticks w))) (drawn w + 8)).
Proof.
  intros Hfile. unfold quarantineFile. rewrite try_catch_rethrow.
  erewrite bind_ok by apply pathExists_eq. rewrite Hfile. cbn [negb].
  erewrite bind_ok by (unfold Env.stat; rewrite Hfile; reflexivity).
  erewrite bind_ok by reflexivity.
  erewrite bind_ok by apply generateQuarantineId_eq.
  apply bind_throw. unfold Env.readFile. cbn [fs with_drawn with_ticks].
  rewrite Hfile. reflexivity.
Qed.

(** A restore call whose objects cannot be read back throws before
    anything is written. *)
Lemma restoreFile_unrestorable quarantineId w :
  ~ restorable config quarantineId w ->
  exists e, restoreFile config quarantineId w = (Throw e, w).
Proof.
  intros Hno.
  destruct (fs w !! meta_path config (os_platform w) quarantineId) as [nm|] eqn:Em;
    [|eexists; apply restoreFile_missing; left; exact Em].
  destruct (fs w !! quar_path config (os_platform w) quarantineId) as [nq|] eqn:Eq;
    [|eexists; apply restoreFile_missing; right; exact Eq].
  unfold restoreFile. rewrite try_catch_rethrow.
  unfold bind at 1. unfold gets at 1.
  erewrite bind_ok by apply pathExists_eq. rewrite Em.
  erewrite bind_ok by apply pathExists_eq. rewrite Eq. cbn [negb orb].
  destruct (readJson_cases (meta_path config (os_platform w) quarantineId) w)
    as [(bytes & m & Hf & Hp & E)|(_ & e & E)];
    [|exists e; apply bind_throw; exact E].
  rewrite (bind_ok _ _ _ _ _ E).
  destruct nq as [enc [code|]|].
  - eexists. apply bind_throw. unfold Env.readFile. rewrite Eq. reflexivity.
  - erewrite bind_ok by (apply readFile_eq; exact Eq).
    destruct (decryptFile config enc) as [dec|e] eqn:Ed.
    + exfalso. apply Hno. split; [exists bytes, m; auto | exists enc, dec; auto].
    + exists e. apply bind_throw. unfold lift_result. reflexivity.
  - eexists. apply bind_throw. unfold Env.readFile. rewrite Eq. reflexivity.
Qed.

(** A restore call that succeeds uses the two objects up. *)
Lemma restoreFile_consumes quarantineId w rr w' :
  restoreFile config quarantineId w = (Ok rr, w') ->
  rr_success rr = true
  /\ fs w' !! quar_path config (os_platform w) quarantineId = None
  /\ fs w' !! meta_path config (os_platform w) quarantineId = None
  /\ restoreFile config quarantineId w' = (Throw not_found, w').
Proof.
  unfold restoreFile at 1. rewrite try_catch_rethrow. intros Hr.
  apply bind_inv_ok in Hr as (pf & s1 & E1 & Hr). injection E1 as <- <-.
  apply bind_inv_ok in Hr as (hasMeta & s2 & E2 & Hr).
  rewrite pathExists_eq in E2. injection E2 as <- <-.
  apply bind_inv_ok in Hr as (hasQuar & s3 & E3 & Hr).
  assert (s3 = w) as ->.
  { destruct (fs w !! meta_path _ _ _); [rewrite pathExists_eq in E3|];
      injection E3 as _ <-; reflexivity. }
  clear E3.
  destruct (negb _ || negb hasQuar); [discriminate Hr|].
  apply bind_inv_ok in Hr as (metadata & s4 & E4 & Hr).
  apply (f_equal snd) in E4. rewrite readJson_state in E4. cbn [snd] in E4. subst s4.
  apply bind_inv_ok in Hr as (enc & s5 & E5 & Hr).
  apply readFile_ok in E5 as [-> _].
  apply bind_inv_ok in Hr as (dec & s6 & E6 & Hr).
  unfold lift_result in E6. injection E6 as _ <-.
  apply bind_inv_ok in Hr as (dirThere & s7 & E7 & Hr).
  rewrite pathExists_eq in E7. injection E7 as <- <-.
  apply bind_inv_ok in Hr as (home & s8 & E8 & Hr). injection E8 as <- <-.
  apply bind_inv_ok in Hr as (u9 & s9 & E9 & Hr).
  apply writeFile_ok in E9 as ->.
  apply bind_inv_ok in Hr as (u10 & s10 & E10 & Hr).
  apply bind_inv_ok in Hr as (u11 & s11 & E11 & Hr).
  injection Hr as <- <-.
  match type of E10 with Env.remove ?p ?w0 = _ =>
    destruct (remove_spec p w0) as (w10 & E10' & Hq10 & _ & _ & Hpf10 & _)
  end.
  rewrite E10' in E10. injection E10 as _ <-.
  destruct (remove_spec (meta_path config (os_platform w) quarantineId) w10)
    as (w11 & E11' & Hm11 & Hnone & _ & Hpf11 & _).
  rewrite E11' in E11. injection E11 as _ <-.
  cbn [os_platform with_fs] in Hpf10.
  assert (Hpf : os_platform w11 = os_platform w) by congruence.
  split; [reflexivity|]. split; [apply Hnone, Hq10|]. split; [exact Hm11|].
  apply restoreFile_missing. left. rewrite Hpf. exact Hm11.
Qed.

End VaultFailure.

(** * The key and the shape of the ciphertext *)

Section KeyText.

Lemma list_ascii_substring0 n s :
  list_ascii_of_string (Str.substring0 s n) = firstn n (list_ascii_of_string s).
Proof.
  unfold Str.substring0. revert s.
  induction n as [|n IH]; intros [|c s]; simpl; try reflexivity.
  f_equal. apply IH.
Qed.

Lemma length_list_ascii s : length (list_ascii_of_string s) = String.length s.
Proof. induction s as [|c s IH]; simpl; [reflexivity|]. f_equal. exact IH. Qed.

Lemma list_ascii_padEnd s n c :
  list_ascii_of_string (Str.padEnd s n c)
  = (list_ascii_of_string s ++ repeat c (n - length (list_ascii_of_string s)))%list.
Proof.
  unfold Str.padEnd.
  rewrite list_ascii_app, list_ascii_of_string_of_list_ascii, length_list_ascii.
  reflexivity.
Qed.

(** The characters of the key that reach the cipher. *)
Lemma key_text key :
  list_ascii_of_string (Str.substring0 (Str.padEnd key 32 "0") 32)
  = firstn 32 (list_ascii_of_string key ++ repeat "0"%char (32 - String.length key))%list.
Proof. rewrite list_ascii_substring0, list_ascii_padEnd, length_list_ascii. reflexivity. Qed.

Lemma key_text_long key extra :
  (32 <= String.length key)%nat ->
  Str.substring0 (Str.padEnd (key ++ extra) 32 "0") 32
  = Str.substring0 (Str.padEnd key 32 "0") 32.
Proof.
  intros Hlen.
  rewrite <- (string_of_list_ascii_of_string (Str.substring0 (Str.padEnd (key ++ extra) 32 "0") 32)),
          <- (string_of_list_ascii_of_string (Str.substring0 (Str.padEnd key 32 "0") 32)).
  f_equal. rewrite !key_text, list_ascii_app.
  pose proof (length_list_ascii key) as Hl.
  rewrite <- !app_assoc.
  rewrite !firstn_app.
  replace (32 - length (list_ascii_of_string key))%nat with 0%nat by lia.
  reflexivity.
Qed.

Lemma key_text_zeros key n :
  (String.length key + n <= 32)%nat ->
  Str.substring0 (Str.padEnd (key ++ zeros n) 32 "0") 32
  = Str.substring0 (Str.padEnd key 32 "0") 32.
Proof.
  intros Hlen.
  rewrite <- (string_of_list_ascii_of_string (Str.substring0 (Str.padEnd (key ++ zeros n) 32 "0") 32)),
          <- (string_of_list_ascii_of_string (Str.substring0 (Str.padEnd key 32 "0") 32)).
  f_equal. rewrite !key_text, list_ascii_app. unfold zeros.
  rewrite list_ascii_of_string_of_list_ascii.
  assert (E : String.length (key ++ string_of_list_ascii (repeat "0"%char n))
              = (String.length key + n)%nat).
  { rewrite <- !length_list_ascii, list_ascii_app, list_ascii_of_string_of_list_ascii,
            length_app, repeat_length. reflexivity. }
  rewrite E, <- app_assoc, <- repeat_app. f_equal. f_equal. f_equal. lia.
Qed.

Lemma length_utf8 l :
  forallb ascii7 l = true ->
  length (concat (map QuarantineManager.utf8_char l)) = length l.
Proof.
  induction l as [|c l IH]; simpl; [reflexivity|].
  intros Hc. apply andb_true_iff in Hc as [Hc Hl].
  rewrite length_app, (IH Hl). unfold QuarantineManager.utf8_char.
  unfold ascii7 in Hc. rewrite Hc. reflexivity.
Qed.

Lemma length_utf8_other l :
  forallb ascii7 l = false ->
  (length l < length (concat (map QuarantineManager.utf8_char l)))%nat.
Proof.
  assert (Hle : forall l, (length l <= length (concat (map QuarantineManager.utf8_char l)))%nat).
  { clear l. induction l as [|c l IH]; simpl; [lia|]. rewrite length_app.
    unfold QuarantineManager.utf8_char at 1. destruct (_ <? 128); cbn [length]; lia. }
  induction l as [|c l IH]; simpl; [discriminate|].
  intros Hc. rewrite length_app. unfold QuarantineManager.utf8_char at 1.
  unfold ascii7 at 1 in Hc.
  destruct (Z.of_nat (nat_of_ascii c) <? 128); cbn [andb length] in *.
  - specialize (IH Hc). lia.
  - specialize (Hle l). lia.
Qed.

Lemma forallb_firstn {A} (f : A -> bool) n l :
  forallb f l = true -> forallb f (firstn n l) = true.
Proof.
  revert l. induction n as [|n IH]; intros [|x l]; simpl; try reflexivity.
  intros Hx. apply andb_true_iff in Hx as [-> Hl]. apply IH, Hl.
Qed.

End KeyText.

Section Cipher.
Context `{JsonCodec}.
Import QuarantineManager.

(** A key of one-byte characters gives the 32 bytes the cipher needs. *)
Lemma length_encryptionKey config :
  string_forallb ascii7 (quarantine_encryptionKey config) = true ->
  length (encryptionKey config) = 32%nat.
Proof.
  intros Hkey. unfold encryptionKey, buffer_from. rewrite key_text.
  rewrite length_utf8.
  - rewrite length_firstn, length_app, repeat_length, length_list_ascii. lia.
  - apply forallb_firstn. rewrite forallb_app, forallb_chars, Hkey.
    apply forallb_repeat. reflexivity.
Qed.

Lemma length_encrypt key iv content e :
  AES.encrypt key iv content = Ok e ->
  length e = (16 * (length content / 16 + 1))%nat.
Proof.
  unfold AES.encrypt.
  destruct (negb (length key =? 32)%nat); [discriminate|].
  destruct (negb (length iv =? 16)%nat); [discriminate|].
  intros E. injection E as <-.
  rewrite length_concat_blocks16 by apply cbc_encrypt_blocks.
  rewrite length_cbc_encrypt, length_blocks, length_pkcs7_pad.
  change (Nat.divmod ?a 15 0 15).1 with (a / 16)%nat.
  rewrite Nat.div_mul by lia. lia.
Qed.

(** What [encryptFile] returns: the sixteen bytes drawn, then whole
    blocks, one more than the content fills. *)
Lemma encryptFile_shape config content w :
  string_forallb ascii7 (quarantine_encryptionKey config) = true ->
  exists e,
    encryptFile config content w
    = (Ok (map (entropy w) (seq (drawn w) 16) ++ e)%list, with_drawn w (drawn w + 16))
    /\ length e = (16 * (length content / 16 + 1))%nat
    /\ decryptFile config (map (entropy w) (seq (drawn w) 16) ++ e)%list = Ok content.
Proof.
  intros Hkey. apply length_encryptionKey in Hkey.
  unfold encryptFile, bind, Env.randomBytes, lift_result, ret.
  destruct (AES.encrypt (encryptionKey config) (map (entropy w) (seq (drawn w) 16)) content)
    as [e|err] eqn:E.
  - exists e. split; [reflexivity|]. split; [exact (length_encrypt _ _ _ _ E)|].
    unfold decryptFile.
    rewrite (take_app_length' _ e 16), (drop_app_length' _ e 16)
      by (rewrite length_map, length_seq; reflexivity).
    apply aes_decrypt_encrypt, E.
  - unfold AES.encrypt in E. rewrite Hkey, length_map, length_seq in E. discriminate E.
Qed.

(** With a character of two bytes among those that reach the cipher,
    nothing can be encrypted. *)
Lemma encryptFile_wide_key config content w :
  forallb ascii7
    (firstn 32 (list_ascii_of_string (quarantine_encryptionKey config)
                ++ repeat "0"%char (32 - String.length (quarantine_encryptionKey config))))
  = false ->
  encryptFile config content w
  = (Throw (error_of "Invalid key length"), with_drawn w (drawn w + 16)).
Proof.
  intros Hkey.
  assert (Hlen : (32 < length (encryptionKey config))%nat).
  { unfold encryptionKey, buffer_from. rewrite key_text.
    apply length_utf8_other in Hkey.
    rewrite length_firstn, length_app, repeat_length, length_list_ascii in Hkey. lia. }
  unfold encryptFile, bind, Env.randomBytes, lift_result, ret, AES.encrypt.
  replace (length (encryptionKey config) =? 32)%nat with false
    by (symmetry; apply Nat.eqb_neq; lia).
  reflexivity.
Qed.

(** Only the first 32 characters of the key count, and a short key is
    the same key as the one filled up with zeros. *)
Lemma encryptionKey_long config extra :
  (32 <= String.length (quarantine_encryptionKey config))%nat ->
  encryptionKey (with_encryptionKey config (quarantine_encryptionKey config ++ extra))
  = encryptionKey config.
Proof.
  intros Hlen. unfold encryptionKey. cbn [quarantine_encryptionKey with_encryptionKey].
  rewrite key_text_long by exact Hlen. reflexivity.
Qed.

Lemma encryptionKey_zeros config n :
  (String.length (quarantine_encryptionKey config) + n <= 32)%nat ->
  encryptionKey (with_encryptionKey config (quarantine_encryptionKey config ++ zeros n))
  = encryptionKey config.
Proof.
  intros Hlen. unfold encryptionKey. cbn [quarantine_encryptionKey with_encryptionKey].
  rewrite key_text_zeros by exact Hlen. reflexivity.
Qed.

Lemma cbc_decrypt_blocks ks iv cs :
  block16 iv -> Forall block16 cs -> Forall block16 (AES.cbc_decrypt ks iv cs).
Proof.
  intros Hiv Hcs. revert iv Hiv.
  induction Hcs as [|c cs Hc Hcs IH]; intros iv Hiv; simpl; constructor.
  - unfold block16 in *. rewrite length_xor_bytes; unfold AES.decrypt_block;
      rewrite length_to_list; congruence.
  - apply IH, Hc.
Qed.

Lemma length_cbc_decrypt ks iv cs : length (AES.cbc_decrypt ks iv cs) = length cs.
Proof.
  revert iv. induction cs as [|c cs IH]; intros iv; simpl; [reflexivity|].
  f_equal. apply IH.
Qed.

Lemma length_pkcs7_unpad data body :
  AES.pkcs7_unpad data = Some body ->
  (length data <= length body + 16 /\ length body < length data)%nat.
Proof.
  unfold AES.pkcs7_unpad. destruct (rev data) as [|lastb r]; [discriminate|].
  set (n := Z.to_nat (Bytes.to_Z lastb)).
  destruct (1 <=? n)%nat eqn:H1; [|discriminate].
  destruct (n <=? 16)%nat eqn:H2; [|discriminate].
  destruct (n <=? length data)%nat eqn:H3; [|discriminate].
  cbn [andb]. destruct (forallb _ _); [|discriminate].
  intros E. injection E as <-.
  apply Nat.leb_le in H1, H2, H3. rewrite length_firstn. lia.
Qed.

(** What can be decrypted at all: sixteen bytes, then at least one whole
    block and whole blocks only; the content is shorter than the blocks
    by 1 to 16 bytes. *)
Lemma decryptFile_shape config buffer content :
  decryptFile config buffer = Ok content ->
  (32 <= length buffer)%nat
  /\ (length buffer mod 16 = 0)%nat
  /\ (length buffer <= length content + 32)%nat
  /\ (length content + 16 < length buffer)%nat.
Proof.
  unfold decryptFile, AES.decrypt.
  destruct (negb (length (encryptionKey config) =? 32)%nat); [discriminate|].
  destruct (length (firstn 16 buffer) =? 16)%nat eqn:Hiv; [|discriminate].
  cbn [negb]. apply Nat.eqb_eq in Hiv.
  set (data := skipn 16 buffer).
  destruct (length data =? 0)%nat eqn:H0; [discriminate|].
  destruct (length data mod 16 =? 0)%nat eqn:Hm; [|discriminate].
  cbn [negb orb]. apply Nat.eqb_neq in H0. apply Nat.eqb_eq in Hm.
  destruct (AES.pkcs7_unpad _) as [body|] eqn:Hu; [|discriminate].
  intros E. injection E as <-.
  apply length_pkcs7_unpad in Hu.
  assert (Hk : length data = (16 * (length data / 16))%nat).
  { pose proof (Nat.div_mod_eq (length data) 16). lia. }
  rewrite length_concat_blocks16, length_cbc_decrypt, length_blocks in Hu.
  2: { apply cbc_decrypt_blocks; [exact Hiv|]. apply blocks_lengths. lia. }
  rewrite length_firstn in Hiv.
  assert (Hb : length buffer = (16 + length data)%nat).
  { unfold data. rewrite length_skipn. lia. }
  rewrite Hb. split; [lia|]. split.
  - rewrite Hk. replace (16 + 16 * (length data / 16))%nat
      with ((1 + length data / 16) * 16)%nat by lia.
    apply Nat.Div0.mod_mul.
  - lia.
Qed.

End Cipher.

(** * Expiry of quarantined files *)

Section ExpiryFacts.
Context `{JsonCodec}.
Variable config : Config.
Variable days_before : Z -> Z -> Z.
Import QuarantineManager.

Lemma shrinks_refl w : shrinks w w.
Proof. unfold shrinks, same_machine. repeat split; auto. Qed.

Lemma shrinks_trans a b c : shrinks a b -> shrinks b c -> shrinks a c.
Proof.
  unfold shrinks, same_machine.
  intros ((? & ? & ? & ? & ? & ?) & Hn1 & Hs1) ((? & ? & ? & ? & ? & ?) & Hn2 & Hs2).
  repeat split; try congruence; auto.
Qed.

Lemma remove_shrinks p w : shrinks w (snd (Env.remove p w)) /\ fs (snd (Env.remove p w)) !! p = None.
Proof.
  destruct (remove_spec p w) as (w' & E & Hgone & Hnone & Hsome & Hsame).
  rewrite E. cbn [snd]. repeat split; try assumption; apply Hsame.
Qed.

(** Removing [p] leaves every path that is neither [p] nor below it. *)
Lemma remove_outside p w q :
  outside (os_platform w) p q -> fs (snd (Env.remove p w)) !! q = fs w !! q.
Proof.
  intros [Hne Hbelow]. unfold Env.remove.
  destruct (fs w !! p) as [[d a|]|] eqn:Ep; cbn [snd fs with_fs]; [|  |reflexivity].
  - apply lookup_delete_ne. congruence.
  - destruct (fs w !! q) as [n|] eqn:Eq.
    + apply map_lookup_filter_Some. split; [|exact Hbelow].
      rewrite lookup_delete_ne by congruence. exact Eq.
    + apply map_lookup_filter_None. left.
      rewrite lookup_delete_ne by congruence. exact Eq.
Qed.

(** In the model [permanentDelete] succeeds; what it touches are the two
    objects of the id and what lies below them. *)
Lemma permanentDelete_shrinks quarantineId w :
  exists w',
    permanentDelete config quarantineId w = (Ok (true, deleted_message), w')
    /\ shrinks w w'
    /\ forall q,
         outside (os_platform w) (quar_path config (os_platform w) quarantineId) q ->
         outside (os_platform w) (meta_path config (os_platform w) quarantineId) q ->
         fs w' !! q = fs w !! q.
Proof.
  unfold permanentDelete. rewrite try_catch_rethrow.
  set (qp := quar_path config (os_platform w) quarantineId).
  set (mp := meta_path config (os_platform w) quarantineId).
  unfold bind at 1. unfold gets at 1. fold qp mp.
  unfold bind at 1. rewrite pathExists_eq.
  assert (Hq : exists w1, (if match fs w !! qp with Some _ => true | None => false end
                           then Env.remove qp else ret tt) w = (Ok tt, w1)
               /\ shrinks w w1
               /\ forall q, outside (os_platform w) qp q -> fs w1 !! q = fs w !! q).
  { destruct (fs w !! qp) eqn:E.
    - exists (snd (Env.remove qp w)). destruct (remove_shrinks qp w) as [Hs Hn].
      split; [|split; [exact Hs | intros q; apply remove_outside]].
      rewrite (surjective_pairing (Env.remove qp w)), remove_ok. reflexivity.
    - exists w. split; [reflexivity|]. split; [apply shrinks_refl | reflexivity]. }
  destruct Hq as (w1 & E1 & Hs1 & Hq1).
  rewrite (bind_ok _ _ _ _ _ E1).
  unfold bind at 1. rewrite pathExists_eq.
  assert (Hpf : os_platform w1 = os_platform w) by apply Hs1.
  assert (Hm : exists w2, (if match fs w1 !! mp with Some _ => true | None => false end
                           then Env.remove mp else ret tt) w1 = (Ok tt, w2)
               /\ shrinks w1 w2
               /\ forall q, outside (os_platform w) mp q -> fs w2 !! q = fs w1 !! q).
  { destruct (fs w1 !! mp) eqn:E.
    - exists (snd (Env.remove mp w1)). destruct (remove_shrinks mp w1) as [Hs Hn].
      split; [|split; [exact Hs | intros q Hout; apply remove_outside; rewrite Hpf; exact Hout]].
      rewrite (surjective_pairing (Env.remove mp w1)), remove_ok. reflexivity.
    - exists w1. split; [reflexivity|]. split; [apply shrinks_refl | reflexivity]. }
  destruct Hm as (w2 & E2 & Hs2 & Hm2).
  rewrite (bind_ok _ _ _ _ _ E2).
  exists w2. split; [reflexivity|]. split; [exact (shrinks_trans _ _ _ Hs1 Hs2)|].
  intros q Hoq Hom. rewrite (Hm2 q Hom). exact (Hq1 q Hoq).
Qed.

(** The paths that are neither an object of an item older than the
    cutoff nor below one. *)
Lemma clean_each_spec cutoffDate list : forall w,
  exists w',
    Expiry.clean_each config cutoffDate list w = (Ok tt, w')
    /\ shrinks w w'
    /\ forall q,
         (forall item, In item list -> md_quarantinedAt item < cutoffDate ->
            outside (os_platform w) (quar_path config (os_platform w) (md_id item)) q
            /\ outside (os_platform w) (meta_path config (os_platform w) (md_id item)) q) ->
         fs w' !! q = fs w !! q.
Proof.
  induction list as [|item rest IH]; intros w.
  - exists w. split; [reflexivity|]. split; [apply shrinks_refl | reflexivity].
  - cbn [Expiry.clean_each].
    assert (Hstep : exists w1,
               (if md_quarantinedAt item <? cutoffDate
                then bind (permanentDelete config (md_id item)) (fun _ => ret tt)
                else ret tt) w = (Ok tt, w1)
               /\ shrinks w w1
               /\ forall q,
                    (md_quarantinedAt item < cutoffDate ->
                     outside (os_platform w) (quar_path config (os_platform w) (md_id item)) q
                     /\ outside (os_platform w)
                          (meta_path config (os_platform w) (md_id item)) q) ->
                    fs w1 !! q = fs w !! q).
    { destruct (Z.ltb_spec (md_quarantinedAt item) cutoffDate) as [Hold|Hyoung].
      - destruct (permanentDelete_shrinks (md_id item) w) as (w1 & E & Hs & Hframe).
        exists w1. rewrite (bind_ok _ _ _ _ _ E). split; [reflexivity|].
        split; [exact Hs|]. intros q Hq. destruct (Hq Hold) as [Hoq Hom].
        exact (Hframe q Hoq Hom).
      - exists w. split; [reflexivity|]. split; [apply shrinks_refl | reflexivity]. }
    destruct Hstep as (w1 & E1 & Hs1 & Hf1).
    rewrite (bind_ok _ _ _ _ _ E1).
    destruct (IH w1) as (w' & E' & Hs' & Hrest).
    assert (Hpf : os_platform w1 = os_platform w) by apply Hs1.
    exists w'. split; [exact E'|]. split; [exact (shrinks_trans _ _ _ Hs1 Hs')|].
    intros q Hq. rewrite Hrest.
    + apply Hf1. intros Hold. apply (Hq item); [left; reflexivity | exact Hold].
    + intros x Hx Hold. rewrite Hpf. apply (Hq x); [right; exact Hx | exact Hold].
Qed.

Lemma getQuarantineList_ok w : exists l, getQuarantineList config w = (Ok l, w).
Proof.
  unfold getQuarantineList, try_catch.
  unfold bind at 1. unfold gets at 1.
  unfold bind at 1.
  pose proof (readdir_state (quarantinePath config) w) as Ed.
  destruct (Env.readdir (quarantinePath config) w) as [[files|e] w'];
    simpl in Ed; subst w'.
  - unfold bind at 1.
    pose proof (read_all_state config (os_platform w)
                  (List.filter (fun f => Str.endsWith f ".json") files) w) as Er.
    destruct (read_all config (os_platform w) _ w) as [[records|e] w'];
      simpl in Er; subst w'; eexists; reflexivity.
  - eexists; reflexivity.
Qed.

(** The expiry never throws and creates nothing; a path that is neither
    an object of a listed item older than the cutoff nor below one keeps
    its node. *)
Lemma cleanOldQuarantine_spec daysOld w list :
  fst (getQuarantineList config w) = Ok list ->
  exists w',
    Expiry.cleanOldQuarantine config days_before daysOld w = (Ok tt, w')
    /\ (forall q n, fs w' !! q = Some n -> fs w !! q = Some n)
    /\ forall q,
         (forall item, In item list ->
            md_quarantinedAt item < days_before (clock w (ticks w)) daysOld ->
            outside (os_platform w) (quar_path config (os_platform w) (md_id item)) q
            /\ outside (os_platform w) (meta_path config (os_platform w) (md_id item)) q) ->
         fs w' !! q = fs w !! q.
Proof.
  intros Hlist. destruct (getQuarantineList_ok w) as (l & El).
  rewrite El in Hlist. cbn [fst] in Hlist. injection Hlist as ->.
  unfold Expiry.cleanOldQuarantine.
  destruct (clean_each_spec (days_before (clock w (ticks w)) daysOld) list
                            (with_ticks w (S (ticks w))))
    as (w' & E & (_ & _ & Hsome) & Hframe).
  exists w'. split.
  - apply try_catch_ok. rewrite (bind_ok _ _ _ _ _ El).
    unfold bind, Env.now. exact E.
  - split; [exact Hsome | exact Hframe].
Qed.

End ExpiryFacts.

(** * A quarantined file appears in the listing *)

Section StringFacts.

Lemma prefix_append (a b : string) : String.prefix a (a ++ b) = true.
Proof.
  induction a as [|c a IH]; [destruct b; reflexivity|].
  rewrite append_cons. cbn [String.prefix].
  destruct (ascii_dec c c); [exact IH | congruence].
Qed.

Lemma get_append (a : string) c (b : string) :
  String.get (String.length a) (a ++ String c b) = Some c.
Proof.
  induction a as [|x a IH]; [reflexivity|].
  rewrite append_cons. cbn [String.length String.get]. exact IH.
Qed.

Lemma substring_all (s : string) : String.substring 0 (String.length s) s = s.
Proof. induction s as [|c s IH]; [reflexivity|]. cbn. rewrite IH. reflexivity. Qed.

Lemma substring_append (a : string) c (b : string) :
  String.substring (S (String.length a)) (String.length b) (a ++ String c b) = b.
Proof.
  induction a as [|x a IH].
  - rewrite append_nil. cbn [String.length String.substring]. apply substring_all.
  - rewrite append_cons. cbn [String.length]. cbn [String.substring]. exact IH.
Qed.

Lemma length_append (a b : string) :
  String.length (a ++ b) = (String.length a + String.length b)%nat.
Proof.
  rewrite <- !length_list_ascii, list_ascii_app, length_app. reflexivity.
Qed.

Lemma endsWith_append (a b : string) : Str.endsWith (a ++ b) b = true.
Proof.
  unfold Str.endsWith, Str.endsWith_list. rewrite list_ascii_app, length_app.
  apply andb_true_iff. split; [apply Nat.leb_le; lia|].
  replace (length (list_ascii_of_string a) + length (list_ascii_of_string b)
           - length (list_ascii_of_string b))%nat
    with (length (list_ascii_of_string a)) by lia.
  rewrite drop_app_length. apply String.eqb_refl.
Qed.

(** An entry directly below a directory, under a name free of
    separators. *)
Lemma below_join pf dir name : name <> "" -> Env.below pf dir (Path.join pf dir name) = true.
Proof.
  intros Hne. destruct (sep_is_sep pf) as (c & Hsep & Hc).
  unfold Env.below, Path.join. rewrite Hsep, append_cons, append_nil.
  rewrite get_append, prefix_append, Hc. reflexivity.
Qed.

Lemma child_name_join pf dir name :
  name <> "" -> string_forallb (no_sep pf) name = true ->
  Env.child_name pf dir (Path.join pf dir name) = Some name.
Proof.
  intros Hne Hname. unfold Env.child_name. rewrite (below_join pf dir name Hne).
  destruct (sep_is_sep pf) as (c & Hsep & Hc).
  unfold Path.join. rewrite Hsep, append_cons, append_nil.
  rewrite length_append. cbn [String.length].
  replace (String.length dir + S (String.length name) - S (String.length dir))%nat
    with (String.length name) by lia.
  rewrite substring_append.
  replace (0 <? String.length name)%nat with true
    by (destruct name; [congruence | reflexivity]).
  change (fun c0 => negb (Path.is_sep pf c0)) with (no_sep pf).
  rewrite forallb_chars, Hname. reflexivity.
Qed.

End StringFacts.

Section ListingFacts.
Context `{JsonCodec}.
Hypothesis parse_stringify : forall m, parse_meta (stringify_meta m) = Some m.
Variable config : Config.
Import QuarantineManager.

(** The file system a quarantine call leaves. *)
Lemma quarantineFile_fs filePath w r w1 :
  quarantineFile config filePath w = (Ok r, w1) ->
  exists content e,
    fs w !! filePath = Some (Fs.File content None)
    /\ AES.encrypt (encryptionKey config) (quarantine_iv w) content = Ok e
    /\ r = {| qr_success := true; qr_quarantineId := quarantine_id w;
              qr_message := "File quarantined successfully: "
                            ++ Path.basename (os_platform w) filePath |}
    /\ fs w1 = delete filePath
                 (<[meta_path config (os_platform w) (quarantine_id w)
                      := Fs.File (stringify_meta (metadata_of w filePath content)) None]>
                    (<[quar_path config (os_platform w) (quarantine_id w)
                         := Fs.File (quarantine_iv w ++ e)%list None]> (fs w)))
    /\ os_platform w1 = os_platform w.
Proof.
  unfold quarantineFile. rewrite try_catch_rethrow. intros Hq.
  apply bind_inv_ok in Hq as (present & s1 & E1 & Hq).
  rewrite pathExists_eq in E1. injection E1 as <- <-.
  destruct (fs w !! filePath) as [n0|] eqn:Efile; [|discriminate Hq].
  cbn [negb] in Hq.
  apply bind_inv_ok in Hq as (st & s2 & E2 & Hq).
  apply stat_ok in E2 as [-> Hst]. rewrite Efile in Hst.
  apply bind_inv_ok in Hq as (pf & s3 & E3 & Hq).
  injection E3 as <- <-.
  apply bind_inv_ok in Hq as (id & s4 & E4 & Hq).
  rewrite generateQuarantineId_eq in E4. injection E4 as <- <-.
  apply bind_inv_ok in Hq as (content & s5 & E5 & Hq).
  apply readFile_ok in E5 as [-> Hcontent]. cbn [fs with_drawn with_ticks] in Hcontent.
  rewrite Efile in Hcontent. injection Hcontent as ->. subst st.
  apply bind_inv_ok in Hq as (ct & s6 & E6 & Hq).
  apply encryptFile_ok in E6 as (e & Henc & -> & ->).
  cbn [entropy drawn with_drawn with_ticks] in Henc, Hq.
  apply bind_inv_ok in Hq as (u7 & s7 & E7 & Hq).
  apply writeFile_ok in E7 as ->.
  apply bind_inv_ok in Hq as (at_ & s8 & E8 & Hq).
  injection E8 as <- <-.
  apply bind_inv_ok in Hq as (u9 & s9 & E9 & Hq).
  apply writeFile_ok in E9 as ->.
  apply bind_inv_ok in Hq as (u10 & s10 & E10 & Hq).
  injection Hq as <- <-.
  exists content, e.
  split; [reflexivity|]. split; [exact Henc|]. split; [reflexivity|].
  unfold Env.remove in E10.
  cbn [fs os_platform with_fs with_ticks with_drawn clock ticks] in E10.
  match type of E10 with
  | context [(<[?mp := ?mv]> (<[?qp := ?qv]> (fs w))) !! filePath] =>
      assert (Hfile : exists d a, (<[mp := mv]> (<[qp := qv]> (fs w))) !! filePath
                                  = Some (Fs.File d a))
  end.
  { match goal with
    | |- context [(<[?mp := ?mv]> (<[?qp := ?qv]> (fs w))) !! filePath] =>
        destruct (decide (mp = filePath)) as [<-|Hm];
          [rewrite lookup_insert_eq; eauto|];
          rewrite lookup_insert_ne by exact Hm;
          destruct (decide (qp = filePath)) as [<-|Hq'];
          [rewrite lookup_insert_eq; eauto|];
          rewrite lookup_insert_ne by exact Hq'; eauto
    end. }
  destruct Hfile as (d & a & Hfile). rewrite Hfile in E10.
  injection E10 as _ <-. split; reflexivity.
Qed.

Lemma read_all_in pf files : forall w records w' f,
  read_all config pf files w = (Ok records, w') ->
  In f files ->
  exists m, readJson (Path.join pf (quarantinePath config) f) w = (Ok m, w)
            /\ In m records.
Proof.
  induction files as [|x files IH]; intros w records w' f E Hf; [destruct Hf|].
  cbn [read_all] in E.
  apply bind_inv_ok in E as (m & s1 & E1 & E).
  pose proof (readJson_state (Path.join pf (quarantinePath config) x) w) as Hs.
  rewrite E1 in Hs. cbn [snd] in Hs. subst s1.
  apply bind_inv_ok in E as (more & s2 & E2 & E).
  injection E as <- <-.
  destruct Hf as [<-|Hf].
  - exists m. split; [exact E1 | left; reflexivity].
  - destruct (IH _ _ _ f E2 Hf) as (m' & Hm' & Hin). exists m'. split; [exact Hm' | right; exact Hin].
Qed.

Lemma quarantine_dir_not_object pf name :
  quarantinePath config <> Path.join pf (quarantinePath config) name.
Proof.
  unfold Path.join. intros E.
  assert (E' : (quarantinePath config ++ "" = quarantinePath config ++ (Path.sep pf ++ name))%string).
  { rewrite <- E at 1. clear E. induction (quarantinePath config) as [|c s IH];
      [reflexivity | rewrite append_cons; f_equal; exact IH]. }
  apply string_app_inv_head in E'. destruct pf; discriminate E'.
Qed.

(** A file outside the quarantine directory that has been quarantined
    is in the listing, as long as the listing can be read. *)
Lemma quarantined_listed filePath w r w1 records :
  fs w !! quarantinePath config = Some Fs.Dir ->
  Env.below (os_platform w) (quarantinePath config) filePath = false ->
  quarantineFile config filePath w = (Ok r, w1) ->
  fst (read_all config (os_platform w1) (metadata_files config w1) w1) = Ok records ->
  exists content list,
    fs w !! filePath = Some (Fs.File content None)
    /\ getQuarantineList config w1 = (Ok list, w1)
    /\ Permutation records list
    /\ In (metadata_of w filePath content) list
    /\ md_id (metadata_of w filePath content) = qr_quarantineId r.
Proof.
  intros Hdir Hout Hq Hread.
  apply quarantineFile_fs in Hq as (content & e & Hfile & Henc & -> & Hfs & Hpf).
  set (pf := os_platform w) in *.
  set (id := quarantine_id w) in *.
  set (meta := metadata_of w filePath content) in *.
  assert (Hne : (id ++ ".json")%string <> "").
  { unfold id. destruct (quarantine_id_head w ".json") as (s & ->). discriminate. }
  assert (Hns : forall ext, string_forallb (no_sep pf) ext = true ->
                            string_forallb (no_sep pf) (id ++ ext) = true).
  { intros ext Hext. apply quarantine_id_no_sep, Hext. }
  assert (Hmp : filePath <> meta_path config pf id).
  { intros ->. unfold meta_path in Hout. rewrite below_join in Hout by exact Hne.
    discriminate Hout. }
  (* the vault after the call *)
  assert (Hdir1 : fs w1 !! quarantinePath config = Some Fs.Dir).
  { rewrite Hfs. rewrite lookup_delete_ne by (intros ->; congruence).
    rewrite !lookup_insert_ne by apply not_eq_sym, quarantine_dir_not_object.
    exact Hdir. }
  assert (Hmeta1 : fs w1 !! meta_path config pf id = Some (Fs.File (stringify_meta meta) None)).
  { rewrite Hfs. rewrite lookup_delete_ne by exact Hmp. apply lookup_insert_eq. }
  (* its listing *)
  assert (Hin : In (id ++ ".json")%string (metadata_files config w1)).
  { unfold metadata_files, Env.readdir. fold (quarantinePath config). rewrite Hdir1. cbn [fst].
    apply filter_In. split; [|apply endsWith_append].
    apply list_elem_of_In, list_elem_of_omap.
    exists (meta_path config pf id, Fs.File (stringify_meta meta) None). split.
    - apply elem_of_map_to_list. exact Hmeta1.
    - cbn [fst]. rewrite Hpf. apply child_name_join; [exact Hne|].
      apply Hns. destruct pf; reflexivity. }
  destruct (read_all config (os_platform w1) (metadata_files config w1) w1)
    as [[recs|err] w2] eqn:Eall; cbn [fst] in Hread; [|discriminate Hread].
  injection Hread as ->.
  pose proof (read_all_state config (os_platform w1) (metadata_files config w1) w1) as Hst.
  rewrite Eall in Hst. cbn [snd] in Hst. subst w2.
  destruct (read_all_in _ _ _ _ _ _ Eall Hin) as (m & Hm & Hrec).
  assert (m = meta) as ->.
  { rewrite Hpf in Hm. change (Path.join pf (quarantinePath config) (id ++ ".json"))
      with (meta_path config pf id) in Hm.
    unfold readJson in Hm.
    rewrite (bind_ok _ _ _ _ _ (readFile_eq _ _ _ Hmeta1)), parse_stringify in Hm.
    injection Hm as <-. reflexivity. }
  exists content, (sort_newest_first records).
  split; [exact Hfile|]. split.
  - unfold getQuarantineList. apply try_catch_ok.
    unfold bind at 1. unfold gets at 1.
    unfold metadata_files in Eall.
    destruct (Env.readdir (paths_quarantine config) w1) as [[files|err] w2] eqn:Edir.
    2: { unfold Env.readdir in Edir. fold (quarantinePath config) in Edir.
         rewrite Hdir1 in Edir. discriminate Edir. }
    pose proof (readdir_state (paths_quarantine config) w1) as Hst.
    rewrite Edir in Hst. cbn [snd] in Hst. subst w2.
    fold (quarantinePath config) in Edir.
    rewrite (bind_ok _ _ _ _ _ Edir). cbn [fst] in Eall.
    rewrite (bind_ok _ _ _ _ _ Eall). reflexivity.
  - split; [apply sort_newest_first_perm|]. split; [|reflexivity].
    apply (Permutation_in _ (sort_newest_first_perm records)), Hrec.
Qed.

End ListingFacts.

(** * Threats reported and rows recorded *)

Section StoreDetections.
Context `{JsonCodec}.
Variable config : Config.

Lemma detections_step_refl : Reflexive detections_step.
Proof. intros a Ha. auto. Qed.

Lemma detections_step_trans : Transitive detections_step.
Proof.
  intros a b c Hab Hbc Ha. destruct (Hab Ha) as [Hb Eb].
  destruct (Hbc Hb) as [Hc Ec]. split; [exact Hc | congruence].
Qed.

Lemma initialize_detections : preserves detections_step (ThreatDatabase.initialize config).
Proof.
  intros [w d] r [w' d'] E Hd. cbn in Hd.
  rewrite (initialize_done config w d Hd) in E. injection E as _ _ <-. auto.
Qed.

Lemma recordThreatDetection_row id p n t sv m w d r w' d' :
  ThreatDatabase.recordThreatDetection config id p n t sv m (w, d) = (r, (w', d')) ->
  ThreatDatabase.initialized d' = ThreatDatabase.initialized d
  /\ exists row,
       threat_detections (ThreatDatabase.data d')
       = (threat_detections (ThreatDatabase.data d) ++ [row])%list
       /\ td_scan_id row = id /\ td_file_path row = p /\ td_threat_name row = n
       /\ td_threat_type row = t /\ td_severity row = sv
       /\ td_detection_method row = m /\ td_action_taken row = None.
Proof.
  unfold ThreatDatabase.recordThreatDetection. unfold bind at 1. cbn.
  intros E. apply db_env_state in E as [-> _].
  cbn. split; [reflexivity|]. eexists. split; [reflexivity|]. cbn. auto 10.
Qed.

Lemma recordScanStart_detections type w1 d1 r w2 d2 :
  ThreatDatabase.recordScanStart config type (w1, d1) = (r, (w2, d2)) ->
  threat_detections (ThreatDatabase.data d2) = threat_detections (ThreatDatabase.data d1).
Proof.
  unfold ThreatDatabase.recordScanStart.
  unfold bind at 1. cbn. unfold bind.
  match goal with |- context [ThreatDatabase.save config ?s] =>
    destruct (ThreatDatabase.save config s) as [[u|e] [w' d']] eqn:E end;
    intros E'; injection E' as _ <- <-; apply save_state in E; subst d'; reflexivity.
Qed.

Lemma recordScanComplete_detections id n t dur w d r w' d' :
  ThreatDatabase.recordScanComplete config id n t dur (w, d) = (r, (w', d')) ->
  threat_detections (ThreatDatabase.data d') = threat_detections (ThreatDatabase.data d).
Proof.
  unfold ThreatDatabase.recordScanComplete. unfold bind at 1. cbn.
  destruct (existsb _ (scan_history (ThreatDatabase.data d))).
  - intros E. apply db_env_state in E as [-> _]. reflexivity.
  - intros E. injection E as _ _ <-. reflexivity.
Qed.

End StoreDetections.

Existing Instance detections_step_refl.
Existing Instance detections_step_trans.
#[export] Hint Resolve initialize_detections : pres.

Section Ledger.
Context `{JsonCodec}.
Variable config : Config.

Lemma ledger_step_refl : Reflexive ledger_step.
Proof.
  intros a. constructor; [reflexivity|]. intros Ha. split; [exact Ha|].
  exists [], []. rewrite !app_nil_r. auto.
Qed.

Lemma ledger_step_trans : Transitive ledger_step.
Proof.
  intros a b c [Sab Rab] [Sbc Rbc]. constructor; [congruence|].
  intros Ha. destruct (Rab Ha) as (Hb & n1 & r1 & E1 & D1 & F1).
  destruct (Rbc Hb) as (Hc & n2 & r2 & E2 & D2 & F2).
  split; [exact Hc|]. exists (n1 ++ n2)%list, (r1 ++ r2)%list.
  rewrite E2, E1, D2, D1, <- !app_assoc. split; [reflexivity|]. split; [reflexivity|].
  apply Forall2_app; [exact F1|]. rewrite <- Sab. exact F2.
Qed.

Existing Instance ledger_step_refl.
Existing Instance ledger_step_trans.

Lemma ledger_same (a b : FileScanner.St) :
  FileScanner.db (snd b) = FileScanner.db (snd a) ->
  FileScanner.scanId (snd b) = FileScanner.scanId (snd a) ->
  threats (FileScanner.stats (snd b)) = threats (FileScanner.stats (snd a)) ->
  ledger_step a b.
Proof.
  intros Hd Hi Ht. constructor; [exact Hi|]. rewrite Hd, Ht. intros Ha. split; [exact Ha|].
  exists [], []. rewrite !app_nil_r. auto.
Qed.

Lemma ledger_env {A} (m : M World A) : preserves ledger_step (FileScanner.env m).
Proof.
  intros s r s' E. unfold FileScanner.env, zoom in E.
  destruct (m (fst s)) as [r' w']. injection E as _ <-. apply ledger_same; reflexivity.
Qed.

Lemma ledger_on_detector {A} (m : M SignatureDetector.St A) :
  preserves ledger_step (FileScanner.on_detector m).
Proof.
  intros s r s' E. unfold FileScanner.on_detector, zoom in E.
  destruct (m _) as [r' x']. injection E as _ <-. apply ledger_same; reflexivity.
Qed.

Lemma ledger_on_db {A} (m : M ThreatDatabase.St A) :
  preserves detections_step m -> preserves ledger_step (FileScanner.on_db m).
Proof.
  intros Hm s r s' E. unfold FileScanner.on_db, zoom in E.
  destruct (m (fst s, FileScanner.db (snd s))) as [r' x'] eqn:Em. injection E as _ <-.
  constructor; cbn; [reflexivity|].
  intros Ha. destruct (Hm _ _ _ Em Ha) as [Hb Hd]. cbn in Hb, Hd. split; [exact Hb|].
  exists [], []. rewrite !app_nil_r. auto.
Qed.

Lemma ledger_emit e : preserves ledger_step (FileScanner.emit e).
Proof. intros s r s' E. injection E as _ <-. apply ledger_same; reflexivity. Qed.

Lemma ledger_this f :
  (forall s, FileScanner.db (f s) = FileScanner.db s
             /\ FileScanner.scanId (f s) = FileScanner.scanId s
             /\ threats (FileScanner.stats (f s)) = threats (FileScanner.stats s)) ->
  preserves ledger_step (FileScanner.this f).
Proof.
  intros Hf s r s' E. injection E as _ <-. destruct (Hf (snd s)) as (Hd & Hi & Hs).
  apply ledger_same; cbn; congruence.
Qed.

Hint Resolve ledger_env ledger_on_detector ledger_on_db ledger_emit : pres.

(** The threat is added to the statistics and its row to the store in
    the same call, whether or not the store can be written. *)
Lemma ledger_handleThreatFound filePath ti st :
  preserves ledger_step (FileScanner.handleThreatFound config filePath ti st).
Proof.
  intros [w x] r s' E. unfold FileScanner.handleThreatFound in E.
  unfold bind at 1 in E. cbn in E. unfold bind at 1 in E. unfold try_catch in E.
  match type of E with context [FileScanner.on_db ?m (?w1, ?x1)] =>
    destruct (m (w1, FileScanner.db x1)) as [r1 [w2 d2]] eqn:Er;
    rewrite (on_db_eq m w1 x1 r1 w2 d2 Er) in E
  end.
  cbn [FileScanner.db FileScanner.with_stats] in Er.
  apply recordThreatDetection_row in Er as (Hi & row & Hrow & R1 & R2 & R3 & R4 & R5 & R6 & R7).
  assert (s' = (w2, FileScanner.with_emitted
                      (FileScanner.with_db
                         (FileScanner.with_stats x
                            {| filesScanned := filesScanned (FileScanner.stats x);
                               threatsFound := threatsFound (FileScanner.stats x) + 1;
                               errors := errors (FileScanner.stats x);
                               startTime := startTime (FileScanner.stats x);
                               endTime := endTime (FileScanner.stats x);
                               duration := duration (FileScanner.stats x);
                               threats := (threats (FileScanner.stats x) ++
                                 [{| th_path := filePath; th_name := ti_name ti;
                                     th_type := ti_type ti; th_severity := ti_severity ti;
                                     th_description := ti_description ti;
                                     th_detectionMethod := ti_method ti;
                                     th_fileSize := Fs.size st;
                                     th_detectedAt := clock w (ticks w) |}])%list |}) d2)
                      (FileScanner.emitted x ++
                         [EvThreatFound {| th_path := filePath; th_name := ti_name ti;
                                     th_type := ti_type ti; th_severity := ti_severity ti;
                                     th_description := ti_description ti;
                                     th_detectionMethod := ti_method ti;
                                     th_fileSize := Fs.size st;
                                     th_detectedAt := clock w (ticks w) |}])%list)) as ->.
  { destruct r1; cbn in E; injection E as _ <-; reflexivity. }
  constructor; cbn; [reflexivity|].
  intros Ha. split; [congruence|].
  eexists [_], [row]. split; [reflexivity|]. split; [exact Hrow|].
  constructor; [|constructor]. unfold row_of. cbn. auto 10.
Qed.

Hint Resolve ledger_handleThreatFound : pres.

Lemma ledger_scanFile filePath :
  preserves ledger_step (FileScanner.scanFile config filePath).
Proof. unfold FileScanner.scanFile. pres. Qed.

Lemma ledger_count_file totalFiles filePath :
  preserves ledger_step (FileScanner.count_file totalFiles filePath).
Proof.
  unfold FileScanner.count_file. pres.
  intros s r s' E. injection E as _ <-. apply ledger_same; reflexivity.
Qed.

Lemma ledger_count_error : preserves ledger_step FileScanner.count_error.
Proof. intros s r s' E. injection E as _ <-. apply ledger_same; reflexivity. Qed.

Lemma ledger_stop : preserves ledger_step FileScanner.stop.
Proof.
  unfold FileScanner.stop. pres. apply ledger_this. intros s. repeat split.
Qed.

Hint Resolve ledger_scanFile ledger_count_file ledger_count_error ledger_stop : pres.

Lemma ledger_scan_loop totalFiles files : forall i,
  preserves ledger_step (FileScanner.scan_loop config totalFiles i files).
Proof.
  induction files as [|filePath rest IH]; intros i; cbn [FileScanner.scan_loop]; pres.
Qed.

(** A scan that returns its statistics has a row in the store for each
    threat it returns, in the same order, under the id of the scan. *)
Lemma scan_ledger type paths deep w s st fin :
  FileScanner.scan config type paths deep (w, s) = (Ok st, fin) ->
  exists b w1 d1 id rows,
    ThreatDatabase.initialize config (w, FileScanner.db s) = (Ok b, (w1, d1))
    /\ FileScanner.scanId (snd fin) = Some id
    /\ threat_detections (ThreatDatabase.data (FileScanner.db (snd fin)))
       = (threat_detections (ThreatDatabase.data d1) ++ rows)%list
    /\ Forall2 (row_of (Some id)) rows (threats st).
Proof.
  intros E.
  destruct (scan_inv config _ _ _ _ _ _ _ E)
    as (b & w1 & d1 & id & w2 & d2 & files & s10 & w13 & d13 & E2 & E3 & _ & E10 & E13 & -> & ->).
  destruct (loop_start_facts config _ _ _ _ _ _ _ _ _ (length files) E2 E3) as (Hi & _).
  pose proof (ledger_scan_loop (length files) files 0 _ _ _ E10) as [Lid Lrows].
  destruct (Lrows Hi) as (Hi10 & new & rows & Hnew & Hrows & Hall).
  cbn [fst snd loop_start FileScanner.db FileScanner.with_emitted FileScanner.stats
       FileScanner.with_stats FileScanner.with_scanId FileScanner.with_db
       FileScanner.scanId FileScanner.fresh_stats threats app] in *.
  apply recordScanComplete_detections in E13.
  apply recordScanStart_detections in E3.
  exists b, w1, d1, id, rows.
  split; [exact E2|]. split; [cbn; exact Lid|]. split.
  - cbn. rewrite E13, Hrows, E3. reflexivity.
  - cbn [finished threats]. rewrite Hnew. exact Hall.
Qed.

End Ledger.

(** * Queries of the history store *)

Section SortDesc.
Context {A : Type}.
Variable key : A -> Z.

Lemma insert_desc_perm x l : Permutation (x :: l) (Js.insert_desc key x l).
Proof.
  induction l as [|y l IH]; cbn [Js.insert_desc]; [reflexivity|].
  destruct (0 <? key y - key x); [|reflexivity].
  rewrite perm_swap. apply perm_skip, IH.
Qed.

Lemma sort_desc_perm l : Permutation l (Js.sort_desc key l).
Proof.
  induction l as [|x l IH]; cbn; [reflexivity|].
  rewrite <- insert_desc_perm. apply perm_skip, IH.
Qed.

Lemma insert_desc_sorted x l :
  StronglySorted (desc key) l -> StronglySorted (desc key) (Js.insert_desc key x l).
Proof.
  induction 1 as [|y l Hl IH Hy]; cbn [Js.insert_desc]; [repeat constructor|].
  destruct (Z.ltb_spec 0 (key y - key x)) as [Hlt|Hge].
  - constructor; [exact IH|].
    apply List.Forall_forall. intros z Hz.
    apply (Permutation_in _ (Permutation_sym (insert_desc_perm x l))) in Hz.
    destruct Hz as [<-|Hz]; [unfold desc; lia|].
    rewrite List.Forall_forall in Hy. apply Hy, Hz.
  - constructor; [constructor; assumption|].
    constructor; [unfold desc; lia|].
    eapply List.Forall_impl; [|exact Hy]. unfold desc. intros z Hz. lia.
Qed.

Lemma sort_desc_sorted l : StronglySorted (desc key) (Js.sort_desc key l).
Proof.
  induction l as [|x l IH]; cbn; [constructor|]. apply insert_desc_sorted, IH.
Qed.

(** Entries with the same key keep the order they had. *)
Lemma insert_desc_filter k x l :
  StronglySorted (desc key) l ->
  List.filter (fun y => key y =? k) (Js.insert_desc key x l)
  = List.filter (fun y => key y =? k) (x :: l).
Proof.
  induction 1 as [|y l Hl IH Hy]; cbn [Js.insert_desc]; [reflexivity|].
  destruct (Z.ltb_spec 0 (key y - key x)) as [Hlt|Hge]; [|reflexivity].
  cbn [List.filter] in *. rewrite IH.
  destruct (Z.eqb_spec (key y) k) as [Ey|Ny], (Z.eqb_spec (key x) k) as [Ex|Nx];
    try reflexivity. lia.
Qed.

Lemma sort_desc_stable k l :
  List.filter (fun y => key y =? k) (Js.sort_desc key l)
  = List.filter (fun y => key y =? k) l.
Proof.
  induction l as [|x l IH]; cbn [Js.sort_desc fold_right]; [reflexivity|].
  fold (Js.sort_desc key l). rewrite insert_desc_filter by apply sort_desc_sorted.
  cbn [List.filter]. rewrite IH. reflexivity.
Qed.

Lemma in_firstn n (l : list A) x : In x (firstn n l) -> In x l.
Proof. intros Hx. rewrite <- (firstn_skipn n l). apply in_or_app. left. exact Hx. Qed.

Lemma in_skipn n (l : list A) x : In x (skipn n l) -> In x l.
Proof. intros Hx. rewrite <- (firstn_skipn n l). apply in_or_app. right. exact Hx. Qed.

(** The first [n] of a sorted list, and the rest. *)
Lemma sorted_firstn n l :
  StronglySorted (desc key) l ->
  StronglySorted (desc key) (firstn n l)
  /\ Forall (fun y => Forall (fun x => desc key x y) (firstn n l)) (skipn n l).
Proof.
  intros Hl. revert n. induction Hl as [|x l Hl IH Hx]; intros [|n]; cbn.
  - split; constructor.
  - split; constructor.
  - split; [constructor|]. apply List.Forall_forall. intros; constructor.
  - destruct (IH n) as [Hs Hr]. split.
    + constructor; [exact Hs|]. apply List.Forall_forall. intros y Hy.
      rewrite List.Forall_forall in Hx. apply Hx. eapply in_firstn. exact Hy.
    + apply List.Forall_forall. intros y Hy. constructor.
      * rewrite List.Forall_forall in Hx. apply Hx. eapply in_skipn. exact Hy.
      * rewrite List.Forall_forall in Hr. apply Hr, Hy.
Qed.

End SortDesc.

Section HistoryFacts.

(** [getScanHistory]: the [limit] most recent sessions, the most recent
    first. *)
Lemma getScanHistory_spec limit db :
  let result := History.getScanHistory limit db in
  let history := scan_history (ThreatDatabase.data db) in
  length result = Nat.min limit (length history)
  /\ StronglySorted (desc ss_start_time) result
  /\ (exists rest,
        Permutation (result ++ rest) history
        /\ Forall (fun y => Forall (fun x => ss_start_time y <= ss_start_time x) result) rest)
  /\ (forall t, List.filter (fun y => ss_start_time y =? t) result
                = firstn (length (List.filter (fun y => ss_start_time y =? t) result))
                         (List.filter (fun y => ss_start_time y =? t) history)).
Proof.
  cbv zeta. unfold History.getScanHistory.
  set (history := scan_history (ThreatDatabase.data db)).
  set (sorted := Js.sort_desc ss_start_time history).
  pose proof (sort_desc_sorted ss_start_time history) as Hs. fold sorted in Hs.
  pose proof (sort_desc_perm ss_start_time history) as Hp. fold sorted in Hp.
  destruct (sorted_firstn ss_start_time limit sorted Hs) as [Hf Hr].
  split; [|split; [exact Hf|split]].
  - rewrite length_firstn, <- (Permutation_length Hp). reflexivity.
  - exists (skipn limit sorted). rewrite firstn_skipn. split; [symmetry; exact Hp | exact Hr].
  - intros t. rewrite <- (sort_desc_stable ss_start_time t history). fold sorted.
    rewrite <- (firstn_skipn limit sorted) at 3.
    rewrite List.filter_app, firstn_app, Nat.sub_diag, firstn_all. cbn [firstn].
    rewrite app_nil_r. reflexivity.
Qed.

Lemma fold_files_app (l1 l2 : list ScanSession) a :
  fold_left (fun sum s => sum + ss_files_scanned s) (l1 ++ l2)%list a
  = fold_left (fun sum s => sum + ss_files_scanned s) l1 a
    + fold_left (fun sum s => sum + ss_files_scanned s) l2 0.
Proof.
  rewrite fold_left_app.
  generalize (fold_left (fun sum s => sum + ss_files_scanned s) l1 a). clear.
  induction l2 as [|x l IH]; intros b; cbn; [lia|].
  rewrite (IH (b + ss_files_scanned x)), (IH (0 + ss_files_scanned x)). lia.
Qed.

Lemma getStatistics_recent db :
  (length (recentThreats (History.getStatistics db)) <= 10)%nat
  /\ StronglySorted (desc td_detected_at) (recentThreats (History.getStatistics db)).
Proof.
  cbn [History.getStatistics recentThreats]. split.
  - rewrite length_firstn. lia.
  - apply sorted_firstn, sort_desc_sorted.
Qed.

End HistoryFacts.

Section ScanStatistics.
Context `{JsonCodec}.
Variable config : Config.

(** What a scan that returns adds to the totals of the store. *)
Lemma scan_statistics type paths deep w s st fin b w1 d1 :
  FileScanner.scan config type paths deep (w, s) = (Ok st, fin) ->
  ThreatDatabase.initialize config (w, FileScanner.db s) = (Ok b, (w1, d1)) ->
  Forall (fun y => Some (ss_id y) <> FileScanner.scanId (snd fin))
         (scan_history (ThreatDatabase.data d1)) ->
  let before := History.getStatistics d1 in
  let after := History.getStatistics (FileScanner.db (snd fin)) in
  totalScans after = S (totalScans before)
  /\ totalFilesScanned after = totalFilesScanned before + filesScanned st
  /\ totalThreats after = (totalThreats before + length (threats st))%nat
  /\ threatsFound st = Z.of_nat (length (threats st)).
Proof.
  intros E E2 Hfresh.
  destruct (scan_completes config _ _ _ _ _ _ _ E)
    as (_ & id & x & Hid & _ & _ & (_ & Hfiles & _) & _ & Hhist).
  rewrite Hid in Hfresh.
  destruct (Hhist _ _ _ E2) as [Hh _].
  { eapply List.Forall_impl; [|exact Hfresh]. cbn. intros y Hy Ey. apply Hy. rewrite Ey. reflexivity. }
  destruct (scan_ledger config _ _ _ _ _ _ _ E) as (b' & w1' & d1' & id' & rows & E2' & _ & Hrows & Hall).
  rewrite E2 in E2'. injection E2' as <- <- <-.
  destruct (scan_threats config _ _ _ _ _ _ _ E) as (files & _ & Hcount & _).
  cbv zeta. cbn [History.getStatistics totalScans totalFilesScanned totalThreats].
  pose proof (Forall2_length _ _ _ Hall) as Hlen.
  rewrite Hh, Hrows, !length_app, fold_files_app, Hlen. cbn.
  rewrite Hfiles. repeat split; lia.
Qed.

End ScanStatistics.

(** * Opening the history store *)

Section StoreOpening.
Context `{JsonCodec}.
Variable config : Config.
Import ThreatDatabase.

Lemma ensureDir_present p w : fs w !! p = Some Fs.Dir -> Env.ensureDir p w = (Ok tt, w).
Proof.
  intros Hp. unfold Env.ensureDir.
  replace (Env.ensure_dirs (os_platform w) (String.length p) p (fs w)) with (Some (fs w)).
  - destruct w; reflexivity.
  - destruct (String.length p); cbn [Env.ensure_dirs]; rewrite Hp; reflexivity.
Qed.

Lemma ensureDir_kept p w r w' q n :
  Env.ensureDir p w = (r, w') -> fs w !! q = Some n -> fs w' !! q = Some n.
Proof.
  unfold Env.ensureDir.
  destruct (Env.ensure_dirs (os_platform w) (String.length p) p (fs w)) as [f|] eqn:Ef;
    intros E Hq; injection E as _ <-; [|exact Hq].
  cbn [fs with_fs]. destruct (ensure_dirs_kept _ _ _ _ _ q Ef) as [->|[Hn _]]; congruence.
Qed.

Lemma db_env_eq {A} (m : M World A) w (d : t) r w' :
  m w = (r, w') -> env m (w, d) = (r, (w', d)).
Proof. intros E. unfold env, zoom. cbn. rewrite E. reflexivity. Qed.

(** A document that cannot be read back stops [initialize]: the object
    stays as it was, and so does the document. *)
Lemma initialize_unreadable w d bytes :
  initialized d = false ->
  fs w !! dbPath config = Some (Fs.File bytes None) ->
  parse_db bytes = None ->
  exists e w',
    initialize config (w, d) = (Throw e, (w', d))
    /\ fs w' !! dbPath config = Some (Fs.File bytes None).
Proof.
  intros Hd Hfile Hparse. unfold initialize.
  unfold bind at 1. cbn [get fst snd]. rewrite Hd.
  unfold bind at 1. unfold load. unfold bind at 1. cbn [get fst snd].
  unfold bind at 1.
  destruct (Env.ensureDir (Path.dirname (os_platform w) (dbPath config)) w)
    as [[u|e] w1] eqn:Ee;
    pose proof (ensureDir_kept _ _ _ _ _ _ Ee Hfile) as Hfile1;
    rewrite (db_env_eq _ _ _ _ _ Ee).
  - unfold bind at 1. rewrite (db_env_eq _ _ _ _ _ (pathExists_eq _ _)), Hfile1.
    unfold bind at 1. unfold readJson. unfold bind at 1.
    rewrite (db_env_eq _ _ _ _ _ (readFile_eq _ _ _ Hfile1)), Hparse.
    cbn. eauto.
  - eauto.
Qed.

(** A document with at least one hash signature is taken as it is:
    nothing is seeded and nothing is written. *)
Lemma initialize_existing w d bytes doc :
  initialized d = false ->
  fs w !! Path.dirname (os_platform w) (dbPath config) = Some Fs.Dir ->
  fs w !! dbPath config = Some (Fs.File bytes None) ->
  parse_db bytes = Some doc ->
  hash_signatures doc <> [] ->
  initialize config (w, d) = (Ok true, (w, {| data := doc; initialized := true |})).
Proof.
  intros Hd Hdir Hfile Hparse Hne. unfold initialize.
  unfold bind at 1. cbn [get fst snd]. rewrite Hd.
  unfold bind at 1. unfold load. unfold bind at 1. cbn [get fst snd].
  unfold bind at 1. rewrite (db_env_eq _ _ _ _ _ (ensureDir_present _ _ Hdir)).
  unfold bind at 1. rewrite (db_env_eq _ _ _ _ _ (pathExists_eq _ _)), Hfile.
  unfold bind at 1. unfold readJson. unfold bind at 1.
  rewrite (db_env_eq _ _ _ _ _ (readFile_eq _ _ _ Hfile)), Hparse.
  cbn. destruct (hash_signatures doc); [congruence|]. reflexivity.
Qed.

(** What one object has saved, a new object loads. *)
Lemma save_then_initialize w d u w' d' :
  save config (w, d) = (Ok u, (w', d')) ->
  parse_db (stringify_db (data d)) = Some (data d) ->
  hash_signatures (data d) <> [] ->
  initialize config (w', new) = (Ok true, (w', {| data := data d; initialized := true |})).
Proof.
  intros Hsave Hparse Hne.
  pose proof Hsave as Hs. apply save_ok in Hs as [-> ->].
  apply (initialize_existing _ _ (stringify_db (data d))); try assumption; try reflexivity.
  - unfold save, get_data in Hsave. unfold bind at 1 in Hsave. cbn [gets fst snd] in Hsave.
    apply db_env_state in Hsave as [_ Hw]. unfold Env.writeFile in Hw.
    cbn [fs os_platform with_fs].
    destruct (fs w !! Path.dirname (os_platform w) (dbPath config)) as [[? ?|]|] eqn:Edir;
      try discriminate Hw.
    destruct (decide (dbPath config = Path.dirname (os_platform w) (dbPath config))) as [Eq|Ne].
    + rewrite <- Eq in Edir. rewrite Edir in Hw. discriminate Hw.
    + rewrite lookup_insert_ne by exact Ne. exact Edir.
  - cbn [fs with_fs]. apply lookup_insert_eq.
Qed.

End StoreOpening.

Section ScanWithoutStore.
Context `{JsonCodec}.
Variable config : Config.

(** When the store cannot be opened, [scan] rejects before the guarded
    part: no session is recorded and [scanning] is left set. *)
Lemma scan_store_failure type paths deep w s e w1 d1 :
  ThreatDatabase.initialize config (w, FileScanner.db s) = (Throw e, (w1, d1)) ->
  FileScanner.scan config type paths deep (w, s)
  = (Throw e, (w1, FileScanner.with_db (FileScanner.with_scanning s true) d1)).
Proof.
  intros E. unfold FileScanner.scan.
  unfold bind at 1. rewrite this_eq. cbn [fst snd].
  unfold bind at 1.
  rewrite (on_db_eq _ w (FileScanner.with_scanning s true) _ _ _ E). reflexivity.
Qed.

Lemma scan_unreadable_store type paths deep w s bytes :
  ThreatDatabase.initialized (FileScanner.db s) = false ->
  fs w !! ThreatDatabase.dbPath config = Some (Fs.File bytes None) ->
  parse_db bytes = None ->
  exists e w',
    FileScanner.scan config type paths deep (w, s)
    = (Throw e, (w', FileScanner.with_scanning s true))
    /\ fs w' !! ThreatDatabase.dbPath config = Some (Fs.File bytes None).
Proof.
  intros Hd Hfile Hparse.
  destruct (initialize_unreadable config w _ bytes Hd Hfile Hparse) as (e & w' & E & Hkept).
  exists e, w'. split; [|exact Hkept].
  rewrite (scan_store_failure _ _ _ _ _ _ _ _ E). reflexivity.
Qed.

End ScanWithoutStore.

(** * Digests of files and their verification *)

Section HashingFacts.
Import Hashing.

Lemma digest_lower a content : Str.toLowerCase (digest a content) = digest a content.
Proof.
  destruct a; cbn [digest]; [apply md5_text | apply sha1_text | apply sha256_text].
Qed.

Lemma generateHash_eq filePath a w content :
  fs w !! filePath = Some (Fs.File content None) ->
  generateHash filePath a w
  = (Ok (digest a content), with_digested w (filePath :: digested w)).
Proof.
  intros Hfile. unfold generateHash.
  rewrite (bind_ok _ _ _ _ _ (readFile_eq _ _ _ Hfile)). reflexivity.
Qed.

(** A file that cannot be read is an error for [verifyHash], not a
    mismatch. *)
Lemma verifyHash_throws filePath expected a w :
  (forall content, fs w !! filePath <> Some (Fs.File content None)) ->
  exists e, verifyHash filePath expected a w = (Throw e, w).
Proof.
  intros Hno. unfold verifyHash, generateHash, bind, Env.readFile.
  destruct (fs w !! filePath) as [[d [c|]|]|] eqn:E; eauto.
  exfalso. exact (Hno d eq_refl).
Qed.

(** [verifyHash] accepts exactly the texts that are, up to the case of
    letters, the digest of the content; among them the digest itself
    and each digest [generateAllHashes] returns. *)
Lemma verifyHash_spec filePath a w content :
  fs w !! filePath = Some (Fs.File content None) ->
  (forall expected,
     exists b,
       verifyHash filePath expected a w = (Ok b, with_digested w (filePath :: digested w))
       /\ (b = true <-> Str.toLowerCase expected = digest a content))
  /\ (exists h w1,
        HashGenerator.generateAllHashes filePath w = (Ok h, w1)
        /\ fst (verifyHash filePath (HashGenerator.md5 h) MD5 w1) = Ok true
        /\ fst (verifyHash filePath (HashGenerator.sha1 h) SHA1 w1) = Ok true
        /\ fst (verifyHash filePath (HashGenerator.sha256 h) SHA256 w1) = Ok true).
Proof.
  intros Hfile. split.
  - intros expected. eexists. split.
    + unfold verifyHash. rewrite (bind_ok _ _ _ _ _ (generateHash_eq _ a _ _ Hfile)).
      reflexivity.
    + rewrite digest_lower.
      split; intros E; [apply String.eqb_eq in E | apply String.eqb_eq]; congruence.
  - eexists _, _. split.
    + unfold HashGenerator.generateAllHashes.
      rewrite (bind_ok _ _ _ _ _ (readFile_eq _ _ _ Hfile)). reflexivity.
    + assert (Hfile1 : fs (with_digested w (filePath :: digested w)) !! filePath
                       = Some (Fs.File content None)) by exact Hfile.
      unfold verifyHash.
      rewrite !(bind_ok _ _ _ _ _ (generateHash_eq _ _ _ _ Hfile1)).
      cbn [ret fst HashGenerator.hashes_of HashGenerator.md5 HashGenerator.sha1
           HashGenerator.sha256 digest].
      rewrite (proj2 (md5_text content)), (proj2 (sha1_text content)),
              (proj2 (sha256_text content)), !String.eqb_refl. auto.
Qed.

End HashingFacts.

(** * Real-time protection *)

Section WatcherFacts.
Context `{JsonCodec}.
Variable config : Config.
Import FileWatcher.

Lemma watcher_env_eq {A} (m : M World A) (s : St) r w' :
  m (fst s) = (r, w') -> env m s = (r, (w', snd s)).
Proof. intros E. unfold env, zoom. rewrite E. reflexivity. Qed.

(** [scanAndHandle] never throws.  A threat found in the file produces
    exactly one event: [threat-quarantined], with both notifications and
    the file gone, when the quarantine call succeeds, and
    [threat-detected], with the first notification only, when it fails.
    Without a threat there is neither event nor notification. *)
Lemma scanAndHandle_outcome filePath (s : St) :
  exists s',
    scanAndHandle config filePath s = (Ok tt, s')
    /\ watching (snd s') = watching (snd s)
    /\ scanQueue (snd s') = scanQueue (snd s)
    /\ match on_scanner (FileScanner.scanFile config filePath) s with
       | (Ok (Some th), s1) =>
           let seen := NoticeThreatDetected (th_name th)
                         (Path.basename (os_platform (fst s1)) (th_path th)) in
           match QuarantineManager.quarantineFile config filePath (fst s1) with
           | (Ok _, w2) =>
               fst s' = w2
               /\ fs w2 !! filePath = None
               /\ emitted (snd s')
                  = (emitted (snd s) ++ [EvThreatQuarantined (with_path th filePath)])%list
               /\ notified (snd s')
                  = (notified (snd s) ++ [seen; NoticeQuarantined (th_name th)])%list
           | (Throw _, w2) =>
               fst s' = w2
               /\ emitted (snd s')
                  = (emitted (snd s) ++ [EvThreatDetected (with_path th filePath)])%list
               /\ notified (snd s') = (notified (snd s) ++ [seen])%list
           end
       | (_, s1) =>
           fst s' = fst s1
           /\ emitted (snd s') = emitted (snd s)
           /\ notified (snd s') = notified (snd s)
       end.
Proof.
  unfold scanAndHandle, try_catch. unfold bind at 1.
  destruct (on_scanner (FileScanner.scanFile config filePath) s) as [[[th|]|e] s1] eqn:E1.
  - assert (Hs1 : watching (snd s1) = watching (snd s)
                  /\ scanQueue (snd s1) = scanQueue (snd s)
                  /\ emitted (snd s1) = emitted (snd s)
                  /\ notified (snd s1) = notified (snd s)).
    { unfold on_scanner, zoom in E1.
      destruct (FileScanner.scanFile config filePath _) as [r x]. injection E1 as _ <-.
      cbn. auto. }
    destruct Hs1 as (Hw & Hq & He & Hn).
    unfold bind at 1. cbn [get]. unfold bind at 1. cbn [notify this modify fst snd].
    unfold bind at 1.
    destruct (QuarantineManager.quarantineFile config filePath (fst s1)) as [[r|e] w2] eqn:E2.
    + match goal with |- context [env ?m ?x] =>
        rewrite (watcher_env_eq m x (Ok r) w2 E2) end.
      cbn. eexists. split; [reflexivity|]. cbn.
      rewrite Hw, Hq, He, Hn, <- app_assoc.
      apply quarantineFile_ok in E2 as (c & e & _ & _ & _ & Hgone & _).
      auto 10.
    + match goal with |- context [env ?m ?x] =>
        rewrite (watcher_env_eq m x (Throw e) w2 E2) end.
      cbn. eexists. split; [reflexivity|]. cbn.
      rewrite Hw, Hq, He, Hn. auto 10.
  - exists s1. split; [reflexivity|].
    unfold on_scanner, zoom in E1.
    destruct (FileScanner.scanFile config filePath _) as [r x]. injection E1 as _ <-.
    cbn. auto 10.
  - exists s1. split; [reflexivity|].
    unfold on_scanner, zoom in E1.
    destruct (FileScanner.scanFile config filePath _) as [r x]. injection E1 as _ <-.
    cbn. auto 10.
Qed.

End WatcherFacts.

(** * Further properties: the scan *)

(** A run is its result and the state it leaves. *)
Lemma run_result {S A} (r : result A * S) (x : result A) : fst r = x -> r = (x, snd r).
Proof. destruct r as [y s]. cbn. intros ->. reflexivity. Qed.

(** X1.  A scan that returns its statistics is no longer scanning and
    has completed its session in the history the store holds in memory:
    the first session of the history that carries the id of the scan has
    the status completed, the counts and the duration of the returned
    statistics and an end time.  When no earlier session has the same
    id, the history is the one the store had when it was opened,
    followed by that session, which carries the scan type. *)
Theorem scan_session_completed `{JsonCodec} (config : Config)
        (type : string) (paths : list string) (deep : bool)
        (w : World) (s : FileScanner.t) (st : ScanStats) (fin : FileScanner.St) :
  FileScanner.scan config type paths deep (w, s) = (Ok st, fin) ->
  FileScanner.scanning (snd fin) = false
  /\ exists id x,
       FileScanner.scanId (snd fin) = Some id
       /\ List.find (has_id id)
            (scan_history (ThreatDatabase.data (FileScanner.db (snd fin)))) = Some x
       /\ ss_id x = id
       /\ completed_with st x
       /\ forall b w1 d1,
            ThreatDatabase.initialize config (w, FileScanner.db s) = (Ok b, (w1, d1)) ->
            Forall (fun y => ss_id y <> id) (scan_history (ThreatDatabase.data d1)) ->
            scan_history (ThreatDatabase.data (FileScanner.db (snd fin)))
            = (scan_history (ThreatDatabase.data d1) ++ [x])%list
            /\ ss_scan_type x = type.
Proof.
  intros E. apply scan_completes in E.
  destruct E as (Hs & id & x & Hid & Hfind & Hx & Hdone & _ & Hrest).
  split; [exact Hs|]. exists id, x. auto.
Qed.

Lemma scan_session_completed_witness :
  let st := Examples.stats_of Examples.eicar_scan in
  let fin := snd Examples.eicar_scan in
  FileScanner.scanning (snd fin) = false
  /\ exists id x,
       FileScanner.scanId (snd fin) = Some id
       /\ List.find (has_id id)
            (scan_history (ThreatDatabase.data (FileScanner.db (snd fin)))) = Some x
       /\ ss_id x = id
       /\ completed_with st x
       /\ forall b w1 d1,
            @ThreatDatabase.initialize RefCodec.codec Sample.config
              (Examples.eicar_world, FileScanner.db FileScanner.new) = (Ok b, (w1, d1)) ->
            Forall (fun y => ss_id y <> id) (scan_history (ThreatDatabase.data d1)) ->
            scan_history (ThreatDatabase.data (FileScanner.db (snd fin)))
            = (scan_history (ThreatDatabase.data d1) ++ [x])%list
            /\ ss_scan_type x = "quick".
Proof.
  apply (@scan_session_completed RefCodec.codec Sample.config "quick" [] true
           Examples.eicar_world FileScanner.new
           (Examples.stats_of Examples.eicar_scan) (snd Examples.eicar_scan)).
  apply (run_result Examples.eicar_scan). vm_compute. reflexivity.
Defined.

(** X2.  The threats a scan returns are counted one by one
    ([threatsFound] is their number), and each is reported for one of the
    files the scan collected. *)
Theorem scan_threats_counted `{JsonCodec} (config : Config)
        (type : string) (paths : list string) (deep : bool)
        (w : World) (s : FileScanner.t) (st : ScanStats) (fin : FileScanner.St) :
  FileScanner.scan config type paths deep (w, s) = (Ok st, fin) ->
  exists files,
    fst (enumerated config type paths deep (w, s)) = Ok files
    /\ threatsFound st = Z.of_nat (length (threats st))
    /\ Forall (fun t => In (th_path t) files) (threats st).
Proof. apply scan_threats. Qed.

Lemma scan_threats_counted_witness :
  let st := Examples.stats_of Examples.eicar_scan in
  exists files,
    fst (@enumerated RefCodec.codec Sample.config "quick" [] true
           (Examples.eicar_world, FileScanner.new)) = Ok files
    /\ threatsFound st = Z.of_nat (length (threats st))
    /\ Forall (fun t => In (th_path t) files) (threats st).
Proof.
  apply (@scan_threats_counted RefCodec.codec Sample.config "quick" [] true
           Examples.eicar_world FileScanner.new
           (Examples.stats_of Examples.eicar_scan) (snd Examples.eicar_scan)).
  apply (run_result Examples.eicar_scan). vm_compute. reflexivity.
Defined.







(** X6.  [collectFiles] never throws and leaves the state as it is; the
    files of a list of scan paths are the files of its parts, one after
    the other, so a path listed twice contributes its files twice. *)
Theorem collectFiles_concatenates
        (paths1 paths2 : list string) (deep : bool) (s : FileScanner.St) :
  exists files1 files2,
    FileScanner.collectFiles paths1 deep s = (Ok files1, s)
    /\ FileScanner.collectFiles paths2 deep s = (Ok files2, s)
    /\ FileScanner.collectFiles (paths1 ++ paths2) deep s = (Ok (files1 ++ files2)%list, s).
Proof. apply collectFiles_app. Qed.

(** * Further properties: the detectors *)

(** X7.  The verdict of [detect] for a detector that is new or in step
    with the catalog: the call never throws; when a digest of the content
    is cataloged, the result is a hash detection that carries a cataloged
    row with one of the digests of the content; when none is cataloged,
    the result is null or a pattern detection. *)
Theorem detect_hash_verdict (hs : list HashSignature) (ps : list PatternSignature)
        (filePath : string) (content : list byte) (w : World) (d : SignatureDetector.t)
        (r : result (option ThreatInfo)) (s' : SignatureDetector.St) :
  in_step d hs ->
  SignatureDetector.detect hs ps filePath (HashGenerator.hashes_of content) (w, d) = (r, s') ->
  exists o,
    r = Ok o
    /\ ((exists sig, cataloged hs content sig) ->
        exists sig', cataloged hs content sig'
                     /\ o = Some (SignatureDetector.threat_of
                                    (SignatureDetector.info_of_hash sig') "signature-hash"))
    /\ ((forall sig, ~ cataloged hs content sig) ->
        match o with
        | Some ti => ti_method ti = "signature-pattern"
        | None => True
        end).
Proof. apply detect_verdict. Qed.

Lemma detect_hash_verdict_witness :
  exists o,
    fst Examples.eicar_detect = Ok o
    /\ ((exists sig, cataloged Examples.seeded_hashes eicar_bytes sig) ->
        exists sig', cataloged Examples.seeded_hashes eicar_bytes sig'
                     /\ o = Some (SignatureDetector.threat_of
                                    (SignatureDetector.info_of_hash sig') "signature-hash"))
    /\ ((forall sig, ~ cataloged Examples.seeded_hashes eicar_bytes sig) ->
        match o with
        | Some ti => ti_method ti = "signature-pattern"
        | None => True
        end).
Proof.
  apply (detect_hash_verdict Examples.seeded_hashes Examples.seeded_patterns
           SampleScan.eicar_com eicar_bytes Examples.eicar_world SignatureDetector.new
           (fst Examples.eicar_detect) (snd Examples.eicar_detect)).
  - reflexivity.
  - unfold Examples.eicar_detect. apply surjective_pairing.
Defined.

(** X8.  With every pattern rewound, the pattern check of a readable
    file with an allow-listed extension returns the first signature, in
    catalog order, whose pattern occurs in the first
    [min size maxReadSize] bytes of the file; it leaves the environment,
    the hash table and the catalog of patterns as they are, and after a
    miss every pattern is rewound again. *)
Theorem pattern_check_rewound (filePath : string) (w : World) (d : SignatureDetector.t)
        (content : list byte) :
  Forall rewound (SignatureDetector.patterns d) ->
  fs w !! filePath = Some (Fs.File content None) ->
  Str.includes SignatureDetector.scanExtensions
    (Str.toLowerCase (Path.extname (os_platform w) filePath)) = true ->
  exists d',
    SignatureDetector.checkPatternSignatures filePath (w, d)
    = (Ok (first_matching_signature (checked_text content) (SignatureDetector.patterns d)),
       (w, d'))
    /\ SignatureDetector.hashes d' = SignatureDetector.hashes d
    /\ SignatureDetector.signaturesLoaded d' = SignatureDetector.signaturesLoaded d
    /\ map SignatureDetector.info_of_pattern (SignatureDetector.patterns d')
       = map SignatureDetector.info_of_pattern (SignatureDetector.patterns d)
    /\ (first_matching_signature (checked_text content) (SignatureDetector.patterns d) = None ->
        Forall rewound (SignatureDetector.patterns d')).
Proof. apply checkPatternSignatures_rewound. Qed.

Lemma pattern_check_rewound_witness :
  exists d',
    SignatureDetector.checkPatternSignatures SamplePatterns.path_a
      (SamplePatterns.w, SamplePatterns.detector)
    = (Ok (first_matching_signature
             (checked_text (Bytes.of_string SamplePatterns.text_a))
             (SignatureDetector.patterns SamplePatterns.detector)),
       (SamplePatterns.w, d'))
    /\ SignatureDetector.hashes d' = SignatureDetector.hashes SamplePatterns.detector
    /\ SignatureDetector.signaturesLoaded d'
       = SignatureDetector.signaturesLoaded SamplePatterns.detector
    /\ map SignatureDetector.info_of_pattern (SignatureDetector.patterns d')
       = map SignatureDetector.info_of_pattern
             (SignatureDetector.patterns SamplePatterns.detector)
    /\ (first_matching_signature
          (checked_text (Bytes.of_string SamplePatterns.text_a))
          (SignatureDetector.patterns SamplePatterns.detector) = None ->
        Forall rewound (SignatureDetector.patterns d')).
Proof.
  apply (pattern_check_rewound SamplePatterns.path_a SamplePatterns.w SamplePatterns.detector
           (Bytes.of_string SamplePatterns.text_a)).
  - repeat constructor.
  - vm_compute. reflexivity.
  - vm_compute. reflexivity.
Defined.

(** X9.  The signatures are loaded once: after a first call of
    [detect], the catalogs handed to later calls are ignored, so rows
    added to the store afterwards are not seen by that detector. *)
Theorem signatures_loaded_once (hs1 : list HashSignature) (ps1 : list PatternSignature)
        (f1 : string) (h1 : HashGenerator.Hashes) (w : World) (d : SignatureDetector.t)
        (r1 : result (option ThreatInfo)) (w1 : World) (d1 : SignatureDetector.t) :
  SignatureDetector.detect hs1 ps1 f1 h1 (w, d) = (r1, (w1, d1)) ->
  SignatureDetector.hashes d1
  = SignatureDetector.hashes (SignatureDetector.loadSignatures hs1 ps1 d)
  /\ forall hs2 ps2 hs3 ps3 f h w2,
       SignatureDetector.detect hs2 ps2 f h (w2, d1)
       = SignatureDetector.detect hs3 ps3 f h (w2, d1).
Proof.
  intros E. apply detect_loaded in E as (Hl & Hh & _). split; [exact Hh|].
  assert (Hd : forall hs ps, SignatureDetector.loadSignatures hs ps d1 = d1)
    by (intros hs ps; unfold SignatureDetector.loadSignatures; rewrite Hl; reflexivity).
  intros hs2 ps2 hs3 ps3 f h w2. unfold SignatureDetector.detect, bind, modify.
  cbn [fst snd]. rewrite !Hd. reflexivity.
Qed.

Lemma signatures_loaded_once_witness :
  SignatureDetector.hashes (snd (snd Examples.eicar_detect))
  = SignatureDetector.hashes
      (SignatureDetector.loadSignatures Examples.seeded_hashes Examples.seeded_patterns
                                        SignatureDetector.new)
  /\ forall hs2 ps2 hs3 ps3 f h w2,
       SignatureDetector.detect hs2 ps2 f h (w2, snd (snd Examples.eicar_detect))
       = SignatureDetector.detect hs3 ps3 f h (w2, snd (snd Examples.eicar_detect)).
Proof.
  apply (signatures_loaded_once Examples.seeded_hashes Examples.seeded_patterns
           SampleScan.eicar_com (HashGenerator.hashes_of eicar_bytes)
           Examples.eicar_world SignatureDetector.new
           (fst Examples.eicar_detect) (fst (snd Examples.eicar_detect))).
  unfold Examples.eicar_detect. rewrite <- !surjective_pairing. reflexivity.
Defined.

(** X10.  [checkPEHeader] reports nothing: for every file and every
    state it returns null, every branch and the handler alike, and it
    leaves the state as it is. *)
Theorem checkPEHeader_reports_nothing (filePath : string) (s : SignatureDetector.St) :
  PeHeader.checkPEHeader filePath s = (Ok None, s).
Proof. apply checkPEHeader_nothing. Qed.

(** X11.  Every heuristic detection rests on at least two traits: no
    single check weighs as much as the lowest threshold.  The score
    reported is the score of the checks and is at least 25. *)
Theorem heuristic_needs_two_traits (config : Config) (w : World) (filePath : string)
        (stats : Fs.Stats) (d : HeuristicAnalyzer.Detection) :
  HeuristicAnalyzer.analyze config w filePath stats = Some d ->
  (2 <= length (HeuristicAnalyzer.traits d))%nat
  /\ HeuristicAnalyzer.score d
     = HeuristicAnalyzer.suspicionScore (HeuristicAnalyzer.checks w filePath stats)
  /\ 25 <= HeuristicAnalyzer.score d.
Proof. apply analyze_two_traits. Qed.

Lemma heuristic_needs_two_traits_witness :
  (2 <= length (HeuristicAnalyzer.traits Examples.doubled_detection))%nat
  /\ HeuristicAnalyzer.score Examples.doubled_detection
     = HeuristicAnalyzer.suspicionScore
         (HeuristicAnalyzer.checks SampleHeuristic.w SampleHeuristic.doubled
                                   SampleHeuristic.small)
  /\ 25 <= HeuristicAnalyzer.score Examples.doubled_detection.
Proof.
  apply (heuristic_needs_two_traits Sample.config SampleHeuristic.w SampleHeuristic.doubled
           SampleHeuristic.small Examples.doubled_detection).
  vm_compute. reflexivity.
Defined.

(** X12.  The configuration enters the heuristic through the threshold
    only: a file reported under one sensitivity is reported, with the
    same score, traits and description, under every sensitivity whose
    threshold is not higher (low 60, medium 40, high 25).  A sensitivity
    other than these three names switches the heuristic off. *)
Theorem sensitivity_monotone (config1 config2 : Config) (w : World) (filePath : string)
        (stats : Fs.Stats) (t1 t2 : Z) (d : HeuristicAnalyzer.Detection) :
  HeuristicAnalyzer.suspicionThresholds (HeuristicAnalyzer.sensitivity_of config1) = Some t1 ->
  HeuristicAnalyzer.suspicionThresholds (HeuristicAnalyzer.sensitivity_of config2) = Some t2 ->
  t2 <= t1 ->
  HeuristicAnalyzer.analyze config1 w filePath stats = Some d ->
  HeuristicAnalyzer.analyze config2 w filePath stats = Some d
  /\ forall config,
       HeuristicAnalyzer.suspicionThresholds (HeuristicAnalyzer.sensitivity_of config) = None ->
       HeuristicAnalyzer.analyze config w filePath stats = None.
Proof.
  intros H1 H2 Hle Hd. split.
  - exact (analyze_sensitivity config1 config2 w filePath stats t1 t2 d H1 H2 Hle Hd).
  - intros config. apply analyze_unknown_sensitivity.
Qed.

Lemma sensitivity_monotone_witness :
  HeuristicAnalyzer.analyze (with_sensitivity Sample.config "high") Examples.cracked_world
    Examples.cracked SampleHeuristic.small = Some Examples.cracked_detection
  /\ forall config,
       HeuristicAnalyzer.suspicionThresholds (HeuristicAnalyzer.sensitivity_of config) = None ->
       HeuristicAnalyzer.analyze config Examples.cracked_world Examples.cracked
         SampleHeuristic.small = None.
Proof.
  apply (sensitivity_monotone (with_sensitivity Sample.config "low")
           (with_sensitivity Sample.config "high") Examples.cracked_world Examples.cracked
           SampleHeuristic.small 60 25 Examples.cracked_detection).
  - reflexivity.
  - reflexivity.
  - lia.
  - vm_compute. reflexivity.
Defined.

(** X13.  The location check looks for directory names between
    backslashes: for a path without a backslash, such as every path that
    uses forward slashes only, it contributes nothing. *)
Theorem location_check_needs_backslash (filePath : string) :
  Str.includes_char filePath "\" = false ->
  HeuristicAnalyzer.checkSuspiciousLocation filePath = 0.
Proof. apply location_needs_backslash. Qed.

Lemma location_check_needs_backslash_witness :
  HeuristicAnalyzer.checkSuspiciousLocation "/home/u/Downloads/setup.exe" = 0.
Proof.
  apply (location_check_needs_backslash "/home/u/Downloads/setup.exe").
  vm_compute. reflexivity.
Defined.

(** * Further properties: the quarantine vault *)

Section WideKey.
Context `{JsonCodec}.
Variable config : Config.
Import QuarantineManager.

Lemma quarantineFile_wide_key filePath w :
  (forall content w0,
      encryptFile config content w0
      = (Throw (error_of "Invalid key length"), with_drawn w0 (drawn w0 + 16))) ->
  exists e w', quarantineFile config filePath w = (Throw e, w').
Proof.
  intros Henc. unfold quarantineFile.
  destruct (quarantineFile config filePath w) as [[r|e] w1] eqn:E; [|unfold quarantineFile in E; eauto].
  exfalso. unfold quarantineFile in E. rewrite try_catch_rethrow in E.
  apply bind_inv_ok in E as (present & s1 & _ & E).
  destruct (negb present); [discriminate E|].
  apply bind_inv_ok in E as (st & s2 & _ & E).
  apply bind_inv_ok in E as (pf & s3 & _ & E).
  apply bind_inv_ok in E as (id & s4 & _ & E).
  apply bind_inv_ok in E as (content & s5 & _ & E).
  apply bind_inv_ok in E as (ct & s6 & E6 & _).
  rewrite Henc in E6. discriminate E6.
Qed.

End WideKey.

(** X14.  A quarantine call on a file that cannot be taken fails and
    writes nothing.  For a missing file the error is [File not found]
    and nothing at all has changed.  For a file that cannot be opened
    the error is the error of the open; the file system is as it was, so
    the file is still there and neither a ciphertext object nor a
    metadata document has been written. *)
Theorem quarantine_failure_keeps_file `{JsonCodec} (config : Config)
        (filePath : string) (w : World) :
  (fs w !! filePath = None ->
   QuarantineManager.quarantineFile config filePath w
   = (Throw (error_of "File not found"), w))
  /\ (forall content code,
        fs w !! filePath = Some (Fs.File content (Some code)) ->
        exists w',
          QuarantineManager.quarantineFile config filePath w = (Throw (sys_error code), w')
          /\ fs w' = fs w).
Proof.
  split.
  - apply quarantineFile_missing.
  - intros content code Hfile. eexists.
    split; [exact (quarantineFile_unreadable config filePath w content code Hfile)|].
    reflexivity.
Qed.

Lemma quarantine_failure_keeps_file_witness :
  exists w',
    Examples.busy_quarantine = (Throw (sys_error "EBUSY"), w')
    /\ fs w' = fs Examples.busy_world.
Proof.
  apply (proj2 (@quarantine_failure_keeps_file RefCodec.codec Sample.config Examples.busy
                  Examples.busy_world) (Bytes.of_string "locked") "EBUSY").
  vm_compute. reflexivity.
Defined.



(** X16.  A restore call that succeeds uses the quarantined file up:
    afterwards neither the ciphertext nor the metadata document exists,
    and a second restore of the same id fails with
    [Quarantined file not found] and changes nothing. *)
Theorem restore_consumes_objects `{JsonCodec} (config : Config)
        (quarantineId : string) (w : World) (rr : RestoreResult) (w' : World) :
  QuarantineManager.restoreFile config quarantineId w = (Ok rr, w') ->
  rr_success rr = true
  /\ fs w' !! QuarantineManager.quar_path config (os_platform w) quarantineId = None
  /\ fs w' !! QuarantineManager.meta_path config (os_platform w) quarantineId = None
  /\ QuarantineManager.restoreFile config quarantineId w' = (Throw not_found, w').
Proof. apply restoreFile_consumes. Qed.

Lemma restore_consumes_objects_witness :
  let w := snd SampleVault.quarantined in
  let w' := snd SampleVault.restored in
  rr_success Examples.restored_result = true
  /\ fs w' !! @QuarantineManager.quar_path Sample.config (os_platform w) SampleVault.id = None
  /\ fs w' !! @QuarantineManager.meta_path Sample.config (os_platform w) SampleVault.id = None
  /\ @QuarantineManager.restoreFile RefCodec.codec Sample.config SampleVault.id w'
     = (Throw not_found, w').
Proof.
  apply (@restore_consumes_objects RefCodec.codec Sample.config SampleVault.id
           (snd SampleVault.quarantined) Examples.restored_result (snd SampleVault.restored)).
  apply (run_result SampleVault.restored). vm_compute. reflexivity.
Defined.

(** X17.  With a key of one-byte characters, [encryptFile] succeeds for
    every content: it returns the sixteen bytes it drew from the random
    source followed by whole blocks of sixteen bytes, one block more than
    the content fills, and [decryptFile] gives the content back. *)
Theorem encryptFile_output_shape (config : Config)
        (content : list byte) (w : World) :
  string_forallb ascii7 (quarantine_encryptionKey config) = true ->
  exists e,
    QuarantineManager.encryptFile config content w
    = (Ok (map (entropy w) (seq (drawn w) 16) ++ e)%list, with_drawn w (drawn w + 16))
    /\ length e = (16 * (length content / 16 + 1))%nat
    /\ QuarantineManager.decryptFile config (map (entropy w) (seq (drawn w) 16) ++ e)%list
       = Ok content.
Proof. apply encryptFile_shape. Qed.

Lemma encryptFile_output_shape_witness :
  let w := Examples.eicar_world in
  exists e,
    @QuarantineManager.encryptFile Sample.config eicar_bytes w
    = (Ok (map (entropy w) (seq (drawn w) 16) ++ e)%list, with_drawn w (drawn w + 16))
    /\ length e = (16 * (length eicar_bytes / 16 + 1))%nat
    /\ @QuarantineManager.decryptFile Sample.config
         (map (entropy w) (seq (drawn w) 16) ++ e)%list
       = Ok eicar_bytes.
Proof.
  apply (encryptFile_output_shape Sample.config eicar_bytes
           Examples.eicar_world).
  vm_compute. reflexivity.
Defined.

(** X18.  A key with a character of two bytes among the 32 characters
    that reach the cipher gives a key buffer of more than 32 bytes:
    [encryptFile] throws [Invalid key length] for every content, and so
    every quarantine call fails. *)
Theorem wide_key_blocks_quarantine `{JsonCodec} (config : Config) :
  forallb ascii7
    (firstn 32 (list_ascii_of_string (quarantine_encryptionKey config)
                ++ repeat "0"%char (32 - String.length (quarantine_encryptionKey config))))
  = false ->
  (forall content w,
      QuarantineManager.encryptFile config content w
      = (Throw (error_of "Invalid key length"), with_drawn w (drawn w + 16)))
  /\ forall filePath w,
       exists e w', QuarantineManager.quarantineFile config filePath w = (Throw e, w').
Proof.
  intros Hkey.
  assert (Henc : forall content w,
             QuarantineManager.encryptFile config content w
             = (Throw (error_of "Invalid key length"), with_drawn w (drawn w + 16)))
    by (intros content w; apply encryptFile_wide_key, Hkey).
  split; [exact Henc|]. intros filePath w. apply quarantineFile_wide_key, Henc.
Qed.

Lemma wide_key_blocks_quarantine_witness :
  (forall content w,
      @QuarantineManager.encryptFile Examples.wide_config content w
      = (Throw (error_of "Invalid key length"), with_drawn w (drawn w + 16)))
  /\ forall filePath w,
       exists e w',
         @QuarantineManager.quarantineFile RefCodec.codec Examples.wide_config filePath w
         = (Throw e, w').
Proof.
  apply (@wide_key_blocks_quarantine RefCodec.codec Examples.wide_config).
  vm_compute. reflexivity.
Defined.

(** X19.  Only the first 32 characters of the configured key count, and
    a shorter key is the key filled up with the character 0: extending a
    key of at least 32 characters, or appending zeros to a shorter one
    up to 32 characters, gives the same key buffer, so what was
    encrypted with one is decrypted with the other. *)
Theorem key_prefix_only (config : Config) (extra : string) :
  (32 <= String.length (quarantine_encryptionKey config))%nat
  \/ (exists n, extra = zeros n
                /\ (String.length (quarantine_encryptionKey config) + n <= 32)%nat) ->
  let config' := with_encryptionKey config (quarantine_encryptionKey config ++ extra) in
  QuarantineManager.encryptionKey config' = QuarantineManager.encryptionKey config
  /\ forall buffer,
       QuarantineManager.decryptFile config' buffer
       = QuarantineManager.decryptFile config buffer.
Proof.
  intros Hkey config'.
  assert (E : QuarantineManager.encryptionKey config' = QuarantineManager.encryptionKey config).
  { destruct Hkey as [Hlong|(n & -> & Hshort)].
    - apply encryptionKey_long, Hlong.
    - apply encryptionKey_zeros, Hshort. }
  split; [exact E|]. intros buffer. unfold QuarantineManager.decryptFile. rewrite E.
  reflexivity.
Qed.

Lemma key_prefix_only_witness :
  let config' :=
    with_encryptionKey Sample.config (quarantine_encryptionKey Sample.config ++ zeros 3) in
  QuarantineManager.encryptionKey config' = QuarantineManager.encryptionKey Sample.config
  /\ forall buffer,
       @QuarantineManager.decryptFile config' buffer
       = @QuarantineManager.decryptFile Sample.config buffer.
Proof.
  apply (key_prefix_only Sample.config (zeros 3)).
  right. exists 3%nat. split; [reflexivity | vm_compute; lia].
Defined.

(** X20.  What [decryptFile] accepts: sixteen bytes followed by at
    least one block and by whole blocks only; the content returned is
    shorter than the blocks by 1 to 16 bytes.  A buffer of any other
    length is rejected. *)
Theorem decryptFile_input_shape (config : Config)
        (buffer content : list byte) :
  QuarantineManager.decryptFile config buffer = Ok content ->
  (32 <= length buffer)%nat
  /\ (length buffer mod 16 = 0)%nat
  /\ (length buffer <= length content + 32)%nat
  /\ (length content + 16 < length buffer)%nat.
Proof. apply decryptFile_shape. Qed.

Lemma decryptFile_input_shape_witness :
  (32 <= length Examples.hello_encrypted)%nat
  /\ (length Examples.hello_encrypted mod 16 = 0)%nat
  /\ (length Examples.hello_encrypted <= length Examples.hello + 32)%nat
  /\ (length Examples.hello + 16 < length Examples.hello_encrypted)%nat.
Proof.
  apply (decryptFile_input_shape Sample.config Examples.hello_encrypted
           Examples.hello).
  vm_compute. reflexivity.
Defined.



(** X22.  A quarantined file appears in the listing.  When the
    quarantine directory exists, the file lies outside it, the call
    succeeds and every metadata document of the directory can be read
    afterwards, [getQuarantineList] returns the records read, newest
    first, and among them the record of this call: the returned id, the
    original path, the size and the SHA-256 digest of the content.  The
    metadata document is assumed to be readable back from its text. *)
Theorem quarantined_file_is_listed `{JsonCodec} (config : Config)
        (filePath : string) (w : World) (r : QuarantineResult) (w1 : World)
        (records : list Metadata) :
  (forall m, parse_meta (stringify_meta m) = Some m) ->
  fs w !! QuarantineManager.quarantinePath config = Some Fs.Dir ->
  Env.below (os_platform w) (QuarantineManager.quarantinePath config) filePath = false ->
  QuarantineManager.quarantineFile config filePath w = (Ok r, w1) ->
  fst (QuarantineManager.read_all config (os_platform w1) (metadata_files config w1) w1)
  = Ok records ->
  exists content list,
    fs w !! filePath = Some (Fs.File content None)
    /\ QuarantineManager.getQuarantineList config w1 = (Ok list, w1)
    /\ Permutation records list
    /\ In (metadata_of w filePath content) list
    /\ md_id (metadata_of w filePath content) = qr_quarantineId r.
Proof. intros Hlaw. apply quarantined_listed, Hlaw. Qed.

Lemma quarantined_file_is_listed_witness :
  let w := SampleVault.start in
  let w1 := snd SampleVault.quarantined in
  exists content list,
    fs w !! SampleVault.path = Some (Fs.File content None)
    /\ @QuarantineManager.getQuarantineList RefCodec.codec Sample.config w1 = (Ok list, w1)
    /\ Permutation Examples.vault_records list
    /\ In (metadata_of w SampleVault.path content) list
    /\ md_id (metadata_of w SampleVault.path content)
       = qr_quarantineId Examples.quarantined_result.
Proof.
  apply (@quarantined_file_is_listed RefCodec.codec Sample.config SampleVault.path
           SampleVault.start Examples.quarantined_result (snd SampleVault.quarantined)
           Examples.vault_records).
  - exact ref_codec_meta.
  - vm_compute. reflexivity.
  - vm_compute. reflexivity.
  - apply (run_result SampleVault.quarantined). vm_compute. reflexivity.
  - vm_compute. reflexivity.
Defined.

(** * Further properties: the history store, digests, real-time protection *)

(** X23.  A scan that returns its statistics has recorded, in the
    memory of the store, one row for each threat it returns, in the same
    order after the rows the store had when it was opened: each row
    carries the id of the scan and the path, name, type, severity and
    detection method of its threat, and no action.  This holds whether or
    not the store file could be written. *)
Theorem scan_threats_recorded `{JsonCodec} (config : Config)
        (type : string) (paths : list string) (deep : bool)
        (w : World) (s : FileScanner.t) (st : ScanStats) (fin : FileScanner.St) :
  FileScanner.scan config type paths deep (w, s) = (Ok st, fin) ->
  exists b w1 d1 id rows,
    ThreatDatabase.initialize config (w, FileScanner.db s) = (Ok b, (w1, d1))
    /\ FileScanner.scanId (snd fin) = Some id
    /\ threat_detections (ThreatDatabase.data (FileScanner.db (snd fin)))
       = (threat_detections (ThreatDatabase.data d1) ++ rows)%list
    /\ Forall2 (row_of (Some id)) rows (threats st).
Proof. apply scan_ledger. Qed.

Lemma scan_threats_recorded_witness :
  let st := Examples.stats_of Examples.eicar_scan in
  let fin := snd Examples.eicar_scan in
  exists b w1 d1 id rows,
    @ThreatDatabase.initialize RefCodec.codec Sample.config
      (Examples.eicar_world, FileScanner.db FileScanner.new) = (Ok b, (w1, d1))
    /\ FileScanner.scanId (snd fin) = Some id
    /\ threat_detections (ThreatDatabase.data (FileScanner.db (snd fin)))
       = (threat_detections (ThreatDatabase.data d1) ++ rows)%list
    /\ Forall2 (row_of (Some id)) rows (threats st).
Proof.
  apply (@scan_threats_recorded RefCodec.codec Sample.config "quick" [] true
           Examples.eicar_world FileScanner.new
           (Examples.stats_of Examples.eicar_scan) (snd Examples.eicar_scan)).
  apply (run_result Examples.eicar_scan). vm_compute. reflexivity.
Defined.

(** X24.  [getScanHistory], for a limit that is a natural number,
    returns the [limit] most recent sessions, the most recent first: as
    many as the limit allows, sorted by start time with the later first,
    taken from the history so that no session left out started later
    than one returned; sessions with the same start time keep the order
    in which they were recorded. *)
Theorem getScanHistory_recent_first (limit : nat) (db : ThreatDatabase.t) :
  let result := History.getScanHistory limit db in
  let history := scan_history (ThreatDatabase.data db) in
  length result = Nat.min limit (length history)
  /\ StronglySorted (desc ss_start_time) result
  /\ (exists rest,
        Permutation (result ++ rest) history
        /\ Forall (fun y => Forall (fun x => ss_start_time y <= ss_start_time x) result) rest)
  /\ (forall t, List.filter (fun y => ss_start_time y =? t) result
                = firstn (length (List.filter (fun y => ss_start_time y =? t) result))
                         (List.filter (fun y => ss_start_time y =? t) history)).
Proof. apply getScanHistory_spec. Qed.

(** X25.  What a scan adds to the totals of [getStatistics]: when no
    earlier session has the id of the scan, a scan that returns its
    statistics raises [totalScans] by one, [totalFilesScanned] by the
    returned [filesScanned] and [totalThreats] by the number of returned
    threats, which is the returned [threatsFound]. *)
Theorem scan_updates_statistics `{JsonCodec} (config : Config)
        (type : string) (paths : list string) (deep : bool)
        (w : World) (s : FileScanner.t) (st : ScanStats) (fin : FileScanner.St)
        (b : bool) (w1 : World) (d1 : ThreatDatabase.t) :
  FileScanner.scan config type paths deep (w, s) = (Ok st, fin) ->
  ThreatDatabase.initialize config (w, FileScanner.db s) = (Ok b, (w1, d1)) ->
  Forall (fun y => Some (ss_id y) <> FileScanner.scanId (snd fin))
         (scan_history (ThreatDatabase.data d1)) ->
  let before := History.getStatistics d1 in
  let after := History.getStatistics (FileScanner.db (snd fin)) in
  totalScans after = S (totalScans before)
  /\ totalFilesScanned after = totalFilesScanned before + filesScanned st
  /\ totalThreats after = (totalThreats before + length (threats st))%nat
  /\ threatsFound st = Z.of_nat (length (threats st)).
Proof. apply scan_statistics. Qed.

Lemma scan_updates_statistics_witness :
  let st := Examples.stats_of Examples.eicar_scan in
  let before := History.getStatistics (snd (snd Examples.eicar_opened)) in
  let after := History.getStatistics (FileScanner.db (snd (snd Examples.eicar_scan))) in
  totalScans after = S (totalScans before)
  /\ totalFilesScanned after = totalFilesScanned before + filesScanned st
  /\ totalThreats after = (totalThreats before + length (threats st))%nat
  /\ threatsFound st = Z.of_nat (length (threats st)).
Proof.
  apply (@scan_updates_statistics RefCodec.codec Sample.config "quick" [] true
           Examples.eicar_world FileScanner.new
           (Examples.stats_of Examples.eicar_scan) (snd Examples.eicar_scan)
           true (fst (snd Examples.eicar_opened)) (snd (snd Examples.eicar_opened))).
  - apply (run_result Examples.eicar_scan). vm_compute. reflexivity.
  - rewrite <- surjective_pairing.
    apply (run_result Examples.eicar_opened). vm_compute. reflexivity.
  - vm_compute. constructor.
Defined.

(** X26.  When the store document exists but cannot be read back, a
    scan by a scanner whose store is not yet open rejects before the
    guarded part of [scan]: no session is recorded, the document is left
    as it is, and the scanner stays marked as scanning. *)
Theorem scan_rejects_without_store `{JsonCodec} (config : Config)
        (type : string) (paths : list string) (deep : bool)
        (w : World) (s : FileScanner.t) (bytes : list byte) :
  ThreatDatabase.initialized (FileScanner.db s) = false ->
  fs w !! ThreatDatabase.dbPath config = Some (Fs.File bytes None) ->
  parse_db bytes = None ->
  exists e w',
    FileScanner.scan config type paths deep (w, s)
    = (Throw e, (w', FileScanner.with_scanning s true))
    /\ fs w' !! ThreatDatabase.dbPath config = Some (Fs.File bytes None).
Proof. apply scan_unreadable_store. Qed.

Lemma scan_rejects_without_store_witness :
  exists e w',
    @FileScanner.scan RefCodec.codec Sample.config "quick" [] true
      (Examples.broken_store, FileScanner.new)
    = (Throw e, (w', FileScanner.with_scanning FileScanner.new true))
    /\ fs w' !! ThreatDatabase.dbPath Sample.config
       = Some (Fs.File (Bytes.of_string "{ not json") None).
Proof.
  apply (@scan_rejects_without_store RefCodec.codec Sample.config "quick" [] true
           Examples.broken_store FileScanner.new (Bytes.of_string "{ not json")).
  - reflexivity.
  - vm_compute. reflexivity.
  - reflexivity.
Defined.

(** X27.  A store document with at least one hash signature is taken as
    it is: [initialize] seeds nothing, not even the pattern signature,
    writes nothing, and leaves the object with exactly the document
    read. *)
Theorem existing_store_taken_as_is `{JsonCodec} (config : Config)
        (w : World) (d : ThreatDatabase.t) (bytes : list byte) (doc : DbData) :
  ThreatDatabase.initialized d = false ->
  fs w !! Path.dirname (os_platform w) (ThreatDatabase.dbPath config) = Some Fs.Dir ->
  fs w !! ThreatDatabase.dbPath config = Some (Fs.File bytes None) ->
  parse_db bytes = Some doc ->
  hash_signatures doc <> [] ->
  ThreatDatabase.initialize config (w, d)
  = (Ok true, (w, {| ThreatDatabase.data := doc; ThreatDatabase.initialized := true |})).
Proof. apply initialize_existing. Qed.

Lemma existing_store_taken_as_is_witness :
  @ThreatDatabase.initialize (Examples.reading Examples.seeded) Sample.config
    (fst (snd Examples.first_open), ThreatDatabase.new)
  = (Ok true,
     (fst (snd Examples.first_open),
      {| ThreatDatabase.data := Examples.seeded; ThreatDatabase.initialized := true |})).
Proof.
  apply (@existing_store_taken_as_is (Examples.reading Examples.seeded) Sample.config
           (fst (snd Examples.first_open)) ThreatDatabase.new
           (RefCodec.enc_db Examples.seeded) Examples.seeded).
  - reflexivity.
  - vm_compute. reflexivity.
  - vm_compute. reflexivity.
  - vm_compute. reflexivity.
  - vm_compute. discriminate.
Defined.

(** X28.  What one store object has saved, a new one loads: after a
    successful [save] of data with at least one hash signature, whose
    text can be read back, [initialize] on a new object returns true,
    leaves the environment as it is and gives the object the saved
    data. *)
Theorem saved_store_reloads `{JsonCodec} (config : Config)
        (w : World) (d : ThreatDatabase.t) (u : unit) (w' : World) (d' : ThreatDatabase.t) :
  ThreatDatabase.save config (w, d) = (Ok u, (w', d')) ->
  parse_db (stringify_db (ThreatDatabase.data d)) = Some (ThreatDatabase.data d) ->
  hash_signatures (ThreatDatabase.data d) <> [] ->
  ThreatDatabase.initialize config (w', ThreatDatabase.new)
  = (Ok true, (w', {| ThreatDatabase.data := ThreatDatabase.data d;
                      ThreatDatabase.initialized := true |})).
Proof. apply save_then_initialize. Qed.

Lemma saved_store_reloads_witness :
  @ThreatDatabase.initialize (Examples.reading Examples.seeded) Sample.config
    (fst (snd Examples.saved_again), ThreatDatabase.new)
  = (Ok true,
     (fst (snd Examples.saved_again),
      {| ThreatDatabase.data := ThreatDatabase.data (snd (snd Examples.first_open));
         ThreatDatabase.initialized := true |})).
Proof.
  apply (@saved_store_reloads (Examples.reading Examples.seeded) Sample.config
           (fst (snd Examples.first_open)) (snd (snd Examples.first_open)) tt
           (fst (snd Examples.saved_again)) (snd (snd Examples.saved_again))).
  - rewrite <- !surjective_pairing.
    apply (run_result Examples.saved_again). vm_compute. reflexivity.
  - vm_compute. reflexivity.
  - vm_compute. discriminate.
Defined.

(** X29.  [verifyHash] on a readable file accepts exactly the texts
    that are, up to the case of letters, the digest of the content under
    the chosen algorithm; in particular each of the three digests that
    [generateAllHashes] returns for the file verifies under its
    algorithm. *)
Theorem verifyHash_accepts_digests (filePath : string) (a : Hashing.algorithm)
        (w : World) (content : list byte) :
  fs w !! filePath = Some (Fs.File content None) ->
  (forall expected,
     exists b,
       Hashing.verifyHash filePath expected a w
       = (Ok b, with_digested w (filePath :: digested w))
       /\ (b = true <-> Str.toLowerCase expected = Hashing.digest a content))
  /\ (exists h w1,
        HashGenerator.generateAllHashes filePath w = (Ok h, w1)
        /\ fst (Hashing.verifyHash filePath (HashGenerator.md5 h) Hashing.MD5 w1) = Ok true
        /\ fst (Hashing.verifyHash filePath (HashGenerator.sha1 h) Hashing.SHA1 w1) = Ok true
        /\ fst (Hashing.verifyHash filePath (HashGenerator.sha256 h) Hashing.SHA256 w1)
           = Ok true).
Proof. apply verifyHash_spec. Qed.

Lemma verifyHash_accepts_digests_witness :
  let w := Examples.eicar_world in
  (forall expected,
     exists b,
       Hashing.verifyHash SampleScan.eicar_com expected Hashing.SHA256 w
       = (Ok b, with_digested w (SampleScan.eicar_com :: digested w))
       /\ (b = true <-> Str.toLowerCase expected = Hashing.digest Hashing.SHA256 eicar_bytes))
  /\ (exists h w1,
        HashGenerator.generateAllHashes SampleScan.eicar_com w = (Ok h, w1)
        /\ fst (Hashing.verifyHash SampleScan.eicar_com (HashGenerator.md5 h) Hashing.MD5 w1)
           = Ok true
        /\ fst (Hashing.verifyHash SampleScan.eicar_com (HashGenerator.sha1 h) Hashing.SHA1 w1)
           = Ok true
        /\ fst (Hashing.verifyHash SampleScan.eicar_com (HashGenerator.sha256 h)
                  Hashing.SHA256 w1) = Ok true).
Proof.
  apply (verifyHash_accepts_digests SampleScan.eicar_com Hashing.SHA256 Examples.eicar_world
           eicar_bytes).
  vm_compute. reflexivity.
Defined.

(** X30.  [scanAndHandle] never throws and leaves the queue and the
    watching flag alone.  A threat found in the file produces exactly
    one event: [threat-quarantined], after both notifications and with
    the file gone, when the quarantine call succeeds; [threat-detected],
    after the first notification only, when it fails.  Without a threat,
    and when the scan throws, there is neither event nor notification. *)
Theorem watcher_reports_each_threat_once `{JsonCodec} (config : Config)
        (filePath : string) (s : FileWatcher.St) :
  exists s',
    FileWatcher.scanAndHandle config filePath s = (Ok tt, s')
    /\ FileWatcher.watching (snd s') = FileWatcher.watching (snd s)
    /\ FileWatcher.scanQueue (snd s') = FileWatcher.scanQueue (snd s)
    /\ match FileWatcher.on_scanner (FileScanner.scanFile config filePath) s with
       | (Ok (Some th), s1) =>
           let seen := NoticeThreatDetected (th_name th)
                         (Path.basename (os_platform (fst s1)) (th_path th)) in
           match QuarantineManager.quarantineFile config filePath (fst s1) with
           | (Ok _, w2) =>
               fst s' = w2
               /\ fs w2 !! filePath = None
               /\ FileWatcher.emitted (snd s')
                  = (FileWatcher.emitted (snd s)
                     ++ [EvThreatQuarantined (FileWatcher.with_path th filePath)])%list
               /\ FileWatcher.notified (snd s')
                  = (FileWatcher.notified (snd s)
                     ++ [seen; NoticeQuarantined (th_name th)])%list
           | (Throw _, w2) =>
               fst s' = w2
               /\ FileWatcher.emitted (snd s')
                  = (FileWatcher.emitted (snd s)
                     ++ [EvThreatDetected (FileWatcher.with_path th filePath)])%list
               /\ FileWatcher.notified (snd s') = (FileWatcher.notified (snd s) ++ [seen])%list
           end
       | (_, s1) =>
           fst s' = fst s1
           /\ FileWatcher.emitted (snd s') = FileWatcher.emitted (snd s)
           /\ FileWatcher.notified (snd s') = FileWatcher.notified (snd s)
       end.
Proof. apply scanAndHandle_outcome. Qed.
